(* ===== verification/_CoqProject ===== *)
-Q . S2P
Prelude.v
Types.v
OrderedMap.v
Matcher.v
MatcherSpec.v
LevelRefine.v
BookRefine.v
MatcherRefine.v
MatcherProps.v
Risk.v
RiskProps.v
FundingLedger.v
SpscRing.v
SpscRingProps.v
Linearize.v
Bytes.v
Sbe.v
Ingest.v
IngestProps.v
Transport.v
Wal.v
WalProps.v
Output.v
WalFile.v
Snapshot.v
SnapshotProps.v
SnapshotFile.v
Replay.v
Api.v
Auth.v
Telemetry.v
Config.v
Daemon.v
Handlers.v
Exchange.v
DaemonProps.v
DaemonRuns.v
SignedFrames.v
ExchangeRuns.v
Main.v
MainProps.v
MainLive.v
DiskProcess.v
Recovery.v
Feed.v
Sessions.v
Relaunch.v
Isolation.v
Typed.v
TypedProcess.v
UnitTests.v
