(* ===== verification/Prelude.v ===== *)
(** * TradeCore: a verification of the trading engine

    TradeCore ([src/]) is a daemon for perpetual futures: clients send signed
    datagrams, an ingress pipeline checks and queues them, one thread logs each
    frame, checks it against the margin of its account, matches it and books the
    fills, and snapshots and a write-ahead log let it restart.  This library
    translates the C++ of [src/libs] and [src/apps/tradecored] into functions of
    Rocq and proves what each part, and the process as a whole, promises.

    ** How the parts interact

    [main] loads a configuration ([Config]), makes an authenticator ([Auth]),
    configures the pipeline ([Ingest]) and starts the transport ([Transport]),
    whose thread parses datagrams and submits frames: the pipeline verifies the
    signature, applies the rate limit of the account and pushes the frame into one
    of three rings ([SpscRing]).  The event loop ([Daemon.turn]) pops the rings;
    each frame goes to the log ([Wal]) and the express feed ([Api]) before it is
    decoded ([Sbe]), checked ([Risk]), matched ([Matcher]) and its fills booked
    ([Risk] again).  Every 256 blocks a snapshot is stored ([Snapshot]); [Replay]
    restores from snapshot and log.  [FundingLedger] and [Telemetry] are
    configured by the process and not used by the loop.

    ** Files, and the code they translate

    - [Prelude]: machine integers, results of code that throws, printing, sums.
    - [Types]: [libs/common] types; the packed order id.
    - [OrderedMap]: [std::map] as a sorted association list.
    - [Matcher]: [libs/matcher].  The state is a heap of order records linked by
      [prev]/[next] keys, two ordered maps of price levels per market, and a map of
      markets; one definition per C++ function, pointer writes included.
    - [MatcherSpec]: the abstract order book: queues of orders by price and time.
    - [LevelRefine], [BookRefine], [MatcherRefine]: what a linked level, a book and
      the engine represent, and that each operation refines its specification.
    - [MatcherProps]: the theorems on the engine.
    - [Risk], [RiskProps]: [libs/risk], risk engine and liquidation manager.
    - [FundingLedger]: [libs/funding] and [libs/ledger].
    - [SpscRing], [SpscRingProps]: [libs/common]'s ring as a data structure, and as
      a transition system of the loads and stores of its two threads; [Linearize]:
      that its calls take effect at one point.
    - [Bytes]: little-endian buffers and the FNV checksum.
    - [Sbe], [Ingest], [IngestProps], [Transport]: [libs/ingest].
    - [Wal], [WalProps]: [libs/wal]; [Snapshot], [SnapshotProps]: [libs/snapshot];
      [Replay]: [libs/replay].
    - [Output]: a stream over a disk that may fail; [WalFile] and [SnapshotFile]:
      the log and the snapshot store over such streams, and that they are those of
      [Wal] and [Snapshot] when the disk answers well.
    - [Api]: [libs/api]; [Auth]: [libs/auth]; [Telemetry]: [libs/telemetry];
      [Config]: [libs/config].
    - [Daemon]: the boot, the handlers and the loop of
      [apps/tradecored/src/main.cpp]; [Handlers]: what a handler looks at;
      [Exchange]: the exchange a client sees, with no log, contexts, nodes or
      levels; [DaemonProps]: each handler against it; [DaemonRuns],
      [ExchangeRuns]: sequences of frames from boot.
    - [Main]: the process around them, a transition system; [MainProps]: what a
      run leaves behind; [MainLive]: that it makes progress; [Sessions]: one
      process after another; [DiskProcess]: the process with the writer of [WalFile]
      and the store of [SnapshotFile]; [Recovery]: what replaying its log rebuilds,
      and the process as an exchange; [Relaunch]: the launch after a failure;
      [Isolation]: what datagrams without a signature can change; [Feed]: what a
      reader that polls the feeds of the process is given; [SignedFrames]: what of an
      authenticated frame the handlers use.
    - [Typed], [TypedProcess]: every stored integer is in the range of its type, a
      check that the translation leaves out no conversion.
    - [UnitTests]: the test functions of [tests/unit], run on the definitions; all
      of them pass.

    Names are the source's where they are free; a record field often has a
    prefix: [or_accepted] is [OrderResult::accepted].

    ** What is shown

    - The engine refines the order book: from any sequence of operations it gives
      the replies of the specification and never touches a dangling pointer (C1,
      C2).  On the specification: price-time priority, conservation of quantity,
      uncrossed books, fill-or-kill, aggregates of levels, cancel and replace (C14
      to C20).  On the records themselves: the links of a level agree in both
      directions (C12).
    - The daemon refines the exchange: its books, accounts and trades are those of a
      specification in which a fill belongs to the taker and to the owner of the
      resting order (C3).  Positions of all accounts cancel (C13), a turn handles
      what is queued (C31).
    - The process, under every interleaving of its threads and the signal: what it
      handles was authenticated and is on the disk after it stops, and nothing else
      is (C4); what it accepts it handles within a number of steps (C5); a signal
      stops it (C6); replaying its log with the loop's handlers rebuilds its books,
      accounts, contexts and feeds, given the state at the snapshot whose records the
      driver skips (C7); its restarts add to one log, and replay delivers the last snapshot
      the disk holds (C8); a disk that fails costs it the last frames and nothing
      else (C9), and the next launch nothing or everything, by where the log was cut
      (C10); datagrams that nobody signed change nothing but counters, peers and the
      status lines that show them (C11); a reader of its feeds that polls between any
      two pushes is given each frame once, up to the capacity of the feed, and each
      trade once unless it polls between two trades of one frame (C21).
    - Persistence: the log and the snapshots give back what was written, damage is
      noticed, compaction keeps the latest, replay delivers the snapshot and the
      records after it, and a disk that fails costs the end of the log only, and
      stored snapshots only in a compaction (C22 to C24, C36, C37).
    - Risk: positions, unrealised profit, independence of the order of hash maps,
      the pre-trade check against the margin after the fill and the equity it
      takes for it, the liquidation classes (C25 to C29).
    - Ingress: the ring under every interleaving (C30), the rate limits of the pipeline
      (C32), the transport and the wire format (C33 to C35), signatures (C38).
    - C39 states a property the program should not have: what the daemon executes is
      not what was signed.  Examples named in the other files show more such
      behaviours, each on a concrete input.
    - Funding bounds (C40).

    ** Conventions

    Integers are [Z]; an operation that can leave the range of its type is followed
    by the conversion to that type ([u64], [i64], ...).  Signed overflow, undefined
    in C++, wraps; theorems that need exact values state the bound that excludes
    it, the others hold modulo 2^64.  Byte order is little-endian, as the code
    assumes.  Exceptions are the [Throw] of [result]; undefined behaviour is the
    [None] of an [option], so a theorem that gives [Some] excludes it.

    Loops that are not structural take a number of turns, and run out with [None];
    every caller passes a bound and the theorems show that it suffices: a price
    level is consumed in at most as many turns as the heap has records; a log or
    snapshot file of [n] bytes has at most [n] records; a ring yields at most as
    many frames as it has slots.

    The pipeline, the API and the transport are shared between threads.  The ring
    is verified under all interleavings of its loads and stores, and its calls are
    shown to take effect at one point (C30); methods under a mutex are atomic.  [Main] has every
    interleaving of the transport's thread, a datagram at a time, with the main
    thread, a frame or an empty ring at a time, and with the signal.  The counters
    of the pipeline are written by one thread and read by the other without
    synchronisation; no property depends on what the reader sees.  The three calls
    of a turn are operands of one sum, whose order the language leaves open; they
    are taken from left to right.

    A stream keeps the bytes it could not pass on to the disk.  A crash leaves the
    bytes that were passed on, or any prefix of them.

    ** Parameters

    libsodium's signature functions, the TOML parser, [inet_pton], [bind] and the
    other answers of the system are arguments.  The only law assumed is that a
    signature made with a secret key verifies with its public key, where a theorem
    says so.  Collateral deposits are part of the environments of C3 and C13, because the
    daemon itself never credits any.

    ** Not modelled

    Reading calls that fail on a file that opens, allocation failure, the arenas (a
    pool of memory without effect on results), the clock, the paths and system texts
    in the messages of exceptions, and the web interface.  At the start, creating the
    directories and opening the log may fail; the log is read back and the loop
    entered on the bytes the disk holds; from the event loop on, [DiskProcess] has
    every disk call fail.  An exception no one catches ends the process without
    unwinding, which the language leaves to the implementation.  The TOML parser is
    vendored. *)
From Stdlib Require Export ZArith Lia.
From stdpp Require Export base gmap list strings.
Open Scope Z_scope.

(** ** Machine integers

    An integer of the program is a [Z]; every C++ operation that can leave the
    range of its type is followed by the conversion to that type.  Unsigned
    types reduce modulo [2^w]; signed types use the two's complement
    representative. *)
Definition wrapu (w z : Z) : Z := z mod 2 ^ w.

Definition wraps (w z : Z) : Z := (z + 2 ^ (w - 1)) mod 2 ^ w - 2 ^ (w - 1).

#[global] Arguments wrapu : simpl never.
#[global] Arguments wraps : simpl never.

Abbreviation u8 := (wrapu 8).
Abbreviation u16 := (wrapu 16).
Abbreviation u32 := (wrapu 32).
Abbreviation u64 := (wrapu 64).
Abbreviation i32 := (wraps 32).
Abbreviation i64 := (wraps 64).

Definition INT64_MAX : Z := 2 ^ 63 - 1.
Definition INT64_MIN : Z := - 2 ^ 63.

Definition in_u (w z : Z) : Prop := 0 <= z < 2 ^ w.
Definition in_i64 (z : Z) : Prop := INT64_MIN <= z <= INT64_MAX.
Definition in_i32 (z : Z) : Prop := - 2 ^ 31 <= z < 2 ^ 31.

Lemma wrapu_small w z : in_u w z -> wrapu w z = z.
Proof. intros H. apply Z.mod_small, H. Qed.

Lemma wrapu_range w z : 0 <= w -> in_u w (wrapu w z).
Proof. intros H. apply Z.mod_pos_bound, Z.pow_pos_nonneg; lia. Qed.

Lemma i64_small z : in_i64 z -> i64 z = z.
Proof.
  unfold in_i64, INT64_MIN, INT64_MAX, wraps. intros H.
  change (64 - 1) with 63. rewrite Z.mod_small; lia.
Qed.

Lemma i32_small z : in_i32 z -> i32 z = z.
Proof.
  unfold in_i32, wraps. intros H. change (32 - 1) with 31.
  rewrite Z.mod_small; lia.
Qed.

Lemma i64_range z : in_i64 (i64 z).
Proof.
  unfold in_i64, INT64_MIN, INT64_MAX, wraps. change (64 - 1) with 63.
  pose proof (Z.mod_pos_bound (z + 2 ^ 63) (2 ^ 64) eq_refl). lia.
Qed.

(** ** Congruence modulo 2^64

    The sums the engine keeps (level depth, open interest, collateral) are
    exact up to this relation whatever overflows; [i64] picks the canonical
    representative of a class. *)
Definition eqm64 (a b : Z) : Prop := a mod 2 ^ 64 = b mod 2 ^ 64.

Declare Scope mach_scope.
Delimit Scope mach_scope with mach.
Infix "==64" := eqm64 (at level 70, no associativity) : mach_scope.
Open Scope mach_scope.

#[export] Instance eqm64_equiv : Equivalence eqm64.
Proof. split; red; unfold eqm64; congruence. Qed.

#[export] Instance eqm64_add : Proper (eqm64 ==> eqm64 ==> eqm64) Z.add.
Proof.
  intros a b H c d K. unfold eqm64 in *.
  rewrite (Z.add_mod a), (Z.add_mod b), H, K by easy. reflexivity.
Qed.

#[export] Instance eqm64_sub : Proper (eqm64 ==> eqm64 ==> eqm64) Z.sub.
Proof.
  intros a b H c d K. unfold eqm64 in *.
  rewrite (Zminus_mod a), (Zminus_mod b), H, K. reflexivity.
Qed.

#[export] Instance eqm64_mul : Proper (eqm64 ==> eqm64 ==> eqm64) Z.mul.
Proof.
  intros a b H c d K. unfold eqm64 in *.
  rewrite (Z.mul_mod a), (Z.mul_mod b), H, K by easy. reflexivity.
Qed.

#[export] Instance eqm64_opp : Proper (eqm64 ==> eqm64) Z.opp.
Proof.
  intros a b H. rewrite <- (Z.sub_0_l a), <- (Z.sub_0_l b).
  now apply eqm64_sub.
Qed.

Lemma eqm64_eq a b : a = b -> a ==64 b.
Proof. by intros ->. Qed.

Lemma i64_eqm z : i64 z ==64 z.
Proof.
  unfold eqm64, wraps. rewrite Zminus_mod_idemp_l. f_equal. lia.
Qed.

Lemma i64_proper a b : a ==64 b -> i64 a = i64 b.
Proof.
  unfold eqm64, wraps. intros H. f_equal.
  rewrite (Z.add_mod a), (Z.add_mod b), H by easy. reflexivity.
Qed.

Lemma i64_inj a b : i64 a = i64 b <-> a ==64 b.
Proof.
  split; [|apply i64_proper].
  intros H. rewrite <- (i64_eqm a), <- (i64_eqm b), H. reflexivity.
Qed.

Lemma i64_idem z : i64 (i64 z) = i64 z.
Proof. apply i64_proper, i64_eqm. Qed.

Lemma i64_add_l a b : i64 (i64 a + b) = i64 (a + b).
Proof. apply i64_proper. now rewrite i64_eqm. Qed.

Lemma i64_add_r a b : i64 (a + i64 b) = i64 (a + b).
Proof. apply i64_proper. now rewrite i64_eqm. Qed.

Lemma i64_sub_l a b : i64 (i64 a - b) = i64 (a - b).
Proof. apply i64_proper. now rewrite i64_eqm. Qed.

(** Rewriting database that pushes inner conversions out of sums. *)
Create HintDb mach.
Create Rewrite HintDb mach.
#[export] Hint Rewrite i64_add_l i64_add_r i64_sub_l i64_idem : mach.
#[export] Hint Resolve i64_range i64_small wrapu_small wrapu_range : mach.

Ltac mach := autorewrite with mach; try (f_equal; lia).

(** Close a range side condition, or a goal that follows from one. *)
Ltac range :=
  unfold in_u, in_i64, in_i32, INT64_MAX, INT64_MIN in *; lia.

(** C++ integer division truncates towards zero. *)
Notation "a ÷64 b" := (i64 (Z.quot a b)) (at level 40) : mach_scope.

Definition llabs (z : Z) : Z := i64 (Z.abs z).

Lemma llabs_small z : - INT64_MAX <= z <= INT64_MAX -> llabs z = Z.abs z.
Proof. intros. apply i64_small. range. Qed.

(** ** Results of code that throws *)
Inductive result (A : Type) : Type :=
  | Ok (a : A)
  | Throw (what : string).
Arguments Ok {A} a.
Arguments Throw {A} what.

#[export] Instance result_ret : MRet result := fun A a => Ok a.
#[export] Instance result_bind : MBind result := fun A B f m =>
  match m with Ok a => f a | Throw e => Throw e end.

Definition throws {A} (m : result A) : bool :=
  match m with Ok _ => false | Throw _ => true end.

(** ** Text *)

(** Printing an integer in a base; an unsigned 64-bit integer has at most 64
    digits in any base from 2. *)
Definition digit (d : Z) : Ascii.ascii :=
  Ascii.ascii_of_nat (Z.to_nat (if d <? 10 then 48 + d else 87 + d)).

Fixpoint print_loop (n : nat) (base value : Z) (acc : string) : string :=
  match n with
  | O => acc
  | S n =>
      let acc := String (digit (value mod base)) acc in
      if value / base =? 0 then acc else print_loop n base (value / base) acc
  end.

Definition print (base value : Z) : string := print_loop 64 base value EmptyString.

(** The double quote of a C++ string literal. *)
Definition dq : string := String (Ascii.ascii_of_nat 34) EmptyString.

Definition quoted (s : string) : string := dq +:+ s +:+ dq.

(** ** Sums over lists *)
Definition Zsum {A} (f : A -> Z) (l : list A) : Z := foldr (fun x acc => f x + acc) 0 l.
Arguments Zsum : simpl never.

Section Zsum.
Context {A : Type} (f : A -> Z).

Lemma Zsum_nil : Zsum f [] = 0.
Proof. reflexivity. Qed.

Lemma Zsum_cons x l : Zsum f (x :: l) = f x + Zsum f l.
Proof. reflexivity. Qed.

Lemma Zsum_app l k : Zsum f (l ++ k) = Zsum f l + Zsum f k.
Proof.
  induction l as [|x l IH]; [reflexivity|].
  cbn [app]. rewrite !Zsum_cons, IH. lia.
Qed.

Lemma Zsum_nonneg l : Forall (fun x => 0 <= f x) l -> 0 <= Zsum f l.
Proof.
  induction 1; [rewrite Zsum_nil; lia|rewrite Zsum_cons; lia].
Qed.

Lemma Zsum_elem l x : Forall (fun x => 0 <= f x) l -> x ∈ l -> f x <= Zsum f l.
Proof.
  intros H. induction H as [|y l Hy H IH]; [set_solver|].
  rewrite Zsum_cons. pose proof (Zsum_nonneg l H).
  intros [->|Hx]%elem_of_cons; [lia|]. specialize (IH Hx). lia.
Qed.

Lemma Zsum_perm l k : l ≡ₚ k -> Zsum f l = Zsum f k.
Proof. induction 1; rewrite ?Zsum_cons; lia. Qed.

Lemma Zsum_ext (g : A -> Z) l :
  (forall x, x ∈ l -> f x = g x) -> Zsum f l = Zsum g l.
Proof.
  induction l as [|x l IH]; intros H; [reflexivity|].
  rewrite !Zsum_cons. unfold Zsum at 2. cbn [foldr]. fold (Zsum g l).
  rewrite H by set_solver. rewrite IH; [done|]. intros; apply H; set_solver.
Qed.

Lemma Zsum_mono (g : A -> Z) l :
  (forall x, x ∈ l -> 0 <= f x <= g x) -> 0 <= Zsum f l <= Zsum g l.
Proof.
  induction l as [|x l IH]; intros H; [done|].
  rewrite Zsum_cons. unfold Zsum at 3. cbn [foldr]. fold (Zsum g l).
  pose proof (H x ltac:(set_solver)). pose proof (IH ltac:(set_solver)). lia.
Qed.
End Zsum.

Create Rewrite HintDb zsum.
#[export] Hint Rewrite @Zsum_nil @Zsum_cons @Zsum_app : zsum.

(** ** Lists *)
Lemma NoDup_map_inj {A B} (f : A -> B) l x y :
  NoDup (map f l) -> x ∈ l -> y ∈ l -> f x = f y -> x = y.
Proof.
  induction l as [|z l IH]; cbn; [set_solver|].
  intros [Hn Hd]%NoDup_cons [->|Hx]%elem_of_cons [->|Hy]%elem_of_cons E; auto.
  - exfalso. apply Hn. rewrite E. by apply list_elem_of_fmap_2.
  - exfalso. apply Hn. rewrite <- E. by apply list_elem_of_fmap_2.
Qed.

(** The middle of a list without duplicates, and what surrounds it. *)
Lemma NoDup_mid {A} (l m r : list A) :
  NoDup (l ++ m ++ r) -> NoDup m /\ (forall x, x ∈ l ++ r -> x ∉ m).
Proof.
  intros (_ & Hl & (Hm & Hr & _)%NoDup_app)%NoDup_app. split; [done|]. intros x [Hx|Hx]%elem_of_app Hin.
  - apply (Hl _ Hx). set_solver.
  - by apply (Hr _ Hin).
Qed.
