(* ===== verification/Types.v ===== *)
(** * Common identifiers and enumerations

    [libs/common/include/tradecore/common/types.hpp], and the decoder of order
    identifiers of [apps/tradecored/src/main.cpp]. *)
From S2P Require Import Prelude.

(** [enum class Side : std::uint8_t].  The decoder of new orders casts any byte
    to [Side], so a value of the enumeration may be neither enumerator; every
    consumer only tests [side == kBuy]. *)
Inductive Side :=
  | kBuy
  | kSell
  | kSideRaw (raw : Z).

#[export] Instance Side_eq_dec : EqDecision Side.
Proof. solve_decision. Defined.

Definition Side_of_u8 (b : Z) : Side :=
  if b =? 0 then kBuy else if b =? 1 then kSell else kSideRaw b.

Definition Side_to_u8 (s : Side) : Z :=
  match s with kBuy => 0 | kSell => 1 | kSideRaw b => b end.

Definition is_buy (s : Side) : bool := bool_decide (s = kBuy).

Inductive TimeInForce :=
  | kGtc
  | kIoc
  | kFok
  | kGoodTilBlock
  | kGoodTilTime.

#[export] Instance TimeInForce_eq_dec : EqDecision TimeInForce.
Proof. solve_decision. Defined.

(** [enum OrderFlags : std::uint16_t]. *)
Definition kFlagsNone : Z := 0.
Definition kPostOnly : Z := Z.shiftl 1 0.
Definition kReduceOnly : Z := Z.shiftl 1 1.
Definition kHidden : Z := Z.shiftl 1 2.
Definition kIceberg : Z := Z.shiftl 1 3.

Definition HasFlag (flags flag : Z) : bool := negb (Z.land flags (u16 flag) =? 0).

Record OrderId := mkOrderId { id_market : Z; id_session : Z; id_local : Z }.

#[export] Instance OrderId_eq_dec : EqDecision OrderId.
Proof. solve_decision. Defined.

(** [OrderId::value]. *)
Definition value (id : OrderId) : Z :=
  Z.lor (Z.lor (u64 (Z.shiftl (id_market id) 48)) (u64 (Z.shiftl (id_session id) 32)))
        (id_local id).

(** [decode_order_id] of the daemon. *)
Definition decode_order_id (encoded : Z) : OrderId :=
  {| id_market := u16 (Z.shiftr encoded 48);
     id_session := u16 (Z.land (Z.shiftr encoded 32) 0xffff);
     id_local := u32 (Z.land encoded 0xffffffff) |}.

Definition opposite_side (s : Side) : Side := if is_buy s then kSell else kBuy.

(** The field widths of the struct. *)
Definition OrderId_wf (id : OrderId) : Prop :=
  in_u 16 (id_market id) /\ in_u 16 (id_session id) /\ in_u 32 (id_local id).

(** ** Arithmetic form of the packed identifier *)
Lemma testbit_above n b i : in_u n b -> n <= i -> Z.testbit b i = false.
Proof.
  intros Hb Hi. destruct (Z.lt_ge_cases n 0) as [Hn|Hn].
  - unfold in_u in Hb. rewrite Z.pow_neg_r in Hb by done. lia.
  - rewrite <- (wrapu_small n b Hb). unfold wrapu. now apply Z.mod_pow2_bits_high.
Qed.

Lemma lor_shiftl_add a b n :
  0 <= n -> in_u n b -> Z.lor (Z.shiftl a n) b = a * 2 ^ n + b.
Proof.
  intros Hn Hb. rewrite <- Z.shiftl_mul_pow2 by done.
  rewrite <- Z.add_lor_land.
  enough (Z.land (Z.shiftl a n) b = 0) by lia.
  apply Z.bits_inj'. intros i Hi. rewrite Z.land_spec, Z.bits_0.
  destruct (Z.lt_ge_cases i n) as [Hlt|Hge].
  - now rewrite Z.shiftl_spec_low.
  - now rewrite (testbit_above n b i), andb_false_r.
Qed.

Lemma value_arith id : OrderId_wf id ->
  value id = id_market id * 2 ^ 48 + id_session id * 2 ^ 32 + id_local id.
Proof.
  intros (Hm & Hs & Hl). unfold value.
  rewrite !wrapu_small by (rewrite Z.shiftl_mul_pow2 by done; unfold in_u in *; lia).
  replace (Z.lor (Z.shiftl (id_market id) 48) (Z.shiftl (id_session id) 32))
    with (Z.shiftl (id_market id * 2 ^ 16 + id_session id) 32).
  - rewrite lor_shiftl_add by done. lia.
  - rewrite <- lor_shiftl_add by done.
    rewrite Z.shiftl_lor, Z.shiftl_shiftl by done. reflexivity.
Qed.

Lemma value_range id : OrderId_wf id -> in_u 64 (value id).
Proof.
  intros H. rewrite value_arith by done.
  destruct H as (? & ? & ?). unfold in_u in *. lia.
Qed.

Lemma decode_arith e : in_u 64 e ->
  decode_order_id e =
    {| id_market := e / 2 ^ 48; id_session := e / 2 ^ 32 mod 2 ^ 16;
       id_local := e mod 2 ^ 32 |}.
Proof.
  intros He. unfold decode_order_id.
  change 0xffff with (Z.ones 16). change 0xffffffff with (Z.ones 32).
  rewrite !Z.land_ones, !Z.shiftr_div_pow2 by done.
  f_equal; apply wrapu_small; unfold in_u in *.
  - split; [apply Z.div_pos; lia|apply Z.div_lt_upper_bound; lia].
  - apply Z.mod_pos_bound. lia.
  - apply Z.mod_pos_bound. lia.
Qed.

Lemma decode_value id : OrderId_wf id -> decode_order_id (value id) = id.
Proof.
  intros H. rewrite decode_arith by now apply value_range.
  rewrite value_arith by done. destruct H as (Hm & Hs & Hl), id as [m s l].
  unfold in_u in *; cbn in *. f_equal.
  - symmetry. apply Z.div_unique with (r := s * 2 ^ 32 + l); lia.
  - replace ((m * 2 ^ 48 + s * 2 ^ 32 + l) / 2 ^ 32) with (m * 2 ^ 16 + s).
    + symmetry. apply Z.mod_unique with (q := m); lia.
    + apply Z.div_unique with (r := l); lia.
  - symmetry. apply Z.mod_unique with (q := m * 2 ^ 16 + s); lia.
Qed.

Lemma value_inj a b : OrderId_wf a -> OrderId_wf b -> value a = value b -> a = b.
Proof. intros Ha Hb E. rewrite <- (decode_value a), <- (decode_value b), E by done. done. Qed.

Lemma decode_wf e : OrderId_wf (decode_order_id e).
Proof. repeat split; apply wrapu_range; lia. Qed.

Lemma value_decode e : in_u 64 e -> value (decode_order_id e) = e.
Proof.
  intros He. rewrite value_arith by apply decode_wf.
  rewrite decode_arith by done. cbn.
  pose proof (Z.div_mod e (2 ^ 32) ltac:(lia)) as E1.
  pose proof (Z.div_mod (e / 2 ^ 32) (2 ^ 16) ltac:(lia)) as E2.
  rewrite Z.div_div in E2 by lia. change (2 ^ 32 * 2 ^ 16) with (2 ^ 48) in E2. lia.
Qed.

#[export] Hint Resolve decode_wf value_range decode_value : core.
