(* ===== verification/OrderedMap.v ===== *)
(** * [std::map<std::int64_t, V, Compare>] as a sorted association list

    The books of [libs/matcher] are iterated from [begin()] in the order of
    their comparator, so the model keeps the entries in that order.  [before]
    is the comparator: [std::greater<>] for bids, [std::less<>] for asks. *)
From S2P Require Import Prelude.

(** What a comparator promises: a strict total order. *)
Class StrictOrderB (before : Z -> Z -> bool) : Prop := {
  before_irrefl k : before k k = false;
  before_trans a b c : before a b = true -> before b c = true -> before a c = true;
  before_total a b : before a b = false -> before b a = false -> a = b }.

#[export] Instance ltb_order : StrictOrderB Z.ltb.
Proof. split; intros; lia. Qed.

#[export] Instance gtb_order : StrictOrderB Z.gtb.
Proof. split; intros; lia. Qed.

(** ** Operations that only compare keys for equality *)
Section Lookup.
Context {V : Type}.
Implicit Types (m : list (Z * V)).

(** [find]. *)
Fixpoint om_find (k : Z) (m : list (Z * V)) : option V :=
  match m with
  | [] => None
  | (k', v) :: m' => if k =? k' then Some v else om_find k m'
  end.

(** [erase]. *)
Fixpoint om_erase (k : Z) (m : list (Z * V)) : list (Z * V) :=
  match m with
  | [] => []
  | (k', v) :: m' => if k =? k' then m' else (k', v) :: om_erase k m'
  end.

(** Assignment through a reference to the mapped value. *)
Fixpoint om_set (k : Z) (v : V) (m : list (Z * V)) : list (Z * V) :=
  match m with
  | [] => []
  | (k', v') :: m' => if k =? k' then (k, v) :: m' else (k', v') :: om_set k v m'
  end.

(** Searching splits a sorted map around the key. *)
Lemma om_find_Some m k v :
  om_find k m = Some v -> exists m1 m2, m = m1 ++ (k, v) :: m2 /\ k ∉ m1.*1.
Proof.
  induction m as [|[k' v'] m IH]; cbn; [done|].
  destruct (Z.eqb_spec k k') as [->|Hne]; intros H.
  - injection H as ->. exists [], m. split; [done|apply not_elem_of_nil].
  - destruct (IH H) as (m1 & m2 & -> & Hn). exists ((k', v') :: m1), m2.
    split; [done|]. set_solver.
Qed.

Lemma om_find_None m k : om_find k m = None <-> k ∉ m.*1.
Proof.
  induction m as [|[k' v'] m IH]; cbn; [split; [set_solver|done]|].
  destruct (Z.eqb_spec k k') as [->|Hne]; [split; [done|set_solver]|].
  rewrite IH. set_solver.
Qed.

Lemma om_find_mid m1 m2 k v : k ∉ m1.*1 -> om_find k (m1 ++ (k, v) :: m2) = Some v.
Proof.
  induction m1 as [|[k' v'] m IH]; cbn; intros Hn.
  - now rewrite Z.eqb_refl.
  - destruct (Z.eqb_spec k k') as [->|]; [set_solver|]. apply IH. set_solver.
Qed.

Lemma om_set_mid m1 m2 k v w :
  k ∉ m1.*1 -> om_set k w (m1 ++ (k, v) :: m2) = m1 ++ (k, w) :: m2.
Proof.
  induction m1 as [|[k' v'] m IH]; cbn; intros Hn.
  - now rewrite Z.eqb_refl.
  - destruct (Z.eqb_spec k k') as [->|]; [set_solver|]. f_equal. apply IH. set_solver.
Qed.

Lemma om_erase_mid m1 m2 k v : k ∉ m1.*1 -> om_erase k (m1 ++ (k, v) :: m2) = m1 ++ m2.
Proof.
  induction m1 as [|[k' v'] m IH]; cbn; intros Hn.
  - now rewrite Z.eqb_refl.
  - destruct (Z.eqb_spec k k') as [->|]; [set_solver|]. f_equal. apply IH. set_solver.
Qed.

End Lookup.

(** ** Operations that use the comparator *)
Section OrderedMap.
Context {V : Type} (before : Z -> Z -> bool).

(** [try_emplace]: the map afterwards and whether the key was inserted. *)
Fixpoint om_try_emplace (k : Z) (v : V) (m : list (Z * V)) : list (Z * V) * bool :=
  match m with
  | [] => ([(k, v)], true)
  | (k', v') :: m' =>
      if k =? k' then (m, false)
      else if before k k' then ((k, v) :: m, true)
      else let '(r, inserted) := om_try_emplace k v m' in ((k', v') :: r, inserted)
  end.

(** The representation invariant: keys strictly increasing for [before]. *)
Fixpoint om_sorted (m : list (Z * V)) : Prop :=
  match m with
  | [] => True
  | (k, _) :: m' => Forall (fun e => before k e.1 = true) m' /\ om_sorted m'
  end.

Context `{!StrictOrderB before}.

Lemma before_neq a b : before a b = true -> a <> b.
Proof. intros H ->. now rewrite before_irrefl in H. Qed.

Lemma before_asym a b : before a b = true -> before b a = false.
Proof.
  intros H. destruct (before b a) eqn:E; [|done].
  pose proof (before_trans a b a H E) as Haa. now rewrite before_irrefl in Haa.
Qed.

Lemma om_sorted_app m1 m2 :
  om_sorted (m1 ++ m2) <->
  om_sorted m1 /\ om_sorted m2 /\
  Forall (fun a => Forall (fun b => before a.1 b.1 = true) m2) m1.
Proof.
  induction m1 as [|[k v] m1 IH]; cbn.
  - split; [intros; repeat split; [done|constructor]|tauto].
  - rewrite Forall_app, Forall_cons, IH. tauto.
Qed.

(** Where [try_emplace] puts a new key: between the keys before it and the
    keys after it. *)
Lemma om_try_emplace_spec m k v :
  om_sorted m ->
  (exists m1 v0 m2, m = m1 ++ (k, v0) :: m2 /\ k ∉ m1.*1 /\
     om_try_emplace k v m = (m, false)) \/
  (exists m1 m2, m = m1 ++ m2 /\ k ∉ m.*1 /\
     Forall (fun e => before e.1 k = true) m1 /\
     Forall (fun e => before k e.1 = true) m2 /\
     om_try_emplace k v m = (m1 ++ (k, v) :: m2, true)).
Proof.
  induction m as [|[k' v'] m IH]; cbn; intros Hs.
  - right. exists [], []. repeat split; try constructor. set_solver.
  - destruct Hs as [Hb Hs]. destruct (Z.eqb_spec k k') as [->|Hne].
    + left. exists [], v', m. repeat split; set_solver.
    + destruct (before k k') eqn:Ek.
      * right. exists [], ((k', v') :: m).
        assert (Hall : Forall (fun e : Z * V => before k e.1 = true) ((k', v') :: m)).
        { constructor; [done|]. eapply Forall_impl; [exact Hb|].
          intros e He. exact (before_trans _ _ _ Ek He). }
        split; [done|]. split; [|split; [constructor|split; [done|done]]].
        intros Hin. change (k ∈ ((k', v') :: m).*1) in Hin.
        apply list_elem_of_fmap in Hin as (e & -> & He).
        rewrite Forall_forall in Hall. apply Hall in He.
        now rewrite before_irrefl in He.
      * assert (before k' k = true) as Ek'.
        { destruct (before k' k) eqn:E; [done|]. now rewrite (before_total _ _ Ek E) in Hne. }
        destruct (IH Hs) as [(m1 & v0 & m2 & -> & Hn & ->)|(m1 & m2 & -> & Hn & H1 & H2 & ->)].
        -- left. exists ((k', v') :: m1), v0, m2. repeat split; set_solver.
        -- right. exists ((k', v') :: m1), m2. repeat split; [set_solver|by constructor|done].
Qed.
End OrderedMap.
