(* ===== verification/Matcher.v ===== *)
(** * The matching engine, as it is written

    [libs/matcher]: the intrusive price levels, the shards and the engine.

    A record lives in its shard's [book_orders], which never moves a node, so a
    pointer to a record is the key of its node ([nullptr] is [None]) and the
    heap of records is the map itself.  Dereferencing a key that the map does
    not hold is undefined behaviour: the operation returns [None], and so does
    a loop that walks off its bound.  [MatcherRefine] proves that no reachable
    state does either. *)
From S2P Require Import Prelude Types OrderedMap.

(** ** Messages *)
Record FillEvent := mkFill {
  fill_maker_order : OrderId;
  fill_taker_order : OrderId;
  fill_quantity : Z;
  fill_price : Z }.

Record OrderRequest := mkRequest {
  req_id : OrderId;
  req_account : Z;
  req_side : Side;
  req_quantity : Z;
  req_price : Z;
  req_display_quantity : Z;
  req_tif : TimeInForce;
  req_flags : Z }.

Record CancelRequest := mkCancel { cancel_id : OrderId }.

Record ReplaceRequest := mkReplace {
  rep_id : OrderId;
  rep_new_quantity : Z;
  rep_new_price : Z;
  rep_new_display_quantity : Z;
  rep_new_tif : TimeInForce;
  rep_new_flags : Z }.

Record OrderResult := mkOrderResult {
  or_accepted : bool;
  or_fully_filled : bool;
  or_resting : bool;
  or_reject_code : Z;
  or_fills : list FillEvent }.

Record CancelResult := mkCancelResult { cr_cancelled : bool; cr_reject_code : Z }.

Record ReplaceResult := mkReplaceResult {
  rr_accepted : bool;
  rr_resting : bool;
  rr_reject_code : Z;
  rr_fills : list FillEvent }.

Definition kRejectUnknownMarket : Z := 1001.
Definition kRejectInsufficientLiquidity : Z := 1002.
Definition kRejectPostOnlyWouldCross : Z := 1003.
Definition kRejectOrderNotFound : Z := 1004.
Definition kRejectInvalidQuantity : Z := 1005.
Definition kRejectDuplicateOrderId : Z := 1006.
Definition kRejectInvalidDisplayQuantity : Z := 1007.

(** A rejection: every other member keeps its default. *)
Definition reject (code : Z) (fills : list FillEvent) : OrderResult :=
  mkOrderResult false false false code fills.

(** ** Records and price levels *)

(** A [PriceLevel*]: the side whose book holds the node, and its price. *)
Definition LevelRef : Type := bool * Z.

Record OrderRecord := mkRecord {
  rec_request : OrderRequest;
  rec_remaining : Z;
  rec_display_remaining : Z;
  rec_display_size : Z;
  rec_fifo_seq : Z;
  rec_level : option LevelRef;
  rec_prev : option Z;
  rec_next : option Z }.

Abbreviation heap := (gmap Z OrderRecord).

Definition set_prev (p : option Z) (r : OrderRecord) : OrderRecord :=
  mkRecord (rec_request r) (rec_remaining r) (rec_display_remaining r)
    (rec_display_size r) (rec_fifo_seq r) (rec_level r) p (rec_next r).

Definition set_next (n : option Z) (r : OrderRecord) : OrderRecord :=
  mkRecord (rec_request r) (rec_remaining r) (rec_display_remaining r)
    (rec_display_size r) (rec_fifo_seq r) (rec_level r) (rec_prev r) n.

Definition set_level (l : option LevelRef) (r : OrderRecord) : OrderRecord :=
  mkRecord (rec_request r) (rec_remaining r) (rec_display_remaining r)
    (rec_display_size r) (rec_fifo_seq r) l (rec_prev r) (rec_next r).

Definition set_remaining (q : Z) (r : OrderRecord) : OrderRecord :=
  mkRecord (rec_request r) q (rec_display_remaining r)
    (rec_display_size r) (rec_fifo_seq r) (rec_level r) (rec_prev r) (rec_next r).

Definition set_display_remaining (q : Z) (r : OrderRecord) : OrderRecord :=
  mkRecord (rec_request r) (rec_remaining r) q
    (rec_display_size r) (rec_fifo_seq r) (rec_level r) (rec_prev r) (rec_next r).

Definition is_hidden (r : OrderRecord) : bool := HasFlag (req_flags (rec_request r)) kHidden.

Definition is_iceberg (r : OrderRecord) : bool := HasFlag (req_flags (rec_request r)) kIceberg.

Definition refresh_display (r : OrderRecord) : OrderRecord :=
  if is_hidden r then set_display_remaining 0 r
  else if is_iceberg r && (rec_display_size r >? 0)
  then set_display_remaining (Z.min (rec_display_size r) (rec_remaining r)) r
  else set_display_remaining (rec_remaining r) r.

Record PriceLevel := mkLevel {
  lvl_head : option Z;
  lvl_tail : option Z;
  lvl_total_qty : Z;
  lvl_visible_qty : Z }.

Definition empty_level : PriceLevel := mkLevel None None 0 0.

Definition level_empty (l : PriceLevel) : bool := bool_decide (lvl_head l = None).

(** Assignment through a pointer. *)
Definition store (k : Z) (f : OrderRecord -> OrderRecord) (h : heap) : option heap :=
  r ← h !! k; Some (<[k := f r]> h).

(** Assignment through a pointer that may be null, after [if (p)]. *)
Definition store_opt (k : option Z) (f : OrderRecord -> OrderRecord) (h : heap) : option heap :=
  match k with Some k => store k f h | None => Some h end.

(** [PriceLevel::push_back]; [self] is [this]. *)
Definition push_back (self : LevelRef) (lvl : PriceLevel) (record : Z) (h : heap)
    : option (PriceLevel * heap) :=
  h ← store record (fun r => set_next None (set_prev (lvl_tail lvl) r)) h;
  h ← store_opt (lvl_tail lvl) (set_next (Some record)) h;
  let head := match lvl_tail lvl with Some _ => lvl_head lvl | None => Some record end in
  h ← store record (set_level (Some self)) h;
  r ← h !! record;
  Some (mkLevel head (Some record)
          (i64 (lvl_total_qty lvl + rec_remaining r))
          (i64 (lvl_visible_qty lvl + rec_display_remaining r)), h).

(** [PriceLevel::remove]. *)
Definition remove (lvl : PriceLevel) (record : Z) (h : heap) : option (PriceLevel * heap) :=
  r ← h !! record;
  let total := i64 (lvl_total_qty lvl - rec_remaining r) in
  let visible := i64 (lvl_visible_qty lvl - rec_display_remaining r) in
  h ← store_opt (rec_prev r) (set_next (rec_next r)) h;
  let head := match rec_prev r with Some _ => lvl_head lvl | None => rec_next r end in
  h ← store_opt (rec_next r) (set_prev (rec_prev r)) h;
  let tail := match rec_next r with Some _ => lvl_tail lvl | None => rec_prev r end in
  h ← store record (fun r => set_level None (set_next None (set_prev None r))) h;
  Some (mkLevel head tail total visible, h).

(** [PriceLevel::update_after_fill]. *)
Definition update_after_fill (lvl : PriceLevel) (record : Z) (filled_qty : Z) (h : heap)
    : option (PriceLevel * heap) :=
  r ← h !! record;
  let old_display := rec_display_remaining r in
  let r' := refresh_display r in
  let new_display := rec_display_remaining r' in
  Some (mkLevel (lvl_head lvl) (lvl_tail lvl)
          (i64 (lvl_total_qty lvl - filled_qty))
          (i64 (i64 (lvl_visible_qty lvl - old_display) + new_display)),
        <[record := r']> h).

(** ** A market *)
Abbreviation BookMap := (list (Z * PriceLevel)).

Record MarketShard := mkShard {
  book_orders : heap;
  bids : BookMap;
  asks : BookMap;
  next_sequence : Z }.

Definition new_shard : MarketShard := mkShard ∅ [] [] 1.

(** The comparator of a side's map: [std::greater<>] or [std::less<>]. *)
Definition before (buy : bool) : Z -> Z -> bool := if buy then Z.gtb else Z.ltb.

Definition book_of (buy : bool) (sh : MarketShard) : BookMap :=
  if buy then bids sh else asks sh.

Definition set_book (buy : bool) (b : BookMap) (sh : MarketShard) : MarketShard :=
  if buy then mkShard (book_orders sh) b (asks sh) (next_sequence sh)
  else mkShard (book_orders sh) (bids sh) b (next_sequence sh).

Definition set_orders (h : heap) (sh : MarketShard) : MarketShard :=
  mkShard h (bids sh) (asks sh) (next_sequence sh).

Definition encode_order_id (id : OrderId) : Z := value id.

Definition crosses (side : Side) (taker_price maker_price : Z) : bool :=
  if is_buy side then maker_price <=? taker_price else maker_price >=? taker_price.

(** The loop of [fillable_quantity], over the levels from [begin()]. *)
Fixpoint fillable_loop (req : OrderRequest) (levels : BookMap) (total : Z) : Z :=
  match levels with
  | [] => total
  | (price, level) :: rest =>
      if negb (crosses (req_side req) (req_price req) price) then total
      else
        let total := i64 (total + lvl_total_qty level) in
        if total >=? req_quantity req then total else fillable_loop req rest total
  end.

Definition fillable_quantity (sh : MarketShard) (req : OrderRequest) : Z :=
  if is_buy (req_side req) then fillable_loop req (asks sh) 0
  else fillable_loop req (bids sh) 0.

(** ** Matching *)

(** The inner loop of [match_order]: one level, from [maker].  [n] bounds the
    iterations; one per record of the level is enough. *)
Fixpoint consume_level (n : nat) (maker_price : Z) (maker : option Z) (level : PriceLevel)
    (taker : OrderRecord) (fills : list FillEvent) (h : heap)
    : option (PriceLevel * OrderRecord * list FillEvent * heap) :=
  match maker with
  | None => Some (level, taker, fills, h)
  | Some m =>
      if negb (rec_remaining taker >? 0) then Some (level, taker, fills, h)
      else match n with
      | O => None
      | S n =>
          r ← h !! m;
          let traded := Z.min (rec_remaining taker) (rec_remaining r) in
          let taker := set_remaining (i64 (rec_remaining taker - traded)) taker in
          h ← store m (fun r => set_remaining (i64 (rec_remaining r - traded)) r) h;
          '(level, h) ← update_after_fill level m traded h;
          let fills := fills ++ [mkFill (req_id (rec_request r)) (req_id (rec_request taker))
                                   traded maker_price] in
          r ← h !! m;
          if rec_remaining r =? 0 then
            let encoded := encode_order_id (req_id (rec_request r)) in
            let maker := rec_next r in
            '(level, h) ← remove level m h;
            consume_level n maker_price maker level taker fills (base.delete encoded h)
          else consume_level n maker_price (rec_next r) level taker fills h
      end
  end.

(** The lambda [consume_book] of [match_order]. *)
Fixpoint consume_book (book : BookMap) (taker : OrderRecord) (fills : list FillEvent) (h : heap)
    : option (BookMap * OrderRecord * list FillEvent * heap) :=
  match book with
  | [] => Some ([], taker, fills, h)
  | (maker_price, level) :: rest =>
      if negb (rec_remaining taker >? 0) then Some (book, taker, fills, h)
      else if negb (crosses (req_side (rec_request taker)) (req_price (rec_request taker)) maker_price)
      then Some (book, taker, fills, h)
      else
        '(level, taker, fills, h) ←
          consume_level (size h) maker_price (lvl_head level) level taker fills h;
        '(rest, taker, fills, h) ← consume_book rest taker fills h;
        Some (if level_empty level then rest else (maker_price, level) :: rest, taker, fills, h)
  end.

(** [match_order]: a buyer consumes the asks, a seller the bids. *)
Definition match_order (sh : MarketShard) (taker : OrderRecord)
    : option (MarketShard * OrderRecord * list FillEvent) :=
  let opp := negb (is_buy (req_side (rec_request taker))) in
  '(book, taker, fills, h) ← consume_book (book_of opp sh) taker [] (book_orders sh);
  Some (set_orders h (set_book opp book sh), taker, fills).

(** [rest_order]; [record] is the key of a record of [book_orders]. *)
Definition rest_order (sh : MarketShard) (record : Z) : option MarketShard :=
  r ← book_orders sh !! record;
  let buy := is_buy (req_side (rec_request r)) in
  let price := req_price (rec_request r) in
  let '(book, inserted) := om_try_emplace (before buy) price empty_level (book_of buy sh) in
  level ← om_find price book;
  '(level, h) ← push_back (buy, price) level record (book_orders sh);
  Some (set_orders h (set_book buy (om_set price level book) sh)).

(** [remove_order_from_book]. *)
Definition remove_order_from_book (sh : MarketShard) (record : Z) : option MarketShard :=
  r ← book_orders sh !! record;
  match rec_level r with
  | None => Some sh
  | Some _ =>
      let buy := is_buy (req_side (rec_request r)) in
      let price := req_price (rec_request r) in
      match om_find price (book_of buy sh) with
      | None => Some sh
      | Some level =>
          '(level, h) ← remove level record (book_orders sh);
          let book := if level_empty level then om_erase price (book_of buy sh)
                      else om_set price level (book_of buy sh) in
          Some (set_orders h (set_book buy book sh))
      end
  end.

(** The post-only test of [place_order]: the best opposite price crosses. *)
Definition post_only_would_cross (sh : MarketShard) (order : OrderRequest) : bool :=
  match book_of (negb (is_buy (req_side order))) sh with
  | [] => false
  | (best_price, _) :: _ => crosses (req_side order) (req_price order) best_price
  end.

(** The record [place_order] builds for the incoming order. *)
Definition make_taker (order : OrderRequest) (fifo_seq : Z) : OrderRecord :=
  let '(display_size, display_remaining) :=
    if HasFlag (req_flags order) kHidden then (0, 0)
    else if HasFlag (req_flags order) kIceberg
    then (req_display_quantity order, Z.min (req_display_quantity order) (req_quantity order))
    else (req_quantity order, req_quantity order) in
  mkRecord order (req_quantity order) display_remaining display_size fifo_seq None None None.

(** [place_order]. *)
Definition place_order (sh : MarketShard) (order : OrderRequest)
    : option (MarketShard * OrderResult) :=
  let encoded := encode_order_id (req_id order) in
  if HasFlag (req_flags order) kPostOnly && post_only_would_cross sh order then
    Some (sh, reject kRejectPostOnlyWouldCross [])
  else if bool_decide (req_tif order = kFok) && (fillable_quantity sh order <? req_quantity order)
  then Some (sh, reject kRejectInsufficientLiquidity [])
  else
    let taker := make_taker order (next_sequence sh) in
    let sh := mkShard (book_orders sh) (bids sh) (asks sh) (u64 (next_sequence sh + 1)) in
    '(sh, taker, fills) ← match_order sh taker;
    if rec_remaining taker >? 0 then
      if bool_decide (req_tif order = kIoc) || bool_decide (req_tif order = kFok) then
        Some (sh, mkOrderResult true false false 0 fills)
      else
        let taker := refresh_display taker in
        match book_orders sh !! encoded with
        | Some _ => Some (sh, reject kRejectDuplicateOrderId fills)
        | None =>
            sh ← rest_order (set_orders (<[encoded := taker]> (book_orders sh)) sh) encoded;
            Some (sh, mkOrderResult true false true 0 fills)
        end
    else Some (sh, mkOrderResult true true false 0 fills).

(** ** The engine *)
Abbreviation Engine := (gmap Z MarketShard).

Definition add_market (market_id : Z) (e : Engine) : Engine :=
  match e !! market_id with Some _ => e | None => <[market_id := new_shard]> e end.

Definition clear_market (market_id : Z) (e : Engine) : Engine :=
  <[market_id := new_shard]> (base.delete market_id e).

Definition ensure_market (market_id : Z) (e : Engine) : MarketShard * Engine :=
  match e !! market_id with
  | Some sh => (sh, e)
  | None => (new_shard, <[market_id := new_shard]> e)
  end.

Definition submit (request : OrderRequest) (e : Engine) : option (Engine * OrderResult) :=
  if req_quantity request <=? 0 then Some (e, reject kRejectInvalidQuantity [])
  else if HasFlag (req_flags request) kIceberg &&
          ((req_display_quantity request <=? 0) ||
           (req_display_quantity request >? req_quantity request))
  then Some (e, reject kRejectInvalidDisplayQuantity [])
  else
    let '(sh, e) := ensure_market (id_market (req_id request)) e in
    '(sh, res) ← place_order sh request;
    Some (<[id_market (req_id request) := sh]> e, res).

Definition cancel (request : CancelRequest) (e : Engine) : option (Engine * CancelResult) :=
  match e !! id_market (cancel_id request) with
  | None => Some (e, mkCancelResult false kRejectUnknownMarket)
  | Some sh =>
      let encoded := encode_order_id (cancel_id request) in
      match book_orders sh !! encoded with
      | None => Some (e, mkCancelResult false kRejectOrderNotFound)
      | Some _ =>
          sh ← remove_order_from_book sh encoded;
          let sh := set_orders (base.delete encoded (book_orders sh)) sh in
          Some (<[id_market (cancel_id request) := sh]> e, mkCancelResult true 0)
      end
  end.

(** The request [replace] resubmits: account and side of the record, the rest
    from the message. *)
Definition replaced_request (old : OrderRequest) (request : ReplaceRequest) : OrderRequest :=
  mkRequest (rep_id request) (req_account old) (req_side old) (rep_new_quantity request)
    (rep_new_price request) (rep_new_display_quantity request) (rep_new_tif request)
    (rep_new_flags request).

Definition replace (request : ReplaceRequest) (e : Engine) : option (Engine * ReplaceResult) :=
  match e !! id_market (rep_id request) with
  | None => Some (e, mkReplaceResult false false kRejectUnknownMarket [])
  | Some sh =>
      let encoded := encode_order_id (rep_id request) in
      match book_orders sh !! encoded with
      | None => Some (e, mkReplaceResult false false kRejectOrderNotFound [])
      | Some record_copy =>
          sh ← remove_order_from_book sh encoded;
          let sh := set_orders (base.delete encoded (book_orders sh)) sh in
          '(sh, result) ← place_order sh (replaced_request (rec_request record_copy) request);
          Some (<[id_market (rep_id request) := sh]> e,
                mkReplaceResult (or_accepted result) (or_resting result)
                  (or_reject_code result) (or_fills result))
      end
  end.

(** ** Runs of the engine *)
Inductive Op :=
  | OpAddMarket (market_id : Z)
  | OpClearMarket (market_id : Z)
  | OpSubmit (r : OrderRequest)
  | OpCancel (r : CancelRequest)
  | OpReplace (r : ReplaceRequest).

Inductive Reply :=
  | RNone
  | ROrder (r : OrderResult)
  | RCancel (r : CancelResult)
  | RReplace (r : ReplaceResult).

Definition exec (op : Op) (e : Engine) : option (Engine * Reply) :=
  match op with
  | OpAddMarket m => Some (add_market m e, RNone)
  | OpClearMarket m => Some (clear_market m e, RNone)
  | OpSubmit r => '(e, res) ← submit r e; Some (e, ROrder res)
  | OpCancel r => '(e, res) ← cancel r e; Some (e, RCancel res)
  | OpReplace r => '(e, res) ← replace r e; Some (e, RReplace res)
  end.

Fixpoint run (ops : list Op) (e : Engine) : option (Engine * list Reply) :=
  match ops with
  | [] => Some (e, [])
  | op :: ops =>
      '(e, reply) ← exec op e;
      '(e, replies) ← run ops e;
      Some (e, reply :: replies)
  end.

(** The quantities of the messages fit their types. *)
Definition op_ok (op : Op) : Prop :=
  match op with
  | OpSubmit r => in_i64 (req_quantity r)
  | OpReplace r => in_i64 (rep_new_quantity r)
  | _ => True
  end.

(** The quantity an operation can add to the books. *)
Definition op_quantity (op : Op) : Z :=
  match op with
  | OpSubmit r => Z.max 0 (req_quantity r)
  | OpReplace r => Z.max 0 (rep_new_quantity r)
  | _ => 0
  end.
