(* ===== verification/MatcherSpec.v ===== *)
(** * The order book the matching engine promises

    A side of a book is one queue in price-time priority.  Matching consumes
    the opposite queue from its head, resting inserts behind every order that
    is at least as good, cancelling removes one order.  No pointers, levels,
    maps or bounds: this is what [Matcher] must implement, and
    [MatcherRefine] proves that it does. *)
From S2P Require Import Prelude Types OrderedMap Matcher.

(** A resting order: its request, what is left of it and its sequence number. *)
Record Order := mkOrder { ord_request : OrderRequest; ord_remaining : Z; ord_seq : Z }.

Definition ord_key (o : Order) : Z := encode_order_id (req_id (ord_request o)).
Definition ord_price (o : Order) : Z := req_price (ord_request o).
Definition ord_buy (o : Order) : bool := is_buy (req_side (ord_request o)).
Definition ord_reduce (o : Order) (q : Z) : Order :=
  mkOrder (ord_request o) (ord_remaining o - q) (ord_seq o).

Abbreviation keys := (map ord_key).
Abbreviation depth := (Zsum ord_remaining).

(** What the market data feed shows of an order. *)
Definition display_size_of (req : OrderRequest) : Z :=
  if HasFlag (req_flags req) kHidden then 0
  else if HasFlag (req_flags req) kIceberg then req_display_quantity req
  else req_quantity req.

Definition display_of (req : OrderRequest) (remaining : Z) : Z :=
  if HasFlag (req_flags req) kHidden then 0
  else if HasFlag (req_flags req) kIceberg && (display_size_of req >? 0)
  then Z.min (display_size_of req) remaining
  else remaining.

Definition ord_display (o : Order) : Z := display_of (ord_request o) (ord_remaining o).

(** ** Matching *)
Definition ord_crosses (taker : OrderRequest) (o : Order) : bool :=
  crosses (req_side taker) (req_price taker) (ord_price o).

Definition fill_of (taker : OrderRequest) (o : Order) (traded : Z) : FillEvent :=
  mkFill (req_id (ord_request o)) (req_id taker) traded (ord_price o).

(** Fills, quantity left of the taker, and the queue left behind. *)
Fixpoint match_queue (taker : OrderRequest) (rem : Z) (q : list Order)
    : list FillEvent * Z * list Order :=
  match q with
  | [] => ([], rem, [])
  | o :: q' =>
      if (rem <=? 0) || negb (ord_crosses taker o) then ([], rem, q)
      else
        let traded := Z.min rem (ord_remaining o) in
        let '(fs, rem', q'') := match_queue taker (rem - traded) q' in
        (fill_of taker o traded :: fs, rem',
         if ord_remaining o =? traded then q'' else ord_reduce o traded :: q'')
  end.

(** Insertion behind every order that is at least as good. *)
Fixpoint insert_order (o : Order) (q : list Order) : list Order :=
  match q with
  | [] => [o]
  | o' :: q' =>
      if before (ord_buy o) (ord_price o) (ord_price o') then o :: q
      else o' :: insert_order o q'
  end.

Definition remove_key (k : Z) (q : list Order) : list Order :=
  List.filter (fun o => negb (ord_key o =? k)) q.

Definition find_key (k : Z) (q : list Order) : option Order :=
  List.find (fun o => ord_key o =? k) q.

(** ** A market *)
Record Book := mkBook { bk_bids : list Order; bk_asks : list Order; bk_seq : Z }.

Definition new_book : Book := mkBook [] [] 1.

Definition queue (buy : bool) (b : Book) : list Order :=
  if buy then bk_bids b else bk_asks b.

Definition set_queue (buy : bool) (q : list Order) (b : Book) : Book :=
  if buy then mkBook q (bk_asks b) (bk_seq b) else mkBook (bk_bids b) q (bk_seq b).

Definition all_orders (b : Book) : list Order := bk_bids b ++ bk_asks b.

(** Liquidity an order can take. *)
Definition liquidity (b : Book) (order : OrderRequest) : Z :=
  depth (List.filter (ord_crosses order) (queue (negb (is_buy (req_side order))) b)).

(** The matching run of an incoming order, and the book it leaves. *)
Definition match_run (b : Book) (order : OrderRequest) : list FillEvent * Z * list Order :=
  match_queue order (req_quantity order) (queue (negb (is_buy (req_side order))) b).

Definition after_match (b : Book) (order : OrderRequest) : Book :=
  set_queue (negb (is_buy (req_side order))) (match_run b order).2
    (mkBook (bk_bids b) (bk_asks b) (u64 (bk_seq b + 1))).

(** What becomes of the rest of an order after matching. *)
Definition settle (b : Book) (order : OrderRequest) : Book * OrderResult :=
  let buy := is_buy (req_side order) in
  let '(fills, rem, _) := match_run b order in
  let b' := after_match b order in
  if rem >? 0 then
    if bool_decide (req_tif order = kIoc) || bool_decide (req_tif order = kFok)
    then (b', mkOrderResult true false false 0 fills)
    else match find_key (encode_order_id (req_id order)) (all_orders b') with
    | Some _ => (b', reject kRejectDuplicateOrderId fills)
    | None =>
        (set_queue buy (insert_order (mkOrder order rem (bk_seq b)) (queue buy b')) b',
         mkOrderResult true false true 0 fills)
    end
  else (b', mkOrderResult true true false 0 fills).

(** Placing an order; [no_liquidity] is the outcome of the fill-or-kill test. *)
Definition place_with (no_liquidity : bool) (b : Book) (order : OrderRequest)
    : Book * OrderResult :=
  if HasFlag (req_flags order) kPostOnly &&
     existsb (ord_crosses order) (queue (negb (is_buy (req_side order))) b)
  then (b, reject kRejectPostOnlyWouldCross [])
  else if bool_decide (req_tif order = kFok) && no_liquidity
  then (b, reject kRejectInsufficientLiquidity [])
  else settle b order.

Definition spec_place (b : Book) (order : OrderRequest) : Book * OrderResult :=
  place_with (liquidity b order <? req_quantity order) b order.

Definition spec_remove (k : Z) (b : Book) : Book :=
  mkBook (remove_key k (bk_bids b)) (remove_key k (bk_asks b)) (bk_seq b).

(** ** Well-formed books *)
Definition order_ok (buy : bool) (o : Order) : Prop :=
  ord_buy o = buy /\ 0 < ord_remaining o <= INT64_MAX.

Fixpoint queue_sorted (buy : bool) (q : list Order) : Prop :=
  match q with
  | [] => True
  | o :: q' =>
      Forall (fun o' => before buy (ord_price o') (ord_price o) = false) q' /\
      queue_sorted buy q'
  end.

Definition uncrossed (b : Book) : Prop :=
  forall x y, x ∈ bk_bids b -> y ∈ bk_asks b -> ord_price x < ord_price y.

Record book_wf (b : Book) : Prop := {
  wf_bids : Forall (order_ok true) (bk_bids b);
  wf_asks : Forall (order_ok false) (bk_asks b);
  wf_bids_sorted : queue_sorted true (bk_bids b);
  wf_asks_sorted : queue_sorted false (bk_asks b);
  wf_keys : NoDup (keys (all_orders b));
  wf_uncrossed : uncrossed b }.

(** The quantity of a request fits its type. *)
Definition request_ok (r : OrderRequest) : Prop := in_i64 (req_quantity r).

#[export] Instance before_order buy : StrictOrderB (before buy).
Proof. destruct buy; apply _. Qed.

(** ** Matching, one queue at a time *)
Section MatchQueue.
Context (taker : OrderRequest).
Implicit Types q : list Order.

Lemma match_queue_done rem q : rem <= 0 -> match_queue taker rem q = ([], rem, q).
Proof. intros H. destruct q; cbn; [done|]. now rewrite (proj2 (Z.leb_le _ _) H). Qed.

(** Induction over a matching run: it stops, it fills an order entirely and
    goes on, or it fills part of an order and is done. *)
Lemma match_queue_ind (P : Z -> list Order -> list FillEvent -> Z -> list Order -> Prop) buy :
  (forall rem, P rem [] [] rem []) ->
  (forall rem o q, rem <= 0 \/ ord_crosses taker o = false ->
     P rem (o :: q) [] rem (o :: q)) ->
  (forall rem o q, 0 < rem < ord_remaining o -> ord_crosses taker o = true ->
     P rem (o :: q) [fill_of taker o rem] 0 (ord_reduce o rem :: q)) ->
  (forall rem o q fs rem' q'', 0 < ord_remaining o <= rem -> ord_crosses taker o = true ->
     match_queue taker (rem - ord_remaining o) q = (fs, rem', q'') ->
     P (rem - ord_remaining o) q fs rem' q'' ->
     P rem (o :: q) (fill_of taker o (ord_remaining o) :: fs) rem' q'') ->
  forall q rem, Forall (order_ok buy) q ->
    let r := match_queue taker rem q in P rem q r.1.1 r.1.2 r.2.
Proof.
  intros H0 H1 H2 H3 q. induction q as [|o q IH]; intros rem Hok; [apply H0|].
  apply Forall_cons in Hok as [[_ Hr] Hok]. cbn.
  destruct (Z.leb_spec rem 0); cbn; [apply H1; lia|].
  destruct (ord_crosses taker o) eqn:Ec; cbn; [|apply H1; auto].
  destruct (Z.lt_ge_cases rem (ord_remaining o)).
  - rewrite Z.min_l by lia. rewrite match_queue_done by lia.
    replace (ord_remaining o =? rem) with false by lia.
    replace (rem - rem) with 0 by lia. now apply H2.
  - rewrite Z.min_r by lia. specialize (IH (rem - ord_remaining o) Hok).
    destruct (match_queue taker (rem - ord_remaining o) q) as [[fs l'] q''] eqn:E.
    rewrite Z.eqb_refl. now apply H3.
Qed.
End MatchQueue.

(** The orders of [q'] are orders of [q], possibly smaller. *)
Definition same_order (o' o : Order) : Prop :=
  ord_request o' = ord_request o /\ ord_seq o' = ord_seq o.

Lemma same_order_refl o : same_order o o.
Proof. done. Qed.

Lemma same_order_reduce o t : same_order (ord_reduce o t) o.
Proof. done. Qed.

#[export] Hint Resolve same_order_refl same_order_reduce : core.

(** A queue whose orders come, in order, from another queue. *)
Inductive shrinks : list Order -> list Order -> Prop :=
  | shrinks_nil : shrinks [] []
  | shrinks_keep o' o q' q : same_order o' o -> shrinks q' q -> shrinks (o' :: q') (o :: q)
  | shrinks_drop o q' q : shrinks q' q -> shrinks q' (o :: q).

#[export] Hint Constructors shrinks : core.

Lemma shrinks_refl q : shrinks q q.
Proof. induction q; auto. Qed.

#[export] Hint Resolve shrinks_refl : core.

Lemma shrinks_elem q' q : shrinks q' q -> forall o', o' ∈ q' -> exists o, o ∈ q /\ same_order o' o.
Proof.
  induction 1; intros x Hx; [set_solver| |].
  - apply elem_of_cons in Hx as [->|Hx]; [eexists; split; [left|done]|].
    destruct (IHshrinks _ Hx) as (y & ? & ?). exists y. split; [by right|done].
  - destruct (IHshrinks _ Hx) as (y & ? & ?). exists y. split; [by right|done].
Qed.

Lemma shrinks_keys q' q : shrinks q' q -> sublist (keys q') (keys q).
Proof.
  induction 1 as [|o' o q' q Ho|]; cbn; [constructor| |by constructor].
  unfold ord_key at 1. rewrite (proj1 Ho). by constructor.
Qed.

Lemma shrinks_Forall (P : OrderRequest -> Prop) q' q :
  shrinks q' q -> Forall (fun o => P (ord_request o)) q -> Forall (fun o => P (ord_request o)) q'.
Proof.
  intros Hs. rewrite !Forall_forall. intros HP o Ho.
  destruct (shrinks_elem _ _ Hs o Ho) as (o0 & H0 & (-> & _)). auto.
Qed.

Lemma shrinks_sorted buy q' q : shrinks q' q -> queue_sorted buy q -> queue_sorted buy q'.
Proof.
  induction 1 as [|o' o q' q Ho Hs IH|o q' q Hs IH]; cbn; [done| |tauto].
  intros [Hf Hq]. split; [|auto].
  unfold ord_price at 2. rewrite (proj1 Ho).
  now apply (shrinks_Forall (fun r => before buy (req_price r) (ord_price o) = false)) with q.
Qed.

Section MatchQueueFacts.
Context (taker : OrderRequest) (buy : bool) (q : list Order).
Context (Hok : Forall (order_ok buy) q).

Lemma match_queue_shrinks rem : shrinks (match_queue taker rem q).2 q.
Proof.
  refine (match_queue_ind taker (fun _ q _ _ q' => shrinks q' q) buy _ _ _ _ q rem Hok); auto.
Qed.

Lemma match_queue_ok rem : Forall (order_ok buy) (match_queue taker rem q).2.
Proof.
  refine (match_queue_ind taker
    (fun _ q _ _ q' => Forall (order_ok buy) q -> Forall (order_ok buy) q') buy
    _ _ _ _ q rem Hok Hok); auto.
  - intros rem' o q0 Hr _ Ho. apply Forall_cons in Ho as [[Hb Ho] Hq].
    constructor; [|done]. split; [exact Hb|]. unfold ord_reduce; cbn. lia.
  - intros ? ? ? ? ? ? _ _ _ IH Ho. apply Forall_cons in Ho as [_ Ho]. auto.
Qed.

(** Conservation: what the taker loses is filled, and the queue loses it too. *)
Lemma match_queue_conserves rem :
  let r := match_queue taker rem q in
  r.1.2 = rem - Zsum fill_quantity r.1.1 /\ depth r.2 = depth q - Zsum fill_quantity r.1.1.
Proof.
  refine (match_queue_ind taker (fun rem q fs rem' q' =>
    rem' = rem - Zsum fill_quantity fs /\ depth q' = depth q - Zsum fill_quantity fs) buy
    _ _ _ _ q rem Hok);
    intros; autorewrite with zsum; cbn; lia.
Qed.

Lemma match_queue_rem rem :
  0 <= rem -> 0 <= (match_queue taker rem q).1.2 <= rem.
Proof.
  refine (match_queue_ind taker (fun rem _ _ rem' _ => 0 <= rem -> 0 <= rem' <= rem) buy
    _ _ _ _ q rem Hok); lia.
Qed.

(** Every fill trades a positive quantity at a price the taker accepts. *)
Lemma match_queue_fills rem :
  Forall (fun f => 0 < fill_quantity f /\
                   crosses (req_side taker) (req_price taker) (fill_price f) = true /\
                   fill_taker_order f = req_id taker)
    (match_queue taker rem q).1.1.
Proof.
  refine (match_queue_ind taker (fun rem _ fs _ _ =>
    Forall (fun f => 0 < fill_quantity f /\
      crosses (req_side taker) (req_price taker) (fill_price f) = true /\
      fill_taker_order f = req_id taker) fs) buy _ _ _ _ q rem Hok); auto.
  - intros. repeat constructor; cbn; [lia|done].
  - intros. constructor; [|done]. repeat constructor; cbn; [lia|done].
Qed.

(** Fills come from the head of the queue, in queue order; all of them but the
    last exhaust their maker. *)
Lemma match_queue_priority rem :
  let r := match_queue taker rem q in
  fill_maker_order <$> r.1.1 = take (length r.1.1) ((fun o => req_id (ord_request o)) <$> q) /\
  (forall i f o, r.1.1 !! i = Some f -> q !! i = Some o ->
     fill_quantity f = ord_remaining o \/ (S i = length r.1.1 /\ r.1.2 = 0)).
Proof.
  refine (match_queue_ind taker (fun rem q fs rem' q' =>
    fill_maker_order <$> fs = take (length fs) ((fun o => req_id (ord_request o)) <$> q) /\
    (forall i f o, fs !! i = Some f -> q !! i = Some o ->
       fill_quantity f = ord_remaining o \/ (S i = length fs /\ rem' = 0))) buy
    _ _ _ _ q rem Hok); clear.
  - done.
  - done.
  - intros rem o q _ _. split; [done|]. intros [|i] f o' H; [auto|done].
  - intros rem o q fs rem' q'' _ _ _ [IH1 IH2]. split; [cbn; by rewrite IH1|].
    intros [|i] f o'; cbn.
    + intros [= <-] [= <-]. by left.
    + intros Hf Ho. destruct (IH2 _ _ _ Hf Ho) as [|[]]; auto.
Qed.
End MatchQueueFacts.

(** Orders behind one that does not cross do not cross either. *)
Lemma crosses_behind taker o o' :
  before (negb (is_buy (req_side taker))) (ord_price o') (ord_price o) = false ->
  ord_crosses taker o = false -> ord_crosses taker o' = false.
Proof. unfold ord_crosses, crosses, before. destruct (is_buy _); cbn; lia. Qed.

(** A taker that is not exhausted has nothing left to cross. *)
Lemma match_queue_exhausted taker q rem :
  let opp := negb (is_buy (req_side taker)) in
  Forall (order_ok opp) q -> queue_sorted opp q ->
  0 < (match_queue taker rem q).1.2 ->
  Forall (fun o => ord_crosses taker o = false) (match_queue taker rem q).2.
Proof.
  intros opp Hok.
  refine (match_queue_ind taker (fun rem q _ rem' q' =>
    queue_sorted opp q -> 0 < rem' -> Forall (fun o => ord_crosses taker o = false) q') opp
    _ _ _ _ q rem Hok).
  - constructor.
  - cbn. intros rem0 o q0 Hrc [Hf _] Hp. destruct Hrc as [Hr|Hc]; [lia|]. constructor; [done|].
    eapply Forall_impl; [exact Hf|]. intros o' Ho'. exact (crosses_behind _ _ _ Ho' Hc).
  - cbn. lia.
  - cbn. intros ? ? ? ? ? ? _ _ _ IH [_ Hs]. auto.
Qed.

(** ** Insertion *)
Lemma insert_order_split o q :
  queue_sorted (ord_buy o) q ->
  exists q1 q2, q = q1 ++ q2 /\ insert_order o q = q1 ++ o :: q2 /\
    Forall (fun o' => before (ord_buy o) (ord_price o) (ord_price o') = false) q1 /\
    Forall (fun o' => before (ord_buy o) (ord_price o) (ord_price o') = true) q2.
Proof.
  induction q as [|o' q IH]; cbn; intros Hs.
  - by exists [], [].
  - destruct Hs as [Hf Hs]. destruct (before _ _ _) eqn:E.
    + exists [], (o' :: q). repeat split; [constructor|]. constructor; [done|].
      eapply Forall_impl; [exact Hf|]. intros o'' H''. cbn in H''.
      destruct (ord_buy o); cbn in *; lia.
    + destruct (IH Hs) as (q1 & q2 & -> & -> & H1 & H2).
      exists (o' :: q1), q2. repeat split; [by constructor|done].
Qed.

Lemma queue_sorted_app buy q1 q2 :
  queue_sorted buy (q1 ++ q2) <->
  queue_sorted buy q1 /\ queue_sorted buy q2 /\
  Forall (fun o => Forall (fun o' => before buy (ord_price o') (ord_price o) = false) q2) q1.
Proof.
  induction q1 as [|o q1 IH]; cbn.
  - split; [intros; repeat split; [done|constructor]|tauto].
  - rewrite Forall_app, Forall_cons, IH. tauto.
Qed.

Lemma insert_order_perm o q : insert_order o q ≡ₚ o :: q.
Proof.
  induction q as [|o' q IH]; cbn; [done|]. destruct (before _ _ _); [done|].
  rewrite IH. constructor.
Qed.

Lemma insert_order_sorted o q :
  queue_sorted (ord_buy o) q -> queue_sorted (ord_buy o) (insert_order o q).
Proof.
  intros Hs. destruct (insert_order_split o q Hs) as (q1 & q2 & -> & -> & H1 & H2).
  apply queue_sorted_app in Hs as (S1 & S2 & S12).
  apply queue_sorted_app. cbn. repeat split; [done| |done|].
  - eapply Forall_impl; [exact H2|]. intros o' E. exact (before_asym _ _ _ E).
  - rewrite Forall_forall in *. intros x Hx. constructor; [|by apply S12].
    by apply H1.
Qed.

(** ** Removal *)
Lemma remove_key_absent k q : k ∉ keys q -> remove_key k q = q.
Proof.
  unfold remove_key. induction q as [|o q IH]; cbn; [done|]. intros Hn.
  destruct (Z.eqb_spec (ord_key o) k) as [<-|]; cbn; [set_solver|].
  f_equal. apply IH. set_solver.
Qed.

Lemma remove_key_mid k q1 o q2 :
  NoDup (keys (q1 ++ o :: q2)) -> ord_key o = k -> remove_key k (q1 ++ o :: q2) = q1 ++ q2.
Proof.
  intros Hd <-. unfold remove_key.
  rewrite List.filter_app. cbn. rewrite Z.eqb_refl. cbn.
  rewrite map_app in Hd. cbn in Hd. apply NoDup_app in Hd as (_ & Hd & Hd2).
  apply NoDup_cons in Hd2 as [Hd2 _].
  f_equal; apply remove_key_absent; [|done].
  intros Hin. apply (Hd _ Hin). by left.
Qed.

Lemma remove_key_shrinks k q : shrinks (remove_key k q) q.
Proof.
  unfold remove_key. induction q as [|o q IH]; cbn; [auto|]. destruct (_ =? _); cbn; auto.
Qed.

Lemma find_key_Some k q o : find_key k q = Some o -> o ∈ q /\ ord_key o = k.
Proof.
  intros H. apply List.find_some in H as [H1 H2].
  split; [by apply list_elem_of_In|lia].
Qed.

Lemma find_key_None k q : find_key k q = None <-> k ∉ keys q.
Proof.
  unfold find_key. induction q as [|o q IH]; cbn; [split; [set_solver|done]|].
  destruct (Z.eqb_spec (ord_key o) k) as [<-|]; [split; [done|set_solver]|].
  rewrite IH. set_solver.
Qed.

(** ** Operations preserve well-formed books *)
Lemma queue_wf b buy : book_wf b -> Forall (order_ok buy) (queue buy b).
Proof. intros []. by destruct buy. Qed.

Lemma queue_wf_sorted b buy : book_wf b -> queue_sorted buy (queue buy b).
Proof. intros []. by destruct buy. Qed.

#[export] Hint Resolve queue_wf queue_wf_sorted : core.

Lemma book_wf_shrinks b b' :
  book_wf b ->
  shrinks (bk_bids b') (bk_bids b) -> shrinks (bk_asks b') (bk_asks b) ->
  Forall (order_ok true) (bk_bids b') -> Forall (order_ok false) (bk_asks b') ->
  book_wf b'.
Proof.
  intros [H1 H2 H3 H4 H5 H6] Hb Ha Hob Hoa. split; [done|done|..].
  - eapply shrinks_sorted; eauto.
  - eapply shrinks_sorted; eauto.
  - eapply sublist_NoDup; [exact H5|]. unfold all_orders. rewrite !map_app.
    apply sublist_app; by apply shrinks_keys.
  - intros x y Hx Hy.
    destruct (shrinks_elem _ _ Hb _ Hx) as (x0 & Hx0 & Ex & _).
    destruct (shrinks_elem _ _ Ha _ Hy) as (y0 & Hy0 & Ey & _).
    unfold ord_price. rewrite Ex, Ey. by apply H6.
Qed.

Lemma after_match_wf b order : book_wf b -> book_wf (after_match b order).
Proof.
  intros Hwf. unfold after_match, match_run.
  pose proof (match_queue_shrinks order _ _ (queue_wf b (negb (is_buy (req_side order))) Hwf)
    (req_quantity order)) as Hs.
  pose proof (match_queue_ok order _ _ (queue_wf b (negb (is_buy (req_side order))) Hwf)
    (req_quantity order)) as Ho.
  destruct (is_buy (req_side order)); cbn in *;
    (apply (book_wf_shrinks b); cbn; [done|auto..]);
    first [apply (queue_wf b true)|apply (queue_wf b false)]; done.
Qed.

(** Resting an order that crosses nothing and whose key is new. *)
Lemma book_wf_insert b o :
  book_wf b -> order_ok (ord_buy o) o -> ord_key o ∉ keys (all_orders b) ->
  (forall o', o' ∈ queue (negb (ord_buy o)) b -> ord_crosses (ord_request o) o' = false) ->
  book_wf (set_queue (ord_buy o) (insert_order o (queue (ord_buy o) b)) b).
Proof.
  intros Hwf Ho Hk Hc.
  assert (Hp : forall x, x ∈ insert_order o (queue (ord_buy o) b) -> x = o \/ x ∈ queue (ord_buy o) b).
  { intros x. rewrite insert_order_perm. set_solver. }
  assert (Hf : Forall (order_ok (ord_buy o)) (insert_order o (queue (ord_buy o) b))).
  { rewrite insert_order_perm. constructor; auto. }
  pose proof (insert_order_sorted o _ (queue_wf_sorted b (ord_buy o) Hwf)) as Hs.
  assert (Hd : NoDup (keys (insert_order o (queue (ord_buy o) b) ++ queue (negb (ord_buy o)) b))).
  { rewrite map_app, (fmap_Permutation ord_key _ _ (insert_order_perm o _)). cbn.
    apply NoDup_cons. destruct Hwf as [_ _ _ _ Hd _]. unfold all_orders in *.
    destruct (ord_buy o); cbn in *; rewrite <- map_app; [done|].
    rewrite (Permutation_app_comm (bk_asks b)). done. }
  destruct Hwf as [H1 H2 H3 H4 H5 H6]. unfold ord_crosses, crosses in Hc.
  fold (ord_buy o) in Hc. fold (ord_price o) in Hc.
  destruct (ord_buy o) eqn:Eb; cbn in *; split; cbn; auto.
  - intros x y Hx Hy; cbn in *. destruct (Hp x Hx) as [->|Hx']; [|auto].
    specialize (Hc y Hy). lia.
  - unfold all_orders; cbn. by rewrite (Permutation_app_comm (bk_bids b)).
  - intros x y Hx Hy; cbn in *. destruct (Hp y Hy) as [->|Hy']; [|auto].
    specialize (Hc x Hx). lia.
Qed.

Lemma settle_wf b order :
  book_wf b -> request_ok order -> book_wf (settle b order).1.
Proof.
  intros Hwf Hq. pose proof (after_match_wf b order Hwf) as Ha. unfold settle.
  destruct (match_run b order) as [[fills rem] opp] eqn:Em.
  destruct (Z.gtb_spec rem 0) as [Hr|]; [|done].
  destruct (_ || _); [done|].
  destruct (find_key _ _) eqn:Ef; [done|]. apply find_key_None in Ef.
  apply (book_wf_insert (after_match b order) (mkOrder order rem (bk_seq b))); [done|..].
  - split; [done|]. cbn. destruct (Z.lt_ge_cases (req_quantity order) 0) as [Hn|Hn].
    + unfold match_run in Em. rewrite match_queue_done in Em by lia. injection Em as <- <- <-. lia.
    + pose proof (match_queue_rem order _ _ (queue_wf b (negb (is_buy (req_side order))) Hwf)
        (req_quantity order) Hn) as Hb.
      unfold match_run in Em. rewrite Em in Hb. cbn in Hb. unfold request_ok in Hq. range.
  - done.
  - intros o' Ho'.
    assert (Hx : Forall (fun o => ord_crosses order o = false) opp).
    { pose proof (match_queue_exhausted order (queue (negb (is_buy (req_side order))) b)
        (req_quantity order)) as Hx. cbn in Hx. unfold match_run in Em.
      rewrite Em in Hx. cbn in Hx. apply Hx; auto. }
    rewrite Forall_forall in Hx. apply Hx.
    unfold after_match in Ho'. rewrite Em in Ho'. unfold ord_buy in Ho'. cbn in Ho'.
    by destruct (is_buy (req_side order)).
Qed.

Lemma place_with_wf n b order :
  book_wf b -> request_ok order -> book_wf (place_with n b order).1.
Proof.
  intros. unfold place_with. repeat case_match; [done|done|]. by apply settle_wf.
Qed.

Lemma spec_remove_wf k b : book_wf b -> book_wf (spec_remove k b).
Proof.
  intros Hwf. apply (book_wf_shrinks b); cbn; [done|apply remove_key_shrinks..| |];
    unfold remove_key; rewrite Forall_forall; intros x Hx;
    apply list_elem_of_In, List.filter_In in Hx as [Hx _];
    apply list_elem_of_In in Hx; [pose proof (wf_bids b Hwf)|pose proof (wf_asks b Hwf)];
    rewrite Forall_forall in *; auto.
Qed.

Lemma new_book_wf : book_wf new_book.
Proof. split; cbn; auto; [constructor|intros ? ? H; set_solver]. Qed.

(** ** The engine, over any way of placing orders *)
Section SpecEngine.
Context (place : Book -> OrderRequest -> Book * OrderResult).
Implicit Types a : gmap Z Book.

Definition spec_submit (request : OrderRequest) a : gmap Z Book * OrderResult :=
  if req_quantity request <=? 0 then (a, reject kRejectInvalidQuantity [])
  else if HasFlag (req_flags request) kIceberg &&
          ((req_display_quantity request <=? 0) ||
           (req_display_quantity request >? req_quantity request))
  then (a, reject kRejectInvalidDisplayQuantity [])
  else
    let b := default new_book (a !! id_market (req_id request)) in
    let '(b', res) := place b request in
    (<[id_market (req_id request) := b']> a, res).

Definition spec_cancel (request : CancelRequest) a : gmap Z Book * CancelResult :=
  match a !! id_market (cancel_id request) with
  | None => (a, mkCancelResult false kRejectUnknownMarket)
  | Some b =>
      let k := encode_order_id (cancel_id request) in
      match find_key k (all_orders b) with
      | None => (a, mkCancelResult false kRejectOrderNotFound)
      | Some _ => (<[id_market (cancel_id request) := spec_remove k b]> a, mkCancelResult true 0)
      end
  end.

Definition spec_replace (request : ReplaceRequest) a : gmap Z Book * ReplaceResult :=
  match a !! id_market (rep_id request) with
  | None => (a, mkReplaceResult false false kRejectUnknownMarket [])
  | Some b =>
      let k := encode_order_id (rep_id request) in
      match find_key k (all_orders b) with
      | None => (a, mkReplaceResult false false kRejectOrderNotFound [])
      | Some o =>
          let '(b', result) := place (spec_remove k b) (replaced_request (ord_request o) request) in
          (<[id_market (rep_id request) := b']> a,
           mkReplaceResult (or_accepted result) (or_resting result)
             (or_reject_code result) (or_fills result))
      end
  end.

Definition spec_exec (op : Op) a : gmap Z Book * Reply :=
  match op with
  | OpAddMarket m => (match a !! m with Some _ => a | None => <[m := new_book]> a end, RNone)
  | OpClearMarket m => (<[m := new_book]> (base.delete m a), RNone)
  | OpSubmit r => let '(a', res) := spec_submit r a in (a', ROrder res)
  | OpCancel r => let '(a', res) := spec_cancel r a in (a', RCancel res)
  | OpReplace r => let '(a', res) := spec_replace r a in (a', RReplace res)
  end.

Fixpoint spec_run (ops : list Op) a : gmap Z Book * list Reply :=
  match ops with
  | [] => (a, [])
  | op :: ops =>
      let '(a, reply) := spec_exec op a in
      let '(a, replies) := spec_run ops a in (a, reply :: replies)
  end.
End SpecEngine.

(** ** Depth *)
Lemma depth_nonneg buy q : Forall (order_ok buy) q -> 0 <= depth q.
Proof. intros H. apply Zsum_nonneg. eapply Forall_impl; [exact H|]. intros o [_ Ho]. lia. Qed.

Lemma depth_remove_key k buy q : Forall (order_ok buy) q -> depth (remove_key k q) <= depth q.
Proof.
  unfold remove_key. induction 1 as [|o q [_ Ho] H IH]; cbn; [lia|].
  destruct (_ =? _); cbn; autorewrite with zsum; lia.
Qed.

Lemma depth_insert o q : depth (insert_order o q) = ord_remaining o + depth q.
Proof. rewrite (Zsum_perm _ _ _ (insert_order_perm o q)). by rewrite Zsum_cons. Qed.

Definition total_depth (b : Book) : Z := depth (all_orders b).

Lemma total_depth_queue buy b :
  total_depth b = depth (queue buy b) + depth (queue (negb buy) b).
Proof. unfold total_depth, all_orders. rewrite Zsum_app. destruct buy; cbn; lia. Qed.

Lemma queue_depth_bound buy b : book_wf b -> 0 <= depth (queue buy b) <= total_depth b.
Proof.
  intros H. rewrite (total_depth_queue buy).
  pose proof (depth_nonneg _ _ (queue_wf b buy H)).
  pose proof (depth_nonneg _ _ (queue_wf b (negb buy) H)). lia.
Qed.

Lemma settle_depth b order :
  book_wf b -> total_depth (settle b order).1 <= total_depth b + Z.max 0 (req_quantity order).
Proof.
  intros Hwf. set (buy := is_buy (req_side order)).
  pose proof (queue_wf b (negb buy) Hwf) as Hok.
  pose proof (match_queue_conserves order _ _ Hok (req_quantity order)) as [Hr Hd].
  assert (Hf : 0 <= Zsum fill_quantity (match_run b order).1.1).
  { apply Zsum_nonneg.
    eapply Forall_impl; [exact (match_queue_fills order _ _ Hok (req_quantity order))|].
    intros f []. lia. }
  assert (Ha : total_depth (after_match b order) =
               total_depth b - Zsum fill_quantity (match_run b order).1.1).
  { rewrite (total_depth_queue buy), (total_depth_queue buy b). unfold after_match. fold buy.
    unfold match_run in *. fold buy in Hd |- *. destruct buy; cbn in *; lia. }
  unfold settle. destruct (match_run b order) as [[fills rem] opp] eqn:Em.
  unfold match_run in Em. fold buy in Em. rewrite Em in Hr. cbn in *. fold buy.
  destruct (Z.gtb_spec rem 0); [|cbn; lia].
  destruct (_ || _); [cbn; lia|]. destruct (find_key _ _); [cbn; lia|].
  cbn. rewrite (total_depth_queue buy) in Ha |- *.
  assert (depth (queue buy (set_queue buy (insert_order (mkOrder order rem (bk_seq b))
    (queue buy (after_match b order))) (after_match b order))) =
    rem + depth (queue buy (after_match b order))) as ->.
  { destruct buy; cbn; apply depth_insert. }
  assert (queue (negb buy) (set_queue buy (insert_order (mkOrder order rem (bk_seq b))
    (queue buy (after_match b order))) (after_match b order)) =
    queue (negb buy) (after_match b order)) as -> by (by destruct buy).
  lia.
Qed.

Lemma place_with_depth n b order :
  book_wf b ->
  total_depth (place_with n b order).1 <= total_depth b + Z.max 0 (req_quantity order).
Proof.
  intros. unfold place_with. repeat case_match; cbn; try lia. by apply settle_depth.
Qed.

Lemma spec_remove_depth k b : book_wf b -> total_depth (spec_remove k b) <= total_depth b.
Proof.
  intros Hwf. unfold total_depth, all_orders. rewrite !Zsum_app.
  pose proof (depth_remove_key k _ _ (wf_bids b Hwf)).
  pose proof (depth_remove_key k _ _ (wf_asks b Hwf)). cbn. lia.
Qed.

(** ** What placing an order does, in one statement *)
Record settled (b : Book) (order : OrderRequest) (b' : Book) (res : OrderResult) : Prop := {
  st_fills : or_fills res = (match_run b order).1.1;
  st_opp : queue (negb (is_buy (req_side order))) b' = (match_run b order).2;
  st_own : queue (is_buy (req_side order)) b' =
    if or_resting res
    then insert_order (mkOrder order (match_run b order).1.2 (bk_seq b))
           (queue (is_buy (req_side order)) b)
    else queue (is_buy (req_side order)) b;
  st_full : or_fully_filled res = true <-> (match_run b order).1.2 <= 0;
  st_rest : or_resting res = true ->
    0 < (match_run b order).1.2 /\ req_tif order <> kIoc /\ req_tif order <> kFok }.

Lemma settle_settled b order : settled b order (settle b order).1 (settle b order).2.
Proof.
  unfold settle. destruct (match_run b order) as [[fills rem] opp] eqn:Em.
  assert (Ho : queue (negb (is_buy (req_side order))) (after_match b order) = opp).
  { unfold after_match. rewrite Em. by destruct (is_buy _). }
  assert (Hs : queue (is_buy (req_side order)) (after_match b order) =
               queue (is_buy (req_side order)) b).
  { unfold after_match. by destruct (is_buy _). }
  destruct (Z.gtb_spec rem 0) as [Hr|Hr].
  2: { split; rewrite ?Em; cbn; auto; lia. }
  destruct (_ || _) eqn:E; [split; rewrite ?Em; cbn; auto; lia|].
  apply orb_false_iff in E as [E1%bool_decide_eq_false E2%bool_decide_eq_false].
  destruct (find_key _ _); split; rewrite ?Em; cbn; auto; try lia; try done.
  - rewrite <- Ho at 1. by destruct (is_buy _).
  - rewrite Hs. by destruct (is_buy _).
Qed.

(** What matching leaves is what the liquidity does not cover. *)
Lemma match_queue_liquidity taker q rem :
  let opp := negb (is_buy (req_side taker)) in
  Forall (order_ok opp) q -> queue_sorted opp q -> 0 <= rem ->
  (match_queue taker rem q).1.2 = Z.max 0 (rem - depth (List.filter (ord_crosses taker) q)).
Proof.
  intros opp Hok Hs. revert rem. induction q as [|o q IH]; intros rem Hr.
  { cbn. rewrite Zsum_nil. lia. }
  apply Forall_cons in Hok as [[_ Ho] Hok]. destruct Hs as [Hf Hs].
  assert (Hd : 0 <= depth (List.filter (ord_crosses taker) q)).
  { apply Zsum_nonneg. apply Forall_forall. intros x Hx.
    apply list_elem_of_In, List.filter_In in Hx as [Hx _]. apply list_elem_of_In in Hx.
    rewrite Forall_forall in Hok. destruct (Hok x Hx) as [_ ?]. lia. }
  cbn [match_queue List.filter]. destruct (ord_crosses taker o) eqn:Ec; cbn [negb].
  - rewrite orb_false_r. rewrite Zsum_cons. destruct (Z.leb_spec rem 0); [cbn; lia|].
    pose proof (IH Hok Hs (rem - Z.min rem (ord_remaining o)) ltac:(lia)) as E.
    destruct (match_queue taker _ q) as [[fs rem'] q']. cbn in *. lia.
  - rewrite orb_true_r. cbn.
    assert (List.filter (ord_crosses taker) q = []) as ->; [|rewrite Zsum_nil; lia].
    clear -Hf Ec. induction Hf as [|x q Hx Hf IH]; cbn; [done|].
    by rewrite (crosses_behind taker o x Hx Ec).
Qed.

(** Nothing to cross, nothing filled. *)
Lemma match_queue_no_cross taker q rem :
  existsb (ord_crosses taker) q = false -> match_queue taker rem q = ([], rem, q).
Proof.
  destruct q as [|o q]; cbn; [done|]. intros [-> _]%orb_false_iff. cbn. by rewrite orb_true_r.
Qed.
