(* ===== verification/LevelRefine.v ===== *)
(** * Price levels implement queues

    The intrusive list of a [PriceLevel] holds a queue of orders when its nodes
    are linked in queue order, its ends point at the first and the last node,
    and its two aggregates are the sums of the queue.  This file proves that
    every pointer operation of [Matcher] keeps that relation, never
    dereferences a dangling pointer, and that the inner matching loop is
    [match_queue]. *)
From S2P Require Import Prelude Types OrderedMap Matcher MatcherSpec.

(** The node of an order. *)
Definition node (o : Order) (lvl : option LevelRef) (prev next : option Z) : OrderRecord :=
  mkRecord (ord_request o) (ord_remaining o) (ord_display o) (display_size_of (ord_request o))
    (ord_seq o) lvl prev next.

Definition head_or (os : list Order) (d : option Z) : option Z :=
  match os with [] => d | o :: _ => Some (ord_key o) end.

Fixpoint last_or (d : option Z) (os : list Order) : option Z :=
  match os with [] => d | o :: os' => last_or (Some (ord_key o)) os' end.

(** A doubly linked segment from [prev] to [next]. *)
Fixpoint seg (h : heap) (self : LevelRef) (prev : option Z) (os : list Order) (next : option Z)
    : Prop :=
  match os with
  | [] => True
  | o :: os' =>
      h !! ord_key o = Some (node o (Some self) prev (head_or os' next)) /\
      seg h self (Some (ord_key o)) os' next
  end.

Record level_rep (h : heap) (self : LevelRef) (lvl : PriceLevel) (os : list Order) : Prop := {
  lr_head : lvl_head lvl = head_or os None;
  lr_tail : lvl_tail lvl = last_or None os;
  lr_seg : seg h self None os None;
  lr_total : lvl_total_qty lvl = i64 (depth os);
  lr_visible : lvl_visible_qty lvl = i64 (Zsum ord_display os) }.

(** Only the nodes [ks] change, and none appears or disappears. *)
Definition frame (ks : list Z) (h h' : heap) : Prop :=
  (forall k, k ∉ ks -> h' !! k = h !! k) /\ (forall k, is_Some (h' !! k) <-> is_Some (h !! k)).

Lemma frame_refl ks h : frame ks h h.
Proof. done. Qed.

Lemma frame_trans ks h1 h2 h3 : frame ks h1 h2 -> frame ks h2 h3 -> frame ks h1 h3.
Proof.
  intros [A1 A2] [B1 B2]. split.
  - intros k Hk. rewrite B1, A1; done.
  - intros k. rewrite B2. apply A2.
Qed.

Lemma frame_mono ks ks' h h' : ks ⊆ ks' -> frame ks h h' -> frame ks' h h'.
Proof. intros Hs [A B]. split; [|done]. intros k Hk. apply A. set_solver. Qed.

Lemma frame_insert ks h k r r' : k ∈ ks -> h !! k = Some r -> frame ks h (<[k := r']> h).
Proof.
  intros Hk Hr. split.
  - intros k' Hk'. apply lookup_insert_ne. set_solver.
  - intros k'. destruct (decide (k = k')) as [<-|Hn].
    + rewrite lookup_insert_eq, Hr. split; eauto.
    + by rewrite lookup_insert_ne.
Qed.

#[export] Hint Resolve frame_refl frame_insert : core.

Lemma store_some k f h r : h !! k = Some r -> store k f h = Some (<[k := f r]> h).
Proof. intros H. unfold store. by rewrite H. Qed.

(** ** Segments *)
Lemma head_or_app xs ys d : head_or (xs ++ ys) d = head_or xs (head_or ys d).
Proof. by destruct xs. Qed.

Lemma last_or_app d xs ys : last_or d (xs ++ ys) = last_or (last_or d xs) ys.
Proof. revert d. induction xs; cbn; auto. Qed.

Lemma seg_app h self p xs ys n :
  seg h self p (xs ++ ys) n <-> seg h self p xs (head_or ys n) /\ seg h self (last_or p xs) ys n.
Proof.
  revert p. induction xs as [|o xs IH]; cbn; intros p; [tauto|].
  rewrite IH, head_or_app. tauto.
Qed.

Lemma seg_ext h h' self p os n :
  (forall k, k ∈ keys os -> h' !! k = h !! k) -> seg h self p os n -> seg h' self p os n.
Proof.
  revert p. induction os as [|o os IH]; cbn; intros p He; [done|].
  intros [H1 H2]. rewrite He by left. split; [done|]. apply IH; [|done].
  intros k Hk. apply He. by right.
Qed.

Lemma seg_frame ks h h' self p os n :
  (forall k, k ∈ keys os -> k ∉ ks) -> frame ks h h' -> seg h self p os n -> seg h' self p os n.
Proof. intros Hd [Hf _]. apply seg_ext. auto. Qed.

Lemma seg_some h self p os n k : seg h self p os n -> k ∈ keys os -> is_Some (h !! k).
Proof.
  revert p. induction os as [|o os IH]; cbn; intros p; [set_solver|].
  intros [H1 H2] [->|Hk]%elem_of_cons; [by eexists|eauto].
Qed.

(** Relinking the last node of a segment. *)
Lemma seg_store_next h self p xs n n' :
  seg h self p xs n -> NoDup (keys xs) ->
  exists h', store_opt (last_or None xs) (set_next n') h = Some h' /\
    seg h' self p xs n' /\ frame (keys xs) h h'.
Proof.
  destruct xs as [|z xs _] using rev_ind; [by eexists|].
  rewrite last_or_app, map_app. intros Hs Hd. cbn in *.
  apply seg_app in Hs as [Hx [Hz _]]. cbn in Hz, Hx.
  unfold store. rewrite Hz. cbn. eexists. split; [done|]. split.
  - apply seg_app. cbn. rewrite lookup_insert_eq. split; [|done].
    eapply seg_ext; [|exact Hx]. intros k Hk. apply lookup_insert_ne. intros <-.
    apply NoDup_app in Hd as (_ & Hd & _). apply (Hd _ Hk). by left.
  - eapply frame_insert; [|exact Hz]. set_solver.
Qed.

(** Relinking its first node. *)
Lemma seg_store_prev h self p ys n p' :
  seg h self p ys n -> NoDup (keys ys) ->
  exists h', store_opt (head_or ys None) (set_prev p') h = Some h' /\
    seg h' self p' ys n /\ frame (keys ys) h h'.
Proof.
  destruct ys as [|w ys]; [by eexists|]. cbn. intros [Hw Hs] [Hn Hd]%NoDup_cons.
  unfold store. rewrite Hw. cbn. eexists. split; [done|]. split.
  - rewrite lookup_insert_eq. split; [done|].
    eapply (seg_ext h); [|done]. intros k Hk. apply lookup_insert_ne. set_solver.
  - eapply frame_insert; [|exact Hw]. by left.
Qed.

Lemma seg_mid h self p xs o ys n :
  seg h self p (xs ++ o :: ys) n ->
  h !! ord_key o = Some (node o (Some self) (last_or p xs) (head_or ys n)).
Proof. intros [_ [H _]]%seg_app. exact H. Qed.

Lemma level_rep_ext h h' self lvl os :
  (forall k, k ∈ keys os -> h' !! k = h !! k) -> level_rep h self lvl os -> level_rep h' self lvl os.
Proof. intros He []. split; auto. by eapply seg_ext. Qed.

Lemma level_empty_rep h self lvl os :
  level_rep h self lvl os -> level_empty lvl = true <-> os = [].
Proof.
  intros [Hh _ _ _ _]. unfold level_empty. rewrite Hh, bool_decide_eq_true.
  by destruct os.
Qed.

(** ** The operations of a level *)
Lemma push_back_spec h self lvl os o l p n :
  level_rep h self lvl os -> NoDup (keys (os ++ [o])) ->
  h !! ord_key o = Some (node o l p n) ->
  exists lvl' h', push_back self lvl (ord_key o) h = Some (lvl', h') /\
    level_rep h' self lvl' (os ++ [o]) /\ frame (keys (os ++ [o])) h h'.
Proof.
  intros [Hh Ht Hs Htot Hvis] Hd Ho. rewrite map_app in *. cbn in *.
  apply NoDup_app in Hd as (Hd & Hdo & _).
  assert (Hk : ord_key o ∉ keys os) by (intros Hin; apply (Hdo _ Hin); by left).
  unfold push_back. rewrite (store_some _ _ _ _ Ho). cbn.
  set (h1 := <[ord_key o := _]> h).
  assert (Hf1 : frame [ord_key o] h h1) by (by eapply frame_insert; [left|]).
  assert (Hs1 : seg h1 self None os None).
  { eapply (seg_frame [ord_key o]); [set_solver|exact Hf1|exact Hs]. }
  destruct (seg_store_next _ _ _ _ _ (Some (ord_key o)) Hs1 Hd)
    as (h2 & E2 & Hs2 & Hf2). rewrite Ht, E2. cbn.
  assert (Ho2 : h2 !! ord_key o = Some (node o l (last_or None os) None)).
  { rewrite (proj1 Hf2) by done. unfold h1. rewrite lookup_insert_eq. by rewrite Ht. }
  rewrite (store_some _ _ _ _ Ho2). cbn. rewrite lookup_insert_eq. cbn.
  eexists _, _. split; [done|]. split.
  - split; cbn.
    + destruct os as [|o1 os]; [done|]. cbn in *.
      destruct (last_or (Some (ord_key o1)) os) eqn:E; [by rewrite Hh|].
      exfalso. clear -E. revert o1 E. induction os as [|o2 os IH]; cbn; [done|]. eauto.
    + by rewrite last_or_app.
    + apply seg_app. cbn. rewrite lookup_insert_eq. split; [|done].
      eapply seg_ext; [|exact Hs2]. intros k Hk'. apply lookup_insert_ne. set_solver.
    + rewrite Htot. autorewrite with zsum mach. f_equal. lia.
    + rewrite Hvis. autorewrite with zsum mach. unfold ord_display. f_equal. lia.
  - eapply frame_trans; [eapply frame_mono; [|exact Hf1]; set_solver|].
    eapply frame_trans; [eapply frame_mono; [|exact Hf2]; set_solver|].
    eapply frame_insert; [set_solver|exact Ho2].
Qed.

(** Unlinking a node, and dropping it from the map of orders. *)
Lemma remove_spec h self lvl xs o ys :
  level_rep h self lvl (xs ++ o :: ys) -> NoDup (keys (xs ++ o :: ys)) ->
  exists lvl' h', remove lvl (ord_key o) h = Some (lvl', h') /\
    level_rep (base.delete (ord_key o) h') self lvl' (xs ++ ys) /\
    frame (keys (xs ++ o :: ys)) h h'.
Proof.
  intros [Hh Ht Hs Htot Hvis] Hd. pose proof (seg_mid _ _ _ _ _ _ _ Hs) as Ho.
  rewrite map_app in *. cbn in *.
  apply NoDup_app in Hd as (Hdx & Hdo & [Hoy Hdy]%NoDup_cons).
  assert (Hox : ord_key o ∉ keys xs) by (intros Hin; apply (Hdo _ Hin); by left).
  assert (Hxy : forall k, k ∈ keys xs -> k ∉ keys ys) by (intros k Hk Hk'; apply (Hdo _ Hk); by right).
  apply seg_app in Hs as [Hx [_ Hy]]. cbn in Hx.
  unfold remove. rewrite Ho. cbn.
  destruct (seg_store_next _ _ _ _ _ (head_or ys None) Hx Hdx) as (h1 & -> & Hx1 & Hf1). cbn.
  assert (Hy1 : seg h1 self (Some (ord_key o)) ys None).
  { eapply seg_frame; [|exact Hf1|exact Hy]. intros k Hk Hk'. by apply (Hxy k). }
  destruct (seg_store_prev _ _ _ _ _ (last_or None xs) Hy1 Hdy) as (h2 & -> & Hy2 & Hf2). cbn.
  assert (Hx2 : seg h2 self None xs (head_or ys None)).
  { eapply seg_frame; [|exact Hf2|exact Hx1]. auto. }
  assert (Ho2 : h2 !! ord_key o = Some (node o (Some self) (last_or None xs) (head_or ys None))).
  { rewrite (proj1 Hf2), (proj1 Hf1); done. }
  rewrite (store_some _ _ _ _ Ho2). cbn. eexists _, _. split; [done|]. split.
  - split; cbn.
    + rewrite Hh. destruct xs as [|x xs _] using rev_ind; [done|]. cbn.
      rewrite last_or_app. cbn. by rewrite !head_or_app; destruct xs.
    + rewrite Ht, !last_or_app. cbn. by destruct ys.
    + rewrite delete_insert_eq. apply seg_app.
      split; (eapply seg_ext; [|done]); intros k Hk; apply lookup_delete_ne; set_solver.
    + rewrite Htot. autorewrite with zsum mach. f_equal. lia.
    + rewrite Hvis. autorewrite with zsum mach. unfold ord_display. f_equal. lia.
  - eapply frame_trans; [eapply frame_mono; [|exact Hf1]; set_solver|].
    eapply frame_trans; [eapply frame_mono; [|exact Hf2]; set_solver|].
    eapply frame_insert; [set_solver|exact Ho2].
Qed.

(** The node of an order after a fill of [t]: its display is refreshed. *)
Lemma refresh_node o t lvl p n :
  refresh_display (set_remaining (ord_remaining o - t) (node o lvl p n)) =
  node (ord_reduce o t) lvl p n.
Proof.
  unfold refresh_display, is_hidden, is_iceberg, node, set_remaining, set_display_remaining,
    ord_display, display_of, ord_reduce; cbn.
  by destruct (HasFlag _ kHidden); [|destruct (_ && _)].
Qed.

Lemma fill_spec h self lvl o os t :
  level_rep h self lvl (o :: os) -> NoDup (keys (o :: os)) ->
  exists lvl',
    update_after_fill lvl (ord_key o) t
      (<[ord_key o := set_remaining (ord_remaining o - t) (node o (Some self) None (head_or os None))]> h)
    = Some (lvl', <[ord_key o := node (ord_reduce o t) (Some self) None (head_or os None)]> h) /\
    level_rep (<[ord_key o := node (ord_reduce o t) (Some self) None (head_or os None)]> h)
      self lvl' (ord_reduce o t :: os).
Proof.
  intros [Hh Ht Hs Htot Hvis] Hd. cbn in Hs, Hd. apply NoDup_cons in Hd as [Hn Hd].
  destruct Hs as [Ho Hs].
  unfold update_after_fill. rewrite lookup_insert_eq. cbn [mbind option_bind].
  rewrite refresh_node, insert_insert_eq. eexists. split; [done|]. split; cbn.
  - rewrite Hh. done.
  - rewrite Ht. done.
  - change (ord_key (ord_reduce o t)) with (ord_key o). rewrite lookup_insert_eq. split; [done|].
    eapply seg_ext; [|exact Hs]. intros k Hk. apply lookup_insert_ne. set_solver.
  - rewrite Htot. autorewrite with zsum mach. cbn. f_equal. lia.
  - rewrite Hvis. autorewrite with zsum mach. unfold ord_display; cbn. f_equal. lia.
Qed.

(** ** The inner matching loop *)
Lemma consume_level_stop n p maker lvl taker fills h :
  rec_remaining taker <= 0 ->
  consume_level n p maker lvl taker fills h = Some (lvl, taker, fills, h).
Proof.
  intros H. destruct n, maker; cbn; [|done| |done];
    by replace (rec_remaining taker >? 0) with false by lia.
Qed.

Lemma set_remaining_eta r : set_remaining (rec_remaining r) r = r.
Proof. by destruct r. Qed.

(** What the inner loop does to the heap: nothing outside the level, and the
    nodes of exhausted makers are gone. *)
Definition consumed (os os' : list Order) (h h' : heap) : Prop :=
  (forall k, k ∉ keys os -> h' !! k = h !! k) /\
  (forall k, k ∈ keys os -> is_Some (h' !! k) -> k ∈ keys os').

(** One turn: the first order is filled, and goes if nothing is left of it, or
    nothing is left of the taker. *)
Lemma consume_level_fill n self p h lvl o os taker fills :
  level_rep h self lvl (o :: os) -> NoDup (keys (o :: os)) -> ord_price o = p ->
  0 < rec_remaining taker <= INT64_MAX -> 0 < ord_remaining o <= INT64_MAX ->
  let t := Z.min (rec_remaining taker) (ord_remaining o) in
  let turn := consume_level (S n) p (lvl_head lvl) lvl taker fills h in
  let taker' := set_remaining (rec_remaining taker - t) taker in
  let fills' := fills ++ [fill_of (rec_request taker) o t] in
  if ord_remaining o =? t then
    exists lvl' h', turn = consume_level n p (lvl_head lvl') lvl' taker' fills' (base.delete (ord_key o) h') /\
      level_rep (base.delete (ord_key o) h') self lvl' os /\
      (forall k, k ∉ keys (o :: os) -> h' !! k = h !! k)
  else
    exists lvl' r, turn = Some (lvl', taker', fills', <[ord_key o := r]> h) /\
      level_rep (<[ord_key o := r]> h) self lvl' (ord_reduce o t :: os).
Proof.
  intros Hrep Hd <- Hr Ho. cbv zeta. rewrite (lr_head _ _ _ _ Hrep). cbn [head_or consume_level].
  replace (rec_remaining taker >? 0) with true by lia. cbn [negb].
  pose proof (lr_seg _ _ _ _ Hrep) as [Hnode Hseg]. rewrite Hnode. cbn [mbind option_bind].
  rewrite (store_some _ _ _ _ Hnode). cbn [mbind option_bind].
  set (t := Z.min (rec_remaining taker) (ord_remaining o)).
  change (rec_remaining (node o (Some self) None (head_or os None))) with (ord_remaining o).
  fold t. rewrite !(i64_small (_ - t)) by range.
  destruct (fill_spec h self lvl o os t Hrep Hd) as (lvl1 & -> & Hrep1). cbn [mbind option_bind].
  rewrite lookup_insert_eq. cbn [mbind option_bind]. set (h1 := <[ord_key o := _]> h) in *.
  cbn [node rec_remaining ord_reduce ord_remaining rec_next rec_request].
  replace (ord_remaining o - t =? 0) with (ord_remaining o =? t) by lia.
  destruct (Z.eqb_spec (ord_remaining o) t) as [Et|Et].
  - destruct (remove_spec h1 self lvl1 [] (ord_reduce o t) os Hrep1 Hd) as (lvl2 & h2 & E2 & Hrep2 & [Hf _]).
    change (ord_key (ord_reduce o t)) with (ord_key o) in *. cbn [app] in *. rewrite E2. cbn [mbind option_bind].
    exists lvl2, h2. rewrite (lr_head _ _ _ _ Hrep2). split; [done|]. split; [done|].
    intros k Hk. rewrite Hf by done. apply lookup_insert_ne. cbn in Hk. set_solver.
  - rewrite consume_level_stop by (cbn; lia). by exists lvl1, (node (ord_reduce o t) (Some self) None (head_or os None)).
Qed.

(** The first maker gone, and then what the rest of the loop does. *)
Lemma consumed_cons o os os' h h1 h2 :
  ord_key o ∉ keys os -> (forall k, k ∉ keys (o :: os) -> h1 !! k = h !! k) ->
  consumed os os' (base.delete (ord_key o) h1) h2 -> consumed (o :: os) os' h h2.
Proof.
  intros Hno Hf [Hc1 Hc2]. split; cbn.
  - intros k Hk. rewrite Hc1 by set_solver. rewrite lookup_delete_ne by set_solver. by apply Hf.
  - intros k Hk Hs. destruct (decide (k = ord_key o)) as [->|Hne]; [|apply Hc2; set_solver].
    rewrite Hc1, lookup_delete_eq in Hs by done. by destruct Hs.
Qed.

Lemma consume_level_spec self p buy os : forall n h lvl taker fills,
  level_rep h self lvl os -> NoDup (keys os) -> Forall (order_ok buy) os ->
  Forall (fun o => ord_crosses (rec_request taker) o = true /\ ord_price o = p) os ->
  (length os <= n)%nat -> rec_remaining taker <= INT64_MAX ->
  let r := match_queue (rec_request taker) (rec_remaining taker) os in
  exists lvl' h',
    consume_level n p (lvl_head lvl) lvl taker fills h =
      Some (lvl', set_remaining r.1.2 taker, fills ++ r.1.1, h') /\
    level_rep h' self lvl' r.2 /\ consumed os r.2 h h'.
Proof.
  induction os as [|o os IH]; intros n h lvl taker fills Hrep Hd Hok Hc Hn Hr.
  { cbn. exists lvl, h. rewrite (lr_head _ _ _ _ Hrep), set_remaining_eta, app_nil_r.
    split; [by destruct n|]. split; [done|]. split; [done|set_solver]. }
  rewrite (lr_head _ _ _ _ Hrep). cbn [head_or].
  apply Forall_cons in Hok as [[Hb Ho] Hok]. apply Forall_cons in Hc as [[Hco Hpo] Hc].
  cbn [match_queue]. rewrite Hco. cbn [negb]. rewrite orb_false_r.
  destruct (Z.leb_spec (rec_remaining taker) 0) as [Hle|Hgt].
  { cbn. exists lvl, h. rewrite consume_level_stop by done.
    rewrite set_remaining_eta, app_nil_r. split; [done|]. split; [done|]. split; done. }
  destruct n as [|n]; [cbn in Hn; lia|].
  pose proof (consume_level_fill n self p h lvl o os taker fills Hrep Hd Hpo ltac:(lia) Ho) as Hturn. cbv zeta in Hturn.
  rewrite (lr_head _ _ _ _ Hrep) in Hturn. cbn [head_or] in Hturn.
  set (t := Z.min (rec_remaining taker) (ord_remaining o)) in *. apply NoDup_cons in Hd as [Hno Hd].
  destruct (Z.eqb_spec (ord_remaining o) t) as [Et|Et].
  - destruct Hturn as (lvl2 & h2 & -> & Hrep2 & Hf).
    destruct (IH n _ lvl2 (set_remaining (rec_remaining taker - t) taker) (fills ++ [fill_of (rec_request taker) o t])
      Hrep2 Hd Hok Hc ltac:(cbn in Hn; lia) ltac:(cbn; range)) as (lvl3 & h3 & E3 & Hrep3 & Hc3). rewrite E3. cbn in *.
    destruct (match_queue _ _ os) as [[fs rem'] os']. exists lvl3, h3. rewrite <- app_assoc.
    split; [done|]. split; [exact Hrep3|]. by eapply consumed_cons.
  - destruct Hturn as (lvl1 & r & -> & Hrep1). replace (rec_remaining taker - t) with 0 by lia.
    rewrite match_queue_done by lia. cbn in *. exists lvl1, (<[ord_key o := r]> h). split; [done|]. split; [exact Hrep1|].
    split; [|done]. cbn. intros k Hk. apply lookup_insert_ne. set_solver.
Qed.
