(* ===== verification/BookRefine.v ===== *)
(** * Shards implement books

    A side of a shard is an ordered map of levels; concatenating the queues of
    its levels gives the queue of [MatcherSpec].  Matching, resting and
    removing on the maps and lists of [Matcher] compute what the specification
    computes on queues. *)
From S2P Require Import Prelude Types OrderedMap Matcher MatcherSpec LevelRefine.

(** The queues of the levels of a side, in map order. *)
Abbreviation levels := (list (Z * list Order)).

Definition flat (L : levels) : list Order := concat (map snd L).

Lemma flat_cons e L : flat (e :: L) = e.2 ++ flat L.
Proof. done. Qed.

Lemma flat_app L1 L2 : flat (L1 ++ L2) = flat L1 ++ flat L2.
Proof. unfold flat. by rewrite map_app, concat_app. Qed.

(** One entry of the map and the queue it holds. *)
Definition entry_rep (h : heap) (buy : bool) (e : Z * PriceLevel) (l : Z * list Order) : Prop :=
  e.1 = l.1 /\ l.2 <> [] /\ Forall (fun o => ord_price o = l.1) l.2 /\
  level_rep h (buy, l.1) e.2 l.2.

Definition book_rep (h : heap) (buy : bool) (book : BookMap) (L : levels) : Prop :=
  Forall2 (entry_rep h buy) book L.

Lemma entry_rep_ext h h' buy e l :
  (forall k, k ∈ keys l.2 -> h' !! k = h !! k) -> entry_rep h buy e l -> entry_rep h' buy e l.
Proof. intros He (? & ? & ? & ?). repeat split; auto. all: by eapply level_rep_ext. Qed.

Lemma book_rep_ext h h' buy book L :
  (forall k, k ∈ keys (flat L) -> h' !! k = h !! k) -> book_rep h buy book L -> book_rep h' buy book L.
Proof.
  intros He H. induction H as [|e l book L Hel H IH]; [constructor|].
  rewrite flat_cons, map_app in He. constructor.
  - eapply entry_rep_ext; [|done]. intros k Hk. apply He. set_solver.
  - apply IH. intros k Hk. apply He. set_solver.
Qed.

Lemma book_rep_keys h buy book L : book_rep h buy book L -> book.*1 = L.*1.
Proof. induction 1 as [|e l book L (He & _) H IH]; cbn; congruence. Qed.

Lemma book_rep_some h buy book L k :
  book_rep h buy book L -> k ∈ keys (flat L) -> is_Some (h !! k).
Proof.
  induction 1 as [|e l book L (_ & _ & _ & Hl) H IH]; [set_solver|].
  rewrite flat_cons, map_app, elem_of_app. intros [Hk|Hk]; [|auto].
  eapply seg_some; [apply Hl|done].
Qed.

Lemma om_sorted_keys {V W} bf (m : list (Z * V)) (m' : list (Z * W)) :
  sublist (m'.*1) (m.*1) -> om_sorted bf m -> om_sorted bf m'.
Proof.
  revert m'. induction m as [|[k v] m IH]; intros m' Hs; cbn in *.
  - apply sublist_nil_r in Hs. by destruct m'.
  - intros [Hf Hm]. destruct m' as [|[k' v'] m']; [done|]. cbn in *.
    apply sublist_cons_r in Hs as [Hs|(l & El & Hs)].
    + apply (IH ((k', v') :: m')); done.
    + injection El as -> <-. split; [|by apply IH].
      rewrite Forall_forall in Hf. apply Forall_forall. intros e He.
      destruct (list_elem_of_fmap_1 fst m e.1) as (e' & -> & He'); [|by apply Hf].
      eapply elem_of_sublist; [|exact Hs]. by apply list_elem_of_fmap_2.
Qed.

(** The queue of a side is sorted when its map is. *)
Lemma flat_price h buy book L : book_rep h buy book L ->
  forall o, o ∈ flat L -> exists e, e ∈ book /\ ord_price o = e.1.
Proof.
  induction 1 as [|e l book L (He & _ & Hp & _) H IH]; [set_solver|].
  intros o. rewrite flat_cons, elem_of_app. intros [Ho|Ho].
  - exists e. split; [by left|]. rewrite Forall_forall in Hp. rewrite He. auto.
  - destruct (IH o Ho) as (e' & ? & ?). exists e'. split; [by right|done].
Qed.

(** ** Matching *)
Lemma match_queue_app taker os1 os2 : forall rem,
  Forall (fun o => ord_crosses taker o = true) os1 ->
  match_queue taker rem (os1 ++ os2) =
    let '(fs1, rem1, os1') := match_queue taker rem os1 in
    let '(fs2, rem2, os2') := match_queue taker rem1 os2 in
    (fs1 ++ fs2, rem2, os1' ++ os2').
Proof.
  induction os1 as [|o os1 IH]; intros rem Hc.
  - cbn. by destruct (match_queue taker rem os2) as [[? ?] ?].
  - apply Forall_cons in Hc as [Ho Hc]. cbn [app match_queue]. rewrite Ho. cbn [negb].
    rewrite orb_false_r. destruct (Z.leb_spec rem 0).
    + by rewrite !match_queue_done.
    + rewrite IH by done.
      destruct (match_queue taker (rem - _) os1) as [[fs1 r1] os1'].
      destruct (match_queue taker r1 os2) as [[fs2 r2] os2'].
      by destruct (_ =? _).
Qed.

Lemma size_bound (h : heap) ks :
  NoDup ks -> (forall k, k ∈ ks -> is_Some (h !! k)) -> (length ks <= size h)%nat.
Proof.
  intros Hd Hs. rewrite <- size_dom. rewrite <- (size_list_to_set (C := gset Z)) by done.
  apply subseteq_size. intros k Hk. apply elem_of_list_to_set in Hk. by apply elem_of_dom, Hs.
Qed.

Lemma level_size h self lvl os : level_rep h self lvl os -> NoDup (keys os) -> (length os <= size h)%nat.
Proof.
  intros Hl Hd. rewrite <- (length_map ord_key). apply size_bound; [done|].
  intros k Hk. eapply seg_some; [apply Hl|done].
Qed.

(** The loop over the levels stops: the book stays as it is. *)
Lemma book_stops buy book L h taker fills r :
  book_rep h buy book L -> r = ([] : list FillEvent, rec_remaining taker, flat L) ->
  exists (book' : BookMap) (L' : levels) (h' : heap),
    Some (book, taker, fills, h) = Some (book', set_remaining r.1.2 taker, fills ++ r.1.1, h') /\
    book_rep h' buy book' L' /\ flat L' = r.2 /\ sublist (book'.*1) (book.*1) /\
    consumed (flat L) r.2 h h'.
Proof.
  intros Hrep ->. exists book, L, h. cbn. rewrite set_remaining_eta, app_nil_r.
  split; [done|]. split; [done|]. split; [done|]. split; [done|]. by split.
Qed.

(** Consuming a level and then the levels after it. *)
Lemma consumed_app os1 os2 os1' os2' h h1 h2 :
  consumed os1 os1' h h1 -> consumed os2 os2' h1 h2 -> consumed (os1 ++ os2) (os1' ++ os2') h h2.
Proof.
  intros [A1 A2] [B1 B2]. split; intros k; rewrite map_app, ?not_elem_of_app, ?elem_of_app.
  - intros [Hk1 Hk2]. rewrite B1 by done. by apply A1.
  - intros Hk Hs. rewrite map_app, elem_of_app. destruct (decide (k ∈ keys os2)) as [Hin|Hni].
    + right. auto.
    + left. destruct Hk as [Hk|]; [|done]. apply A2; [done|]. by rewrite <- B1.
Qed.

(** A consumed level stays in the book if anything is left of it. *)
Lemma book_rep_level h buy p lvl os book L :
  level_rep h (buy, p) lvl os -> Forall (fun o => ord_price o = p) os -> book_rep h buy book L ->
  let book' := if level_empty lvl then book else (p, lvl) :: book in
  exists L', book_rep h buy book' L' /\ flat L' = os ++ flat L /\ sublist (book'.*1) (p :: book.*1).
Proof.
  intros Hl Hp Hb. destruct (level_empty lvl) eqn:El.
  - apply (level_empty_rep _ _ _ _ Hl) in El as ->. exists L. split; [done|]. split; [done|by constructor].
  - exists ((p, os) :: L). split; [|split; [by rewrite flat_cons|done]]. constructor; [|done].
    split; [done|]. split; [|done]. cbn. intros ->. by rewrite (proj2 (level_empty_rep _ _ _ _ Hl)) in El.
Qed.

Lemma consume_book_spec buy book L : forall h taker fills,
  book_rep h buy book L -> NoDup (keys (flat L)) -> Forall (order_ok buy) (flat L) ->
  rec_remaining taker <= INT64_MAX ->
  let r := match_queue (rec_request taker) (rec_remaining taker) (flat L) in
  exists book' L' h',
    consume_book book taker fills h = Some (book', set_remaining r.1.2 taker, fills ++ r.1.1, h') /\
    book_rep h' buy book' L' /\ flat L' = r.2 /\ sublist (book'.*1) (book.*1) /\
    consumed (flat L) r.2 h h'.
Proof.
  intros h taker fills Hrep. revert h taker fills Hrep.
  induction book as [|[p lvl] book IH] in L |- *; intros h taker fills Hrep Hd Hok Hr.
  { apply Forall2_nil_inv_l in Hrep as ->. cbn.
    exists [], [], h. rewrite set_remaining_eta, app_nil_r. repeat split; auto. constructor. }
  apply Forall2_cons_inv_l in Hrep as ([p' os] & L' & He & Hrep & ->).
  pose proof He as (Hp & Hne & Hpr & Hl). cbn in Hp, Hne, Hpr, Hl. subst p'.
  rewrite flat_cons in *. cbn [snd] in *. rewrite map_app in Hd.
  apply NoDup_app in Hd as (Hd1 & Hd12 & Hd2). apply Forall_app in Hok as [Hok1 Hok2].
  cbn [consume_book].
  destruct (Z.gtb_spec (rec_remaining taker) 0) as [Hgt|Hle]; cbn [negb].
  2: { change (os ++ flat L') with (flat ((p, os) :: L')). eapply book_stops; [by constructor|]. by apply match_queue_done. }
  destruct (crosses _ _ p) eqn:Ec; cbn [negb].
  2: { change (os ++ flat L') with (flat ((p, os) :: L')). eapply book_stops; [by constructor|].
       rewrite flat_cons. destruct os as [|o os]; [done|]. cbn.
       apply Forall_cons in Hpr as [Hpo _]. unfold ord_crosses. rewrite Hpo, Ec.
       by rewrite orb_true_r. }
  assert (Hc : Forall (fun o => ord_crosses (rec_request taker) o = true) os).
  { eapply Forall_impl; [exact Hpr|]. intros o Ho. cbn in Ho. unfold ord_crosses. by rewrite Ho. }
  destruct (consume_level_spec (buy, p) p buy os (size h) h lvl taker fills Hl Hd1 Hok1)
    as (lvl1 & h1 & -> & Hl1 & Hc1); [by apply Forall_and|by eapply level_size|done|].
  cbn [mbind option_bind]. rewrite match_queue_app by done.
  pose proof (match_queue_rem (rec_request taker) buy os Hok1 (rec_remaining taker) ltac:(lia)) as Hb.
  pose proof (match_queue_shrinks (rec_request taker) buy os Hok1 (rec_remaining taker)) as Hsh.
  destruct (match_queue (rec_request taker) (rec_remaining taker) os) as [[fs1 rem1] os1].
  cbn in Hb, Hsh, Hc1, Hl1 |- *.
  assert (Hrep1 : book_rep h1 buy book L').
  { eapply book_rep_ext; [|exact Hrep]. intros k Hk. apply Hc1. intros Hk'. by apply (Hd12 k). }
  destruct (IH L' h1 (set_remaining rem1 taker) (fills ++ fs1) Hrep1 Hd2 Hok2 ltac:(cbn; lia))
    as (book2 & L2 & h2 & -> & Hrep2 & Hf2 & Hs2 & Hc2).
  cbn in Hf2, Hc2 |- *.
  pose proof (match_queue_shrinks (rec_request taker) buy (flat L') Hok2 rem1) as Hsh2.
  destruct (match_queue (rec_request taker) rem1 (flat L')) as [[fs2 rem2] os2]. cbn in *.
  assert (Hl2 : level_rep h2 (buy, p) lvl1 os1).
  { eapply level_rep_ext; [|exact Hl1]. intros k Hk. apply Hc2. apply Hd12.
    eapply elem_of_sublist; [exact Hk|by apply shrinks_keys]. }
  pose proof (consumed_app _ _ _ _ _ _ _ Hc1 Hc2) as Hcons.
  destruct (book_rep_level h2 buy p lvl1 os1 book2 L2 Hl2) as (L3 & Hrep3 & Hf3 & Hs3); [|done|].
  { exact (shrinks_Forall (fun r => req_price r = p) _ _ Hsh Hpr). }
  exists (if level_empty lvl1 then book2 else (p, lvl1) :: book2), L3, h2. rewrite <- app_assoc, Hf3, Hf2.
  split; [done|]. split; [done|]. split; [done|]. split; [|done]. etrans; [exact Hs3|by apply sublist_skip].
Qed.

(** ** Sides and shards *)
Definition side_rep (h : heap) (buy : bool) (book : BookMap) (q : list Order) : Prop :=
  exists L, book_rep h buy book L /\ flat L = q /\ om_sorted (before buy) book.

Record shard_rep (sh : MarketShard) (b : Book) : Prop := {
  sr_side buy : side_rep (book_orders sh) buy (book_of buy sh) (queue buy b);
  sr_dom k : is_Some (book_orders sh !! k) -> k ∈ keys (all_orders b);
  sr_seq : next_sequence sh = bk_seq b;
  sr_wf : book_wf b }.

Lemma new_shard_rep : shard_rep new_shard new_book.
Proof.
  split; cbn.
  - intros buy. exists []. destruct buy; split; [constructor|done|constructor|done].
  - intros k. rewrite lookup_empty. by intros [? ?].
  - done.
  - apply new_book_wf.
Qed.

Lemma side_rep_ext h h' buy book q :
  (forall k, k ∈ keys q -> h' !! k = h !! k) -> side_rep h buy book q -> side_rep h' buy book q.
Proof.
  intros He (L & Hr & <- & Hs). exists L. split; [|done]. by eapply book_rep_ext.
Qed.

Lemma side_rep_some h buy book q k : side_rep h buy book q -> k ∈ keys q -> is_Some (h !! k).
Proof. intros (L & Hr & <- & _). by eapply book_rep_some. Qed.

(** The queues of the two sides hold different keys. *)
Lemma queues_disjoint b buy k :
  book_wf b -> k ∈ keys (queue buy b) -> k ∉ keys (queue (negb buy) b).
Proof.
  intros [_ _ _ _ Hd _] Hk Hk'. unfold all_orders in Hd. rewrite map_app in Hd.
  apply NoDup_app in Hd as (_ & Hd & _). destruct buy; cbn in *; by apply (Hd k).
Qed.

Lemma queue_nodup b buy : book_wf b -> NoDup (keys (queue buy b)).
Proof.
  intros [_ _ _ _ Hd _]. unfold all_orders in Hd. rewrite map_app in Hd.
  apply NoDup_app in Hd as (H1 & _ & H2). by destruct buy.
Qed.

Lemma all_orders_elem b buy k :
  k ∈ keys (all_orders b) <-> k ∈ keys (queue buy b) \/ k ∈ keys (queue (negb buy) b).
Proof.
  unfold all_orders. rewrite map_app, elem_of_app. destruct buy; cbn; tauto.
Qed.

Lemma queue_set_same b buy q : queue buy (set_queue buy q b) = q.
Proof. by destruct buy. Qed.

Lemma queue_set_other b buy q : queue (negb buy) (set_queue buy q b) = queue (negb buy) b.
Proof. by destruct buy. Qed.

Lemma book_set_same sh buy m : book_of buy (set_book buy m sh) = m.
Proof. by destruct buy. Qed.

Lemma book_set_other sh buy m : book_of (negb buy) (set_book buy m sh) = book_of (negb buy) sh.
Proof. by destruct buy. Qed.

Lemma book_set_orders sh buy h : book_of buy (set_orders h sh) = book_of buy sh.
Proof. by destruct buy. Qed.

Lemma orders_set_book sh buy m : book_orders (set_book buy m sh) = book_orders sh.
Proof. by destruct buy. Qed.

Lemma seq_set_book sh buy m : next_sequence (set_book buy m sh) = next_sequence sh.
Proof. by destruct buy. Qed.

Lemma seq_set_queue b buy q : bk_seq (set_queue buy q b) = bk_seq b.
Proof. by destruct buy. Qed.

Create Rewrite HintDb shard.
#[export] Hint Rewrite queue_set_same queue_set_other book_set_same book_set_other
  book_set_orders orders_set_book seq_set_book seq_set_queue : shard.

(** Replacing one side of a shard and the queue it holds, when the rest of the
    heap is unchanged. *)
Lemma shard_rep_set sh b buy m q h :
  shard_rep sh b -> side_rep h buy m q ->
  (forall k, k ∈ keys (queue (negb buy) b) -> h !! k = book_orders sh !! k) ->
  (forall k, is_Some (h !! k) -> k ∈ keys q \/ k ∈ keys (queue (negb buy) b)) ->
  book_wf (set_queue buy q b) ->
  shard_rep (set_orders h (set_book buy m sh)) (set_queue buy q b).
Proof.
  intros [Hs Hd Hq Hwf] Hm Ho Hk Hwf'. split; [..|done].
  - intros buy'. rewrite book_set_orders. cbn [set_orders book_orders].
    destruct (decide (buy' = buy)) as [->|Hne].
    + autorewrite with shard. done.
    + assert (buy' = negb buy) as -> by (by destruct buy, buy').
      autorewrite with shard. eapply side_rep_ext; [exact Ho|apply Hs].
  - intros k Hs'. apply (all_orders_elem _ buy). autorewrite with shard. by apply Hk.
  - cbn. by autorewrite with shard.
Qed.

Lemma shard_rep_seq sh b n :
  shard_rep sh b ->
  shard_rep (mkShard (book_orders sh) (bids sh) (asks sh) n) (mkBook (bk_bids b) (bk_asks b) n).
Proof.
  intros [Hs Hd Hq [W1 W2 W3 W4 W5 W6]]. split; cbn; [|exact Hd|done|by split].
  intros buy. specialize (Hs buy). by destruct buy.
Qed.

(** ** [match_order] *)
Lemma match_order_spec sh b taker :
  shard_rep sh b -> rec_remaining taker <= INT64_MAX ->
  let opp := negb (is_buy (req_side (rec_request taker))) in
  let r := match_queue (rec_request taker) (rec_remaining taker) (queue opp b) in
  exists sh', match_order sh taker = Some (sh', set_remaining r.1.2 taker, r.1.1) /\
    shard_rep sh' (set_queue opp r.2 b).
Proof.
  intros Hrep Hr opp. unfold match_order. fold opp.
  destruct (sr_side _ _ Hrep opp) as (L & HL & Hf & Hsort).
  pose proof (sr_wf _ _ Hrep) as Hwf.
  pose proof (queue_nodup b opp Hwf) as Hd. pose proof (queue_wf b opp Hwf) as Hok.
  rewrite <- Hf in Hd, Hok.
  destruct (consume_book_spec opp _ L _ taker [] HL Hd Hok Hr)
    as (m & L' & h' & -> & HL' & Hf' & Hsub & Hc1 & Hc2).
  cbn [mbind option_bind]. rewrite Hf in *. cbn. eexists. split; [done|].
  apply shard_rep_set; auto.
  - exists L'. split; [done|]. split; [done|]. by eapply om_sorted_keys.
  - intros k Hk. apply Hc1. intros Hk'. by apply (queues_disjoint b opp k).
  - intros k Hs. destruct (decide (k ∈ keys (queue opp b))) as [Hin|Hni]; [auto|].
    rewrite Hc1 in Hs by done. apply (sr_dom _ _ Hrep), (all_orders_elem _ opp) in Hs.
    destruct Hs; [done|auto].
  - pose proof (match_queue_shrinks (rec_request taker) opp _ Hok (rec_remaining taker)) as Hsh.
    pose proof (match_queue_ok (rec_request taker) opp _ Hok (rec_remaining taker)) as Ho.
    apply (book_wf_shrinks b); [done|..]; destruct opp; cbn in *; auto;
      first [apply (queue_wf b true)|apply (queue_wf b false)]; done.
Qed.

(** ** [rest_order] *)
Lemma insert_order_app o q1 q2 :
  Forall (fun o' => before (ord_buy o) (ord_price o) (ord_price o') = false) q1 ->
  Forall (fun o' => before (ord_buy o) (ord_price o) (ord_price o') = true) q2 ->
  insert_order o (q1 ++ q2) = q1 ++ o :: q2.
Proof.
  intros H1 H2. induction H1 as [|x q1 Hx H1 IH]; cbn.
  - destruct H2 as [|y q2 Hy H2]; cbn; [done|]. by rewrite Hy.
  - by rewrite Hx, IH.
Qed.

(** A map cut at the level of price [p]; the level may be new and empty. *)
Record cut (h : heap) (buy : bool) (p : Z) (m : BookMap) (q : list Order)
    (m1 : BookMap) (lvl : PriceLevel) (m2 : BookMap) (q1 os q2 : list Order) : Prop := {
  cut_m : m = m1 ++ (p, lvl) :: m2;
  cut_q : q = q1 ++ os ++ q2;
  cut_fresh : p ∉ m1.*1;
  cut_sorted : om_sorted (before buy) m;
  cut_left : exists L1, book_rep h buy m1 L1 /\ flat L1 = q1;
  cut_right : exists L2, book_rep h buy m2 L2 /\ flat L2 = q2;
  cut_level : level_rep h (buy, p) lvl os;
  cut_price : Forall (fun o => ord_price o = p) os }.

Lemma om_sorted_cut {V} (bf : Z -> Z -> bool) `{!StrictOrderB bf} (m1 : list (Z * V)) p v m2 :
  om_sorted bf (m1 ++ (p, v) :: m2) <->
  om_sorted bf m1 /\ om_sorted bf m2 /\ Forall (fun e => bf e.1 p = true) m1 /\
  Forall (fun e => bf p e.1 = true) m2 /\
  Forall (fun a => Forall (fun b => bf a.1 b.1 = true) m2) m1.
Proof.
  rewrite om_sorted_app. cbn. split.
  - intros (H1 & [H2 H3] & H4). repeat split; auto;
      (eapply Forall_impl; [exact H4|]; intros x Hx; by apply Forall_cons in Hx as []).
  - intros (H1 & H2 & H3 & H4 & H5). repeat split; auto.
    rewrite Forall_forall in *. intros x Hx. constructor; auto.
Qed.

Lemma find_cut h buy p m q lvl :
  side_rep h buy m q -> om_find p m = Some lvl ->
  exists m1 m2 q1 os q2, cut h buy p m q m1 lvl m2 q1 os q2 /\ os <> [].
Proof.
  intros (L & HL & <- & Hs) Hf.
  destruct (om_find_Some _ _ _ Hf) as (m1 & m2 & -> & Hn).
  apply Forall2_app_inv_l in HL as (L1 & L2' & H1 & H2 & ->).
  apply Forall2_cons_inv_l in H2 as ([p' os] & L2 & (Hp & Hne & Hpr & Hl) & H2 & ->).
  cbn in *. subst p'. exists m1, m2, (flat L1), os, (flat L2). split; [|done].
  split; auto; [|by exists L1|by exists L2]. by rewrite flat_app, flat_cons.
Qed.

Lemma emplace_cut h buy p m q :
  side_rep h buy m q ->
  exists m1 lvl m2 q1 os q2,
    cut h buy p (om_try_emplace (before buy) p empty_level m).1 q m1 lvl m2 q1 os q2.
Proof.
  intros HS. pose proof HS as (L & HL & Hq & Hs).
  destruct (om_try_emplace_spec (before buy) m p empty_level Hs)
    as [(m1 & v & m2 & -> & Hn & ->)|(m1 & m2 & -> & Hn & Hb1 & Hb2 & ->)]; cbn.
  - assert (Hf : om_find p (m1 ++ (p, v) :: m2) = Some v) by by apply om_find_mid.
    destruct (find_cut _ _ _ _ _ _ HS Hf) as (m1' & m2' & q1 & os & q2 & Hc & _).
    by eexists m1', v, m2', q1, os, q2.
  - apply Forall2_app_inv_l in HL as (L1 & L2 & H1 & H2 & ->).
    apply om_sorted_app in Hs as (S1 & S2 & S12).
    exists m1, empty_level, m2, (flat L1), [], (flat L2). split; auto.
    + by rewrite <- Hq, flat_app.
    + rewrite fmap_app in Hn. set_solver.
    + by apply om_sorted_cut; [apply _|].
    + by exists L1.
    + by exists L2.
    + by split.
Qed.

(** Putting a changed level back in its place. *)
Lemma cut_replace h h' buy p m q m1 lvl m2 q1 os q2 lvl' os' :
  cut h buy p m q m1 lvl m2 q1 os q2 ->
  (forall k, k ∈ keys (q1 ++ q2) -> h' !! k = h !! k) ->
  level_rep h' (buy, p) lvl' os' -> Forall (fun o => ord_price o = p) os' -> os' <> [] ->
  side_rep h' buy (m1 ++ (p, lvl') :: m2) (q1 ++ os' ++ q2).
Proof.
  intros [-> -> Hn Hs (L1 & H1 & <-) (L2 & H2 & <-) Hl Hp] He Hl' Hp' Hne.
  rewrite map_app in He.
  exists (L1 ++ (p, os') :: L2). split; [|split].
  - apply Forall2_app; [|constructor]; [| |].
    + eapply book_rep_ext; [|exact H1]. intros; apply He; set_solver.
    + done.
    + eapply book_rep_ext; [|exact H2]. intros; apply He; set_solver.
  - by rewrite flat_app, flat_cons.
  - apply om_sorted_cut in Hs; [|apply _]. by apply om_sorted_cut; [apply _|].
Qed.

Lemma cut_erase h h' buy p m q m1 lvl m2 q1 os q2 :
  cut h buy p m q m1 lvl m2 q1 os q2 ->
  (forall k, k ∈ keys (q1 ++ q2) -> h' !! k = h !! k) ->
  side_rep h' buy (m1 ++ m2) (q1 ++ q2).
Proof.
  intros [-> -> Hn Hs (L1 & H1 & <-) (L2 & H2 & <-) Hl Hp] He.
  rewrite map_app in He. exists (L1 ++ L2). split; [|split].
  - apply Forall2_app; (eapply book_rep_ext; [|done]); intros; apply He; set_solver.
  - by rewrite flat_app.
  - apply om_sorted_cut in Hs as (? & ? & ? & ? & ?); [|apply _]. by apply om_sorted_app.
Qed.

(** Prices on the two sides of the cut. *)
Lemma cut_insert h buy p m q m1 lvl m2 q1 os q2 o :
  cut h buy p m q m1 lvl m2 q1 os q2 -> ord_buy o = buy -> ord_price o = p ->
  insert_order o q = q1 ++ (os ++ [o]) ++ q2.
Proof.
  intros [-> -> Hn Hs (L1 & H1 & <-) (L2 & H2 & <-) Hl Hp] Hb Ho.
  apply om_sorted_cut in Hs as (_ & _ & Hb1 & Hb2 & _); [|apply _].
  rewrite app_assoc, insert_order_app; [by rewrite <- !app_assoc|..]; rewrite Hb, Ho.
  - apply Forall_app. split; apply Forall_forall; intros x Hx.
    + destruct (flat_price _ _ _ _ H1 x Hx) as (e & He & ->).
      rewrite Forall_forall in Hb1. apply before_asym; [apply _|]. by apply Hb1.
    + rewrite Forall_forall in Hp. rewrite (Hp x Hx). apply before_irrefl.
  - apply Forall_forall; intros x Hx. destruct (flat_price _ _ _ _ H2 x Hx) as (e & He & ->).
    rewrite Forall_forall in Hb2. by apply Hb2.
Qed.

(** A shard in which one level is changed, and the nodes of its orders only. *)
Lemma shard_rep_part sh b buy m q1 os q2 h' os' :
  shard_rep sh b -> queue buy b = q1 ++ os ++ q2 -> side_rep h' buy m (q1 ++ os' ++ q2) ->
  (forall k, k ∈ keys os' -> k ∉ keys (queue (negb buy) b)) ->
  (forall k, k ∉ keys os' -> k ∉ keys os -> h' !! k = book_orders sh !! k) ->
  (forall k, k ∈ keys os -> k ∉ keys os' -> h' !! k = None) ->
  book_wf (set_queue buy (q1 ++ os' ++ q2) b) ->
  shard_rep (set_orders h' (set_book buy m sh)) (set_queue buy (q1 ++ os' ++ q2) b).
Proof.
  intros Hrep Hq Hs Hn Hout Hgone Hwf. apply shard_rep_set; [done|done| | |done].
  - intros k Hk. apply Hout; [intros Hin; by apply (Hn k)|]. intros Hin.
    apply (queues_disjoint b buy k (sr_wf _ _ Hrep)); [|done]. rewrite Hq, !map_app. set_solver.
  - intros k Hk. rewrite !map_app. destruct (decide (k ∈ keys os')); [set_solver|].
    destruct (decide (k ∈ keys os)) as [Hin|Hni]; [rewrite Hgone in Hk by done; by destruct Hk|].
    rewrite Hout in Hk by done. apply (sr_dom _ _ Hrep), (all_orders_elem _ buy) in Hk.
    rewrite Hq, !map_app in Hk. set_solver.
Qed.

Lemma rest_order_spec sh b o :
  shard_rep sh b -> ord_key o ∉ keys (all_orders b) ->
  book_wf (set_queue (ord_buy o) (insert_order o (queue (ord_buy o) b)) b) ->
  exists sh',
    rest_order (set_orders (<[ord_key o := node o None None None]> (book_orders sh)) sh) (ord_key o)
      = Some sh' /\
    shard_rep sh' (set_queue (ord_buy o) (insert_order o (queue (ord_buy o) b)) b).
Proof.
  intros Hrep Hk Hwf. set (h0 := <[ord_key o := _]> (book_orders sh)).
  assert (Ho0 : h0 !! ord_key o = Some (node o None None None)) by apply lookup_insert_eq.
  set (buy := ord_buy o) in *. set (p := ord_price o).
  rewrite (all_orders_elem _ buy) in Hk.
  assert (H0 : side_rep h0 buy (book_of buy sh) (queue buy b)).
  { eapply side_rep_ext; [|apply Hrep]. intros k Hk'. unfold h0. apply lookup_insert_ne. set_solver. }
  unfold rest_order. cbn [set_orders book_orders]. rewrite Ho0.
  cbn [mbind option_bind node rec_request].
  change (is_buy (req_side (ord_request o))) with buy.
  change (req_price (ord_request o)) with p. rewrite book_set_orders.
  destruct (emplace_cut h0 buy p _ _ H0) as (m1 & lvl & m2 & q1 & os & q2 & Hc).
  destruct (om_try_emplace (before buy) p empty_level (book_of buy sh)) as [m ins]. cbn in Hc.
  pose proof Hc as [-> Hq Hn Hs _ _ Hl Hp]. rewrite om_find_mid by done. cbn [mbind option_bind].
  pose proof (queue_nodup b buy (sr_wf _ _ Hrep)) as Hd. rewrite Hq, !map_app in Hd.
  apply NoDup_mid in Hd as [Hos Hout1].
  assert (Hko : ord_key o ∉ keys q1 /\ ord_key o ∉ keys os /\ ord_key o ∉ keys q2).
  { rewrite Hq, !map_app in Hk. set_solver. }
  assert (Hd' : NoDup (keys (os ++ [o]))).
  { rewrite map_app. cbn. apply NoDup_app. split; [done|]. split; [set_solver|apply NoDup_singleton]. }
  destruct (push_back_spec h0 (buy, p) lvl os o None None None Hl Hd' Ho0)
    as (lvl' & h' & -> & Hl' & [Hf1 Hf2]).
  cbn [mbind option_bind]. rewrite om_set_mid by done. eexists. split; [done|].
  rewrite map_app in Hf1. cbn in Hf1.
  rewrite (cut_insert _ _ _ _ _ _ _ _ _ _ _ _ Hc eq_refl eq_refl) in *.
  replace (set_orders h' (set_book buy (m1 ++ (p, lvl') :: m2) (set_orders h0 sh)))
    with (set_orders h' (set_book buy (m1 ++ (p, lvl') :: m2) sh)) by (by destruct buy).
  apply (shard_rep_part _ _ _ _ _ os); [done|done| | | | |done].
  - eapply cut_replace; [exact Hc| |exact Hl'| |by destruct os].
    + intros k Hk'. apply Hf1. rewrite map_app in Hk'. specialize (Hout1 k Hk'). set_solver.
    + apply Forall_app. split; [done|]. by repeat constructor.
  - intros k. rewrite map_app, elem_of_app. intros [Hin| ->%list_elem_of_singleton]; [|by intros ?; apply Hk; right].
    apply queues_disjoint; [apply Hrep|]. rewrite Hq, !map_app. set_solver.
  - intros k. rewrite map_app. cbn. intros Hk1 _. rewrite Hf1 by set_solver. apply lookup_insert_ne. set_solver.
  - intros k Hk1 []. rewrite map_app. set_solver.
Qed.

(** ** [remove_order_from_book] *)
Lemma elem_cut h buy m q o :
  side_rep h buy m q -> o ∈ q ->
  exists m1 lvl m2 q1 xs ys q2,
    cut h buy (ord_price o) m q m1 lvl m2 q1 (xs ++ o :: ys) q2.
Proof.
  intros (L & HL & <- & Hs) Ho.
  assert (exists L1 p os L2, L = L1 ++ (p, os) :: L2 /\ o ∈ os) as (L1 & p & os & L2 & -> & Hin).
  { clear HL Hs. induction L as [|[p os] L IH]; [set_solver|].
    rewrite flat_cons in Ho. apply elem_of_app in Ho as [Ho|Ho]; [by exists [], p, os, L|].
    destruct (IH Ho) as (L1 & p' & os' & L2 & -> & ?). by exists ((p, os) :: L1), p', os', L2. }
  apply Forall2_app_inv_r in HL as (m1 & m2' & H1 & H2 & ->).
  apply Forall2_cons_inv_r in H2 as ([p' lvl] & m2 & (Hp & Hne & Hpr & Hl) & H2 & ->).
  cbn in *. subst p'. apply list_elem_of_split in Hin as (xs & ys & ->).
  assert (ord_price o = p) as Hop.
  { rewrite Forall_forall in Hpr. apply Hpr. set_solver. }
  subst p. exists m1, lvl, m2, (flat L1), xs, ys, (flat L2).
  split; auto; [by rewrite flat_app, flat_cons| |by exists L1|by exists L2].
  apply om_sorted_cut in Hs as (_ & _ & Hb & _ & _); [|apply _].
  intros (e & E & He)%list_elem_of_fmap. rewrite Forall_forall in Hb. apply Hb in He.
  rewrite <- E, before_irrefl in He. done.
Qed.

Lemma spec_remove_queue b buy k :
  k ∉ keys (queue (negb buy) b) ->
  spec_remove k b = set_queue buy (remove_key k (queue buy b)) b.
Proof.
  intros Hk. unfold spec_remove. destruct buy; cbn in *;
    by rewrite (remove_key_absent k _ Hk).
Qed.

(** The order a key of the heap belongs to, and its node. *)
Lemma shard_rep_node sh b k r :
  shard_rep sh b -> book_orders sh !! k = Some r ->
  exists o l p n, o ∈ queue (ord_buy o) b /\ ord_key o = k /\ r = node o (Some l) p n.
Proof.
  intros Hrep Hr.
  assert (Hin : k ∈ keys (all_orders b)) by (apply (sr_dom _ _ Hrep); by eexists).
  rewrite (all_orders_elem _ true) in Hin.
  assert (exists buy o, o ∈ queue buy b /\ ord_key o = k) as (buy & o & Ho & Ek).
  { destruct Hin as [Hin|Hin]; apply list_elem_of_fmap in Hin as (o & -> & Ho);
      [by exists true, o|by exists false, o]. }
  assert (ord_buy o = buy) as Hb.
  { pose proof (queue_wf b buy (sr_wf _ _ Hrep)) as Hq. rewrite Forall_forall in Hq.
    apply (Hq o Ho). }
  subst buy. destruct (elem_cut _ _ _ _ o (sr_side _ _ Hrep (ord_buy o)) Ho)
    as (m1 & lvl & m2 & q1 & xs & ys & q2 & Hc).
  pose proof (seg_mid _ _ _ _ _ _ _ (lr_seg _ _ _ _ (cut_level _ _ _ _ _ _ _ _ _ _ _ Hc))) as Hn.
  rewrite Ek, Hr in Hn. injection Hn as ->. by eexists o, _, _, _.
Qed.

Lemma remove_order_spec sh b k r :
  shard_rep sh b -> book_orders sh !! k = Some r ->
  exists sh', remove_order_from_book sh k = Some sh' /\
    shard_rep (set_orders (base.delete k (book_orders sh')) sh') (spec_remove k b).
Proof.
  intros Hrep Hr. pose proof (sr_wf _ _ Hrep) as Hwf.
  destruct (shard_rep_node sh b k r Hrep Hr) as (o & l & pr & nx & Ho & <- & ->).
  set (buy := ord_buy o) in *. set (p := ord_price o).
  destruct (elem_cut _ _ _ _ o (sr_side _ _ Hrep buy) Ho)
    as (m1 & lvl & m2 & q1 & xs & ys & q2 & Hc). fold p in Hc.
  pose proof Hc as [Hm Hq Hn Hs _ _ Hl Hp].
  unfold remove_order_from_book. rewrite Hr. cbn [mbind option_bind node rec_level rec_request].
  change (is_buy (req_side (ord_request o))) with buy.
  change (req_price (ord_request o)) with p. rewrite Hm, om_find_mid by done.
  pose proof (queue_nodup b buy Hwf) as Hd. pose proof Hd as Hdq. rewrite Hq, map_app, map_app in Hd.
  apply NoDup_mid in Hd as [Hdl Hq12]. rewrite <- map_app in Hq12.
  destruct (remove_spec _ _ _ xs o ys Hl Hdl) as (lvl' & h' & -> & Hl' & [Hf1 Hf2]).
  cbn [mbind option_bind]. rewrite om_set_mid, om_erase_mid by done.
  eexists. split; [done|]. cbn [set_orders book_orders].
  set (m' := if level_empty lvl' then _ else _).
  replace (set_orders _ (set_orders h' (set_book buy m' sh)))
    with (set_orders (base.delete (ord_key o) h') (set_book buy m' sh)) by (by destruct buy).
  assert (Hko : ord_key o ∉ keys (queue (negb buy) b)).
  { apply queues_disjoint; [done|]. by apply list_elem_of_fmap_2. }
  assert (Hrm : remove_key (ord_key o) (queue buy b) = q1 ++ (xs ++ ys) ++ q2).
  { rewrite Hq in *. rewrite <- (app_assoc xs), app_assoc. cbn.
    rewrite remove_key_mid; [by rewrite <- !app_assoc| |done].
    rewrite <- app_assoc. by rewrite <- (app_assoc xs) in Hdq. }
  rewrite (spec_remove_queue b buy) by done. rewrite Hrm.
  pose proof (spec_remove_wf (ord_key o) b Hwf) as Hw. rewrite (spec_remove_queue b buy), Hrm in Hw by done.
  apply (shard_rep_part _ _ _ _ _ (xs ++ o :: ys)); [done|done| | | | |done].
  - assert (Hout : forall k, k ∈ keys (q1 ++ q2) -> base.delete (ord_key o) h' !! k = book_orders sh !! k).
    { intros k Hk%Hq12. rewrite lookup_delete_ne by (rewrite map_app in Hk; set_solver). by apply Hf1. }
    unfold m'. destruct (level_empty lvl') eqn:El.
    + apply (level_empty_rep _ _ _ _ Hl') in El as ->. cbn. eapply cut_erase; [exact Hc|exact Hout].
    + eapply cut_replace; [exact Hc|exact Hout|exact Hl'| |].
      * apply Forall_app in Hp as [? [? ?]%Forall_cons]. by apply Forall_app.
      * intros E. by rewrite (proj2 (level_empty_rep _ _ _ _ Hl') E) in El.
  - intros k Hk. apply queues_disjoint; [done|]. rewrite Hq, !map_app in *. set_solver.
  - intros k _ Hk. rewrite lookup_delete_ne by (rewrite map_app in Hk; set_solver). by apply Hf1.
  - intros k Hk1 Hk2. rewrite map_app in Hk1, Hk2. assert (k = ord_key o) as -> by set_solver. apply lookup_delete_eq.
Qed.
