(* ===== verification/MatcherRefine.v ===== *)
(** * The matching engine implements the order book

    [place_order], [submit], [cancel] and [replace] of [Matcher] compute the
    operations of [MatcherSpec], from every state they can reach and for every
    request: no pointer dangles and every loop ends. *)
From S2P Require Import Prelude Types OrderedMap Matcher MatcherSpec LevelRefine BookRefine.

(** ** Admission tests *)
Lemma book_rep_head h buy book L p lvl rest :
  book_rep h buy book L -> book = (p, lvl) :: rest ->
  exists o q, flat L = o :: q /\ ord_price o = p.
Proof.
  intros HL ->. apply Forall2_cons_inv_l in HL as ([p' os] & L' & (Hp & Hne & Hpr & _) & _ & ->).
  cbn in *. subst. destruct os as [|o os]; [done|]. exists o, (os ++ flat L').
  by apply Forall_cons in Hpr as [? _].
Qed.

Lemma existsb_crosses_head order o q :
  queue_sorted (negb (is_buy (req_side order))) (o :: q) ->
  existsb (ord_crosses order) (o :: q) = ord_crosses order o.
Proof.
  intros [Hs _]. cbn. destruct (ord_crosses order o) eqn:Ec; [done|]. cbn.
  induction Hs as [|x q Hx Hs IH]; cbn; [done|]. by rewrite (crosses_behind order o x Hx Ec).
Qed.

(** Testing the best price tests every price. *)
Lemma post_only_spec sh b order :
  shard_rep sh b ->
  post_only_would_cross sh order =
    existsb (ord_crosses order) (queue (negb (is_buy (req_side order))) b).
Proof.
  intros Hrep. unfold post_only_would_cross. set (opp := negb _).
  destruct (sr_side _ _ Hrep opp) as (L & HL & Hf & _).
  pose proof (queue_wf_sorted b opp (sr_wf _ _ Hrep)) as Hs.
  destruct (book_of opp sh) as [|[p lvl] rest] eqn:E.
  - apply Forall2_nil_inv_l in HL as ->. cbn in Hf. by rewrite <- Hf.
  - destruct (book_rep_head _ _ _ _ _ _ _ HL eq_refl) as (o & q & Ef & <-).
    rewrite <- Hf, Ef in *. by rewrite existsb_crosses_head.
Qed.

(** The loop of [fillable_quantity], when the depth of the side fits [int64]:
    it stops early exactly when there is enough. *)
Lemma fillable_loop_spec order h book L : forall total,
  book_rep h (negb (is_buy (req_side order))) book L ->
  queue_sorted (negb (is_buy (req_side order))) (flat L) ->
  Forall (order_ok (negb (is_buy (req_side order)))) (flat L) ->
  0 <= total -> total + depth (flat L) <= INT64_MAX ->
  (fillable_loop order book total <? req_quantity order) =
    (total + depth (List.filter (ord_crosses order) (flat L)) <? req_quantity order).
Proof.
  induction book as [|[p lvl] book IH] in L |- *; intros total HL Hs Hok Ht Hb.
  - apply Forall2_nil_inv_l in HL as ->. cbn. by rewrite Zsum_nil, Z.add_0_r.
  - apply Forall2_cons_inv_l in HL as ([p' os] & L' & (Hp & Hne & Hpr & Hl) & HL & ->).
    cbn in Hp, Hne, Hpr, Hl. subst p'. rewrite flat_cons in *. cbn [snd] in *.
    apply queue_sorted_app in Hs as (_ & Hs & Hs12). apply Forall_app in Hok as [Hok1 Hok2].
    rewrite Zsum_app in Hb. rewrite List.filter_app, Zsum_app.
    assert (Hd1 : 0 <= depth os).
    { apply Zsum_nonneg. eapply Forall_impl; [exact Hok1|]. intros o [_ Ho]. lia. }
    assert (Hd2 : forall q, Forall (order_ok (negb (is_buy (req_side order)))) q ->
                   0 <= depth (List.filter (ord_crosses order) q) <= depth q).
    { clear. induction 1 as [|o q [_ Ho] H IH]; [cbn; rewrite Zsum_nil; lia|].
      cbn. destruct (ord_crosses order o); autorewrite with zsum; lia. }
    specialize (Hd2 _ Hok2).
    cbn [fillable_loop]. destruct (crosses _ _ p) eqn:Ec; cbn [negb].
    + rewrite (lr_total _ _ _ _ Hl), i64_add_r, i64_small by range.
      assert (List.filter (ord_crosses order) os = os) as ->.
      { clear -Hpr Ec. induction Hpr as [|o os Ho Hpr IH]; cbn; [done|].
        unfold ord_crosses at 1. by rewrite Ho, Ec, IH. }
      destruct (Z.geb_spec (total + depth os) (req_quantity order)) as [Hge|Hlt]; [lia|].
      rewrite (IH L') by (auto; lia). f_equal. lia.
    + assert (forall q, Forall (fun o => ord_crosses order o = false) q ->
                List.filter (ord_crosses order) q = []) as Hnone.
      { clear. induction 1 as [|o q Ho H IH]; cbn; [done|]. by rewrite Ho. }
      destruct os as [|o os]; [done|].
      apply Forall_cons in Hpr as [Ho Hpr]. apply Forall_cons in Hs12 as [Hs12 _].
      assert (Hc : ord_crosses order o = false) by (unfold ord_crosses; by rewrite Ho).
      rewrite !Hnone; [cbn; rewrite Zsum_nil; f_equal; lia| |].
      * eapply Forall_impl; [exact Hs12|]. intros x Hx. exact (crosses_behind _ _ _ Hx Hc).
      * constructor; [done|]. eapply Forall_impl; [exact Hpr|].
        intros x Hx. cbn in Hx. unfold ord_crosses in *. by rewrite Hx, <- Ho.
Qed.

Lemma fillable_spec sh b order :
  shard_rep sh b ->
  depth (queue (negb (is_buy (req_side order))) b) <= INT64_MAX ->
  (fillable_quantity sh order <? req_quantity order) = (liquidity b order <? req_quantity order).
Proof.
  intros Hrep Hd. set (opp := negb (is_buy (req_side order))) in *.
  destruct (sr_side _ _ Hrep opp) as (L & HL & Hf & _). pose proof (sr_wf _ _ Hrep) as Hwf.
  assert (fillable_quantity sh order = fillable_loop order (book_of opp sh) 0) as ->.
  { unfold fillable_quantity, opp, book_of. by destruct (is_buy _). }
  unfold liquidity. fold opp. rewrite <- Hf in *.
  rewrite (fillable_loop_spec order (book_orders sh) _ L 0 HL); [done|..|lia|lia];
    fold opp; rewrite Hf; auto.
Qed.

(** ** [place_order] *)
Lemma make_taker_eq order s : exists d,
  make_taker order s =
    mkRecord order (req_quantity order) d (display_size_of order) s None None None.
Proof.
  unfold make_taker, display_size_of.
  destruct (HasFlag (req_flags order) kHidden), (HasFlag (req_flags order) kIceberg); by eexists.
Qed.

(** The record that comes to rest is the node of its order. *)
Lemma taker_rests order s rem :
  refresh_display (set_remaining rem (make_taker order s)) = node (mkOrder order rem s) None None None.
Proof.
  destruct (make_taker_eq order s) as [d ->].
  unfold refresh_display, is_hidden, is_iceberg, node, ord_display, display_of,
    set_display_remaining, set_remaining; cbn.
  destruct (HasFlag (req_flags order) kHidden); cbn; [done|]. by destruct (_ && _).
Qed.

Lemma make_taker_request order s : rec_request (make_taker order s) = order.
Proof. by destruct (make_taker_eq order s) as [d ->]. Qed.

Lemma make_taker_remaining order s : rec_remaining (make_taker order s) = req_quantity order.
Proof. by destruct (make_taker_eq order s) as [d ->]. Qed.

Lemma find_key_heap sh b k :
  shard_rep sh b -> book_orders sh !! k = None <-> find_key k (all_orders b) = None.
Proof.
  intros Hrep. rewrite find_key_None, eq_None_not_Some. split; intros H Hk; apply H.
  - apply (all_orders_elem _ true) in Hk.
    destruct Hk as [Hk|Hk]; [by apply (side_rep_some _ _ _ _ _ (sr_side _ _ Hrep true))|
                             by apply (side_rep_some _ _ _ _ _ (sr_side _ _ Hrep false))].
  - by apply (sr_dom _ _ Hrep).
Qed.

Lemma place_order_spec sh b order :
  shard_rep sh b -> request_ok order ->
  let r := place_with (fillable_quantity sh order <? req_quantity order) b order in
  exists sh', place_order sh order = Some (sh', r.2) /\ shard_rep sh' r.1.
Proof.
  intros Hrep Hq. unfold place_order, place_with. rewrite (post_only_spec sh b) by done.
  destruct (_ && _); [by eexists|]. destruct (_ && _); [by eexists|]. cbn.
  pose proof (settle_wf b order (sr_wf _ _ Hrep) Hq) as Hwf.
  set (sh1 := mkShard _ _ _ _). set (b1 := mkBook (bk_bids b) (bk_asks b) (u64 (bk_seq b + 1))).
  assert (Hrep1 : shard_rep sh1 b1).
  { unfold sh1, b1. rewrite (sr_seq _ _ Hrep). by apply shard_rep_seq. }
  assert (Hqe : forall buy, queue buy b1 = queue buy b) by (by intros []).
  unfold settle, after_match, match_run in *. fold b1 in Hwf |- *.
  pose proof (match_order_spec sh1 b1 (make_taker order (next_sequence sh)) Hrep1) as Hm.
  cbv zeta in Hm. rewrite make_taker_request, make_taker_remaining, Hqe in Hm.
  destruct Hm as (sh2 & -> & Hrep2); [unfold request_ok in Hq; range|].
  cbn [mbind option_bind rec_remaining set_remaining].
  destruct (match_queue order (req_quantity order) _) as [[fills rem] opp]. cbn in Hrep2, Hwf |- *.
  destruct (rem >? 0); [|by eexists].
  destruct (_ || _); [by eexists|].
  set (b2 := set_queue _ opp b1) in *.
  pose proof (find_key_heap sh2 b2 (encode_order_id (req_id order)) Hrep2) as Hfk.
  destruct (find_key _ _) eqn:Ef.
  - destruct (book_orders sh2 !! _) eqn:Eh; [by eexists|]. discriminate (proj1 Hfk eq_refl).
  - rewrite (proj2 Hfk eq_refl). rewrite taker_rests. rewrite (sr_seq _ _ Hrep).
    apply find_key_None in Ef.
    destruct (rest_order_spec sh2 b2 (mkOrder order rem (bk_seq b)) Hrep2 Ef Hwf)
      as (sh3 & E3 & Hrep3).
    change (ord_key (mkOrder order rem (bk_seq b))) with (encode_order_id (req_id order)) in E3.
    rewrite E3. by eexists.
Qed.

Lemma place_order_refines sh b order :
  shard_rep sh b -> request_ok order ->
  depth (queue (negb (is_buy (req_side order))) b) <= INT64_MAX ->
  exists sh', place_order sh order = Some (sh', (spec_place b order).2) /\
              shard_rep sh' (spec_place b order).1.
Proof.
  intros Hrep Hq Hd. unfold spec_place. rewrite <- (fillable_spec sh b order) by done.
  by apply place_order_spec.
Qed.

(** ** The engine *)
Definition engine_rep (e : Engine) (a : gmap Z Book) : Prop :=
  forall m, option_Forall2 shard_rep (e !! m) (a !! m).

Lemma engine_rep_empty : engine_rep ∅ ∅.
Proof. intros m. rewrite !lookup_empty. constructor. Qed.

Lemma engine_rep_insert e a m sh b :
  engine_rep e a -> shard_rep sh b -> engine_rep (<[m := sh]> e) (<[m := b]> a).
Proof.
  intros He Hs m'. destruct (decide (m = m')) as [<-|Hne].
  - rewrite !lookup_insert_eq. by constructor.
  - by rewrite !lookup_insert_ne.
Qed.

Lemma engine_rep_delete e a m : engine_rep e a -> engine_rep (base.delete m e) (base.delete m a).
Proof.
  intros He m'. destruct (decide (m = m')) as [<-|Hne].
  - rewrite !lookup_delete_eq. constructor.
  - by rewrite !lookup_delete_ne.
Qed.

Lemma engine_rep_ensure e a m :
  engine_rep e a -> shard_rep (ensure_market m e).1 (default new_book (a !! m)).
Proof.
  intros He. unfold ensure_market. specialize (He m).
  destruct He; cbn; [done|apply new_shard_rep].
Qed.

(** Every book has at most [B] to take. *)
Definition depth_below (B : Z) (a : gmap Z Book) : Prop :=
  forall m b, a !! m = Some b -> total_depth b <= B.

(** In one step, the fill-or-kill test of the code either is the one of the
    specification or, when a depth overflows, some other answer. *)
Lemma place_sim sh b order :
  shard_rep sh b -> request_ok order ->
  exists n sh', place_order sh order = Some (sh', (place_with n b order).2) /\
    shard_rep sh' (place_with n b order).1 /\
    (total_depth b <= INT64_MAX -> place_with n b order = spec_place b order).
Proof.
  intros Hrep Hq. destruct (place_order_spec sh b order Hrep Hq) as (sh' & E & Hrep').
  exists (fillable_quantity sh order <? req_quantity order), sh'.
  split; [done|]. split; [done|]. intros Hd. unfold spec_place.
  rewrite <- (fillable_spec sh b order); [done..|].
  pose proof (queue_depth_bound (negb (is_buy (req_side order))) b (sr_wf _ _ Hrep)). lia.
Qed.

Lemma submit_sim e a r :
  engine_rep e a -> request_ok r ->
  exists n e', submit r e = Some (e', (spec_submit (place_with n) r a).2) /\
    engine_rep e' (spec_submit (place_with n) r a).1 /\
    (depth_below INT64_MAX a -> spec_submit (place_with n) r a = spec_submit spec_place r a).
Proof.
  intros He Hq. unfold submit, spec_submit.
  destruct (_ <=? 0); [by exists true; eexists|]. destruct (_ && _); [by exists true; eexists|].
  set (m := id_market (req_id r)). set (b := default new_book (a !! m)).
  pose proof (engine_rep_ensure e a m He) as Hs. fold b in Hs.
  destruct (ensure_market m e) as [sh e1] eqn:Ee. cbn in Hs.
  destruct (place_sim sh b r Hs Hq) as (n & sh' & E & Hrep & Hd). exists n. rewrite E.
  cbn [mbind option_bind]. eexists. destruct (place_with n b r) as [b' res] eqn:Ep.
  split; [done|]. split.
  - cbn. replace (<[m := sh']> e1) with (<[m := sh']> e); [by apply engine_rep_insert|].
    unfold ensure_market in Ee. destruct (e !! m); injection Ee as _ <-; [done|].
    by rewrite insert_insert_eq.
  - intros Hb. rewrite <- Hd; [done|]. unfold b. destruct (a !! m) as [b0|] eqn:Em; [by apply (Hb m)|].
    cbn. unfold INT64_MAX. cbv. discriminate.
Qed.

Lemma cancel_sim e a r :
  engine_rep e a ->
  exists e', cancel r e = Some (e', (spec_cancel r a).2) /\ engine_rep e' (spec_cancel r a).1.
Proof.
  intros He. unfold cancel, spec_cancel. set (m := id_market (cancel_id r)).
  set (k := encode_order_id (cancel_id r)).
  pose proof (He m) as Hm. inversion Hm as [sh b Hrep E1 E2|E1 E2]; [|by eexists].
  pose proof (find_key_heap sh b k Hrep) as Hfk.
  destruct (book_orders sh !! k) as [rec|] eqn:Eh.
  - destruct (find_key k (all_orders b)); [|discriminate (proj2 Hfk eq_refl)].
    destruct (remove_order_spec sh b k rec Hrep Eh) as (sh' & -> & Hrep').
    eexists. split; [done|]. by apply engine_rep_insert.
  - rewrite (proj1 Hfk eq_refl). by eexists.
Qed.

(** The node and the order of a key carry the same request. *)
Lemma shard_rep_request sh b k r o :
  shard_rep sh b -> book_orders sh !! k = Some r -> find_key k (all_orders b) = Some o ->
  rec_request r = ord_request o.
Proof.
  intros Hrep Hr Hf. destruct (shard_rep_node sh b k r Hrep Hr) as (o' & l & p & n & Ho & Ek & ->).
  apply find_key_Some in Hf as [Hin Ek'].
  assert (Hin' : o' ∈ all_orders b).
  { unfold all_orders. destruct (ord_buy o'); cbn in Ho; set_solver. }
  pose proof (wf_keys _ (sr_wf _ _ Hrep)) as Hd.
  enough (o = o') as -> by done.
  apply (NoDup_map_inj ord_key (all_orders b)); auto. congruence.
Qed.

Lemma replace_sim e a r :
  engine_rep e a -> in_i64 (rep_new_quantity r) ->
  exists n e', replace r e = Some (e', (spec_replace (place_with n) r a).2) /\
    engine_rep e' (spec_replace (place_with n) r a).1 /\
    (depth_below INT64_MAX a -> spec_replace (place_with n) r a = spec_replace spec_place r a).
Proof.
  intros He Hq. unfold replace, spec_replace. set (m := id_market (rep_id r)).
  set (k := encode_order_id (rep_id r)).
  pose proof (He m) as Hm. inversion Hm as [sh b Hrep E1 E2|E1 E2]; [|by exists true; eexists].
  pose proof (find_key_heap sh b k Hrep) as Hfk.
  destruct (book_orders sh !! k) as [rec|] eqn:Eh.
  2: { rewrite (proj1 Hfk eq_refl). by exists true; eexists. }
  destruct (find_key k (all_orders b)) as [o|] eqn:Ef; [|discriminate (proj2 Hfk eq_refl)].
  rewrite (shard_rep_request sh b k rec o Hrep Eh Ef).
  destruct (remove_order_spec sh b k rec Hrep Eh) as (sh' & -> & Hrep'). cbn [mbind option_bind].
  destruct (place_sim _ _ (replaced_request (ord_request o) r) Hrep' Hq) as (n & sh2 & -> & Hrep2 & Hd).
  exists n. cbn [mbind option_bind]. eexists.
  destruct (place_with n (spec_remove k b) _) as [b' res] eqn:Ep.
  split; [done|]. split; [by apply engine_rep_insert|].
  intros Hb. rewrite <- Hd; [done|].
  pose proof (spec_remove_depth k b (sr_wf _ _ Hrep)). symmetry in E2. specialize (Hb m b E2). lia.
Qed.

Lemma exec_sim e a op :
  engine_rep e a -> op_ok op ->
  exists n e', exec op e = Some (e', (spec_exec (place_with n) op a).2) /\
    engine_rep e' (spec_exec (place_with n) op a).1 /\
    (depth_below INT64_MAX a -> spec_exec (place_with n) op a = spec_exec spec_place op a).
Proof.
  intros He Hok. destruct op as [m|m|r|r|r]; cbn in *.
  - exists true, (add_market m e). split; [done|]. split; [|done]. unfold add_market.
    pose proof (He m) as Hm. destruct Hm; [done|].
    by apply engine_rep_insert; [|apply new_shard_rep].
  - exists true, (clear_market m e). split; [done|]. split; [|done].
    apply engine_rep_insert; [by apply engine_rep_delete|apply new_shard_rep].
  - destruct (submit_sim e a r He Hok) as (n & e' & -> & He' & Hd).
    exists n, e'. cbn [mbind option_bind]. destruct (spec_submit (place_with n) r a) as [a' res].
    split; [done|]. split; [done|]. intros Hb. by rewrite <- Hd.
  - destruct (cancel_sim e a r He) as (e' & -> & He').
    exists true, e'. cbn [mbind option_bind]. by destruct (spec_cancel r a) as [a' res].
  - destruct (replace_sim e a r He Hok) as (n & e' & -> & He' & Hd).
    exists n, e'. cbn [mbind option_bind]. destruct (spec_replace (place_with n) r a) as [a' res].
    split; [done|]. split; [done|]. intros Hb. by rewrite <- Hd.
Qed.

(** Every run ends, and in a represented state. *)
Lemma run_total ops : forall e a,
  engine_rep e a -> Forall op_ok ops ->
  exists e' replies a', run ops e = Some (e', replies) /\ engine_rep e' a'.
Proof.
  induction ops as [|op ops IH]; intros e a He Hok; [by exists e, [], a|].
  apply Forall_cons in Hok as [Hop Hok]. destruct (exec_sim e a op He Hop) as (n & e1 & E & He1 & _).
  destruct (IH e1 _ He1 Hok) as (e2 & rs & a2 & E2 & He2).
  cbn. rewrite E. cbn [mbind option_bind]. rewrite E2. by eexists _, _, a2.
Qed.

(** ** Depth along a run *)
Lemma depth_below_insert B a m b :
  depth_below B a -> total_depth b <= B -> depth_below B (<[m := b]> a).
Proof.
  intros Ha Hb m' b'. destruct (decide (m = m')) as [<-|Hne].
  - rewrite lookup_insert_eq. by intros [= <-].
  - rewrite lookup_insert_ne by done. apply Ha.
Qed.

Lemma depth_below_mono B B' a : B <= B' -> depth_below B a -> depth_below B' a.
Proof. intros HB Ha m b Hm. specialize (Ha m b Hm). lia. Qed.

Definition books_wf (a : gmap Z Book) : Prop := forall m b, a !! m = Some b -> book_wf b.

Lemma engine_rep_wf e a : engine_rep e a -> books_wf a.
Proof.
  intros He m b Hb. specialize (He m). rewrite Hb in He. inversion He as [sh b' Hr|].
  apply Hr.
Qed.

Lemma spec_exec_depth op B a :
  books_wf a -> 0 <= B -> depth_below B a ->
  depth_below (B + op_quantity op) (spec_exec spec_place op a).1.
Proof.
  intros Hwf HB Ha. assert (H0 : total_depth new_book = 0) by done.
  pose proof (depth_below_mono B (B + op_quantity op) a) as Hmono.
  assert (Hle : B <= B + op_quantity op) by (destruct op; cbn; lia).
  specialize (Hmono Hle Ha). destruct op as [m|m|r|r|r]; cbn in *.
  - destruct (a !! m); [done|]. apply depth_below_insert; [done|lia].
  - apply depth_below_insert; [|lia]. intros m' b. rewrite lookup_delete_Some. intros []. eauto.
  - unfold spec_submit. destruct (_ <=? 0); [done|]. destruct (_ && _); [done|].
    set (m := id_market (req_id r)). unfold spec_place. set (n := _ <? _).
    pose proof (place_with_depth n (default new_book (a !! m)) r) as Hp.
    destruct (place_with n _ r) as [b' res]. cbn in *. apply depth_below_insert; [done|].
    destruct (a !! m) as [b|] eqn:Em; cbn in *.
    + specialize (Hp (Hwf m b Em)). specialize (Ha m b Em). lia.
    + specialize (Hp new_book_wf). lia.
  - unfold spec_cancel. destruct (a !! _) as [b|] eqn:Em; [|done].
    destruct (find_key _ _); [|done]. apply depth_below_insert; [done|].
    pose proof (spec_remove_depth (encode_order_id (cancel_id r)) b (Hwf _ _ Em)).
    specialize (Ha _ _ Em). lia.
  - unfold spec_replace. destruct (a !! _) as [b|] eqn:Em; [|done].
    destruct (find_key _ _) as [o|]; [|done]. unfold spec_place. set (n := _ <? _).
    set (k := encode_order_id (rep_id r)) in *.
    pose proof (place_with_depth n (spec_remove k b) (replaced_request (ord_request o) r)
      (spec_remove_wf k b (Hwf _ _ Em))) as Hp.
    destruct (place_with n _ _) as [b' res]. cbn in *. apply depth_below_insert; [done|].
    pose proof (spec_remove_depth k b (Hwf _ _ Em)). specialize (Ha _ _ Em). lia.
Qed.

Lemma run_refines ops : forall e a B,
  engine_rep e a -> Forall op_ok ops -> 0 <= B -> depth_below B a ->
  B + Zsum op_quantity ops <= INT64_MAX ->
  exists e', run ops e = Some (e', (spec_run spec_place ops a).2) /\
             engine_rep e' (spec_run spec_place ops a).1.
Proof.
  induction ops as [|op ops IH]; intros e a B He Hok HB Hb Hq; [by exists e|].
  apply Forall_cons in Hok as [Hop Hok]. rewrite Zsum_cons in Hq.
  assert (0 <= op_quantity op) by (destruct op; cbn; lia).
  assert (0 <= Zsum op_quantity ops) by (apply Zsum_nonneg, Forall_forall; intros []; cbn; lia).
  destruct (exec_sim e a op He Hop) as (n & e1 & E & He1 & Hd).
  rewrite Hd in * by (eapply depth_below_mono; [|exact Hb]; lia).
  pose proof (spec_exec_depth op B a (engine_rep_wf _ _ He) HB Hb) as Hb1.
  cbn [run spec_run]. rewrite E. cbn [mbind option_bind].
  destruct (spec_exec spec_place op a) as [a1 r1]. cbn in *.
  destruct (IH e1 a1 (B + op_quantity op) He1 Hok ltac:(lia) Hb1 ltac:(lia)) as (e2 & E2 & He2).
  rewrite E2. destruct (spec_run spec_place ops a1). by eexists.
Qed.
