(* ===== verification/MatcherProps.v ===== *)
(** * Properties of the matching engine

    The guarantees of [libs/matcher], stated of the engine as it is written.
    They are proved through [MatcherRefine]: every shard the engine can reach
    represents a book of [MatcherSpec]. *)
From S2P Require Import Prelude Types OrderedMap Matcher MatcherSpec LevelRefine BookRefine MatcherRefine.

(** [sh] is the shard of market [m] after the operations [ops]. *)
Definition reachable (ops : list Op) (m : Z) (sh : MarketShard) : Prop :=
  Forall op_ok ops /\ (run ops ∅ ≫= fun r => r.1 !! m) = Some sh.

(** The orders that rest on a side, from the first to match: the levels in map
    order, each level along its [next] pointers. *)
Fixpoint chain (n : nat) (k : option Z) (h : heap) : list OrderRequest :=
  match n, k with
  | S n, Some k =>
      match h !! k with
      | Some r => rec_request r :: chain n (rec_next r) h
      | None => []
      end
  | _, _ => []
  end.

Definition ranking (buy : bool) (sh : MarketShard) : list OrderRequest :=
  concat (map (fun e : Z * PriceLevel => chain (size (book_orders sh)) (lvl_head e.2) (book_orders sh))
    (book_of buy sh)).

(** What the aggregates of a side add up to. *)
Definition side_total (buy : bool) (sh : MarketShard) : Z :=
  Zsum (fun e : Z * PriceLevel => lvl_total_qty e.2) (book_of buy sh).

(** ** From the engine to the specification *)
Lemma run_split ops e rs m sh :
  run ops ∅ = Some (e, rs) -> e !! m = Some sh -> (run ops ∅ ≫= fun r => r.1 !! m) = Some sh.
Proof. by intros ->. Qed.

Lemma reachable_rep ops m sh : reachable ops m sh -> exists b, shard_rep sh b.
Proof.
  intros [Hok E]. destruct (run_total ops ∅ ∅ engine_rep_empty Hok) as (e & rs & a & E' & He).
  rewrite E' in E. cbn in E. specialize (He m). rewrite E in He.
  inversion He as [? b Hr|]. by exists b.
Qed.

Lemma spec_exec_wf op a : books_wf a -> op_ok op -> books_wf (spec_exec spec_place op a).1.
Proof.
  assert (Hins : forall a m b, books_wf a -> book_wf b -> books_wf (<[m := b]> a)).
  { intros a0 m b Ha Hb m' b'. destruct (decide (m = m')) as [<-|].
    - rewrite lookup_insert_eq. by intros [= <-].
    - rewrite lookup_insert_ne by done. apply Ha. }
  assert (Hget : forall m, books_wf a -> book_wf (default new_book (a !! m))).
  { intros m Ha. destruct (a !! m) eqn:E; [by apply (Ha m)|apply new_book_wf]. }
  intros Ha Hok. destruct op as [m|m|r|r|r]; cbn in *.
  - destruct (a !! m); [done|]. apply Hins; [done|apply new_book_wf].
  - apply Hins; [|apply new_book_wf]. intros m' b. rewrite lookup_delete_Some. intros []. eauto.
  - unfold spec_submit. destruct (_ <=? 0); [done|]. destruct (_ && _); [done|].
    unfold spec_place. set (n := _ <? req_quantity r).
    pose proof (place_with_wf n _ r (Hget (id_market (req_id r)) Ha) Hok) as Hp.
    destruct (place_with _ _ _). by apply Hins.
  - unfold spec_cancel. destruct (a !! _) eqn:E; [|done]. destruct (find_key _ _); [|done].
    apply Hins; [done|]. apply spec_remove_wf. eauto.
  - unfold spec_replace. destruct (a !! _) as [b|] eqn:E; [|done].
    destruct (find_key _ _) as [o|]; [|done]. unfold spec_place.
    set (r' := replaced_request _ r). set (n := _ <? req_quantity r').
    pose proof (place_with_wf n _ r' (spec_remove_wf (encode_order_id (rep_id r)) b (Ha _ _ E)) Hok)
      as Hp.
    destruct (place_with _ _ _). by apply Hins.
Qed.

Lemma op_quantity_nonneg ops : 0 <= Zsum op_quantity ops.
Proof. apply Zsum_nonneg, Forall_forall. intros []; cbn; lia. Qed.

(** An invariant of the specification along a run; [P] may use the number of
    operations still to come, so that counters can be kept from wrapping. *)
Lemma spec_run_invariant (P : gmap Z Book -> list Op -> Prop) ops : forall a,
  (forall a op ops, books_wf a -> op_ok op -> P a (op :: ops) -> P (spec_exec spec_place op a).1 ops) ->
  books_wf a -> Forall op_ok ops -> P a ops -> P (spec_run spec_place ops a).1 [].
Proof.
  induction ops as [|op ops IH]; intros a Hstep Hwf Hok HP; [done|].
  apply Forall_cons in Hok as [Hop Hok].
  pose proof (spec_exec_wf op a Hwf Hop) as Hwf1. pose proof (Hstep a op ops Hwf Hop HP) as HP1.
  cbn. destruct (spec_exec spec_place op a) as [a1 r1]. cbn in *.
  specialize (IH a1 Hstep Hwf1 Hok HP1). by destruct (spec_run spec_place ops a1).
Qed.

Lemma books_wf_empty : books_wf ∅.
Proof. intros m b. by rewrite lookup_empty. Qed.

(** The book a shard represents, when the quantities of the run fit [int64]. *)
Lemma reachable_spec ops m sh :
  reachable ops m sh -> Zsum op_quantity ops <= INT64_MAX ->
  exists b, (spec_run spec_place ops ∅).1 !! m = Some b /\ shard_rep sh b /\ total_depth b <= INT64_MAX.
Proof.
  intros [Hok E] Hq.
  destruct (run_refines ops ∅ ∅ 0 engine_rep_empty Hok ltac:(lia)) as (e & E' & He);
    [intros ? ?; by rewrite lookup_empty|lia|].
  rewrite E' in E. cbn in E. specialize (He m). rewrite E in He.
  inversion He as [? b Hr Hsh Hbk|]. exists b. split; [done|]. split; [done|].
  assert (exists B, 0 <= B /\ depth_below B (spec_run spec_place ops ∅).1 /\
    B + Zsum op_quantity [] <= INT64_MAX) as (B & _ & Hd & HB).
  { refine (spec_run_invariant (fun a ops => exists B, 0 <= B /\ depth_below B a /\
      B + Zsum op_quantity ops <= INT64_MAX) ops ∅ _ books_wf_empty Hok _).
    - intros a op ops0 Hwf _ (B & HB & Hb & Hs). exists (B + op_quantity op).
      rewrite Zsum_cons in Hs. pose proof (op_quantity_nonneg [op]) as Hp.
      rewrite Zsum_cons, Zsum_nil in Hp.
      split; [lia|]. split; [by apply spec_exec_depth|lia].
    - exists 0. split; [done|]. split; [intros ? ?; by rewrite lookup_empty|lia]. }
  rewrite Zsum_nil in HB. symmetry in Hbk. pose proof (Hd _ _ Hbk). lia.
Qed.


(** ** What the shard shows of its book *)
Abbreviation requests := (map ord_request).

Lemma chain_seg h self os : forall p n,
  seg h self p os None -> (length os <= n)%nat -> chain n (head_or os None) h = requests os.
Proof.
  induction os as [|o os IH]; intros p n Hs Hn; [by destruct n|].
  destruct n as [|n]; [cbn in Hn; lia|]. destruct Hs as [Hr Hs].
  cbn [chain head_or]. rewrite Hr. cbn. f_equal. apply (IH _ _ Hs). cbn in Hn. lia.
Qed.

Lemma ranking_rep sh b buy : shard_rep sh b -> ranking buy sh = requests (queue buy b).
Proof.
  intros Hrep. destruct (sr_side _ _ Hrep buy) as (L & HL & Hf & _).
  assert (Hd : NoDup (keys (flat L))) by (rewrite Hf; apply queue_nodup, (sr_wf _ _ Hrep)).
  unfold ranking. rewrite <- Hf. clear Hf. revert Hd.
  induction HL as [|[p lvl] [p' os] book L He HL IH]; intros Hd; [done|].
  rewrite flat_cons in Hd |- *. cbn [map concat snd fst] in *. rewrite !map_app in *.
  apply NoDup_app in Hd as (Hd1 & _ & Hd2). rewrite (IH Hd2). f_equal.
  destruct He as (_ & _ & _ & Hl). cbn in Hl. rewrite (lr_head _ _ _ _ Hl).
  apply (chain_seg _ (buy, p') _ None); [apply Hl|].
  rewrite <- (length_map ord_key). apply size_bound; [done|].
  intros k Hk. eapply seg_some; [apply Hl|done].
Qed.

Lemma side_total_rep sh b buy : shard_rep sh b -> side_total buy sh ==64 depth (queue buy b).
Proof.
  intros Hrep. destruct (sr_side _ _ Hrep buy) as (L & HL & Hf & _).
  unfold side_total. rewrite <- Hf. clear Hf.
  induction HL as [|[p lvl] [p' os] book L He HL IH]; [done|].
  rewrite flat_cons, Zsum_cons, Zsum_app. cbn [snd].
  destruct He as (_ & _ & _ & Hl). cbn in Hl. rewrite (lr_total _ _ _ _ Hl), i64_eqm.
  by rewrite IH.
Qed.

(** The prices of a side are those of its orders. *)
Lemma side_prices sh b buy p :
  shard_rep sh b -> p ∈ (book_of buy sh).*1 -> exists o, o ∈ queue buy b /\ ord_price o = p.
Proof.
  intros Hrep. destruct (sr_side _ _ Hrep buy) as (L & HL & Hf & _). rewrite <- Hf. clear Hf.
  induction HL as [|[p0 lvl] [p' os] book L He HL IH]; [set_solver|].
  destruct He as (E & Hne & Hp & _). cbn in E, Hne, Hp. subst p0. rewrite flat_cons. cbn.
  intros [->|Hin]%elem_of_cons.
  - destruct os as [|o os]; [done|]. apply Forall_cons in Hp as [Hp _].
    exists o. split; [by left|done].
  - destruct (IH Hin) as (o & Ho & E). exists o. split; [apply elem_of_app; by right|done].
Qed.

Lemma shard_rep_dom sh b k :
  shard_rep sh b -> is_Some (book_orders sh !! k) <-> k ∈ keys (all_orders b).
Proof.
  intros Hrep. split; [apply (sr_dom _ _ Hrep)|]. rewrite (all_orders_elem _ true).
  intros [Hk|Hk]; [by apply (side_rep_some _ _ _ _ _ (sr_side _ _ Hrep true))|
                   by apply (side_rep_some _ _ _ _ _ (sr_side _ _ Hrep false))].
Qed.

Lemma place_inv sh b order sh' res :
  shard_rep sh b -> request_ok order -> place_order sh order = Some (sh', res) ->
  exists n, (total_depth b <= INT64_MAX -> place_with n b order = spec_place b order) /\
    res = (place_with n b order).2 /\ shard_rep sh' (place_with n b order).1.
Proof.
  intros Hrep Hq E. destruct (place_sim sh b order Hrep Hq) as (n & sh2 & E2 & Hrep2 & Hd).
  rewrite E in E2. injection E2 as <- ->. by exists n.
Qed.

(** A request either trades and settles, or leaves the book as it is. *)
Lemma place_with_cases n b order :
  settled b order (place_with n b order).1 (place_with n b order).2 \/
  ((place_with n b order).1 = b /\ or_fills (place_with n b order).2 = [] /\
   or_accepted (place_with n b order).2 = false /\ or_resting (place_with n b order).2 = false /\
   or_fully_filled (place_with n b order).2 = false).
Proof.
  unfold place_with. destruct (_ && _); [by right|]. destruct (_ && _); [by right|].
  left. apply settle_settled.
Qed.

(** Matching removes orders from the head of the queue; the last one it reaches
    may stay, with less. *)
Lemma match_queue_head taker buy q rem :
  Forall (order_ok buy) q ->
  let r := match_queue taker rem q in
  exists k, (k <= length r.1.1 <= S k)%nat /\ ((k < length r.1.1)%nat -> r.1.2 = 0) /\
    requests r.2 = drop k (requests q) /\
    fill_maker_order <$> r.1.1 = take (length r.1.1) (req_id <$> requests q).
Proof.
  intros Hok.
  refine (match_queue_ind taker (fun rem q fs rem' q' =>
    exists k, (k <= length fs <= S k)%nat /\ ((k < length fs)%nat -> rem' = 0) /\
      requests q' = drop k (requests q) /\
      fill_maker_order <$> fs = take (length fs) (req_id <$> requests q)) buy _ _ _ _ q rem Hok); clear.
  - intros rem. exists 0%nat. cbn. split; [lia|]. split; [lia|done].
  - intros rem o q _. exists 0%nat. cbn. split; [lia|]. split; [lia|done].
  - intros rem o q _ _. exists 0%nat. cbn. split; [lia|]. split; [done|done].
  - intros rem o q fs rem' q'' _ _ _ (k & Hk & Hr & Hd & Hm). exists (S k). cbn.
    split; [lia|]. split; [intros; apply Hr; lia|]. split; [done|by rewrite Hm].
Qed.

Lemma insert_requests o q :
  queue_sorted (ord_buy o) q ->
  exists l1 l2, requests q = l1 ++ l2 /\ requests (insert_order o q) = l1 ++ ord_request o :: l2 /\
    Forall (fun r => before (ord_buy o) (ord_price o) (req_price r) = false) l1 /\
    Forall (fun r => before (ord_buy o) (ord_price o) (req_price r) = true) l2.
Proof.
  intros Hs. destruct (insert_order_split o q Hs) as (q1 & q2 & -> & -> & H1 & H2).
  exists (requests q1), (requests q2). rewrite !map_app. split; [done|]. split; [done|].
  by rewrite !Forall_map.
Qed.

(** ** A small market, used by the examples *)
Module Demo.
Definition id (n : Z) : OrderId := mkOrderId 1 0 n.
Definition limit (n : Z) (side : Side) (q p : Z) (tif : TimeInForce) (flags : Z) : OrderRequest :=
  mkRequest (id n) 7 side q p q tif flags.
Definition book : list Op :=
  [OpSubmit (limit 1 kSell 10 100 kGtc 0); OpSubmit (limit 2 kSell 5 100 kGtc 0);
   OpSubmit (limit 3 kSell 7 101 kGtc 0); OpSubmit (limit 4 kBuy 9 98 kGtc 0)].
Definition shard (ops : list Op) : MarketShard :=
  default new_shard (run ops ∅ ≫= fun r => r.1 !! 1).
Definition place (order : OrderRequest) : MarketShard * OrderResult :=
  default (new_shard, reject 0 []) (place_order (shard book) order).
Definition taker : OrderRequest := limit 5 kBuy 12 100 kGtc 0.
Definition fok : OrderRequest := limit 5 kBuy 16 100 kFok 0.
Definition ioc : OrderRequest := limit 5 kBuy 16 100 kIoc 0.
Definition post_only : OrderRequest := limit 5 kBuy 16 99 kGtc kPostOnly.
End Demo.

(** The quantities of concrete operations fit. *)
Ltac ops_ok :=
  repeat (apply Forall_cons; split; [first [exact I | vm_compute; split; discriminate]|]);
  apply Forall_nil; exact I.

Lemma demo_reachable : reachable Demo.book 1 (Demo.shard Demo.book).
Proof. split; [ops_ok|by vm_compute]. Qed.

(** ** The claims *)

(** C1: the pointer-level engine implements the abstract order book.  From the
    empty engine, a run of operations whose quantities add up to at most
    [INT64_MAX] returns, reply by reply, what the price-time priority book of
    [MatcherSpec] returns, and ends in a state that represents the book's. *)
Theorem engine_refines_order_book ops :
  Forall op_ok ops -> Zsum op_quantity ops <= INT64_MAX ->
  exists e, run ops ∅ = Some (e, (spec_run spec_place ops ∅).2) /\
            engine_rep e (spec_run spec_place ops ∅).1.
Proof.
  intros Hok Hq. apply (run_refines ops ∅ ∅ 0); [apply engine_rep_empty|done|done| |lia].
  intros m b. by rewrite lookup_empty.
Qed.

Lemma engine_refines_order_book_witness :
  exists e, run Demo.book ∅ = Some (e, (spec_run spec_place Demo.book ∅).2) /\
            engine_rep e (spec_run spec_place Demo.book ∅).1.
Proof.
  apply engine_refines_order_book;
    [ops_ok|by vm_compute].
Defined.

(** C2: no run of the engine, whatever its length and its quantities, reads a
    dangling pointer or loops: every run ends, with one reply per operation. *)
Theorem engine_never_stuck ops :
  Forall op_ok ops -> exists e replies, run ops ∅ = Some (e, replies) /\ length replies = length ops.
Proof.
  intros Hok. destruct (run_total ops ∅ ∅ engine_rep_empty Hok) as (e & rs & _ & E & _).
  exists e, rs. split; [done|]. clear Hok. revert e rs E. generalize (∅ : Engine).
  induction ops as [|op ops IH]; intros e0 e rs; [by intros [= <- <-]|].
  cbn. destruct (exec op e0) as [[e1 r]|]; [|done]. cbn.
  destruct (run ops e1) as [[e2 rs']|] eqn:E2; [|done]. cbn. intros [= <- <-]. cbn. by rewrite (IH _ _ _ E2).
Qed.

Lemma engine_never_stuck_witness :
  exists e replies, run Demo.book ∅ = Some (e, replies) /\ length replies = 4%nat.
Proof.
  apply (engine_never_stuck Demo.book).
  ops_ok.
Defined.

(** C16: after any run, the books of a market do not cross: every bid level is
    priced below every ask level, so no trade is left undone. *)
Theorem books_never_cross ops m sh :
  reachable ops m sh ->
  forall bid ask, bid ∈ (bids sh).*1 -> ask ∈ (asks sh).*1 -> bid < ask.
Proof.
  intros Hr bid ask Hb Ha. destruct (reachable_rep _ _ _ Hr) as [b Hrep].
  destruct (side_prices sh b true bid Hrep Hb) as (x & Hx & <-).
  destruct (side_prices sh b false ask Hrep Ha) as (y & Hy & <-).
  by apply (wf_uncrossed b (sr_wf _ _ Hrep)).
Qed.

Lemma books_never_cross_witness : 98 < 100.
Proof.
  apply (books_never_cross Demo.book 1 (Demo.shard Demo.book) demo_reachable);
    vm_compute; by left.
Defined.

Section Place.
Context (ops : list Op) (m : Z) (sh : MarketShard) (order : OrderRequest).
Context (sh' : MarketShard) (res : OrderResult).
Context (Hreach : reachable ops m sh) (Hq : request_ok order).
Context (Hplace : place_order sh order = Some (sh', res)).

Lemma place_reachable : exists b b',
  shard_rep sh b /\ shard_rep sh' b' /\
  (settled b order b' res \/
   (b' = b /\ or_fills res = [] /\ or_accepted res = false /\ or_resting res = false /\
    or_fully_filled res = false)).
Proof.
  destruct (reachable_rep _ _ _ Hreach) as [b Hrep].
  destruct (place_inv _ _ _ _ _ Hrep Hq Hplace) as (n & _ & -> & Hrep').
  exists b, (place_with n b order).1. split; [done|]. split; [done|]. apply place_with_cases.
Qed.

(** C14: price-time priority.  The makers of the fills are the first orders of
    the opposite ranking, in order; every one but the last leaves the book; what
    stays of the taker is ranked behind every order of its side with at least as
    good a price and before every worse one, and no other order moves. *)
Theorem fills_follow_priority :
  let own := is_buy (req_side order) in
  let opp := ranking (negb own) sh in
  let fills := or_fills res in
  (fill_maker_order <$> fills = take (length fills) (req_id <$> opp)) /\
  (exists k, (k <= length fills <= S k)%nat /\ ranking (negb own) sh' = drop k opp) /\
  (if or_resting res then
     exists l1 l2, ranking own sh = l1 ++ l2 /\ ranking own sh' = l1 ++ order :: l2 /\
       Forall (fun r => before own (req_price order) (req_price r) = false) l1 /\
       Forall (fun r => before own (req_price order) (req_price r) = true) l2
   else ranking own sh' = ranking own sh).
Proof.
  cbv zeta. destruct place_reachable as (b & b' & Hrep & Hrep' & Hcase).
  rewrite !(ranking_rep _ _ _ Hrep), !(ranking_rep _ _ _ Hrep').
  destruct Hcase as [Hs|(-> & -> & _ & -> & _)].
  - rewrite (st_fills _ _ _ _ Hs), (st_opp _ _ _ _ Hs), (st_own _ _ _ _ Hs).
    destruct (match_queue_head order _ _ (req_quantity order)
      (queue_wf b (negb (is_buy (req_side order))) (sr_wf _ _ Hrep))) as (k & Hk & _ & Hd & Hm).
    split; [done|]. split; [by exists k|]. destruct (or_resting res); [|done].
    apply (insert_requests (mkOrder order _ (bk_seq b))), queue_wf_sorted, (sr_wf _ _ Hrep).
  - split; [done|]. split; [|done]. exists 0%nat. cbn. split; [lia|done].
Qed.

(** C15: conservation.  The fills of an order for a positive quantity never exceed
    it and add up to it when the order is reported as filled, and the aggregates of
    the book change by what traded and what came to rest, modulo 2^64 whatever
    overflows. *)
Theorem place_order_conserves :
  let own := is_buy (req_side order) in
  let traded := Zsum fill_quantity (or_fills res) in
  0 < req_quantity order ->
  0 <= traded <= req_quantity order /\
  (or_fully_filled res = true -> traded = req_quantity order) /\
  side_total (negb own) sh' ==64 side_total (negb own) sh - traded /\
  side_total own sh' ==64
    side_total own sh + (if or_resting res then req_quantity order - traded else 0).
Proof.
  cbv zeta. intros Hp. destruct place_reachable as (b & b' & Hrep & Hrep' & Hcase).
  rewrite !(side_total_rep _ _ _ Hrep), !(side_total_rep _ _ _ Hrep').
  pose proof (queue_wf b (negb (is_buy (req_side order))) (sr_wf _ _ Hrep)) as Hok.
  destruct Hcase as [Hs|(-> & -> & _ & -> & Hff)].
  - destruct (match_queue_conserves order _ _ Hok (req_quantity order)) as [E1 E2].
    pose proof (match_queue_rem order _ _ Hok (req_quantity order) ltac:(lia)) as Hr.
    pose proof (st_full _ _ _ _ Hs) as Hfull.
    rewrite (st_fills _ _ _ _ Hs), (st_opp _ _ _ _ Hs), (st_own _ _ _ _ Hs).
    unfold match_run in *. cbv zeta in E1, E2. rewrite E2.
    split; [lia|]. split; [intros Hf; apply Hfull in Hf; lia|]. split; [done|].
    destruct (or_resting res); [|by rewrite Z.add_0_r].
    rewrite depth_insert. cbn. rewrite E1. by rewrite Z.add_comm.
  - rewrite Zsum_nil, Z.sub_0_r, Z.add_0_r. split; [lia|]. split; [|done].
    by rewrite Hff.
Qed.

(** Every fill trades a positive quantity, never more than the order asked
    for, on behalf of the order, at a price its limit accepts. *)
Theorem fills_within_limit f :
  f ∈ or_fills res ->
  0 < fill_quantity f <= req_quantity order /\ fill_taker_order f = req_id order /\
  (if is_buy (req_side order) then fill_price f <= req_price order
   else req_price order <= fill_price f).
Proof.
  intros Hf. destruct place_reachable as (b & b' & Hrep & Hrep' & Hcase).
  destruct Hcase as [Hs|(_ & E & _)]; [|rewrite E in Hf; set_solver].
  rewrite (st_fills _ _ _ _ Hs) in Hf. unfold match_run in Hf.
  pose proof (queue_wf b (negb (is_buy (req_side order))) (sr_wf _ _ Hrep)) as Hok.
  pose proof (match_queue_fills order _ _ Hok (req_quantity order)) as Hfs.
  destruct (match_queue_conserves order _ _ Hok (req_quantity order)) as [E1 _].
  destruct (Z.le_gt_cases (req_quantity order) 0) as [Hz|Hz].
  { rewrite match_queue_done in Hf by done. set_solver. }
  pose proof (match_queue_rem order _ _ Hok (req_quantity order) ltac:(lia)) as Hr.
  set (fs := (match_queue order _ _).1.1) in *.
  assert (fill_quantity f <= Zsum fill_quantity fs).
  { apply Zsum_elem; [|done]. eapply Forall_impl; [exact Hfs|]. intros g []. lia. }
  rewrite Forall_forall in Hfs. destruct (Hfs f Hf) as (H1 & H2 & H3).
  split; [lia|]. split; [done|]. unfold crosses in H2. destruct (is_buy _); lia.
Qed.

(** An order that is not to rest does not: after an immediate-or-cancel or
    a fill-or-kill order, its side of the book is as it was and every record of
    the shard was there before. *)
Theorem immediate_orders_never_rest k :
  req_tif order = kIoc \/ req_tif order = kFok ->
  or_resting res = false /\
  ranking (is_buy (req_side order)) sh' = ranking (is_buy (req_side order)) sh /\
  (is_Some (book_orders sh' !! k) -> is_Some (book_orders sh !! k)).
Proof.
  intros Ht. destruct place_reachable as (b & b' & Hrep & Hrep' & Hcase).
  rewrite (ranking_rep _ _ _ Hrep), (ranking_rep _ _ _ Hrep').
  set (buy := is_buy (req_side order)).
  rewrite (shard_rep_dom _ _ _ Hrep), (shard_rep_dom _ _ _ Hrep').
  destruct Hcase as [Hs|(-> & _ & _ & -> & _)]; [|done].
  assert (E : or_resting res = false).
  { destruct (or_resting res) eqn:E; [|done]. destruct (st_rest _ _ _ _ Hs E) as (_ & ? & ?). tauto. }
  pose proof (st_own _ _ _ _ Hs) as Ho. rewrite E in Ho.
  fold buy in Ho. rewrite Ho. split; [done|]. split; [done|].
  rewrite !(all_orders_elem _ buy), Ho. unfold buy. rewrite (st_opp _ _ _ _ Hs). intros [H|H]; [by left|right].
  pose proof (match_queue_shrinks order _ _ (queue_wf b (negb buy) (sr_wf _ _ Hrep))
    (req_quantity order)) as Hsub.
  by apply (sublist_subseteq _ _ (shrinks_keys _ _ Hsub)).
Qed.
End Place.

Lemma fills_follow_priority_witness :
  fill_maker_order <$> or_fills (Demo.place Demo.taker).2 = [Demo.id 1; Demo.id 2].
Proof.
  refine (eq_trans (proj1 (fills_follow_priority Demo.book 1 (Demo.shard Demo.book) Demo.taker
    (Demo.place Demo.taker).1 (Demo.place Demo.taker).2 demo_reachable _ _)) _);
    vm_compute; [split; discriminate|reflexivity|reflexivity].
Defined.

Lemma place_order_conserves_witness :
  side_total false (Demo.place Demo.taker).1 ==64 side_total false (Demo.shard Demo.book) - 12.
Proof.
  refine (proj1 (proj2 (proj2 (place_order_conserves Demo.book 1 (Demo.shard Demo.book) Demo.taker
    (Demo.place Demo.taker).1 (Demo.place Demo.taker).2 demo_reachable _ _ _))));
    vm_compute; [split; discriminate|reflexivity|reflexivity].
Defined.

Lemma fills_within_limit_witness :
  0 < 10 <= 12 /\ Demo.id 5 = Demo.id 5 /\ 100 <= 100.
Proof.
  refine (fills_within_limit Demo.book 1 (Demo.shard Demo.book) Demo.taker
    (Demo.place Demo.taker).1 (Demo.place Demo.taker).2 demo_reachable _ _
    (mkFill (Demo.id 1) (Demo.id 5) 10 100) _);
    vm_compute; [split; discriminate|reflexivity|by left].
Defined.

Lemma immediate_orders_never_rest_witness :
  or_resting (Demo.place Demo.ioc).2 = false /\
  ranking true (Demo.place Demo.ioc).1 = ranking true (Demo.shard Demo.book) /\
  (is_Some (book_orders (Demo.place Demo.ioc).1 !! 3) -> is_Some (book_orders (Demo.shard Demo.book) !! 3)).
Proof.
  refine (immediate_orders_never_rest Demo.book 1 (Demo.shard Demo.book) Demo.ioc
    (Demo.place Demo.ioc).1 (Demo.place Demo.ioc).2 demo_reachable _ _ 3 _);
    [vm_compute; split; discriminate|vm_compute; reflexivity|by left].
Defined.

(** C17: fill-or-kill is all or nothing.  When the quantities of the run fit
    [int64], a fill-or-kill order is either filled entirely, or rejected with no
    fill and the shard untouched. *)
Theorem fill_or_kill_all_or_nothing ops m sh order sh' res :
  reachable ops m sh -> Zsum op_quantity ops <= INT64_MAX ->
  request_ok order -> 0 < req_quantity order -> req_tif order = kFok ->
  place_order sh order = Some (sh', res) ->
  (or_accepted res = true /\ or_fully_filled res = true /\ or_resting res = false /\
   Zsum fill_quantity (or_fills res) = req_quantity order) \/
  (or_accepted res = false /\ or_fills res = [] /\ sh' = sh).
Proof.
  intros Hr Hs Hq Hp Ht E. destruct (reachable_spec _ _ _ Hr Hs) as (b & _ & Hrep & Hd).
  destruct (place_inv _ _ _ _ _ Hrep Hq E) as (n & Hn & Hres & Hrep').
  rewrite (Hn Hd) in Hres. unfold spec_place, place_with in Hres.
  pose proof (fillable_spec sh b order Hrep) as Hfs.
  pose proof (queue_depth_bound (negb (is_buy (req_side order))) b (sr_wf _ _ Hrep)).
  specialize (Hfs ltac:(lia)). revert E. unfold place_order. rewrite (post_only_spec sh b) by done.
  rewrite Hfs. destruct (_ && existsb _ _); [intros [= <- <-]; by right|].
  rewrite (bool_decide_eq_true_2 _ Ht) in Hres |- *. cbn [andb] in Hres |- *.
  destruct (Z.ltb_spec (liquidity b order) (req_quantity order)) as [Hl|Hl];
    [intros [= <- <-]; by right|]. intros _. left.
  pose proof (queue_wf b (negb (is_buy (req_side order))) (sr_wf _ _ Hrep)) as Hok.
  pose proof (match_queue_liquidity order _ (req_quantity order) Hok
    (queue_wf_sorted b _ (sr_wf _ _ Hrep)) ltac:(lia)) as Hrem.
  destruct (match_queue_conserves order _ _ Hok (req_quantity order)) as [E1 _].
  unfold liquidity in Hl. subst res. unfold settle, match_run.
  destruct (match_queue _ _ _) as [[fs rem] q]. cbn in *.
  destruct (Z.gtb_spec rem 0); [lia|]. cbn. repeat split; lia.
Qed.

Lemma fill_or_kill_all_or_nothing_witness :
  let r := Demo.place Demo.fok in
  (or_accepted r.2 = true /\ or_fully_filled r.2 = true /\ or_resting r.2 = false /\
   Zsum fill_quantity (or_fills r.2) = 16) \/
  (or_accepted r.2 = false /\ or_fills r.2 = [] /\ r.1 = Demo.shard Demo.book).
Proof.
  refine (fill_or_kill_all_or_nothing Demo.book 1 (Demo.shard Demo.book) Demo.fok
    (Demo.place Demo.fok).1 (Demo.place Demo.fok).2 demo_reachable _ _ _ _ _);
    vm_compute; [discriminate|split; discriminate|reflexivity|reflexivity|reflexivity].
Defined.

(** A post-only order never takes liquidity: it has no fill and leaves the
    opposite side of the book as it was. *)
Theorem post_only_never_takes ops m sh order sh' res :
  reachable ops m sh -> request_ok order -> HasFlag (req_flags order) kPostOnly = true ->
  place_order sh order = Some (sh', res) ->
  or_fills res = [] /\
  ranking (negb (is_buy (req_side order))) sh' = ranking (negb (is_buy (req_side order))) sh.
Proof.
  intros Hr Hq Hf E. destruct (reachable_rep _ _ _ Hr) as (b & Hrep).
  destruct (place_inv _ _ _ _ _ Hrep Hq E) as (n & _ & -> & Hrep').
  rewrite (ranking_rep _ _ _ Hrep), (ranking_rep _ _ _ Hrep').
  unfold place_with. rewrite Hf. cbn [andb].
  destruct (existsb _ _) eqn:Ec; [done|]. destruct (_ && _); [done|].
  pose proof (settle_settled b order) as Hs.
  rewrite (st_fills _ _ _ _ Hs), (st_opp _ _ _ _ Hs). unfold match_run.
  by rewrite (match_queue_no_cross _ _ _ Ec).
Qed.

Lemma post_only_never_takes_witness :
  or_fills (Demo.place Demo.post_only).2 = [] /\
  ranking false (Demo.place Demo.post_only).1 = ranking false (Demo.shard Demo.book).
Proof.
  refine (post_only_never_takes Demo.book 1 (Demo.shard Demo.book) Demo.post_only
    (Demo.place Demo.post_only).1 (Demo.place Demo.post_only).2 demo_reachable _ _ _);
    vm_compute; [split; discriminate|reflexivity|reflexivity].
Defined.

(** ** Levels *)

(** The sum of a field over the records at the keys [ks]. *)
Definition sum_at (f : OrderRecord -> Z) (h : heap) (ks : list Z) : Z :=
  Zsum (fun k => match h !! k with Some r => f r | None => 0 end) ks.

Lemma sum_at_seg f h self os n : forall p,
  seg h self p os n -> (forall o l p n, f (node o l p n) = f (node o None None None)) ->
  sum_at f h (keys os) = Zsum (fun o => f (node o None None None)) os.
Proof.
  induction os as [|o os IH]; intros p Hs Hf; [done|]. destruct Hs as [Hr Hs].
  unfold sum_at in *. cbn. rewrite !Zsum_cons, Hr, Hf. by rewrite (IH _ Hs Hf).
Qed.

Lemma cut_elem h buy p m q m1 lvl m2 q1 os q2 o :
  cut h buy p m q m1 lvl m2 q1 os q2 -> o ∈ q -> ord_price o = p -> o ∈ os.
Proof.
  intros [Em -> Hn Hs (L1 & H1 & <-) (L2 & H2 & <-) _ _] Ho Hp.
  apply elem_of_app in Ho as [Ho|[?|Ho]%elem_of_app]; [exfalso| done|exfalso].
  - destruct (flat_price _ _ _ _ H1 o Ho) as (e & He & E). apply Hn. rewrite <- Hp, E.
    by apply list_elem_of_fmap_2.
  - destruct (flat_price _ _ _ _ H2 o Ho) as (e & He & E). rewrite Em in Hs.
    apply om_sorted_cut in Hs as (_ & _ & _ & Hb & _); [|apply _].
    rewrite Forall_forall in Hb. specialize (Hb e He). by rewrite <- E, Hp, before_irrefl in Hb.
Qed.

(** C18: the aggregates of a price level are those of its orders.  In every
    reachable shard, a level's total (visible) quantity is the sum of what is
    left (displayed) of exactly the records of its side and price, as an
    [int64]. *)
Theorem level_aggregates ops m sh buy p lvl :
  reachable ops m sh -> om_find p (book_of buy sh) = Some lvl ->
  exists ks, NoDup ks /\ ks <> [] /\
    (forall k, k ∈ ks <-> exists r, book_orders sh !! k = Some r /\
       is_buy (req_side (rec_request r)) = buy /\ req_price (rec_request r) = p) /\
    lvl_total_qty lvl = i64 (sum_at rec_remaining (book_orders sh) ks) /\
    lvl_visible_qty lvl = i64 (sum_at rec_display_remaining (book_orders sh) ks).
Proof.
  intros Hr Hf. destruct (reachable_rep _ _ _ Hr) as (b & Hrep).
  destruct (find_cut _ _ _ _ _ _ (sr_side _ _ Hrep buy) Hf) as (m1 & m2 & q1 & os & q2 & Hc & Hne).
  pose proof (cut_level _ _ _ _ _ _ _ _ _ _ _ Hc) as Hl. exists (keys os).
  pose proof (cut_q _ _ _ _ _ _ _ _ _ _ _ Hc) as Hq.
  split; [|split; [by destruct os|split]].
  - pose proof (queue_nodup b buy (sr_wf _ _ Hrep)) as Hd. rewrite Hq, !map_app in Hd.
    apply NoDup_app in Hd as (_ & _ & Hd). by apply NoDup_app in Hd as (Hd & _).
  - intros k. split.
    + intros (o & -> & Ho)%list_elem_of_fmap. pose proof Ho as Hs.
      apply list_elem_of_split in Hs as (xs & ys & ->).
      pose proof (seg_mid _ _ _ _ _ _ _ (lr_seg _ _ _ _ Hl)) as Hn. eexists. split; [exact Hn|]. cbn.
      pose proof (queue_wf b buy (sr_wf _ _ Hrep)) as Hw. rewrite Forall_forall in Hw.
      split; [apply Hw; rewrite Hq; set_solver|].
      pose proof (cut_price _ _ _ _ _ _ _ _ _ _ _ Hc) as Hp. rewrite Forall_forall in Hp. by apply Hp.
    + intros (r & Hk & Hb & Hp). destruct (shard_rep_node sh b k r Hrep Hk) as (o & l & pr & nx & Ho & <- & ->).
      cbn in Hb, Hp. apply list_elem_of_fmap_2, (cut_elem _ _ _ _ _ _ _ _ _ _ _ _ Hc); [|done].
      unfold ord_buy in Ho. by rewrite Hb in Ho.
  - rewrite (lr_total _ _ _ _ Hl), (lr_visible _ _ _ _ Hl).
    by rewrite !(sum_at_seg _ _ _ _ _ _ (lr_seg _ _ _ _ Hl)).
Qed.

Lemma level_aggregates_witness :
  exists ks, NoDup ks /\ ks <> [] /\
    (forall k, k ∈ ks <-> exists r, book_orders (Demo.shard Demo.book) !! k = Some r /\
       is_buy (req_side (rec_request r)) = false /\ req_price (rec_request r) = 100) /\
    15 = i64 (sum_at rec_remaining (book_orders (Demo.shard Demo.book)) ks) /\
    15 = i64 (sum_at rec_display_remaining (book_orders (Demo.shard Demo.book)) ks).
Proof.
  refine (level_aggregates Demo.book 1 (Demo.shard Demo.book) false 100
    (default empty_level (om_find 100 (asks (Demo.shard Demo.book)))) demo_reachable _).
  by vm_compute.
Defined.

(** C12: every record is where it says.  In every reachable shard, whatever was
    placed, matched, cancelled and replaced: a record is stored under its id, has a
    positive quantity left, and refers to the level of its side and its price, which
    is in the book; its neighbours are records of the same level that point back at
    it, and the level starts, or ends, with it where it has none. *)
Theorem records_stay_linked ops m sh k r :
  reachable ops m sh -> book_orders sh !! k = Some r ->
  let buy := is_buy (req_side (rec_request r)) in
  let p := req_price (rec_request r) in
  k = value (req_id (rec_request r)) /\ 0 < rec_remaining r <= INT64_MAX /\ rec_level r = Some (buy, p) /\
  exists lvl, om_find p (book_of buy sh) = Some lvl /\
    match rec_prev r with
    | Some k' => exists r', book_orders sh !! k' = Some r' /\ rec_next r' = Some k /\ rec_level r' = rec_level r
    | None => lvl_head lvl = Some k
    end /\
    match rec_next r with
    | Some k' => exists r', book_orders sh !! k' = Some r' /\ rec_prev r' = Some k /\ rec_level r' = rec_level r
    | None => lvl_tail lvl = Some k
    end.
Proof.
  intros Hr Hk. cbv zeta. destruct (reachable_rep _ _ _ Hr) as (b & Hrep).
  destruct (shard_rep_node sh b k r Hrep Hk) as (o & l & pr & nx & Ho & <- & ->).
  pose proof (queue_wf b (ord_buy o) (sr_wf _ _ Hrep)) as Hw. rewrite Forall_forall in Hw.
  destruct (elem_cut _ _ _ _ o (sr_side _ _ Hrep (ord_buy o)) Ho) as (m1 & lvl & m2 & q1 & xs & ys & q2 & Hc).
  pose proof (cut_level _ _ _ _ _ _ _ _ _ _ _ Hc) as [Hhead Htail Hseg _ _].
  pose proof (seg_mid _ _ _ _ _ _ _ Hseg) as Hn. rewrite Hk in Hn. injection Hn as -> -> ->. cbn [node rec_request rec_remaining rec_level rec_prev rec_next].
  split; [done|]. split; [by apply Hw|]. split; [done|]. exists lvl. split; [|split].
  - change (om_find (ord_price o) (book_of (ord_buy o) sh) = Some lvl).
    rewrite (cut_m _ _ _ _ _ _ _ _ _ _ _ Hc). by eapply om_find_mid, cut_fresh.
  - destruct xs as [|z xs _] using rev_ind; [by rewrite Hhead|]. rewrite last_or_app. rewrite <- app_assoc in Hseg.
    by exists (node z (Some (ord_buy o, ord_price o)) (last_or None xs) (Some (ord_key o))); split; [exact (seg_mid _ _ _ _ _ _ _ Hseg)|].
  - destruct ys as [|z ys]; [by rewrite Htail, last_or_app|].
    replace (xs ++ o :: z :: ys) with ((xs ++ [o]) ++ z :: ys) in Hseg by by rewrite <- app_assoc.
    pose proof (seg_mid _ _ _ _ _ _ _ Hseg) as Hz. rewrite last_or_app in Hz. by eexists.
Qed.

(** The second of two sells at 100 points back at the first. *)
Definition second_sell : OrderRecord :=
  default (mkRecord Demo.taker 0 0 0 0 None None None) (book_orders (Demo.shard Demo.book) !! value (Demo.id 2)).

Lemma records_stay_linked_witness :
  rec_prev second_sell = Some (value (Demo.id 1)) /\
  exists r', book_orders (Demo.shard Demo.book) !! value (Demo.id 1) = Some r' /\
    rec_next r' = Some (value (Demo.id 2)) /\ rec_level r' = rec_level second_sell.
Proof.
  destruct (records_stay_linked Demo.book 1 (Demo.shard Demo.book) (value (Demo.id 2)) second_sell demo_reachable)
    as (_ & _ & _ & lvl & _ & Hp & _); [by vm_compute|].
  assert (E : rec_prev second_sell = Some (value (Demo.id 1))) by by vm_compute.
  split; [exact E|]. rewrite E in Hp. exact Hp.
Defined.

(** ** Cancelling and replacing *)
Definition reachable_engine (ops : list Op) (e : Engine) : Prop :=
  Forall op_ok ops /\ fst <$> run ops ∅ = Some e.

Lemma engine_reachable ops e : reachable_engine ops e -> exists a, engine_rep e a.
Proof.
  intros [Hok E]. destruct (run_total ops ∅ ∅ engine_rep_empty Hok) as (e' & rs & a & E' & He).
  rewrite E' in E. injection E as <-. by exists a.
Qed.

Lemma requests_remove_key k q :
  requests (remove_key k q) = List.filter (fun r => negb (value (req_id r) =? k)) (requests q).
Proof.
  unfold remove_key. induction q as [|o q IH]; [done|]. cbn [List.filter map].
  change (ord_key o) with (value (req_id (ord_request o))).
  destruct (negb _); cbn [map]; by rewrite IH.
Qed.

Lemma remove_key_gone k q : k ∉ keys (remove_key k q).
Proof.
  intros (o & -> & Ho)%list_elem_of_fmap. unfold remove_key in Ho.
  apply list_elem_of_In, List.filter_In in Ho as [_ Ho]. by rewrite Z.eqb_refl in Ho.
Qed.

(** C19: a successful cancel takes exactly its order off the book, every other
    order keeps its rank, no other market changes, and cancelling it again is
    rejected as not found; a cancel that fails changes nothing. *)
Theorem cancel_removes_exactly ops e r e' res :
  reachable_engine ops e -> cancel r e = Some (e', res) ->
  (cr_cancelled res = false /\ e' = e) \/
  (exists sh sh', e !! id_market (cancel_id r) = Some sh /\
     e' = <[id_market (cancel_id r) := sh']> e /\
     is_Some (book_orders sh !! value (cancel_id r)) /\
     (forall buy, ranking buy sh' =
        List.filter (fun o => negb (value (req_id o) =? value (cancel_id r))) (ranking buy sh)) /\
     cancel r e' = Some (e', mkCancelResult false kRejectOrderNotFound)).
Proof.
  intros Hr. destruct (engine_reachable _ _ Hr) as (a & He). unfold cancel at 1, encode_order_id.
  set (m := id_market (cancel_id r)). set (k := value (cancel_id r)).
  pose proof (He m) as Hm. inversion Hm as [sh b Hrep E1 E2|E1 E2]; [|intros [= <- <-]; by left].
  destruct (book_orders sh !! k) as [rec|] eqn:Eh; [|intros [= <- <-]; by left].
  destruct (remove_order_spec sh b k rec Hrep Eh) as (sh1 & -> & Hrep').
  set (sh' := set_orders _ sh1) in *. cbn [mbind option_bind]. intros [= <- <-]. right.
  exists sh, sh'. split; [done|]. split; [done|]. split; [by eexists|]. split.
  - intros buy. rewrite (ranking_rep _ _ _ Hrep), (ranking_rep _ _ _ Hrep'), <- requests_remove_key.
    by destruct buy.
  - unfold cancel, encode_order_id. fold m k. rewrite lookup_insert_eq.
    cbn [book_orders set_orders]. by rewrite lookup_delete_eq.
Qed.

(** C20: replacing is cancelling and placing anew.  Whatever becomes of the new
    order, the old one is gone: it keeps no rank, and if the new order does not
    rest (rejected included) a later cancel of the id finds nothing. *)
Theorem replace_drops_original ops e r e' res sh :
  reachable_engine ops e -> in_i64 (rep_new_quantity r) ->
  e !! id_market (rep_id r) = Some sh -> is_Some (book_orders sh !! value (rep_id r)) ->
  replace r e = Some (e', res) ->
  (exists e1 sh1 old sh2 result,
     cancel (mkCancel (rep_id r)) e = Some (e1, mkCancelResult true 0) /\
     e1 !! id_market (rep_id r) = Some sh1 /\
     book_orders sh !! value (rep_id r) = Some old /\
     place_order sh1 (replaced_request (rec_request old) r) = Some (sh2, result) /\
     e' = <[id_market (rep_id r) := sh2]> e /\
     res = mkReplaceResult (or_accepted result) (or_resting result)
             (or_reject_code result) (or_fills result)) /\
  (rr_resting res = false ->
     cancel (mkCancel (rep_id r)) e' = Some (e', mkCancelResult false kRejectOrderNotFound)).
Proof.
  intros Hr Hq Em [rec Eh]. destruct (engine_reachable _ _ Hr) as (a & He).
  unfold replace, cancel, encode_order_id. cbn [cancel_id].
  set (m := id_market (rep_id r)) in *. set (k := value (rep_id r)) in *. rewrite Em, Eh.
  pose proof (He m) as Hm. rewrite Em in Hm. inversion Hm as [sh0 b Hrep E0 E2|]. subst sh0.
  destruct (remove_order_spec sh b k rec Hrep Eh) as (sh1 & -> & Hrep').
  cbn [mbind option_bind].
  destruct (place_sim _ _ (replaced_request (rec_request rec) r) Hrep' Hq) as (n & sh2 & E & Hrep2 & _).
  rewrite E. cbn [mbind option_bind]. intros [= <- <-]. split.
  { do 5 eexists. split; [done|]. rewrite lookup_insert_eq. repeat split; [exact E]. }
  cbn. intros Hrest. rewrite lookup_insert_eq.
  enough (book_orders sh2 !! k = None) as -> by done.
  apply eq_None_not_Some. rewrite (shard_rep_dom _ _ _ Hrep2).
  set (order := replaced_request (rec_request rec) r) in *.
  assert (Hgone : forall buy, k ∉ keys (queue buy (spec_remove k b))).
  { intros []; apply remove_key_gone. }
  set (buy := is_buy (req_side order)). rewrite (all_orders_elem _ buy).
  destruct (place_with_cases n (spec_remove k b) order) as [Hs|(-> & _)].
  - pose proof (st_own _ _ _ _ Hs) as Ho. rewrite Hrest in Ho. unfold buy.
    rewrite Ho, (st_opp _ _ _ _ Hs). intros [H|H]; [by apply Hgone in H|].
    pose proof (match_queue_shrinks order _ _
      (queue_wf _ (negb buy) (sr_wf _ _ Hrep')) (req_quantity order)) as Hsub.
    apply (Hgone (negb buy)). by apply (sublist_subseteq _ _ (shrinks_keys _ _ Hsub)).
  - intros [H|H]; by apply Hgone in H.
Qed.

Lemma demo_engine ops : Forall op_ok ops ->
  reachable_engine ops (default ∅ (fst <$> run ops ∅)).
Proof.
  intros Hok. split; [done|].
  destruct (run_total ops ∅ ∅ engine_rep_empty Hok) as (e & rs & a & -> & _). done.
Qed.

Definition Demo_engine : Engine := default ∅ (fst <$> run Demo.book ∅).

Lemma cancel_removes_exactly_witness :
  let r := mkCancel (Demo.id 1) in
  let e' := default ∅ (fst <$> cancel r Demo_engine) in
  let res := mkCancelResult true 0 in
  (cr_cancelled res = false /\ e' = Demo_engine) \/
  (exists sh sh', Demo_engine !! 1 = Some sh /\ e' = <[1 := sh']> Demo_engine /\
     is_Some (book_orders sh !! value (Demo.id 1)) /\
     (forall buy, ranking buy sh' =
        List.filter (fun o => negb (value (req_id o) =? value (Demo.id 1))) (ranking buy sh)) /\
     cancel r e' = Some (e', mkCancelResult false kRejectOrderNotFound)).
Proof.
  refine (cancel_removes_exactly Demo.book Demo_engine (mkCancel (Demo.id 1)) _ _ _ _);
    [apply demo_engine; ops_ok|by vm_compute].
Defined.

Definition Demo_replaced : Engine * ReplaceResult :=
  default (∅, mkReplaceResult false false 0 [])
    (replace (mkReplace (Demo.id 4) 9 100 9 kGtc kPostOnly) Demo_engine).

Lemma replace_drops_original_witness :
  rr_accepted Demo_replaced.2 = false /\ rr_reject_code Demo_replaced.2 = kRejectPostOnlyWouldCross /\
  cancel (mkCancel (Demo.id 4)) Demo_replaced.1 =
    Some (Demo_replaced.1, mkCancelResult false kRejectOrderNotFound).
Proof.
  split; [vm_compute; reflexivity|]. split; [vm_compute; reflexivity|].
  refine (proj2 (replace_drops_original Demo.book Demo_engine
    (mkReplace (Demo.id 4) 9 100 9 kGtc kPostOnly) Demo_replaced.1 Demo_replaced.2
    (Demo.shard Demo.book) _ _ _ _ _) _).
  - apply demo_engine; ops_ok.
  - vm_compute; split; discriminate.
  - vm_compute; reflexivity.
  - vm_compute. by eexists.
  - vm_compute; reflexivity.
  - vm_compute; reflexivity.
Defined.

(** ** Behaviours a caller may not expect *)

(** A submission with the id of a resting order is rejected as a duplicate only
    after it has traded: the reply is not accepted, yet carries fills, and the
    makers have left the book. *)
Example duplicate_id_trades_before_rejection :
  let order := Demo.limit 4 kBuy 20 100 kGtc 0 in
  let r := Demo.place order in
  or_accepted r.2 = false /\ or_reject_code r.2 = kRejectDuplicateOrderId /\
  Zsum fill_quantity (or_fills r.2) = 15 /\
  book_orders r.1 !! value (Demo.id 1) = None.
Proof. vm_compute. repeat split. Qed.

(** The bound of [fill_or_kill_all_or_nothing] is needed: when the quantities at
    a level add up beyond [int64], its aggregate wraps (undefined behaviour in
    C++) and the book holding them rejects a fill-or-kill order for one unit. *)
Example fill_or_kill_overflow :
  let book := [OpSubmit (Demo.limit 1 kSell INT64_MAX 100 kGtc 0);
               OpSubmit (Demo.limit 2 kSell INT64_MAX 100 kGtc 0)] in
  or_reject_code <$> (snd <$> place_order (Demo.shard book) (Demo.limit 3 kBuy 1 100 kFok 0)) =
    Some kRejectInsufficientLiquidity.
Proof. vm_compute. reflexivity. Qed.
