(* ===== verification/Risk.v ===== *)
(** * The risk engine, as it is written

    [libs/risk]: accounts, positions, margin and the liquidation manager.  All
    quantities are [int64] and wrap where the source's arithmetic could leave
    the type (undefined behaviour there): theorems that need exact values carry
    the bounds.  The two [unordered_map]s are finite maps; a loop over one runs over
    a table, the list of its entries in some order, for which the model takes
    [map_to_list]; [RiskProps] shows that no order changes a result. *)
From S2P Require Import Prelude Types.

Inductive RiskDecision :=
  | kAccepted
  | kRejectedInsufficientMargin
  | kRejectedReduceOnly
  | kRejectedUnknownMarket.

#[export] Instance RiskDecision_eq_dec : EqDecision RiskDecision.
Proof. solve_decision. Defined.

Record RiskResult := mkRiskResult {
  rk_decision : RiskDecision;
  rk_reject_code : Z;
  rk_equity : Z;
  rk_initial_margin_required : Z;
  rk_maintenance_margin_required : Z }.

Record MarketRiskConfig := mkRiskConfig {
  contract_size : Z;
  initial_margin_basis_points : Z;
  maintenance_margin_basis_points : Z }.

Definition default_risk_config : MarketRiskConfig := mkRiskConfig 1 0 0.

Record OrderIntent := mkIntent {
  in_account : Z;
  in_market : Z;
  in_side : Side;
  in_quantity : Z;
  in_limit_price : Z;
  in_reduce_only : bool }.

Record FillContext := mkFillContext {
  fc_account : Z;
  fc_market : Z;
  fc_side : Side;
  fc_quantity : Z;
  fc_price : Z }.

Record MarginSummary := mkSummary { equity : Z; initial_margin : Z; maintenance_margin : Z }.

Record PositionState := mkPosition { pos_quantity : Z; pos_entry_price : Z }.

Record AccountState := mkAccount {
  collateral : Z;
  realized_pnl : Z;
  positions : gmap Z PositionState }.

Definition new_account : AccountState := mkAccount 0 0 ∅.

Record MarketState := mkMarket { ms_config : MarketRiskConfig; ms_mark_price : Z }.

Definition new_market : MarketState := mkMarket default_risk_config 0.

Record RiskEngine := mkRisk { accounts : gmap Z AccountState; markets : gmap Z MarketState }.

Definition new_risk : RiskEngine := mkRisk ∅ ∅.

Definition kBasisPointDenominator : Z := 10000.
Definition kRejectCodeUnknownMarket : Z := 2001.
Definition kRejectCodeInsufficientMargin : Z := 2002.
Definition kRejectCodeReduceOnly : Z := 2003.

(** ** Lookup and creation *)
Definition find_account (e : RiskEngine) (a : Z) : option AccountState := accounts e !! a.
Definition find_market (e : RiskEngine) (m : Z) : option MarketState := markets e !! m.

(** [ensure_account] and [ensure_market]: the state found or created. *)
Definition ensure_account (e : RiskEngine) (a : Z) : AccountState :=
  default new_account (accounts e !! a).
Definition ensure_market_state (e : RiskEngine) (m : Z) : MarketState :=
  default new_market (markets e !! m).

Definition set_account (a : Z) (s : AccountState) (e : RiskEngine) : RiskEngine :=
  mkRisk (<[a := s]> (accounts e)) (markets e).
Definition set_market (m : Z) (s : MarketState) (e : RiskEngine) : RiskEngine :=
  mkRisk (accounts e) (<[m := s]> (markets e)).

Definition get_all_accounts (e : RiskEngine) : list Z := (map_to_list (accounts e)).*1.

(** ** Updates *)
Definition configure_market (m : Z) (config : MarketRiskConfig) (e : RiskEngine) : RiskEngine :=
  match markets e !! m with
  | None => set_market m (mkMarket config 0) e
  | Some s => set_market m (mkMarket config (ms_mark_price s)) e
  end.

Definition set_mark_price (m : Z) (mark : Z) (e : RiskEngine) : RiskEngine :=
  set_market m (mkMarket (ms_config (ensure_market_state e m)) mark) e.

Definition credit_collateral (a : Z) (amount : Z) (e : RiskEngine) : RiskEngine :=
  let s := ensure_account e a in
  set_account a (mkAccount (i64 (collateral s + amount)) (realized_pnl s) (positions s)) e.

Definition debit_collateral (a : Z) (amount : Z) (e : RiskEngine) : RiskEngine :=
  let s := ensure_account e a in
  set_account a (mkAccount (i64 (collateral s - amount)) (realized_pnl s) (positions s)) e.

Definition signed_qty (side : Side) (quantity : Z) : Z :=
  if is_buy side then quantity else i64 (- quantity).

(** Both of one sign, or nothing held. *)
Definition same_direction (previous signed : Z) : bool :=
  (previous =? 0) || ((previous >? 0) && (signed >? 0)) || ((previous <? 0) && (signed <? 0)).

(** The position after a fill that opens or extends it. *)
Definition extend_position (p : PositionState) (signed price : Z) : PositionState :=
  let new_qty := i64 (pos_quantity p + signed) in
  let total_abs := i64 (llabs (pos_quantity p) + llabs signed) in
  let weighted_notional :=
    i64 (i64 (pos_entry_price p * llabs (pos_quantity p)) + i64 (price * llabs signed)) in
  mkPosition new_qty
    (if negb (new_qty =? 0) then if total_abs =? 0 then 0 else weighted_notional ÷64 total_abs
     else 0).

(** The profit a fill against the position realises. *)
Definition realized_by (p : PositionState) (signed price contract : Z) : Z :=
  let closing_qty := Z.min (llabs (pos_quantity p)) (llabs signed) in
  let pnl_per_contract :=
    if pos_quantity p >? 0 then i64 (price - pos_entry_price p)
    else i64 (pos_entry_price p - price) in
  i64 (i64 (closing_qty * pnl_per_contract) * contract).

(** The position after a fill against it: smaller, flat or turned around. *)
Definition reduce_position (p : PositionState) (signed price : Z) : PositionState :=
  let remainder := i64 (pos_quantity p + signed) in
  mkPosition remainder
    (if remainder =? 0 then 0
     else if ((pos_quantity p >? 0) && (remainder <? 0)) || ((pos_quantity p <? 0) && (remainder >? 0))
     then price else pos_entry_price p).

Definition apply_fill (fill : FillContext) (e : RiskEngine) : RiskEngine :=
  let market := ensure_market_state e (fc_market fill) in
  let account := ensure_account e (fc_account fill) in
  let e := set_market (fc_market fill) market e in
  let position := default (mkPosition 0 0) (positions account !! fc_market fill) in
  let signed := signed_qty (fc_side fill) (fc_quantity fill) in
  if same_direction (pos_quantity position) signed then
    set_account (fc_account fill)
      (mkAccount (collateral account) (realized_pnl account)
         (<[fc_market fill := extend_position position signed (fc_price fill)]> (positions account))) e
  else
    let realized := realized_by position signed (fc_price fill) (contract_size (ms_config market)) in
    set_account (fc_account fill)
      (mkAccount (i64 (collateral account + realized)) (i64 (realized_pnl account + realized))
         (<[fc_market fill := reduce_position position signed (fc_price fill)]> (positions account))) e.

(** ** Margin *)
Definition apply_basis_points (notional basis_points : Z) : Z :=
  i64 (i64 (notional * basis_points) + (kBasisPointDenominator - 1)) ÷64 kBasisPointDenominator.

Record Exposure := mkExposure {
  ex_market : Z;
  ex_quantity : Z;
  ex_entry_price : Z;
  ex_existed : bool }.

(** The positions of an account, in the order the hash map yields them. *)
Definition position_table (account : option AccountState) : list (Z * PositionState) :=
  match account with None => [] | Some s => map_to_list (positions s) end.

Definition exposures_in (table : list (Z * PositionState)) : list Exposure :=
  (fun '(m, p) => mkExposure m (pos_quantity p) (pos_entry_price p) true) <$> table.

(** The [find_if] over the exposures and what is done at the one found. *)
Fixpoint merge_delta (delta : FillContext) (l : list Exposure) : list Exposure :=
  let signed := signed_qty (fc_side delta) (fc_quantity delta) in
  match l with
  | [] => [mkExposure (fc_market delta) signed (fc_price delta) false]
  | x :: l' =>
      if ex_market x =? fc_market delta then
        mkExposure (ex_market x) (i64 (ex_quantity x + signed))
          (if negb (ex_existed x) then fc_price delta else ex_entry_price x) (ex_existed x) :: l'
      else x :: merge_delta delta l'
  end.

(** The price an exposure is valued at. *)
Definition mark_for (s : MarketState) (delta : option FillContext) (x : Exposure) : Z :=
  if ms_mark_price s =? 0 then
    match delta with
    | Some d => if (fc_market d =? ex_market x) && negb (fc_price d =? 0) then fc_price d
                else ex_entry_price x
    | None => ex_entry_price x
    end
  else ms_mark_price s.

Definition notional_of (s : MarketState) (mark : Z) (x : Exposure) : Z :=
  i64 (i64 (llabs (ex_quantity x) * mark) * contract_size (ms_config s)).

Definition unrealized_of (s : MarketState) (mark : Z) (x : Exposure) : Z :=
  i64 (i64 (ex_quantity x * i64 (mark - ex_entry_price x)) * contract_size (ms_config s)).

(** The body of the loop over the exposures. *)
Definition add_exposure (e : RiskEngine) (known : bool) (delta : option FillContext)
    (summary : MarginSummary) (x : Exposure) : MarginSummary :=
  if ex_quantity x =? 0 then summary
  else match find_market e (ex_market x) with
  | None => summary
  | Some s =>
      let mark := mark_for s delta x in
      let notional := notional_of s mark x in
      mkSummary
        (if known && ex_existed x then i64 (equity summary + unrealized_of s mark x)
         else equity summary)
        (i64 (initial_margin summary +
              apply_basis_points notional (initial_margin_basis_points (ms_config s))))
        (i64 (maintenance_margin summary +
              apply_basis_points notional (maintenance_margin_basis_points (ms_config s))))
  end.

(** The exposures the summary is computed from. *)
Definition exposures_with (delta : option FillContext) (table : list (Z * PositionState)) : list Exposure :=
  match delta with
  | Some d => merge_delta d (exposures_in table)
  | None => exposures_in table
  end.

Definition base_summary (account : option AccountState) : MarginSummary :=
  mkSummary (match account with Some s => i64 (collateral s + realized_pnl s) | None => 0 end) 0 0.

(** The function, on the account found and its positions as they come. *)
Definition summary_over (e : RiskEngine) (account : option AccountState) (delta : option FillContext)
    (table : list (Z * PositionState)) : MarginSummary :=
  foldl (add_exposure e (bool_decide (is_Some account)) delta) (base_summary account)
    (exposures_with delta table).

Definition account_summary_with_delta (e : RiskEngine) (a : Z) (delta : option FillContext)
    : MarginSummary :=
  let account := find_account e a in summary_over e account delta (position_table account).

Definition account_summary (e : RiskEngine) (a : Z) : MarginSummary :=
  account_summary_with_delta e a None.

(** What the account holds in the market of an order. *)
Definition existing_quantity (e : RiskEngine) (a m : Z) : Z :=
  match find_account e a with
  | Some s => match positions s !! m with Some p => pos_quantity p | None => 0 end
  | None => 0
  end.

Definition delta_of (intent : OrderIntent) : FillContext :=
  mkFillContext (in_account intent) (in_market intent) (in_side intent) (in_quantity intent)
    (in_limit_price intent).

Definition evaluate_order (e : RiskEngine) (intent : OrderIntent) : RiskResult :=
  match find_market e (in_market intent) with
  | None => mkRiskResult kRejectedUnknownMarket kRejectCodeUnknownMarket 0 0 0
  | Some _ =>
      let existing_qty := existing_quantity e (in_account intent) (in_market intent) in
      let projected_qty := i64 (existing_qty + signed_qty (in_side intent) (in_quantity intent)) in
      if in_reduce_only intent && (llabs projected_qty >? llabs existing_qty) then
        mkRiskResult kRejectedReduceOnly kRejectCodeReduceOnly 0 0 0
      else
        let summary := account_summary_with_delta e (in_account intent) (Some (delta_of intent)) in
        if initial_margin summary >? equity summary then
          mkRiskResult kRejectedInsufficientMargin kRejectCodeInsufficientMargin
            (equity summary) (initial_margin summary) (maintenance_margin summary)
        else mkRiskResult kAccepted 0
            (equity summary) (initial_margin summary) (maintenance_margin summary)
  end.

(** ** [LiquidationManager] *)
Inductive LiqStatus := kHealthy | kNeedsPartial | kNeedsFull.

#[export] Instance LiqStatus_eq_dec : EqDecision LiqStatus.
Proof. solve_decision. Defined.

Record LiqResult := mkLiqResult {
  lq_status : LiqStatus;
  lq_equity : Z;
  lq_initial_margin : Z;
  lq_maintenance_margin : Z;
  lq_deficit : Z }.

Definition classify (s : MarginSummary) : LiqResult :=
  let result status deficit :=
    mkLiqResult status (equity s) (initial_margin s) (maintenance_margin s) deficit in
  if maintenance_margin s =? 0 then result kHealthy 0
  else if equity s <? maintenance_margin s
  then result kNeedsFull (i64 (maintenance_margin s - equity s))
  else if equity s <? initial_margin s
  then result kNeedsPartial (i64 (initial_margin s - equity s))
  else result kHealthy 0.

Definition evaluate (e : RiskEngine) (a : Z) : LiqResult := classify (account_summary e a).
