(* ===== verification/RiskProps.v ===== *)
(** * Properties of the risk engine *)
From S2P Require Import Prelude Types Risk.

(** ** Sums behind the loop over the exposures *)
Section Summary.
Context (e : RiskEngine) (known : bool) (delta : option FillContext).

(** What one exposure adds to a field of the summary. *)
Definition part (f : MarketState -> Z -> Z) (x : Exposure) : Z :=
  if ex_quantity x =? 0 then 0
  else match find_market e (ex_market x) with
  | None => 0
  | Some s => f s (mark_for s delta x)
  end.

Definition margin_part (bp : MarketRiskConfig -> Z) (x : Exposure) : Z :=
  part (fun s mark => apply_basis_points (notional_of s mark x) (bp (ms_config s))) x.

Definition equity_part (x : Exposure) : Z :=
  part (fun s mark => if known && ex_existed x then unrealized_of s mark x else 0) x.

Lemma summary_fold l : forall s,
  in_i64 (equity s) -> in_i64 (initial_margin s) -> in_i64 (maintenance_margin s) ->
  foldl (add_exposure e known delta) s l =
    mkSummary (i64 (equity s + Zsum equity_part l))
      (i64 (initial_margin s + Zsum (margin_part initial_margin_basis_points) l))
      (i64 (maintenance_margin s + Zsum (margin_part maintenance_margin_basis_points) l)).
Proof.
  induction l as [|x l IH]; intros s H1 H2 H3; cbn [foldl].
  { rewrite !Zsum_nil, !Z.add_0_r, !i64_small by done. by destruct s. }
  rewrite !Zsum_cons. unfold add_exposure at 2, equity_part at 1, margin_part at 1 3, part.
  destruct (_ =? 0); [rewrite IH by done; f_equal; f_equal; lia|].
  destruct (find_market _ _) as [ms|]; [|rewrite IH by done; f_equal; f_equal; lia].
  destruct (known && ex_existed x); rewrite IH by (cbn; auto using i64_range);
    cbn [equity initial_margin maintenance_margin]; rewrite !i64_add_l; f_equal; f_equal; lia.
Qed.
End Summary.

Lemma base_summary_range account :
  in_i64 (equity (base_summary account)) /\ in_i64 (initial_margin (base_summary account)) /\
  in_i64 (maintenance_margin (base_summary account)).
Proof. destruct account; cbn; split; auto using i64_range; range. Qed.

(** The exposures of an account, and those of its summary. *)
Definition exposures_of (account : option AccountState) : list Exposure := exposures_in (position_table account).

Definition all_exposures (e : RiskEngine) (a : Z) (delta : option FillContext) : list Exposure :=
  exposures_with delta (position_table (find_account e a)).

(** The summary of an account, as three sums. *)
Lemma account_summary_sums e a delta :
  let account := find_account e a in
  let known := bool_decide (is_Some account) in
  let l := all_exposures e a delta in
  account_summary_with_delta e a delta =
    mkSummary (i64 (equity (base_summary account) + Zsum (equity_part e known delta) l))
      (i64 (Zsum (margin_part e delta initial_margin_basis_points) l))
      (i64 (Zsum (margin_part e delta maintenance_margin_basis_points) l)).
Proof.
  cbv zeta. unfold account_summary_with_delta, summary_over.
  destruct (base_summary_range (find_account e a)) as (H1 & H2 & H3).
  by rewrite summary_fold.
Qed.

(** ** Positions *)
Lemma signed_qty_eqm side q : signed_qty side q ==64 if is_buy side then q else - q.
Proof. unfold signed_qty. destruct (is_buy side); [done|apply i64_eqm]. Qed.

Lemma apply_fill_account_other fill e a :
  a <> fc_account fill -> accounts (apply_fill fill e) !! a = accounts e !! a.
Proof.
  intros Hn. unfold apply_fill. destruct (same_direction _ _); cbn; by rewrite lookup_insert_ne.
Qed.

(** The position and the account a fill leaves behind. *)
Definition fill_position (fill : FillContext) (e : RiskEngine) : PositionState :=
  let p := default (mkPosition 0 0) (positions (ensure_account e (fc_account fill)) !! fc_market fill) in
  let signed := signed_qty (fc_side fill) (fc_quantity fill) in
  if same_direction (pos_quantity p) signed then extend_position p signed (fc_price fill)
  else reduce_position p signed (fc_price fill).

Lemma apply_fill_account fill e : exists c r,
  accounts (apply_fill fill e) !! fc_account fill =
    Some (mkAccount c r (<[fc_market fill := fill_position fill e]>
      (positions (ensure_account e (fc_account fill))))).
Proof.
  unfold apply_fill, fill_position. destruct (same_direction _ _); cbn; rewrite lookup_insert_eq; eauto.
Qed.

Lemma fill_position_quantity fill e :
  pos_quantity (fill_position fill e) =
    i64 (existing_quantity e (fc_account fill) (fc_market fill) +
         signed_qty (fc_side fill) (fc_quantity fill)).
Proof.
  unfold fill_position, existing_quantity, find_account, ensure_account.
  destruct (same_direction _ _); cbn.
  - destruct (accounts e !! _) as [s|]; cbn; [|done]. by destruct (positions s !! _).
  - destruct (accounts e !! _) as [s|]; cbn; [|done]. by destruct (positions s !! _).
Qed.

Lemma apply_fill_existing fill e a m :
  existing_quantity (apply_fill fill e) a m =
    if (fc_account fill =? a) && (fc_market fill =? m)
    then i64 (existing_quantity e a m + signed_qty (fc_side fill) (fc_quantity fill))
    else existing_quantity e a m.
Proof.
  destruct (Z.eqb_spec (fc_account fill) a) as [<-|Hn]; cbn [andb].
  - unfold existing_quantity at 1, find_account.
    destruct (apply_fill_account fill e) as (c & r & ->). cbn.
    destruct (Z.eqb_spec (fc_market fill) m) as [<-|Hm].
    + by rewrite lookup_insert_eq, fill_position_quantity.
    + rewrite lookup_insert_ne by done. unfold existing_quantity, find_account, ensure_account.
      by destruct (accounts e !! _).
  - unfold existing_quantity, find_account. by rewrite apply_fill_account_other.
Qed.

(** Running the fills of a session. *)
Definition apply_fills (fills : list FillContext) (e : RiskEngine) : RiskEngine :=
  foldl (fun e f => apply_fill f e) e fills.

(** What the fills add to a position. *)
Definition fill_for (a m : Z) (f : FillContext) : Z :=
  if (fc_account f =? a) && (fc_market f =? m)
  then if is_buy (fc_side f) then fc_quantity f else - fc_quantity f else 0.

Lemma apply_fills_existing fills a m : forall e,
  existing_quantity (apply_fills fills e) a m ==64 existing_quantity e a m + Zsum (fill_for a m) fills.
Proof.
  induction fills as [|f fills IH]; intros e; cbn [apply_fills foldl].
  - by rewrite Zsum_nil, Z.add_0_r.
  - fold (apply_fills fills (apply_fill f e)). rewrite IH, apply_fill_existing, Zsum_cons.
    unfold fill_for at 2. destruct (_ && _); [|by rewrite Z.add_0_l].
    by rewrite i64_eqm, signed_qty_eqm, Z.add_assoc.
Qed.

(** Every position fits its type, and a flat one has no entry price. *)
Definition position_wf (p : PositionState) : Prop :=
  in_i64 (pos_quantity p) /\ (pos_quantity p = 0 -> pos_entry_price p = 0).

Definition risk_wf (e : RiskEngine) : Prop :=
  forall a s m p, accounts e !! a = Some s -> positions s !! m = Some p -> position_wf p.

Lemma fill_position_wf fill e : position_wf (fill_position fill e).
Proof.
  unfold fill_position. destruct (same_direction _ _); split; cbn; auto using i64_range.
  - by intros ->.
  - by intros ->.
Qed.

Lemma apply_fill_wf fill e : risk_wf e -> risk_wf (apply_fill fill e).
Proof.
  intros He a s m p. destruct (Z.eq_dec a (fc_account fill)) as [->|Hn].
  - destruct (apply_fill_account fill e) as (c & r & ->). intros [= <-]. cbn.
    destruct (Z.eq_dec (fc_market fill) m) as [<-|Hm].
    + rewrite lookup_insert_eq. intros [= <-]. apply fill_position_wf.
    + rewrite lookup_insert_ne by done. unfold ensure_account.
      destruct (accounts e !! _) as [s|] eqn:Es; cbn; [eauto|by rewrite lookup_empty].
  - rewrite apply_fill_account_other by done. apply He.
Qed.

Lemma existing_range e a m : risk_wf e -> in_i64 (existing_quantity e a m).
Proof.
  intros He. unfold existing_quantity, find_account.
  destruct (accounts e !! a) as [s|] eqn:Es; [|range].
  destruct (positions s !! m) as [p|] eqn:Ep; [|range]. by apply (He a s m p).
Qed.

Lemma apply_fills_wf fills : forall e, risk_wf e -> risk_wf (apply_fills fills e).
Proof. induction fills as [|f fills IH]; intros e He; [done|]. by apply IH, apply_fill_wf. Qed.

(** C25: the position of an account in a market is the signed sum of the fills
    applied to it, whatever other accounts and markets traded in between, and a
    flat position carries no entry price. *)
Theorem position_is_sum_of_fills fills a m :
  let e := apply_fills fills new_risk in
  existing_quantity e a m = i64 (Zsum (fill_for a m) fills) /\ risk_wf e.
Proof.
  cbv zeta. assert (Hwf : risk_wf (apply_fills fills new_risk)).
  { apply apply_fills_wf. intros a0 s m0 p. discriminate. }
  split; [|done]. rewrite <- (i64_small _ (existing_range _ a m Hwf)).
  apply i64_proper. rewrite apply_fills_existing. reflexivity.
Qed.

(** ** Profit and loss *)

(** What the account has made in the market, at a mark: realised profit plus
    the open position at its entry price. *)
Definition mark_to_market (e : RiskEngine) (a m mark : Z) : Z :=
  let s := ensure_account e a in
  let p := default (mkPosition 0 0) (positions s !! m) in
  realized_pnl s +
  pos_quantity p * (mark - pos_entry_price p) * contract_size (ms_config (ensure_market_state e m)).

Lemma realized_by_spec p signed price cs :
  in_i64 (pos_quantity p) -> in_i64 signed -> - INT64_MAX <= pos_quantity p -> - INT64_MAX <= signed ->
  same_direction (pos_quantity p) signed = false ->
  let p' := reduce_position p signed price in
  forall mark,
  realized_by p signed price cs + pos_quantity p' * (mark - pos_entry_price p') * cs ==64
  pos_quantity p * (mark - pos_entry_price p) * cs + signed * (mark - price) * cs.
Proof.
  intros Hq Hs Hq' Hs' Hd p' mark. unfold realized_by, p', reduce_position, same_direction in *.
  destruct p as [q entry]. cbn in *. rewrite !llabs_small by range.
  assert (Hr : in_i64 (q + signed)) by (revert Hd; range).
  rewrite (i64_small _ Hr). rewrite !i64_eqm.
  destruct (Z.gtb_spec q 0), (Z.ltb_spec q 0); cbn [andb orb] in *; try (exfalso; lia);
    rewrite !i64_eqm, ?orb_false_r.
  - assert (Hc : Z.abs q `min` Z.abs signed = if q + signed <? 0 then q else - signed).
    { destruct (Z.ltb_spec (q + signed) 0); revert Hd; lia. }
    rewrite Hc. apply eqm64_eq. destruct (Z.eqb_spec (q + signed) 0), (Z.ltb_spec (q + signed) 0); nia.
  - assert (Hc : Z.abs q `min` Z.abs signed = if q + signed >? 0 then - q else signed).
    { destruct (Z.gtb_spec (q + signed) 0); revert Hd; lia. }
    rewrite Hc. apply eqm64_eq. destruct (Z.eqb_spec (q + signed) 0), (Z.gtb_spec (q + signed) 0); nia.
Qed.

(** A fill against the position, seen from the account. *)
Lemma apply_fill_against fill e :
  let s := ensure_account e (fc_account fill) in
  let p := default (mkPosition 0 0) (positions s !! fc_market fill) in
  let signed := signed_qty (fc_side fill) (fc_quantity fill) in
  let realized := realized_by p signed (fc_price fill)
    (contract_size (ms_config (ensure_market_state e (fc_market fill)))) in
  same_direction (pos_quantity p) signed = false ->
  let e' := apply_fill fill e in
  ensure_account e' (fc_account fill) =
    mkAccount (i64 (collateral s + realized)) (i64 (realized_pnl s + realized))
      (<[fc_market fill := reduce_position p signed (fc_price fill)]> (positions s)) /\
  ensure_market_state e' (fc_market fill) = ensure_market_state e (fc_market fill).
Proof.
  intros s p signed realized Hd e'. unfold e', apply_fill. fold s p signed. rewrite Hd.
  split; [unfold ensure_account at 1|unfold ensure_market_state at 1]; cbn; by rewrite lookup_insert_eq.
Qed.

(** C26: realising profit creates none.  A fill that closes, reduces or turns
    around a position changes what the account has made, at any mark, by exactly
    what the fill itself is worth at that mark; collateral moves by the profit
    realised. *)
Theorem closing_fill_marks_to_market fill e mark :
  let a := fc_account fill in
  let m := fc_market fill in
  let q := existing_quantity e a m in
  let signed := signed_qty (fc_side fill) (fc_quantity fill) in
  let e' := apply_fill fill e in
  risk_wf e -> - INT64_MAX <= q -> in_i64 signed -> - INT64_MAX <= signed ->
  same_direction q signed = false ->
  mark_to_market e' a m mark ==64
    mark_to_market e a m mark +
    signed * (mark - fc_price fill) * contract_size (ms_config (ensure_market_state e m)) /\
  collateral (ensure_account e' a) - collateral (ensure_account e a) ==64
    realized_pnl (ensure_account e' a) - realized_pnl (ensure_account e a).
Proof.
  intros a m q signed e' He Hq Hs Hs' Hd. set (s := ensure_account e a).
  set (p := default (mkPosition 0 0) (positions s !! m)).
  assert (Eq : q = pos_quantity p).
  { unfold q, p, s, existing_quantity, find_account, ensure_account.
    destruct (accounts e !! a) as [s0|]; cbn; [|done]. by destruct (positions s0 !! m). }
  destruct (apply_fill_against fill e ltac:(rewrite Eq in Hd; exact Hd)) as [Ea Em].
  fold a m s p signed e' in Ea, Em. unfold mark_to_market. rewrite Ea, Em. fold s p. cbn.
  rewrite lookup_insert_eq. cbn [default]. rewrite !i64_eqm. split.
  - pose proof (existing_range e a m He) as Hr. fold q in Hr.
    rewrite <- !Z.add_assoc. rewrite realized_by_spec; by rewrite <- ?Eq.
  - apply eqm64_eq. lia.
Qed.

Module RiskDemo.
Definition fill (side : Side) (q p : Z) : FillContext := mkFillContext 1 9 side q p.
Definition long : RiskEngine := apply_fill (fill kBuy 10 100) new_risk.
End RiskDemo.

Lemma closing_fill_marks_to_market_witness :
  mark_to_market (apply_fill (RiskDemo.fill kSell 4 130) RiskDemo.long) 1 9 150 ==64
    mark_to_market RiskDemo.long 1 9 150 + -4 * (150 - 130) * 1.
Proof.
  refine (proj1 (closing_fill_marks_to_market (RiskDemo.fill kSell 4 130) RiskDemo.long 150 _ _ _ _ _)).
  - apply apply_fill_wf. intros a s m p. discriminate.
  - vm_compute. discriminate.
  - vm_compute. split; discriminate.
  - vm_compute. discriminate.
  - vm_compute. reflexivity.
Defined.

Lemma quot_between w t lo hi : 0 < t -> lo * t <= w <= hi * t -> lo <= Z.quot w t <= hi.
Proof.
  intros Ht Hw. pose proof (Z.quot_rem' w t). pose proof (Z.rem_bound_abs w t ltac:(lia)).
  pose proof (Z.rem_sign_mul w t ltac:(lia)). nia.
Qed.

Lemma quot_error w t : 0 < t -> Z.abs (w - t * Z.quot w t) < t.
Proof.
  intros Ht. pose proof (Z.quot_rem' w t). pose proof (Z.rem_bound_abs w t ltac:(lia)). lia.
Qed.

(** Extending a position averages its price.  When the notionals fit
    [int64], the new entry price lies between the old one and the fill's, and the
    rounding loses less than one price unit per contract held. *)
Theorem extending_averages_entry p signed price :
  let q := pos_quantity p in
  let entry := pos_entry_price p in
  let p' := extend_position p signed price in
  same_direction q signed = true -> signed <> 0 ->
  Z.abs q + Z.abs signed <= INT64_MAX ->
  (Z.abs entry + Z.abs price) * (Z.abs q + Z.abs signed) <= INT64_MAX ->
  pos_quantity p' = q + signed /\
  Z.abs (q * entry + signed * price - pos_quantity p' * pos_entry_price p') < Z.abs (pos_quantity p') /\
  (q <> 0 -> Z.min entry price <= pos_entry_price p' <= Z.max entry price) /\
  (q = 0 -> pos_entry_price p' = price).
Proof.
  intros q entry p' Hd Hs Ht Hn. unfold p', extend_position. fold q entry. cbn [pos_quantity pos_entry_price].
  rewrite !llabs_small by range.
  assert (Hsum : Z.abs (q + signed) = Z.abs q + Z.abs signed) by (unfold same_direction in Hd; lia).
  assert (Hb : Z.abs (entry * Z.abs q + price * Z.abs signed) <= INT64_MAX).
  { etransitivity; [|exact Hn]. rewrite Z.abs_triangle, !Z.abs_mul, !Z.abs_involutive. nia. }
  rewrite (i64_small (q + signed)), (i64_small (Z.abs q + _)) by range.
  rewrite i64_add_l, i64_add_r, (i64_small (entry * _ + _)) by range.
  destruct (Z.eqb_spec (q + signed) 0); [lia|]. cbn [negb].
  destruct (Z.eqb_spec (Z.abs q + Z.abs signed) 0); [lia|].
  set (w := entry * Z.abs q + price * Z.abs signed) in *. set (t := Z.abs q + Z.abs signed) in *.
  assert (Ht0 : 0 < t) by lia.
  assert (Hqb : - Z.abs w <= Z.quot w t <= Z.abs w) by (apply quot_between; nia).
  rewrite i64_small by range. split; [done|]. rewrite Hsum. fold t.
  assert (Hw : (q + signed = t /\ q * entry + signed * price = w) \/
               (q + signed = - t /\ q * entry + signed * price = - w)).
  { unfold w, t, same_direction in *. destruct (Z.abs_spec q), (Z.abs_spec signed); lia. }
  pose proof (quot_error w t Ht0) as Herr. split; [|split].
  - destruct Hw as [[-> ->]|[-> ->]]; lia.
  - intros Hq. apply quot_between; [done|]. unfold w, t. rewrite !Z.mul_add_distr_l.
    split; apply Z.add_le_mono; apply Z.mul_le_mono_nonneg_r; lia.
  - intros Hq. unfold w, t. rewrite Hq. cbn [Z.abs]. rewrite Z.mul_0_r, !Z.add_0_l.
    apply Z.quot_mul. lia.
Qed.

Lemma extending_averages_entry_witness :
  pos_entry_price (extend_position (mkPosition (-10) 100) (-5) 131) = 110 /\
  100 <= 110 <= 131.
Proof.
  split; [reflexivity|].
  refine (proj1 (proj2 (proj2 (extending_averages_entry (mkPosition (-10) 100) (-5) 131 _ _ _ _))) _);
    vm_compute; first [reflexivity|discriminate].
Defined.

(** ** Margin *)

(** The exposures before an order, its market apart. *)
Lemma exposures_cut e a m :
  exposures_of (find_account e a) ≡ₚ
    match positions (ensure_account e a) !! m with
    | Some p => [mkExposure m (pos_quantity p) (pos_entry_price p) true]
    | None => []
    end ++ ((fun '(m, p) => mkExposure m (pos_quantity p) (pos_entry_price p) true) <$>
             map_to_list (base.delete m (positions (ensure_account e a)))).
Proof.
  unfold exposures_of, exposures_in, find_account, ensure_account. destruct (accounts e !! a) as [s|]; cbn.
  - destruct (positions s !! m) as [p|] eqn:Ep.
    + by rewrite <- (map_to_list_delete _ _ _ Ep).
    + by rewrite delete_id.
  - rewrite lookup_empty, delete_empty, map_to_list_empty. done.
Qed.

Lemma exposures_markets e a : NoDup (ex_market <$> exposures_of (find_account e a)).
Proof.
  unfold exposures_of, exposures_in. destruct (find_account e a) as [s|]; [|constructor]. cbn [position_table].
  rewrite <- list_fmap_compose. rewrite (list_fmap_ext _ fst); [apply NoDup_fst_map_to_list|].
  by intros _ [m p] _.
Qed.

(** Merging an order into the exposures, up to their order. *)
Lemma merge_delta_perm d l l' :
  l ≡ₚ l' -> NoDup (ex_market <$> l) -> merge_delta d l ≡ₚ merge_delta d l'.
Proof.
  induction 1 as [|x l l' H IH|x y l|l1 l2 l3 H1 IH1 H2 IH2]; intros Hd; [done| | |].
  - cbn in *. apply NoDup_cons in Hd as [_ Hd]. destruct (_ =? _); [by constructor|]. constructor; auto.
  - cbn in *. apply NoDup_cons in Hd as [Hn _].
    destruct (Z.eqb_spec (ex_market x) (fc_market d)) as [Ex|], (Z.eqb_spec (ex_market y) (fc_market d)) as [Ey|].
    + exfalso. apply Hn. rewrite Ey, <- Ex. by left.
    + apply perm_swap.
    + apply perm_swap.
    + apply perm_swap.
  - rewrite IH1 by done. apply IH2. by rewrite <- H1.
Qed.

(** C27: the summary of an account, before an order and with it, does not depend on
    the order in which the hash map yields its positions: whichever permutation of
    them the loops run over, merging the order included. *)
Theorem summary_order_independent e a delta table :
  table ≡ₚ position_table (find_account e a) ->
  summary_over e (find_account e a) delta table = account_summary_with_delta e a delta.
Proof.
  intros Ht. unfold account_summary_with_delta, summary_over.
  destruct (base_summary_range (find_account e a)) as (H1 & H2 & H3). rewrite !summary_fold by done.
  assert (Hl : exposures_with delta table ≡ₚ exposures_with delta (position_table (find_account e a))).
  { assert (Hx : exposures_in table ≡ₚ exposures_in (position_table (find_account e a))) by by apply fmap_Permutation.
    destruct delta as [d|]; [|done]. apply merge_delta_perm; [done|]. rewrite Hx. apply exposures_markets. }
  by rewrite !(Zsum_perm _ _ _ Hl).
Qed.

Definition two_markets : RiskEngine :=
  set_mark_price 8 50 (apply_fill (mkFillContext 1 8 kSell 3 40) (set_mark_price 9 120 RiskDemo.long)).

(** Two tables of two positions, and an order that joins the second one. *)
Lemma summary_order_independent_witness :
  summary_over two_markets (find_account two_markets 1) (Some (mkFillContext 1 8 kBuy 5 60))
    [(9, mkPosition 10 100); (8, mkPosition (-3) 40)] =
  summary_over two_markets (find_account two_markets 1) (Some (mkFillContext 1 8 kBuy 5 60))
    [(8, mkPosition (-3) 40); (9, mkPosition 10 100)].
Proof.
  transitivity (account_summary_with_delta two_markets 1 (Some (mkFillContext 1 8 kBuy 5 60))); [|symmetry];
    apply (summary_order_independent two_markets 1 (Some (mkFillContext 1 8 kBuy 5 60)));
    vm_compute; (apply perm_swap || reflexivity).
Defined.

Lemma merge_delta_absent d l :
  fc_market d ∉ ex_market <$> l ->
  merge_delta d l =
    l ++ [mkExposure (fc_market d) (signed_qty (fc_side d) (fc_quantity d)) (fc_price d) false].
Proof.
  induction l as [|x l IH]; cbn; [done|]. intros Hn.
  destruct (Z.eqb_spec (ex_market x) (fc_market d)) as [E|]; [rewrite E in Hn; set_solver|].
  rewrite IH by set_solver. done.
Qed.

(** The margin of a position in a marked market does not look at its price. *)
Lemma margin_part_marked e delta delta' bp x x' s :
  find_market e (ex_market x) = Some s -> ms_mark_price s <> 0 ->
  ex_market x' = ex_market x -> ex_quantity x' = ex_quantity x ->
  margin_part e delta bp x = margin_part e delta' bp x'.
Proof.
  intros Hm Hs Em Eq. unfold margin_part, part, notional_of, mark_for. rewrite Em, Eq, Hm.
  by destruct (Z.eqb_spec (ms_mark_price s) 0).
Qed.

Lemma margin_part_other e d bp x :
  ex_market x <> fc_market d -> margin_part e (Some d) bp x = margin_part e None bp x.
Proof.
  intros Hn. unfold margin_part, part, mark_for. destruct (_ =? 0); [done|].
  destruct (find_market _ _); [|done]. destruct (Z.eqb_spec (fc_market d) (ex_market x)); [lia|done].
Qed.

(** The margin sums before an order, with it, and after it has filled. *)
Lemma margin_after_fill e d bp s :
  find_market e (fc_market d) = Some s -> ms_mark_price s <> 0 -> in_i64 (fc_quantity d) ->
  Zsum (margin_part e (Some d) bp) (all_exposures e (fc_account d) (Some d)) =
  Zsum (margin_part (apply_fill d e) None bp) (all_exposures (apply_fill d e) (fc_account d) None).
Proof.
  intros Hm Hs Hq. set (a := fc_account d). set (m := fc_market d) in *.
  change (all_exposures ?x ?y (Some d)) with (merge_delta d (exposures_of (find_account x y))).
  change (all_exposures ?x ?y None) with (exposures_of (find_account x y)).
  set (others := (fun '(m, p) => mkExposure m (pos_quantity p) (pos_entry_price p) true) <$>
    map_to_list (base.delete m (positions (ensure_account e a)))).
  assert (Hmk : forall x delta, margin_part (apply_fill d e) delta bp x = margin_part e delta bp x).
  { intros x delta. unfold margin_part, part.
    assert (find_market (apply_fill d e) (ex_market x) = find_market e (ex_market x)) as ->; [|done].
    unfold find_market in *. unfold apply_fill, ensure_market_state. fold m.
    destruct (same_direction _ _); cbn; rewrite Hm; cbn;
      (destruct (decide (m = ex_market x)) as [<-|]; [by rewrite lookup_insert_eq|by rewrite lookup_insert_ne]). }
  assert (Ho : fc_market d ∉ ex_market <$> others).
  { intros (x & E & ([m0 p0] & -> & Hin)%list_elem_of_fmap)%list_elem_of_fmap. cbn in E.
    apply elem_of_map_to_list in Hin. fold m in E. rewrite <- E, lookup_delete_eq in Hin. done. }
  assert (Ha : exposures_of (find_account (apply_fill d e) a) ≡ₚ
    mkExposure m (pos_quantity (fill_position d e)) (pos_entry_price (fill_position d e)) true :: others).
  { destruct (apply_fill_account d e) as (c & r & E). fold a m in E.
    rewrite (exposures_cut (apply_fill d e) a m).
    assert (ensure_account (apply_fill d e) a = mkAccount c r
      (<[m := fill_position d e]> (positions (ensure_account e a)))) as ->.
    { unfold ensure_account at 1. by rewrite E. }
    cbn [positions]. by rewrite lookup_insert_eq, delete_insert_eq. }
  rewrite (Zsum_perm _ _ _ Ha), Zsum_cons, Hmk.
  rewrite (Zsum_perm _ _ _ (merge_delta_perm d _ _ (exposures_cut e a m) (exposures_markets e a))).
  fold others. pose proof (fill_position_quantity d e) as Hfq. fold a m in Hfq.
  assert (Hsum : Zsum (margin_part e (Some d) bp) others = Zsum (margin_part (apply_fill d e) None bp) others).
  { apply Zsum_ext. intros x Hx. rewrite Hmk. apply margin_part_other. intros E. apply Ho. rewrite <- E.
    by apply list_elem_of_fmap_2. }
  assert (Hex : forall p, positions (ensure_account e a) !! m = p ->
    existing_quantity e a m = match p with Some p => pos_quantity p | None => 0 end).
  { intros p <-. unfold existing_quantity, find_account, ensure_account.
    destruct (accounts e !! a); cbn; [done|by rewrite lookup_empty]. }
  specialize (Hex _ eq_refl). destruct (positions (ensure_account e a) !! m) as [p|]; rewrite Hex in Hfq.
  - cbn [app merge_delta ex_market]. fold m. rewrite Z.eqb_refl, Zsum_cons, Hsum. f_equal.
    by eapply margin_part_marked.
  - cbn [app]. rewrite (merge_delta_absent d others Ho), Zsum_app, Zsum_cons, Zsum_nil, Hsum.
    rewrite Z.add_0_r, Z.add_comm. f_equal. eapply margin_part_marked; [done|done|done|].
    cbn. rewrite Hfq, Z.add_0_l. apply i64_small. unfold signed_qty. destruct (is_buy _); [done|apply i64_range].
Qed.

(** What an exposure in a marked market adds to the equity. *)
Lemma equity_part_marked e known delta x s :
  find_market e (ex_market x) = Some s -> ms_mark_price s <> 0 ->
  equity_part e known delta x ==64
    if known && ex_existed x
    then ex_quantity x * (ms_mark_price s - ex_entry_price x) * contract_size (ms_config s) else 0.
Proof.
  intros Hm Hs. unfold equity_part, part, mark_for, unrealized_of. rewrite Hm.
  destruct (Z.eqb_spec (ms_mark_price s) 0); [done|]. destruct (Z.eqb_spec (ex_quantity x) 0) as [->|_].
  - by destruct (known && _).
  - destruct (known && _); [|done]. by rewrite !i64_eqm.
Qed.

Lemma equity_part_other e known d x :
  ex_market x <> fc_market d -> equity_part e known (Some d) x = equity_part e known None x.
Proof.
  intros Hn. unfold equity_part, part, mark_for. destruct (_ =? 0); [done|].
  destruct (find_market _ _); [|done]. destruct (Z.eqb_spec (fc_market d) (ex_market x)); [lia|done].
Qed.

(** What the order adds to the equity: its quantity, from the entry price of the
    position it joins, if there is a record of one. *)
Definition order_gain (e : RiskEngine) (d : FillContext) (s : MarketState) : Z :=
  match positions (ensure_account e (fc_account d)) !! fc_market d with
  | Some p => (if is_buy (fc_side d) then fc_quantity d else - fc_quantity d) *
              (ms_mark_price s - pos_entry_price p) * contract_size (ms_config s)
  | None => 0
  end.

Lemma equity_with_order e d s :
  find_market e (fc_market d) = Some s -> ms_mark_price s <> 0 ->
  equity (account_summary_with_delta e (fc_account d) (Some d)) ==64
    equity (account_summary e (fc_account d)) + order_gain e d s.
Proof.
  intros Hm Hs. set (a := fc_account d). set (m := fc_market d) in *. unfold account_summary.
  rewrite !account_summary_sums. cbn [equity]. rewrite !i64_eqm, <- Z.add_assoc.
  apply eqm64_add; [done|]. set (known := bool_decide _).
  change (all_exposures ?x ?y (Some d)) with (merge_delta d (exposures_of (find_account x y))).
  change (all_exposures ?x ?y None) with (exposures_of (find_account x y)).
  pose proof (exposures_cut e a m) as Hcut. set (others := (fun '(m, p) => mkExposure m (pos_quantity p) (pos_entry_price p) true) <$> _) in Hcut.
  rewrite (Zsum_perm _ _ _ (merge_delta_perm d _ _ Hcut (exposures_markets e a))), (Zsum_perm _ _ _ Hcut).
  assert (Ho : fc_market d ∉ ex_market <$> others).
  { intros (x & E & ([m0 p0] & -> & Hin)%list_elem_of_fmap)%list_elem_of_fmap. cbn in E.
    apply elem_of_map_to_list in Hin. fold m in E. by rewrite <- E, lookup_delete_eq in Hin. }
  assert (Hsum : Zsum (equity_part e known (Some d)) others = Zsum (equity_part e known None) others).
  { apply Zsum_ext. intros x Hx. apply equity_part_other. intros E. apply Ho. rewrite <- E. by apply list_elem_of_fmap_2. }
  unfold order_gain. fold a m. destruct (positions (ensure_account e a) !! m) as [p|] eqn:Ep.
  - assert (Hk : known = true).
    { unfold known, find_account, ensure_account in *. by destruct (accounts e !! a). }
    cbn [app merge_delta ex_market]. fold m. rewrite Z.eqb_refl, !Zsum_cons, Hsum.
    rewrite !(equity_part_marked e known _ _ s) by done. rewrite Hk. cbn [ex_existed ex_quantity ex_entry_price negb andb].
    rewrite i64_eqm, signed_qty_eqm. apply eqm64_eq. ring.
  - cbn [app]. rewrite (merge_delta_absent d others Ho), Zsum_app, Zsum_cons, Zsum_nil, Hsum.
    rewrite (equity_part_marked e known _ _ s) by done. cbn [ex_existed]. rewrite andb_false_r. apply eqm64_eq. ring.
Qed.

(** C28: what the pre-trade check compares.  In a market with a mark price that is not
    zero, for an order that the reduce-only test does not reject: the requirements
    reported are exactly those of the account once the order has filled; the equity
    reported is that of today, plus the quantity of the order valued from the entry
    price of the record its account has in the market to the mark, as an [int64] (and
    not the equity once it has filled); and the order is accepted, or rejected for
    margin, exactly as the equity reported covers the initial requirement or not. *)
Theorem evaluate_order_predicts_margin e intent s :
  let r := evaluate_order e intent in
  let after := account_summary (apply_fill (delta_of intent) e) (in_account intent) in
  find_market e (in_market intent) = Some s -> ms_mark_price s <> 0 -> in_i64 (in_quantity intent) ->
  rk_decision r <> kRejectedReduceOnly ->
  rk_initial_margin_required r = initial_margin after /\
  rk_maintenance_margin_required r = maintenance_margin after /\
  rk_equity r ==64 equity (account_summary e (in_account intent)) + order_gain e (delta_of intent) s /\
  rk_decision r = (if rk_equity r <? initial_margin after then kRejectedInsufficientMargin else kAccepted).
Proof.
  intros r after Hm Hs Hq. unfold r, evaluate_order. rewrite Hm. destruct (_ && _); [done|]. intros _.
  pose proof (equity_with_order e (delta_of intent) s Hm Hs) as Heq. cbn [delta_of fc_account] in Heq. fold (delta_of intent) in Heq.
  assert (initial_margin after =
    initial_margin (account_summary_with_delta e (in_account intent) (Some (delta_of intent))) /\
    maintenance_margin after =
    maintenance_margin (account_summary_with_delta e (in_account intent) (Some (delta_of intent)))) as [-> ->].
  { unfold after, account_summary. rewrite !account_summary_sums. cbn [initial_margin maintenance_margin].
    by rewrite <- !(margin_after_fill e (delta_of intent) _ s Hm Hs Hq). }
  set (summary := account_summary_with_delta _ _ _) in *. clearbody summary.
  destruct (Z.gtb_spec (initial_margin summary) (equity summary)) as [H|H]; cbn;
    (split; [done|]; split; [done|]; split; [done|]); destruct (Z.ltb_spec (equity summary) (initial_margin summary)); first [done|lia].
Qed.

Definition marked : RiskEngine :=
  set_mark_price 9 120 (credit_collateral 1 500
    (configure_market 9 (mkRiskConfig 1 1000 500) RiskDemo.long)).

Lemma evaluate_order_predicts_margin_witness :
  rk_initial_margin_required (evaluate_order marked (mkIntent 1 9 kSell 4 130 false)) = 72 /\
  rk_equity (evaluate_order marked (mkIntent 1 9 kSell 4 130 false)) ==64 700 + -4 * (120 - 100) * 1.
Proof.
  destruct (evaluate_order_predicts_margin marked (mkIntent 1 9 kSell 4 130 false) (mkMarket (mkRiskConfig 1 1000 500) 120))
    as (H1 & _ & H3 & _); [vm_compute; first [reflexivity|discriminate|split; discriminate]..|].
  split; [rewrite H1; by vm_compute|exact H3].
Defined.

(** ** Liquidation *)

(** Requirements ordered: no market asks more to keep a position than to open
    it, and no notional is so large that a product or a sum leaves [int64]. *)
Record margins_ok (e : RiskEngine) (a : Z) : Prop := {
  mo_configs m s : markets e !! m = Some s ->
    0 <= maintenance_margin_basis_points (ms_config s) <= initial_margin_basis_points (ms_config s);
  mo_notional x s : x ∈ all_exposures e a None -> find_market e (ex_market x) = Some s ->
    0 <= notional_of s (mark_for s None x) x /\
    notional_of s (mark_for s None x) x * initial_margin_basis_points (ms_config s) <=
      INT64_MAX - kBasisPointDenominator;
  mo_sum : Zsum (margin_part e None initial_margin_basis_points) (all_exposures e a None) <= INT64_MAX }.

Lemma apply_basis_points_mono n b b' :
  0 <= n -> 0 <= b <= b' -> n * b' <= INT64_MAX - kBasisPointDenominator ->
  0 <= apply_basis_points n b <= apply_basis_points n b'.
Proof.
  intros Hn Hb Hm. unfold kBasisPointDenominator in Hm.
  assert (n * b <= n * b') by nia.
  assert (E : forall c, 0 <= n * c <= n * b' -> apply_basis_points n c = (n * c + 9999) / 10000).
  { intros c Hc. unfold apply_basis_points, kBasisPointDenominator.
    rewrite (i64_small (n * c)), (i64_small (_ + _)) by range.
    change (10000 - 1) with 9999. rewrite Z.quot_div_nonneg by lia. apply i64_small.
    pose proof (Z.div_pos (n * c + 9999) 10000). pose proof (Z.div_le_upper_bound (n * c + 9999) 10000 INT64_MAX).
    range. }
  rewrite !E by nia. split; [apply Z.div_pos; nia|apply Z.div_le_mono; lia].
Qed.

Lemma margin_parts_ordered e a x : margins_ok e a -> x ∈ all_exposures e a None ->
  0 <= margin_part e None maintenance_margin_basis_points x <=
    margin_part e None initial_margin_basis_points x.
Proof.
  intros [Hc Hn _] Hx. unfold margin_part, part. destruct (_ =? 0); [lia|].
  destruct (find_market e (ex_market x)) as [s|] eqn:Em; [|lia].
  destruct (Hn x s Hx Em). apply apply_basis_points_mono; [done|by apply (Hc (ex_market x))|done].
Qed.

(** C29: the liquidation manager sorts accounts correctly, insolvent ones included.
    When the basis points of no market ask more to keep a position than to open it,
    and the notionals and the sums of the account fit [int64]: the requirement to keep
    the positions is between 0 and the one to open them, and the state is full
    liquidation exactly when the first is not 0 and the equity is below it, partial
    when the equity is between the two, and else healthy.  The deficit is what brings
    the equity to the requirement it fails: exactly, except that for a full
    liquidation it is an [int64] and wraps if the difference does not fit. *)
Theorem liquidation_classifies e a :
  margins_ok e a ->
  let r := evaluate e a in
  0 <= lq_maintenance_margin r <= lq_initial_margin r /\
  lq_equity r = equity (account_summary e a) /\
  match lq_status r with
  | kNeedsFull => lq_maintenance_margin r <> 0 /\ lq_equity r < lq_maintenance_margin r /\
      lq_equity r + lq_deficit r ==64 lq_maintenance_margin r /\
      (lq_maintenance_margin r - lq_equity r <= INT64_MAX -> lq_equity r + lq_deficit r = lq_maintenance_margin r)
  | kNeedsPartial => lq_maintenance_margin r <> 0 /\ lq_maintenance_margin r <= lq_equity r < lq_initial_margin r /\
      lq_equity r + lq_deficit r = lq_initial_margin r
  | kHealthy => (lq_initial_margin r <= lq_equity r \/ lq_maintenance_margin r = 0) /\ lq_deficit r = 0
  end.
Proof.
  intros Hok. unfold evaluate, account_summary. rewrite account_summary_sums.
  set (L := all_exposures e a None).
  assert (Hs : 0 <= Zsum (margin_part e None maintenance_margin_basis_points) L <=
               Zsum (margin_part e None initial_margin_basis_points) L).
  { apply Zsum_mono. intros x Hx. by apply (margin_parts_ordered e a). }
  pose proof (mo_sum e a Hok) as Hmax. fold L in Hmax.
  rewrite (i64_small (Zsum (margin_part e None maintenance_margin_basis_points) L)),
    (i64_small (Zsum (margin_part e None initial_margin_basis_points) L)) by range.
  set (im := Zsum (margin_part e None initial_margin_basis_points) L) in *.
  set (mm := Zsum (margin_part e None maintenance_margin_basis_points) L) in *. set (eq := i64 _).
  assert (Heq : in_i64 eq) by apply i64_range. clearbody im mm eq. unfold classify. cbn.
  destruct (Z.eqb_spec mm 0); [cbn; lia|].
  destruct (Z.ltb_spec eq mm); cbn.
  { split; [lia|]. split; [done|]. split; [done|]. split; [done|]. split; [rewrite i64_eqm; apply eqm64_eq; lia|].
    intros H1. rewrite i64_small; [lia|range]. }
  destruct (Z.ltb_spec eq im); cbn in *; [rewrite i64_small by range|]; lia.
Qed.

(** An account that owes: it withdrew 950 and the mark fell. *)
Definition insolvent : RiskEngine := set_mark_price 9 80 (debit_collateral 1 950 marked).

Lemma liquidation_classifies_witness :
  margins_ok insolvent 1 /\ lq_status (evaluate insolvent 1) = kNeedsFull /\
  lq_equity (evaluate insolvent 1) = -650 /\ -650 + lq_deficit (evaluate insolvent 1) = 40.
Proof.
  assert (H : margins_ok insolvent 1).
  { split.
    - intros m s Hm. apply elem_of_map_to_list in Hm. vm_compute in Hm.
      apply list_elem_of_singleton in Hm. injection Hm as _ ->. vm_compute. repeat split; discriminate.
    - intros x s Hx Hs. vm_compute in Hx. apply list_elem_of_singleton in Hx as ->.
      vm_compute in Hs. injection Hs as <-. vm_compute. split; discriminate.
    - vm_compute. discriminate. }
  split; [exact H|]. destruct (liquidation_classifies insolvent 1 H) as (_ & _ & Hc).
  assert (Es : lq_status (evaluate insolvent 1) = kNeedsFull) by (vm_compute; reflexivity).
  split; [exact Es|]. rewrite Es in Hc. destruct Hc as (_ & _ & _ & Hd).
  assert (Ee : lq_equity (evaluate insolvent 1) = -650) by (vm_compute; reflexivity).
  assert (Em : lq_maintenance_margin (evaluate insolvent 1) = 40) by (vm_compute; reflexivity).
  split; [exact Ee|]. rewrite Ee, Em in Hd. apply Hd. vm_compute. discriminate.
Defined.

(** ** Behaviours a caller may not expect *)

(** Realised profit is booked twice: [apply_fill] adds it to the collateral and
    to [realized_pnl], and the equity is the sum of the two.  A deposit of 1000
    and a profit of 100 make an equity of 1200. *)
Example realized_profit_counted_twice :
  let e := apply_fills [RiskDemo.fill kBuy 10 100; RiskDemo.fill kSell 10 110]
             (credit_collateral 1 1000 new_risk) in
  equity (account_summary e 1) = 1200 /\ collateral (ensure_account e 1) = 1100.
Proof. vm_compute. split; reflexivity. Qed.

(** The pre-trade equity values the order's own quantity at the old entry price:
    an account long 10 at 100 that offers to buy 10 more at 120, the mark, is
    credited with 200 of profit it does not have. *)
Example order_quantity_valued_at_old_entry :
  let e := set_mark_price 9 120 RiskDemo.long in
  rk_equity (evaluate_order e (mkIntent 1 9 kBuy 10 120 false)) = 400 /\
  equity (account_summary (apply_fill (RiskDemo.fill kBuy 10 120) e) 1) = 200.
Proof. vm_compute. split; reflexivity. Qed.

(** A position that was closed stays in the table with entry price 0, and the
    quantity of the next order is valued from that price: every buy of a market once
    traded pays for its own margin.  The account holds 100, and is allowed to buy a
    million contracts at 120, which need 12 million of margin; one that never traded
    is not. *)
Example closed_position_passes_every_buy :
  let e := set_mark_price 9 120 (credit_collateral 1 100 (configure_market 9 (mkRiskConfig 1 1000 500) new_risk)) in
  let traded := apply_fills [RiskDemo.fill kBuy 1 120; RiskDemo.fill kSell 1 120] e in
  let order := mkIntent 1 9 kBuy 1000000 120 false in
  equity (account_summary traded 1) = 100 /\ rk_decision (evaluate_order traded order) = kAccepted /\
  rk_initial_margin_required (evaluate_order traded order) = 12000000 /\
  rk_decision (evaluate_order e order) = kRejectedInsufficientMargin.
Proof. vm_compute. repeat split; reflexivity. Qed.

(** Without positions nothing is required, and an account that owes is healthy. *)
Example flat_debtor_is_healthy :
  let r := evaluate (debit_collateral 1 950 new_risk) 1 in lq_status r = kHealthy /\ lq_equity r = -950.
Proof. vm_compute. split; reflexivity. Qed.

(** Reduce-only compares sizes, not directions: a reduce-only order may turn a
    position around as long as the new one is no larger. *)
Example reduce_only_may_flip :
  rk_decision (evaluate_order RiskDemo.long (mkIntent 1 9 kSell 20 100 true)) = kAccepted /\
  existing_quantity (apply_fill (RiskDemo.fill kSell 20 100) RiskDemo.long) 1 9 = -10.
Proof. vm_compute. split; reflexivity. Qed.
