(* ===== verification/FundingLedger.v ===== *)
(** * Funding rates and the session ledger

    [libs/funding] keeps, per market, a mark price clamped to a band around the
    index and a funding accumulator; [libs/ledger] keeps available and locked
    collateral per session. *)
From S2P Require Import Prelude.

Module Funding.

Record FundingSnapshot := mkSnapshot {
  fs_mark_price : Z;
  fs_index_price : Z;
  fs_premium_rate : Z;
  fs_funding_rate : Z }.

Record MarketFundingConfig := mkConfig {
  clamp_basis_points : Z;      (* int32 *)
  max_rate_basis_points : Z }.

Definition default_funding_config : MarketFundingConfig := mkConfig 100 200.

Record FundingMarket := mkState {
  fm_config : MarketFundingConfig;
  fm_mark_price : Z;
  fm_index_price : Z;
  fm_premium_rate : Z;
  fm_funding_accumulator : Z }.

Definition new_funding_market (c : MarketFundingConfig) : FundingMarket := mkState c 0 0 0 0.

Abbreviation FundingEngine := (gmap Z FundingMarket).

Definition denominator : Z := 10000.

Definition configure_funding (m : Z) (c : MarketFundingConfig) (e : FundingEngine) : FundingEngine :=
  match e !! m with
  | None => <[m := new_funding_market c]> e
  | Some s => <[m := mkState c (fm_mark_price s) (fm_index_price s) (fm_premium_rate s)
                       (fm_funding_accumulator s)]> e
  end.

Definition clamp (value min_value max_value : Z) : Z := Z.min (Z.max value min_value) max_value.

(** The half width of the band around the index. *)
Definition band_of (c : MarketFundingConfig) (index_price : Z) : Z :=
  i64 (index_price * clamp_basis_points c) ÷64 denominator.

Definition premium_of (c : MarketFundingConfig) (index_price mid_price : Z) : Z :=
  let premium :=
    if index_price >? 0 then i64 (i64 (mid_price - index_price) * denominator) ÷64 index_price else 0 in
  clamp premium (i32 (- clamp_basis_points c)) (clamp_basis_points c).

Definition rate_of (c : MarketFundingConfig) (premium : Z) : Z :=
  clamp premium (i64 (- max_rate_basis_points c)) (max_rate_basis_points c).

Definition update_market (m index_price mid_price elapsed_seconds : Z) (e : FundingEngine)
    : FundingEngine * FundingSnapshot :=
  let s := default (new_funding_market default_funding_config) (e !! m) in
  let c := fm_config s in
  let band := band_of c index_price in
  let mark := clamp mid_price (i64 (index_price - band)) (i64 (index_price + band)) in
  let premium := premium_of c index_price mid_price in
  let rate := rate_of c premium in
  (<[m := mkState c mark index_price premium
            (i64 (fm_funding_accumulator s + i64 (rate * elapsed_seconds)))]> e,
   mkSnapshot mark index_price premium rate).

Definition funding_mark_price (m : Z) (e : FundingEngine) : Z :=
  match e !! m with None => 0 | Some s => fm_mark_price s end.

Definition accumulated_funding (m : Z) (e : FundingEngine) : Z :=
  match e !! m with None => 0 | Some s => fm_funding_accumulator s end.

(** A feed of updates: market, index, mid, seconds. *)
Abbreviation Update := (Z * Z * Z * Z)%type.

Definition update (e : FundingEngine) (u : Update) : FundingEngine :=
  let '(m, index, mid, seconds) := u in (update_market m index mid seconds e).1.

(** ** Properties *)
Lemma clamp_between v lo hi : lo <= hi -> lo <= clamp v lo hi <= hi.
Proof. unfold clamp. lia. Qed.

Lemma clamp_abs v b : 0 <= b -> Z.abs (clamp v (- b) b) <= b.
Proof. unfold clamp. lia. Qed.

Lemma clamp_inside v lo hi : lo <= v <= hi -> clamp v lo hi = v.
Proof. unfold clamp. lia. Qed.

(** A configuration with limits that make sense. *)
Definition config_ok (c : MarketFundingConfig) : Prop :=
  0 <= clamp_basis_points c < 2 ^ 31 /\ 0 <= max_rate_basis_points c <= INT64_MAX.

(** C40: an update keeps the mark in the band and the rate within its limits.
    The band is [clamp_basis_points] of the index on either side; inside it the
    mark is the mid price itself. *)
Theorem update_market_bounded m index mid seconds e :
  let s := default (new_funding_market default_funding_config) (e !! m) in
  let c := fm_config s in
  let r := (update_market m index mid seconds e).2 in
  config_ok c -> 0 <= index -> index * (denominator + clamp_basis_points c) <= INT64_MAX ->
  denominator * Z.abs (fs_mark_price r - index) <= index * clamp_basis_points c /\
  (denominator * Z.abs (mid - index) + denominator <= index * clamp_basis_points c -> fs_mark_price r = mid) /\
  Z.abs (fs_premium_rate r) <= clamp_basis_points c /\
  Z.abs (fs_funding_rate r) <= Z.min (clamp_basis_points c) (max_rate_basis_points c) /\
  funding_mark_price m (update_market m index mid seconds e).1 = fs_mark_price r.
Proof.
  intros s c r [Hc Hm] Hi Hb. unfold r, update_market. fold s c. cbn [fst snd].
  unfold denominator in *. assert (0 <= index * clamp_basis_points c) by nia.
  assert (Hband : band_of c index = index * clamp_basis_points c / 10000).
  { unfold band_of, denominator. rewrite (i64_small (_ * _)) by range.
    rewrite Z.quot_div_nonneg by lia. apply i64_small.
    pose proof (Z.div_pos (index * clamp_basis_points c) 10000).
    pose proof (Z.div_le_upper_bound (index * clamp_basis_points c) 10000 INT64_MAX). range. }
  pose proof (Z.mul_div_le (index * clamp_basis_points c) 10000 eq_refl) as Hlo.
  pose proof (Z.mul_succ_div_gt (index * clamp_basis_points c) 10000 eq_refl) as Hhi.
  rewrite Hband. set (band := _ / 10000) in *. cbn [fs_mark_price fs_premium_rate fs_funding_rate].
  assert (0 <= band) by (apply Z.div_pos; lia).
  rewrite (i64_small (index - band)), (i64_small (index + band)) by range.
  assert (Hp : Z.abs (premium_of c index mid) <= clamp_basis_points c).
  { unfold premium_of. rewrite i32_small by range. apply clamp_abs. lia. }
  assert (Hr : Z.abs (rate_of c (premium_of c index mid)) <=
               Z.min (clamp_basis_points c) (max_rate_basis_points c)).
  { unfold rate_of. rewrite i64_small by range. unfold clamp. lia. }
  pose proof (clamp_between mid (index - band) (index + band) ltac:(lia)).
  split; [lia|]. split; [intros; apply clamp_inside; lia|]. split; [done|]. split; [done|].
  unfold funding_mark_price. by rewrite lookup_insert_eq.
Qed.

Lemma update_market_bounded_witness :
  10000 * Z.abs (10100 - 10000) <= 10000 * 100.
Proof.
  refine (proj1 (update_market_bounded 1 10000 12345 60 ∅ _ _ _));
    vm_compute; repeat split; discriminate.
Defined.

(** The rate an update would set now, in a market that keeps its configuration. *)
Definition rate_now (c : MarketFundingConfig) (u : Update) : Z :=
  let '(_, index, mid, _) := u in rate_of c (premium_of c index mid).

Definition config_of (m : Z) (e : FundingEngine) : MarketFundingConfig :=
  fm_config (default (new_funding_market default_funding_config) (e !! m)).

Lemma update_other m e u : u.1.1.1 <> m -> update e u !! m = e !! m.
Proof. destruct u as [[[m' i] p] t]. cbn. intros. by rewrite lookup_insert_ne. Qed.

(** The accumulator is the time-weighted sum of the rates.  Over a feed of
    updates to any markets, the funding of a market moves by the rate of each of
    its own updates times the seconds it covers, modulo 2^64. *)
Lemma funding_accumulates feed m e :
  let e' := foldl update e feed in
  accumulated_funding m e' ==64 accumulated_funding m e +
    Zsum (fun u : Update => if u.1.1.1 =? m then rate_now (config_of m e) u * u.2 else 0) feed /\
  config_of m e' = config_of m e.
Proof.
  cbv zeta. revert e.
  induction feed as [|u feed IH]; intros e; cbn [foldl].
  { by rewrite Zsum_nil, Z.add_0_r. }
  destruct (IH (update e u)) as [E1 E2]. rewrite Zsum_cons.
  assert (config_of m (update e u) = config_of m e /\
    accumulated_funding m (update e u) ==64 accumulated_funding m e +
      (if u.1.1.1 =? m then rate_now (config_of m e) u * u.2 else 0)) as [Hc Ha].
  { destruct (Z.eqb_spec u.1.1.1 m) as [E|Hn].
    - destruct u as [[[m' i] p] t]. cbn in E. subst m'. cbn [update update_market fst snd rate_now].
      unfold config_of, accumulated_funding. rewrite lookup_insert_eq. cbn. split; [done|].
      rewrite !i64_eqm. by destruct (e !! m).
    - unfold config_of, accumulated_funding. rewrite update_other by done. by rewrite Z.add_0_r. }
  rewrite Hc in E1, E2. split; [|done]. by rewrite E1, Ha, Z.add_assoc.
Qed.
End Funding.

(** ** The ledger *)
Module Ledger.

Record LedgerAccount := mkLedger { collateral_available : Z; collateral_locked : Z }.

Abbreviation LedgerState := (gmap Z LedgerAccount).

Definition get (session : Z) (l : LedgerState) : LedgerAccount :=
  default (mkLedger 0 0) (l !! session).

Definition credit (session amount : Z) (l : LedgerState) : LedgerState :=
  let s := get session l in
  <[session := mkLedger (i64 (collateral_available s + amount)) (collateral_locked s)]> l.

Definition debit (session amount : Z) (l : LedgerState) : LedgerState :=
  let s := get session l in
  <[session := mkLedger (i64 (collateral_available s - amount))
                        (i64 (collateral_locked s + amount))]> l.

Inductive LedgerOp := Credit (session amount : Z) | Debit (session amount : Z).

Definition ledger_step (l : LedgerState) (op : LedgerOp) : LedgerState :=
  match op with Credit s a => credit s a l | Debit s a => debit s a l end.

Definition credited (session : Z) (op : LedgerOp) : Z :=
  match op with Credit s a => if s =? session then a else 0 | Debit _ _ => 0 end.

Definition debited (session : Z) (op : LedgerOp) : Z :=
  match op with Debit s a => if s =? session then a else 0 | Credit _ _ => 0 end.

Lemma ledger_step_moves l op session :
  let s := get session l in
  let s' := get session (ledger_step l op) in
  collateral_locked s' ==64 collateral_locked s + debited session op /\
  collateral_available s' + collateral_locked s' ==64
    collateral_available s + collateral_locked s + credited session op.
Proof.
  cbv zeta. destruct op as [s a|s a]; cbn [ledger_step credited debited];
    (destruct (Z.eqb_spec s session) as [<-|Hn];
     [unfold get at 1 3 4, credit, debit; rewrite lookup_insert_eq; cbn
     |unfold get at 1 3 4, credit, debit; rewrite lookup_insert_ne by done; by rewrite !Z.add_0_r]).
  - rewrite !i64_eqm, Z.add_0_r. split; [done|]. apply eqm64_eq. lia.
  - rewrite !i64_eqm. split; [done|]. apply eqm64_eq. lia.
Qed.

(** Collateral is conserved.  After any sequence of credits and debits, the
    locked collateral of a session is what was debited, and available and locked
    together are what was credited, modulo 2^64. *)
Lemma ledger_conserves ops session :
  let s := get session (foldl ledger_step ∅ ops) in
  collateral_locked s ==64 Zsum (debited session) ops /\
  collateral_available s + collateral_locked s ==64 Zsum (credited session) ops.
Proof.
  cbv zeta. cut (forall l, 
    collateral_locked (get session (foldl ledger_step l ops)) ==64
      collateral_locked (get session l) + Zsum (debited session) ops /\
    collateral_available (get session (foldl ledger_step l ops)) +
      collateral_locked (get session (foldl ledger_step l ops)) ==64
      collateral_available (get session l) + collateral_locked (get session l) + Zsum (credited session) ops).
  { intros H. exact (H ∅). }
  induction ops as [|op ops IH]; intros l; cbn [foldl].
  { by rewrite !Zsum_nil, !Z.add_0_r. }
  destruct (IH (ledger_step l op)) as [E1 E2]. rewrite !Zsum_cons, !Z.add_assoc.
  destruct (ledger_step_moves l op session) as [S1 S2].
  split; [by rewrite E1, S1|by rewrite E2, S2].
Qed.
End Ledger.
