(* ===== verification/SpscRing.v ===== *)
(** * The single-producer single-consumer ring

    [libs/common/spsc_ring.hpp].  The ring is a vector of optionals with two
    indices; [push] and [pop] as functions are what one thread sees, and the
    step relation below interleaves the loads and stores of one producer and one
    consumer.  Indices never reach [size_t]'s bound: they stay below the
    capacity. *)
From S2P Require Import Prelude.

Section Ring.
Context {T : Type}.

Record SpscRing := mkRing {
  buffer : list (option T);
  mask : Z;
  head : Z;
  tail : Z }.

(** The constructor. *)
Definition make_ring (capacity : Z) : result SpscRing :=
  if (capacity =? 0) || negb (Z.land capacity (capacity - 1) =? 0)
  then Throw "SpscRing capacity must be power of two"
  else Ok (mkRing (replicate (Z.to_nat capacity) None) (capacity - 1) 0 0).

Definition next_index (r : SpscRing) (i : Z) : Z := Z.land (i + 1) (mask r).

Definition set_slot (i : Z) (v : option T) (r : SpscRing) : SpscRing :=
  mkRing (<[Z.to_nat i := v]> (buffer r)) (mask r) (head r) (tail r).
Definition set_head (i : Z) (r : SpscRing) : SpscRing := mkRing (buffer r) (mask r) i (tail r).
Definition set_tail (i : Z) (r : SpscRing) : SpscRing := mkRing (buffer r) (mask r) (head r) i.

Definition push (value : T) (r : SpscRing) : SpscRing * bool :=
  let next_head := next_index r (head r) in
  if next_head =? tail r then (r, false)
  else (set_head next_head (set_slot (head r) (Some value) r), true).

(** [None]: the dereference of an empty optional, or of a slot out of range. *)
Definition pop (r : SpscRing) : option (SpscRing * option T) :=
  if tail r =? head r then Some (r, None)
  else match buffer r !! Z.to_nat (tail r) with
  | Some (Some v) => Some (set_tail (next_index r (tail r)) (set_slot (tail r) None r), Some v)
  | _ => None
  end.

Definition empty (r : SpscRing) : bool := tail r =? head r.

(** ** Two threads

    What each thread has loaded so far.  The producer's store of [head] and the
    consumer's store of [tail] are the release points: [sent] and [received]
    record the values published so far. *)
Inductive Producer :=
  | PIdle
  | PHead (v : T) (h : Z)            (* head_ loaded *)
  | PTail (v : T) (h t : Z)          (* tail_ loaded *)
  | PWrote (v : T) (h : Z).          (* slot written *)

Inductive Consumer :=
  | CIdle
  | CTail (t : Z)                    (* tail_ loaded *)
  | CHead (t h : Z)                  (* head_ loaded *)
  | CRead (t : Z) (v : T)            (* value moved out *)
  | CReset (t : Z) (v : T).          (* slot reset *)

Record Sys := mkSys {
  sys_ring : SpscRing;
  producer : Producer;
  consumer : Consumer;
  sent : list T;
  received : list T }.

Inductive step : Sys -> Sys -> Prop :=
  | step_push v r c s k :
      step (mkSys r PIdle c s k) (mkSys r (PHead v (head r)) c s k)
  | step_load_tail v h r c s k :
      step (mkSys r (PHead v h) c s k) (mkSys r (PTail v h (tail r)) c s k)
  | step_full v h t r c s k :
      next_index r h = t ->
      step (mkSys r (PTail v h t) c s k) (mkSys r PIdle c s k)
  | step_write v h t r c s k :
      next_index r h <> t ->
      step (mkSys r (PTail v h t) c s k) (mkSys (set_slot h (Some v) r) (PWrote v h) c s k)
  | step_publish v h r c s k :
      step (mkSys r (PWrote v h) c s k)
           (mkSys (set_head (next_index r h) r) PIdle c (s ++ [v]) k)
  | step_pop r p s k :
      step (mkSys r p CIdle s k) (mkSys r p (CTail (tail r)) s k)
  | step_load_head t r p s k :
      step (mkSys r p (CTail t) s k) (mkSys r p (CHead t (head r)) s k)
  | step_none t h r p s k :
      t = h -> step (mkSys r p (CHead t h) s k) (mkSys r p CIdle s k)
  | step_read t h v r p s k :
      t <> h -> buffer r !! Z.to_nat t = Some (Some v) ->
      step (mkSys r p (CHead t h) s k) (mkSys r p (CRead t v) s k)
  | step_reset t v r p s k :
      step (mkSys r p (CRead t v) s k) (mkSys (set_slot t None r) p (CReset t v) s k)
  | step_release t v r p s k :
      step (mkSys r p (CReset t v) s k)
           (mkSys (set_tail (next_index r t) r) p CIdle s (k ++ [v])).

(** States two threads can reach from a fresh ring. *)
Inductive reachable (capacity : Z) : Sys -> Prop :=
  | reach_start r : make_ring capacity = Ok r -> reachable capacity (mkSys r PIdle CIdle [] [])
  | reach_step s s' : reachable capacity s -> step s s' -> reachable capacity s'.
End Ring.
Arguments SpscRing : clear implicits.
Arguments Sys : clear implicits.

(** ** Index arithmetic *)
Lemma power_of_two c : 0 <= c -> c <> 0 -> Z.land c (c - 1) = 0 -> exists k, 0 <= k /\ c = 2 ^ k.
Proof.
  intros H0 Hc Hl. exists (Z.log2 c). split; [apply Z.log2_nonneg|].
  destruct (Z.log2_spec c ltac:(lia)) as [Hlo Hhi].
  destruct (Z.eq_dec c (2 ^ Z.log2 c)) as [|Hn]; [done|exfalso].
  assert (E : Z.testbit (Z.land c (c - 1)) (Z.log2 c) = true); [|by rewrite Hl, Z.testbit_0_l in E].
  rewrite Z.land_spec, Z.bit_log2 by lia.
  assert (Z.log2 (c - 1) = Z.log2 c) as <-.
  { apply Z.log2_unique; [apply Z.log2_nonneg|lia]. }
  assert (c <> 1) by (intros ->; by apply Hn). apply Z.bit_log2. lia.
Qed.

Lemma mod_close a b c : 0 < c -> Z.abs (a - b) < c -> a mod c = b mod c -> a = b.
Proof.
  intros Hc Hab E. pose proof (Z.div_mod a c). pose proof (Z.div_mod b c).
  assert (a / c = b / c) by nia. nia.
Qed.

Lemma to_nat_inj_mod a b c : 0 < c -> Z.abs (a - b) < c ->
  Z.to_nat (a mod c) = Z.to_nat (b mod c) -> a = b.
Proof.
  intros Hc Hab E. apply (mod_close a b c); [done|done|].
  pose proof (Z.mod_pos_bound a c Hc). pose proof (Z.mod_pos_bound b c Hc). lia.
Qed.

(** ** The shape of a ring *)
Section Shape.
Context {T : Type}.
Implicit Types (r : SpscRing T) (q : list T).

(** The slots [base], [base+1], ... hold the values of [q]. *)
Definition stored r (cap base : Z) q : Prop :=
  forall i v, q !! i = Some v ->
    buffer r !! Z.to_nat ((base + Z.of_nat i) mod cap) = Some (Some v).

Record shape r (cap : Z) : Prop := {
  sh_pow : exists k, 0 <= k /\ cap = 2 ^ k;
  sh_mask : mask r = cap - 1;
  sh_len : length (buffer r) = Z.to_nat cap }.

Lemma shape_pos r cap : shape r cap -> 0 < cap.
Proof. intros [(k & Hk & ->) _ _]. apply Z.pow_pos_nonneg; lia. Qed.

Lemma make_ring_shape cap r : 0 <= cap -> make_ring cap = Ok r -> shape r cap.
Proof.
  unfold make_ring. intros H0. destruct (Z.eqb_spec cap 0); cbn [orb]; [done|].
  destruct (Z.eqb_spec (Z.land cap (cap - 1)) 0) as [Hl|]; [|done]. intros [= <-].
  split; cbn; [by apply power_of_two|done|apply length_replicate].
Qed.

Lemma next_index_mod r cap i : shape r cap -> next_index r (i mod cap) = (i + 1) mod cap.
Proof.
  intros Hs. pose proof (shape_pos _ _ Hs). destruct Hs as [(k & Hk & ->) Hm _].
  unfold next_index. rewrite Hm. change (2 ^ k - 1) with (Z.pred (2 ^ k)).
  rewrite <- Z.ones_equiv, Z.land_ones by done. by rewrite Z.add_mod_idemp_l by lia.
Qed.

Lemma shape_slot r cap i v : shape r cap -> shape (set_slot i v r) cap.
Proof. intros []. split; cbn; [done|done|by rewrite length_insert]. Qed.

Lemma shape_head r cap i : shape r cap -> shape (set_head i r) cap.
Proof. by intros []. Qed.

Lemma shape_tail r cap i : shape r cap -> shape (set_tail i r) cap.
Proof. by intros []. Qed.

(** Writing a slot out of the stored window. *)
Lemma stored_slot r cap base q j v :
  0 < cap -> stored r cap base q ->
  base + Z.of_nat (length q) <= j < base + cap ->
  stored (set_slot (j mod cap) v r) cap base q.
Proof.
  intros Hc Hst Hj i x Hi. cbn. rewrite list_lookup_insert_ne; [by apply Hst|].
  apply lookup_lt_Some in Hi. intros E. apply to_nat_inj_mod in E; lia.
Qed.

(** Writing the next slot extends the window. *)
Lemma stored_snoc r cap base q v :
  shape r cap -> stored r cap base q -> Z.of_nat (length q) < cap ->
  stored (set_slot ((base + Z.of_nat (length q)) mod cap) (Some v) r) cap base (q ++ [v]).
Proof.
  intros Hs Hst Hl. pose proof (shape_pos _ _ Hs) as Hc. intros i x Hi.
  apply lookup_app_Some in Hi as [Hi|[Hge Hi]].
  - by apply (stored_slot r cap base q); [|done|lia|].
  - assert (Ei : (i - length q)%nat = 0%nat).
    { destruct (i - length q)%nat; [done|]. by rewrite lookup_cons, lookup_nil in Hi. }
    rewrite Ei in Hi. injection Hi as ->. assert (i = length q) as -> by lia.
    cbn. apply list_lookup_insert_eq. rewrite (sh_len _ _ Hs).
    pose proof (Z.mod_pos_bound (base + Z.of_nat (length q)) cap Hc). lia.
Qed.

(** Dropping the first slot of the window. *)
Lemma stored_tail r cap base v q :
  stored r cap base (v :: q) -> stored r cap (base + 1) q.
Proof.
  intros Hst i x Hi. replace (base + 1 + Z.of_nat i) with (base + Z.of_nat (S i)) by lia. by apply Hst.
Qed.

Lemma stored_head r cap base v q :
  stored r cap base (v :: q) -> buffer r !! Z.to_nat (base mod cap) = Some (Some v).
Proof. intros Hst. specialize (Hst 0%nat v eq_refl). by rewrite Z.add_0_r in Hst. Qed.
End Shape.
