(* ===== verification/SpscRingProps.v ===== *)
(** * The ring is a bounded queue, for one thread and for two *)
From S2P Require Import Prelude SpscRing.

Section Sequential.
Context {T : Type}.
Implicit Types (r : SpscRing T) (q : list T).

(** The ring holds [q] from the absolute index [base] on. *)
Record ring_rep r (cap base : Z) q : Prop := {
  rr_shape : shape r cap;
  rr_tail : tail r = base mod cap;
  rr_head : head r = (base + Z.of_nat (length q)) mod cap;
  rr_room : Z.of_nat (length q) < cap;
  rr_stored : stored r cap base q }.

Lemma push_spec r cap base q v :
  ring_rep r cap base q ->
  if Z.of_nat (length q) =? cap - 1 then push v r = (r, false)
  else exists r', push v r = (r', true) /\ ring_rep r' cap base (q ++ [v]).
Proof.
  intros [Hs Ht Hh Hr Hst]. pose proof (shape_pos _ _ Hs) as Hc. unfold push.
  rewrite Hh, (next_index_mod _ _ _ Hs), Ht.
  destruct (Z.eqb_spec (Z.of_nat (length q)) (cap - 1)) as [E|Hn].
  - rewrite E. replace (base + (cap - 1) + 1) with (base + 1 * cap) by lia.
    by rewrite Z.mod_add, Z.eqb_refl by lia.
  - destruct (Z.eqb_spec ((base + Z.of_nat (length q) + 1) mod cap) (base mod cap)) as [E|_].
    { apply mod_close in E; lia. }
    eexists. split; [done|]. split.
    + by apply shape_head, shape_slot.
    + done.
    + cbn. f_equal. rewrite length_app. cbn. lia.
    + rewrite length_app. cbn. lia.
    + exact (stored_snoc _ _ _ _ v Hs Hst Hr).
Qed.

Lemma pop_spec r cap base q :
  ring_rep r cap base q ->
  match q with
  | [] => pop r = Some (r, None)
  | v :: q' => exists r', pop r = Some (r', Some v) /\ ring_rep r' cap (base + 1) q'
  end.
Proof.
  intros [Hs Ht Hh Hr Hst]. pose proof (shape_pos _ _ Hs) as Hc. unfold pop. rewrite Ht, Hh.
  destruct q as [|v q]; [by rewrite Z.add_0_r, Z.eqb_refl|]. cbn [length] in *.
  destruct (Z.eqb_spec (base mod cap) ((base + Z.of_nat (S (length q))) mod cap)) as [E|_].
  { apply mod_close in E; lia. }
  rewrite (stored_head _ _ _ _ _ Hst). eexists. split; [done|]. split.
  - by apply shape_tail, shape_slot.
  - cbn. exact (next_index_mod _ _ _ Hs).
  - cbn. rewrite Hh. cbn [length]. f_equal. lia.
  - lia.
  - intros i x Hi. pose proof (lookup_lt_Some _ _ _ Hi). cbn.
    rewrite list_lookup_insert_ne; [by apply (stored_tail _ _ _ _ _ Hst)|].
    intros E. apply to_nat_inj_mod in E; lia.
Qed.

Lemma make_ring_rep cap r : 0 <= cap -> make_ring cap = Ok r -> ring_rep r cap 0 [].
Proof.
  intros H0 Hm. pose proof (make_ring_shape _ _ H0 Hm) as Hs. pose proof (shape_pos _ _ Hs).
  unfold make_ring in Hm. destruct (_ || _); [done|]. injection Hm as <-.
  split; cbn; [done|by rewrite Z.mod_0_l by lia..|lia|]. intros i v. by rewrite lookup_nil.
Qed.

(** ** Runs *)
Inductive RingOp := RPush (v : T) | RPop.
Inductive RingReply := Pushed (ok : bool) | Popped (v : option T).

Fixpoint run_ring (ops : list RingOp) r : option (list RingReply) :=
  match ops with
  | [] => Some []
  | RPush v :: ops => let '(r, ok) := push v r in cons (Pushed ok) <$> run_ring ops r
  | RPop :: ops => '(r, v) ← pop r; cons (Popped v) <$> run_ring ops r
  end.

(** A queue that holds at most [cap - 1] values. *)
Fixpoint run_queue (cap : Z) (ops : list RingOp) q : list RingReply :=
  match ops with
  | [] => []
  | RPush v :: ops =>
      if Z.of_nat (length q) =? cap - 1 then Pushed false :: run_queue cap ops q
      else Pushed true :: run_queue cap ops (q ++ [v])
  | RPop :: ops =>
      match q with
      | [] => Popped None :: run_queue cap ops []
      | v :: q => Popped (Some v) :: run_queue cap ops q
      end
  end.

Lemma run_ring_rep cap ops : forall r base q,
  ring_rep r cap base q -> run_ring ops r = Some (run_queue cap ops q).
Proof.
  induction ops as [|[v|] ops IH]; intros r base q Hr; [done|..]; cbn.
  - pose proof (push_spec _ _ _ _ v Hr) as Hp. destruct (_ =? _).
    + rewrite Hp. by rewrite (IH _ _ _ Hr).
    + destruct Hp as (r' & -> & Hr'). by rewrite (IH _ _ _ Hr').
  - pose proof (pop_spec _ _ _ _ Hr) as Hp. destruct q as [|v q].
    + rewrite Hp. cbn. by rewrite (IH _ _ _ Hr).
    + destruct Hp as (r' & -> & Hr'). cbn. by rewrite (IH _ _ _ Hr').
Qed.

(** Used by one thread, the ring is a first-in first-out queue of at most
    [capacity - 1] values: every run of pushes and pops on a fresh ring replies
    as that queue does, and no pop reads an empty slot. *)
Theorem ring_is_bounded_queue capacity r ops :
  0 <= capacity -> make_ring capacity = Ok r ->
  run_ring ops r = Some (run_queue capacity ops []).
Proof. intros H0 Hm. exact (run_ring_rep _ ops _ _ _ (make_ring_rep _ _ H0 Hm)). Qed.
End Sequential.

Lemma ring_is_bounded_queue_witness :
  run_ring [RPush 1; RPop; RPush 2; RPush 3; RPush 4; RPop; RPop; RPop] (mkRing [None; None] 1 0 0) =
    Some [Pushed true; Popped (Some 1); Pushed true; Pushed false; Pushed false; Popped (Some 2);
          Popped None; Popped None].
Proof.
  refine (ring_is_bounded_queue 2 (mkRing [None; None] 1 0 0)
    [RPush 1; RPop; RPush 2; RPush 3; RPush 4; RPop; RPop; RPop] _ _);
    vm_compute; first [reflexivity|discriminate].
Defined.

(** ** Two threads *)
Section Concurrent.
Context {T : Type}.
Implicit Types (s : Sys T).

(** The slot the consumer reads or resets, if any. *)
Definition consumer_slot (c : Consumer (T := T)) : option Z :=
  match c with
  | CHead t h => if t =? h then None else Some t
  | CRead t _ | CReset t _ => Some t
  | _ => None
  end.

(** The slot the producer is about to write, if any. *)
Definition producer_slot (r : SpscRing T) (p : Producer (T := T)) : option Z :=
  match p with
  | PTail v h t => if next_index r h =? t then None else Some h
  | PWrote _ h => Some h
  | _ => None
  end.

Definition producer_ok (r : SpscRing T) (cap H K : Z) (p : Producer (T := T)) : Prop :=
  match p with
  | PIdle => True
  | PHead _ h => h = H mod cap
  | PTail _ h t => h = H mod cap /\ exists K', K' <= K /\ H - K' < cap /\ t = K' mod cap
  | PWrote v h => h = H mod cap /\ H - K + 1 < cap /\ buffer r !! Z.to_nat h = Some (Some v)
  end.

Definition consumer_ok (r : SpscRing T) (cap H K : Z) (q : list T) (c : Consumer (T := T)) : Prop :=
  match c with
  | CIdle => stored r cap K q
  | CTail t => t = K mod cap /\ stored r cap K q
  | CHead t h => t = K mod cap /\ stored r cap K q /\ exists H', K <= H' <= H /\ h = H' mod cap
  | CRead t v => t = K mod cap /\ stored r cap K q /\ exists q', q = v :: q'
  | CReset t v => t = K mod cap /\ exists q', q = v :: q' /\ stored r cap (K + 1) q'
  end.

(** What holds at every step; [q] is what is in flight. *)
Record sys_inv (cap : Z) s (q : list T) : Prop := {
  si_shape : shape (sys_ring s) cap;
  si_sent : sent s = received s ++ q;
  si_head : head (sys_ring s) = Z.of_nat (length (sent s)) mod cap;
  si_tail : tail (sys_ring s) = Z.of_nat (length (received s)) mod cap;
  si_room : Z.of_nat (length q) < cap;
  si_prod : producer_ok (sys_ring s) cap (Z.of_nat (length (sent s))) (Z.of_nat (length (received s))) (producer s);
  si_cons : consumer_ok (sys_ring s) cap (Z.of_nat (length (sent s))) (Z.of_nat (length (received s))) q (consumer s) }.

Lemma consumer_ok_write r cap H K q c i v :
  0 < cap -> consumer_ok r cap H K q c -> H = K + Z.of_nat (length q) -> H < K + cap ->
  i = H mod cap -> consumer_ok (set_slot i v r) cap H K q c.
Proof.
  intros Hc Hok HH Hr ->.
  assert (Hst : stored r cap K q -> stored (set_slot (H mod cap) v r) cap K q).
  { intros Hst. apply stored_slot; [done|done|lia]. }
  destruct c; cbn in *; [tauto|tauto|tauto|tauto|]. destruct Hok as [? (q' & -> & Hs)].
  split; [done|]. exists q'. split; [done|]. apply stored_slot; [done|done|cbn in *; lia].
Qed.

(** Publishing a written slot extends what the consumer may read. *)
Lemma consumer_ok_publish r cap H K q c v i :
  shape r cap -> consumer_ok r cap H K q c -> H = K + Z.of_nat (length q) -> H < K + cap ->
  buffer r !! Z.to_nat (H mod cap) = Some (Some v) ->
  consumer_ok (set_head i r) cap (H + 1) K (q ++ [v]) c.
Proof.
  intros Hs Hok HH Hr Hb.
  assert (Hst : forall b l, b + Z.of_nat (length l) = H -> stored r cap b l -> stored (set_head i r) cap b (l ++ [v])).
  { intros b l Hl Hst j x [Hj|[Hge Hj]]%lookup_app_Some; [by apply Hst|].
    destruct (j - length l)%nat eqn:E; [|done]. injection Hj as ->.
    replace (b + Z.of_nat j) with H by lia. exact Hb. }
  destruct c as [|t|t h|t x|t x]; cbn in *.
  - by apply Hst.
  - destruct Hok. split; [done|by apply Hst].
  - destruct Hok as (? & ? & H' & ? & ?). split; [done|]. split; [by apply Hst|]. exists H'. split; [lia|done].
  - destruct Hok as (? & ? & q' & ->). split; [done|]. split; [by apply Hst|]. by exists (q' ++ [v]).
  - destruct Hok as (? & q' & -> & ?). split; [done|]. exists (q' ++ [v]). split; [done|].
    apply Hst; [cbn in *; lia|done].
Qed.

(** The consumer's writes to its own slot and index leave the producer alone. *)
Lemma producer_ok_reset r cap H K p i v :
  0 < cap -> producer_ok r cap H K p -> K < H < K + cap -> i = K mod cap ->
  producer_ok (set_slot i v r) cap H K p.
Proof.
  intros Hc Hok Hk ->. destruct p; cbn in *; [done|done|done|]. destruct Hok as (-> & ? & Hb).
  split; [done|]. split; [done|]. rewrite list_lookup_insert_ne; [done|].
  intros E. apply to_nat_inj_mod in E; lia.
Qed.

Lemma producer_ok_release r cap H K p i :
  producer_ok r cap H K p -> producer_ok (set_tail i r) cap H (K + 1) p.
Proof.
  destruct p; cbn; [done|done| |].
  - intros (-> & K' & ? & ? & ->). split; [done|]. exists K'. split; [lia|done].
  - intros (-> & ? & ?). split; [done|]. split; [lia|done].
Qed.

Lemma sys_inv_init cap r : 0 <= cap -> make_ring cap = Ok r -> sys_inv cap (mkSys r PIdle CIdle [] []) [].
Proof.
  intros H0 Hm. destruct (make_ring_rep _ _ H0 Hm) as [Hs Ht Hh Hr Hst].
  split; cbn in *; auto.
Qed.

(** What was pushed is what was popped and what is in flight. *)
Lemma in_flight cap s q : sys_inv cap s q ->
  0 < cap /\ Z.of_nat (length (sent s)) = Z.of_nat (length (received s)) + Z.of_nat (length q).
Proof.
  intros H. split; [by eapply shape_pos, si_shape|]. rewrite (si_sent _ _ _ H), length_app. lia.
Qed.

(** The stores of the producer. *)
Lemma sys_inv_write cap v h t r c S K q :
  next_index r h <> t -> sys_inv cap (mkSys r (PTail v h t) c S K) q ->
  sys_inv cap (mkSys (set_slot h (Some v) r) (PWrote v h) c S K) q.
Proof.
  intros E Hi. destruct (in_flight _ _ _ Hi) as [Hpos HK]. destruct Hi as [Hs Hsent Hh Ht Hr Hp Hc]. cbn in *.
  destruct Hp as (-> & K' & HK' & HH & ->). rewrite (next_index_mod _ _ _ Hs) in E.
  assert (Z.of_nat (length S) - Z.of_nat (length K) + 1 < cap).
  { destruct (Z.eq_dec (Z.of_nat (length S) - K' + 1) cap) as [Ec|]; [exfalso; apply E|lia].
    replace (Z.of_nat (length S) + 1) with (K' + 1 * cap) by lia. by rewrite Z.mod_add by lia. }
  split; cbn; auto; [by apply shape_slot|split; [done|]; split; [done|]|].
  - apply list_lookup_insert_eq. rewrite (sh_len _ _ Hs).
    pose proof (Z.mod_pos_bound (Z.of_nat (length S)) cap Hpos). lia.
  - eapply consumer_ok_write; [done|done|done|lia|done].
Qed.

Lemma sys_inv_publish cap v h r c S K q :
  sys_inv cap (mkSys r (PWrote v h) c S K) q ->
  sys_inv cap (mkSys (set_head (next_index r h) r) PIdle c (S ++ [v]) K) (q ++ [v]).
Proof.
  intros Hi. destruct (in_flight _ _ _ Hi) as [Hpos HK]. destruct Hi as [Hs Hsent Hh Ht Hr Hp Hc]. cbn in *.
  destruct Hp as (-> & Hroom & Hb).
  assert (El : forall l : list T, Z.of_nat (length (l ++ [v])) = Z.of_nat (length l) + 1).
  { intros l. rewrite length_app. cbn. lia. }
  split; cbn; rewrite ?El; auto.
  - by apply shape_head.
  - by rewrite Hsent, app_assoc.
  - exact (next_index_mod _ _ _ Hs).
  - lia.
  - eapply consumer_ok_publish; [done|done|done|lia|done].
Qed.

(** The stores of the consumer. *)
Lemma sys_inv_reset cap t v r p S K q :
  sys_inv cap (mkSys r p (CRead t v) S K) q -> sys_inv cap (mkSys (set_slot t None r) p (CReset t v) S K) q.
Proof.
  intros Hi. destruct (in_flight _ _ _ Hi) as [Hpos HK]. destruct Hi as [Hs Hsent Hh Ht Hr Hp Hc]. cbn in *.
  destruct Hc as (-> & Hst & q' & ->). cbn [length] in *. split; cbn; auto.
  - by apply shape_slot.
  - eapply producer_ok_reset; [done|done|lia|done].
  - split; [done|]. exists q'. split; [done|]. intros i x Hi. cbn.
    pose proof (lookup_lt_Some _ _ _ Hi).
    rewrite list_lookup_insert_ne; [by apply (stored_tail _ _ _ _ _ Hst)|].
    intros Ex. apply to_nat_inj_mod in Ex; lia.
Qed.

Lemma sys_inv_release cap t v r p S K q :
  sys_inv cap (mkSys r p (CReset t v) S K) q ->
  exists q', sys_inv cap (mkSys (set_tail (next_index r t) r) p CIdle S (K ++ [v])) q'.
Proof.
  intros [Hs Hsent Hh Ht Hr Hp Hc]. cbn in *. destruct Hc as (-> & q' & -> & Hst). exists q'. cbn [length] in *.
  assert (El : Z.of_nat (length (K ++ [v])) = Z.of_nat (length K) + 1) by (rewrite length_app; cbn; lia).
  split; cbn; rewrite ?El; auto.
  - by apply shape_tail.
  - by rewrite Hsent, <- app_assoc.
  - exact (next_index_mod _ _ _ Hs).
  - lia.
  - by apply producer_ok_release.
Qed.

Lemma sys_inv_step cap s s' q :
  sys_inv cap s q -> step s s' -> exists q', sys_inv cap s' q'.
Proof.
  intros Hi Hstep. destruct (in_flight _ _ _ Hi) as [Hpos HK]. pose proof Hi as [Hs Hsent Hh Ht Hr Hp Hc].
  destruct Hstep as [v r c S K|v h r c S K|v h t r c S K E|v h t r c S K E|v h r c S K|r p S K|t r p S K|
                     t h r p S K E|t h v r p S K E Hb|t v r p S K|t v r p S K]; cbn in *.
  - exists q. by split.
  - exists q. split; auto. cbn. split; [done|]. exists (Z.of_nat (length K)). split; [lia|]. split; [lia|done].
  - exists q. by split.
  - exists q. by eapply sys_inv_write.
  - exists (q ++ [v]). by apply sys_inv_publish.
  - exists q. split; cbn; auto.
  - exists q. split; cbn; auto. destruct Hc as [-> Hst]. split; [done|]. split; [done|].
    exists (Z.of_nat (length S)). split; [lia|done].
  - exists q. split; cbn; auto. by destruct Hc as (_ & ? & _).
  - exists q. split; cbn; auto. destruct Hc as (-> & Hst & H' & HH & ->). split; [done|]. split; [done|].
    destruct q as [|x q]; [exfalso; apply E; f_equal; cbn in HK; lia|].
    pose proof (stored_head _ _ _ _ _ Hst) as Hx. rewrite Hb in Hx. injection Hx as ->. by exists q.
  - exists q. by apply sys_inv_reset.
  - by eapply sys_inv_release.
Qed.

Lemma reachable_inv capacity s : 0 <= capacity -> reachable capacity s -> exists q, sys_inv capacity s q.
Proof.
  intros H0. induction 1 as [r Hm|s s' _ [q IH] Hs]; [exists []; by apply sys_inv_init|].
  by eapply sys_inv_step.
Qed.

(** Shared by one producer and one consumer, under every interleaving of
    their loads and stores, the ring delivers what was pushed, in order, without
    loss or duplication; at most [capacity - 1] values are in flight; a consumer
    that saw the ring non-empty finds the next value in its slot; and the two
    threads never touch the same slot at the same time. *)
Theorem ring_delivers_in_order capacity s :
  0 <= capacity -> reachable capacity s ->
  (exists q, sent s = received s ++ q /\ Z.of_nat (length q) < capacity) /\
  (forall t h, consumer s = CHead t h -> t <> h ->
     exists v, buffer (sys_ring s) !! Z.to_nat t = Some (Some v) /\ sent s !! length (received s) = Some v) /\
  (forall i j, producer_slot (sys_ring s) (producer s) = Some i ->
     consumer_slot (consumer s) = Some j -> i <> j).
Proof.
  intros H0 Hr. destruct (reachable_inv _ _ H0 Hr) as [q [Hs Hsent Hh Ht Hroom Hp Hc]].
  pose proof (shape_pos _ _ Hs) as Hpos.
  assert (HK : Z.of_nat (length (sent s)) = Z.of_nat (length (received s)) + Z.of_nat (length q)).
  { rewrite Hsent, length_app. lia. }
  assert (Hbusy : forall j, consumer_slot (consumer s) = Some j ->
    j = Z.of_nat (length (received s)) mod capacity /\ q <> []).
  { intros j Hj. destruct (consumer s) as [|t|t h|t v|t v]; cbn in Hj, Hc; try done.
    - destruct (Z.eqb_spec t h) as [|Hn]; [done|]. injection Hj as <-.
      destruct Hc as (-> & _ & H' & HH & ->). split; [done|]. intros ->. apply Hn. f_equal. cbn in HK. lia.
    - injection Hj as <-. destruct Hc as (-> & _ & q' & ->). done.
    - injection Hj as <-. destruct Hc as (-> & q' & -> & _). done. }
  split; [by exists q|]. split.
  - intros t h Ec Hn. destruct (Hbusy t) as [-> Hq].
    { rewrite Ec. cbn. by destruct (Z.eqb_spec t h). }
    destruct q as [|v q]; [done|]. exists v. rewrite Ec in Hc. destruct Hc as (_ & Hst & _).
    split; [by apply stored_head in Hst|]. rewrite Hsent. by apply list_lookup_middle.
  - intros i j Hi Hj. destruct (Hbusy j Hj) as [-> Hq].
    assert (i = Z.of_nat (length (sent s)) mod capacity) as ->.
    { destruct (producer s) as [|v h|v h t|v h]; cbn in Hi, Hp; try done.
      - destruct (_ =? _); [done|]. injection Hi as <-. by destruct Hp as [-> _].
      - injection Hi as <-. by destruct Hp as [-> _]. }
    intros E. apply mod_close in E; [|done|lia]. destruct q; [done|]. cbn in HK. lia.
Qed.
End Concurrent.

Definition demo_sys : Sys Z := mkSys (mkRing [Some 7; None] 1 1 0) (PHead 8 1) (CHead 0 1) [7] [].

Lemma ring_delivers_in_order_witness :
  exists v, buffer (sys_ring demo_sys) !! 0%nat = Some (Some v) /\ sent demo_sys !! 0%nat = Some v.
Proof.
  refine (proj1 (proj2 (ring_delivers_in_order 2 demo_sys _ _)) 0 1 eq_refl _); [discriminate| |discriminate].
  eapply reach_step; [|apply step_load_head].
  eapply reach_step; [|apply step_pop].
  eapply reach_step; [|apply step_push].
  eapply (reach_step 2 (mkSys (mkRing [Some 7; None] 1 0 0) (PWrote 7 0) CIdle [] [])); [|exact (step_publish 7 0 _ _ _ _)].
  eapply (reach_step 2 (mkSys (mkRing [None; None] 1 0 0) (PTail 7 0 0) CIdle [] []));
    [|apply (step_write 7 0 0 (mkRing [None; None] 1 0 0)); discriminate].
  eapply reach_step; [|apply step_load_tail].
  eapply reach_step; [|apply step_push].
  by apply reach_start.
Defined.
