(* ===== verification/Linearize.v ===== *)
(** * The ring takes effect at one point

    [Main] lets every call of a ring happen at once.  This file justifies it: in
    every interleaving of the loads and stores of the two threads, each call takes
    effect at one step between its start and its return, and in the order of these
    steps the calls are those of the bounded queue of [SpscRingProps].  A push that
    succeeds takes effect when it stores [head_], one that fails when it loaded
    [tail_]; a pop that succeeds when it stores [tail_], one that finds nothing when
    it loaded [head_]. *)
From S2P Require Import Prelude SpscRing SpscRingProps.

Section Linearize.
Context {T : Type}.
Implicit Types (s : Sys T) (q : list T).

(** A call and its result. *)
Abbreviation Event := (RingOp (T := T) * RingReply (T := T))%type.

(** What takes effect in a step, and what returns in it. *)
Definition effects s s' : list Event :=
  match producer s, producer s' with
  | PHead v _, PTail _ h t => if next_index (sys_ring s) h =? t then [(RPush v, Pushed false)] else []
  | PWrote v _, PIdle => [(RPush v, Pushed true)]
  | _, _ =>
      match consumer s, consumer s' with
      | CTail _, CHead t h => if t =? h then [(RPop, Popped None)] else []
      | CReset _ v, CIdle => [(RPop, Popped (Some v))]
      | _, _ => []
      end
  end.

Definition returns s s' : list Event :=
  match producer s, producer s' with
  | PTail v _ _, PIdle => [(RPush v, Pushed false)]
  | PWrote v _, PIdle => [(RPush v, Pushed true)]
  | _, _ =>
      match consumer s, consumer s' with
      | CHead _ _, CIdle => [(RPop, Popped None)]
      | CReset _ v, CIdle => [(RPop, Popped (Some v))]
      | _, _ => []
      end
  end.

(** The calls that have taken effect and not returned. *)
Definition pending_push s : list Event :=
  match producer s with
  | PTail v h t => if next_index (sys_ring s) h =? t then [(RPush v, Pushed false)] else []
  | _ => []
  end.

Definition pending_pop s : list Event :=
  match consumer s with
  | CHead t h => if t =? h then [(RPop, Popped None)] else []
  | _ => []
  end.

Definition is_push (e : Event) : bool := match e.1 with RPush _ => true | RPop => false end.
Abbreviation pushes := (List.filter is_push).
Abbreviation pops := (List.filter (fun e => negb (is_push e))).

(** An interleaving from a fresh ring, with what took effect and what returned. *)
Inductive execution (capacity : Z) : Sys T -> list Event -> list Event -> Prop :=
  | exec_start r : make_ring capacity = Ok r -> execution capacity (mkSys r PIdle CIdle [] []) [] []
  | exec_step s s' events results :
      execution capacity s events results -> step s s' ->
      execution capacity s' (events ++ effects s s') (results ++ returns s s').

(** ** The queue *)
Inductive legal (cap : Z) : list T -> Event -> list T -> Prop :=
  | legal_push q v : Z.of_nat (length q) + 1 < cap -> legal cap q (RPush v, Pushed true) (q ++ [v])
  | legal_full q v : Z.of_nat (length q) + 1 = cap -> legal cap q (RPush v, Pushed false) q
  | legal_pop q v : legal cap (v :: q) (RPop, Popped (Some v)) q
  | legal_empty : legal cap [] (RPop, Popped None) [].

Inductive served (cap : Z) : list T -> list Event -> list T -> Prop :=
  | served_nil q : served cap q [] q
  | served_cons q e q1 l q2 : legal cap q e q1 -> served cap q1 l q2 -> served cap q (e :: l) q2.

Lemma served_app cap l1 l2 : forall q q1 q2, served cap q l1 q1 -> served cap q1 l2 q2 -> served cap q (l1 ++ l2) q2.
Proof. intros q q1 q2 H. induction H; [done|]. intros H2. econstructor; eauto. Qed.

Lemma served_run cap q l q' : served cap q l q' -> run_queue cap (map fst l) q = map snd l.
Proof.
  induction 1 as [q|q e q1 l q2 He Hl IH]; [done|]. destruct He as [q v H|q v H|q v|]; cbn in *.
  - destruct (Z.eqb_spec (Z.of_nat (length q)) (cap - 1)); [lia|by rewrite IH].
  - destruct (Z.eqb_spec (Z.of_nat (length q)) (cap - 1)); [by rewrite IH|lia].
  - by rewrite IH.
  - by rewrite IH.
Qed.

(** ** The two threads serve the queue *)
Lemma step_served cap s s' q :
  sys_inv cap s q -> step s s' -> exists q', sys_inv cap s' q' /\ served cap q (effects s s') q'.
Proof.
  intros Hi Hstep. destruct (sys_inv_step cap s s' q Hi Hstep) as [q' Hi']. exists q'. split; [done|].
  destruct (in_flight _ _ _ Hi) as [Hpos HK]. pose proof (si_sent _ _ _ Hi') as Hs'.
  destruct Hi as [Hs Hsent Hh Ht Hr Hp Hc].
  assert (Hsame : sent s' = sent s -> received s' = received s -> q' = q).
  { intros E1 E2. rewrite E1, E2, Hsent in Hs'. by apply (inj (app _)) in Hs'. }
  destruct Hstep as [v r c S K|v h r c S K|v h t r c S K E|v h t r c S K E|v h r c S K|r p S K|t r p S K|
                     t h r p S K E|t h v r p S K E Hb|t v r p S K|t v r p S K]; cbn in *.
  - rewrite Hsame by done. destruct c; constructor.
  - rewrite Hsame by done. destruct (Z.eqb_spec (next_index r h) (tail r)) as [E|]; [|constructor].
    eapply served_cons; [|constructor]. apply legal_full.
    rewrite Hp, (next_index_mod _ _ _ Hs), Ht in E.
    destruct (Z.eq_dec (Z.of_nat (length q) + 1) cap) as [|Hn]; [done|]. exfalso. apply mod_close in E; lia.
  - rewrite Hsame by done. destruct c; constructor.
  - rewrite Hsame by done. destruct c; constructor.
  - eapply served_cons; [|constructor].
    assert (q' = q ++ [v]) as -> by (rewrite Hsent, <- app_assoc in Hs'; by apply (inj (app _)) in Hs').
    apply legal_push. destruct Hp as (_ & ? & _). lia.
  - rewrite Hsame by done. destruct p; constructor.
  - rewrite Hsame by done. destruct Hc as [-> _].
    assert (He : served cap q (if Z.of_nat (length K) mod cap =? head r then [(RPop, Popped None)] else []) q);
      [|by destruct p].
    destruct (Z.eqb_spec (Z.of_nat (length K) mod cap) (head r)) as [E|]; [|constructor].
    rewrite Hh in E. apply mod_close in E; [|done|lia]. destruct q; [|cbn in HK; lia].
    eapply served_cons; [apply legal_empty|constructor].
  - rewrite Hsame by done. destruct p; constructor.
  - rewrite Hsame by done. destruct p; constructor.
  - rewrite Hsame by done. destruct p; constructor.
  - destruct Hc as (_ & q0 & -> & _).
    assert (q' = q0) as -> by (rewrite Hsent, <- app_assoc in Hs'; cbn in Hs'; apply (inj (app _)) in Hs'; by injection Hs').
    assert (He : served cap (v :: q0) [(RPop, Popped (Some v))] q0) by (eapply served_cons; [apply legal_pop|constructor]).
    by destruct p.
Qed.

(** ** What took effect is what returned, and the calls about to return *)
Lemma step_matches s s' :
  step s s' ->
  pending_push s ++ pushes (effects s s') = pushes (returns s s') ++ pending_push s' /\
  pending_pop s ++ pops (effects s s') = pops (returns s s') ++ pending_pop s'.
Proof.
  destruct 1 as [v r c S K|v h r c S K|v h t r c S K E|v h t r c S K E|v h r c S K|r p S K|t r p S K|
                 t h r p S K E|t h v r p S K E Hb|t v r p S K|t v r p S K].
  all: unfold effects, returns, pending_push, pending_pop; cbn.
  - destruct c; cbn; by rewrite ?app_nil_r.
  - destruct (_ =? _), c; cbn; by rewrite ?app_nil_r.
  - rewrite E, Z.eqb_refl. destruct c; cbn; by rewrite ?app_nil_r.
  - apply Z.eqb_neq in E. rewrite E. destruct c; cbn; by rewrite ?app_nil_r.
  - destruct c; cbn; by rewrite ?app_nil_r.
  - destruct p; cbn; by rewrite ?app_nil_r.
  - destruct p, (t =? head r); cbn; by rewrite ?app_nil_r.
  - rewrite E, Z.eqb_refl. destruct p; cbn; by rewrite ?app_nil_r.
  - apply Z.eqb_neq in E. rewrite E. destruct p; cbn; by rewrite ?app_nil_r.
  - destruct p; cbn; by rewrite ?app_nil_r.
  - destruct p; cbn; by rewrite ?app_nil_r.
Qed.

Lemma execution_reachable capacity s events results : execution capacity s events results -> reachable capacity s.
Proof. induction 1; [by apply reach_start|by eapply reach_step]. Qed.

Lemma execution_served capacity s events results :
  0 <= capacity -> execution capacity s events results ->
  exists q, sys_inv capacity s q /\ served capacity [] events q.
Proof.
  intros H0. induction 1 as [r Hm|s s' events results _ [q [Hi Hq]] Hstep].
  - exists []. split; [by apply sys_inv_init|constructor].
  - destruct (step_served _ _ _ _ Hi Hstep) as (q' & Hi' & Hq'). exists q'. split; [done|by eapply served_app].
Qed.

(** C30: a ring shared by two threads is a queue whose calls take effect at once.
    In every interleaving of the loads and stores of a producer and a consumer, the
    calls, in the order they take effect, get the results that a queue of
    [capacity - 1] values gives them one after the other; and at every moment the
    calls of each thread that took effect are those that returned, in order and with
    the result they returned, and at most the one it is in: so each takes effect
    between its start and its return.  The two threads are never about to touch the
    same slot. *)
Theorem ring_is_linearizable capacity s events results :
  0 <= capacity -> execution capacity s events results ->
  run_queue capacity (map fst events) [] = map snd events /\
  pushes events = pushes results ++ pending_push s /\
  pops events = pops results ++ pending_pop s /\
  (forall i j, producer_slot (sys_ring s) (producer s) = Some i -> consumer_slot (consumer s) = Some j -> i <> j).
Proof.
  intros H0 He. split; [destruct (execution_served _ _ _ _ H0 He) as (q & _ & Hq); by eapply served_run|].
  rewrite (and_assoc (pushes events = _)). split; [|by eapply ring_delivers_in_order, execution_reachable].
  induction He as [r Hm|s s' events results He [IH1 IH2] Hstep]; [done|].
  destruct (step_matches s s' Hstep) as [M1 M2]. rewrite !List.filter_app, IH1, IH2, <- !app_assoc. by rewrite M1, M2.
Qed.
End Linearize.

(** A ring of one place: a push that succeeds, and one that is about to fail while
    the consumer has loaded both indices. *)
Lemma ring_is_linearizable_witness :
  exists (s : Sys Z) events results, execution 2 s events results /\
    map snd events = [Pushed true; Pushed false] /\ map snd results = [Pushed true] /\
    run_queue 2 (map fst events) [] = map snd events.
Proof.
  assert (H0 : execution (T := Z) 2 (mkSys (mkRing [None; None] 1 0 0) PIdle CIdle [] []) [] []) by by apply exec_start.
  pose proof (exec_step _ _ _ _ _ H0 (step_push 7 _ _ _ _)) as H1.
  pose proof (exec_step _ _ _ _ _ H1 (step_load_tail 7 _ _ _ _ _)) as H2.
  pose proof (exec_step _ _ _ _ _ H2 (step_pop _ _ _ _)) as H3.
  pose proof (exec_step _ _ _ _ _ H3 (step_write 7 0 0 (mkRing [None; None] 1 0 0) _ _ _ ltac:(discriminate))) as H4.
  pose proof (exec_step _ _ _ _ _ H4 (step_publish 7 _ _ _ _ _)) as H5.
  pose proof (exec_step _ _ _ _ _ H5 (step_load_head _ _ _ _ _)) as H6.
  pose proof (exec_step _ _ _ _ _ H6 (step_push 8 _ _ _ _)) as H7.
  pose proof (exec_step _ _ _ _ _ H7 (step_load_tail 8 _ _ _ _ _)) as H8.
  eexists _, _, _. split; [exact H8|]. split; [reflexivity|]. split; [reflexivity|].
  exact (proj1 (ring_is_linearizable 2 _ _ _ ltac:(discriminate) H8)).
Defined.
