(* ===== verification/Bytes.v ===== *)
(** * Bytes, little-endian integers and checksums

    A byte is a [Z] in [0, 255] and a buffer a list of them.  The program copies
    integers and headers as the machine stores them; the model fixes the
    little-endian layout of the platforms it is built for.  The FNV-1a hash is
    the checksum of the log and of the snapshots. *)
From S2P Require Import Prelude.

Abbreviation bytes := (list Z).
Abbreviation bytes_ok := (Forall (in_u 8)).

(** ** Little-endian integers *)
Fixpoint to_le (n : nat) (z : Z) : bytes :=
  match n with O => [] | S n => u8 z :: to_le n (z / 256) end.

Fixpoint of_le (b : bytes) : Z :=
  match b with [] => 0 | x :: b => x + 256 * of_le b end.

Lemma length_to_le n z : length (to_le n z) = n.
Proof. revert z. induction n as [|n IH]; intros z; cbn; [done|]. by rewrite IH. Qed.

Lemma to_le_ok n z : bytes_ok (to_le n z).
Proof. revert z. induction n as [|n IH]; intros z; constructor; auto. by apply wrapu_range. Qed.

Lemma of_to_le n z : of_le (to_le n z) = z mod 256 ^ Z.of_nat n.
Proof.
  revert z. induction n as [|n IH]; intros z; cbn [to_le of_le]; [by rewrite Z.mod_1_r|].
  rewrite IH, Nat2Z.inj_succ, Z.pow_succ_r by lia.
  rewrite Z.rem_mul_r; [done|lia|apply Z.pow_pos_nonneg; lia].
Qed.

Lemma of_le_small n z : in_u (8 * Z.of_nat n) z -> of_le (to_le n z) = z.
Proof.
  intros H. rewrite of_to_le. apply Z.mod_small. unfold in_u in H.
  change 256 with (2 ^ 8). by rewrite <- Z.pow_mul_r by lia.
Qed.

Lemma to_of_le b : bytes_ok b -> to_le (length b) (of_le b) = b.
Proof.
  induction 1 as [|x b Hx Hb IH]; cbn [length of_le to_le]; [done|]. unfold in_u in Hx.
  unfold wrapu. change (2 ^ 8) with 256 in *. rewrite (Z.mul_comm 256). f_equal.
  - rewrite Z.mod_add by lia. apply Z.mod_small. lia.
  - rewrite Z.div_add, Z.div_small by lia. by rewrite Z.add_0_l.
Qed.

Lemma of_le_range b : bytes_ok b -> in_u (8 * Z.of_nat (length b)) (of_le b).
Proof.
  induction 1 as [|x b Hx Hb IH]; cbn [length of_le]; [range|].
  replace (8 * Z.of_nat (S (length b))) with (8 + 8 * Z.of_nat (length b)) by lia.
  unfold in_u in *. rewrite Z.pow_add_r by lia. change (2 ^ 8) with 256 in *. lia.
Qed.

(** The bits of a signed integer and back. *)
Lemma i64_u64 z : in_i64 z -> i64 (u64 z) = z.
Proof.
  intros H. rewrite <- (i64_small z H) at 2. apply i64_proper. unfold eqm64, wrapu.
  by rewrite Z.mod_mod.
Qed.

Lemma in_u_le (n : nat) (w z : Z) : w = 8 * Z.of_nat n -> in_u w z -> in_u (8 * Z.of_nat n) z.
Proof. by intros ->. Qed.

#[global] Arguments to_le : simpl never.
#[global] Arguments of_le : simpl never.

(** ** Reading at an offset *)
Definition sub (b : bytes) (offset n : nat) : bytes := take n (drop offset b).

#[global] Arguments sub : simpl never.

Lemma sub_app_l a b offset n : (offset + n <= length a)%nat -> sub (a ++ b) offset n = sub a offset n.
Proof.
  intros H. unfold sub. rewrite drop_app_le by lia. rewrite take_app_le; [done|].
  rewrite length_drop. lia.
Qed.

Lemma sub_app_r a b offset n : (length a <= offset)%nat -> sub (a ++ b) offset n = sub b (offset - length a) n.
Proof. intros H. unfold sub. by rewrite drop_app_ge by lia. Qed.

Lemma sub_at a b c n : length a = n -> sub (a ++ b ++ c) n (length b) = b.
Proof.
  intros <-. unfold sub. rewrite drop_app_length. by rewrite take_app_length.
Qed.

Lemma sub_first n v rest : of_le (sub (to_le n v ++ rest) 0 n) = v mod 256 ^ Z.of_nat n.
Proof.
  rewrite <- of_to_le. f_equal. unfold sub. rewrite drop_0. apply take_app_length'.
  by rewrite length_to_le.
Qed.

Lemma sub_last n v : of_le (sub (to_le n v) 0 n) = v mod 256 ^ Z.of_nat n.
Proof. rewrite <- (app_nil_r (to_le n v)). apply sub_first. Qed.

Lemma read_u n v : in_u (8 * Z.of_nat n) v -> v mod 256 ^ Z.of_nat n = v.
Proof. intros H. rewrite <- of_to_le. by apply of_le_small. Qed.

Lemma read_i64 v : in_i64 v -> i64 (v mod 256 ^ Z.of_nat 8) = v.
Proof. exact (i64_u64 v). Qed.

(** Storing a signed integer or its bits is the same. *)
Lemma to_le_mod n z : to_le n (z mod 256 ^ Z.of_nat n) = to_le n z.
Proof. rewrite <- of_to_le, <- (length_to_le n z) at 1. apply to_of_le, to_le_ok. Qed.

Lemma to_le_i64 z : to_le 8 (i64 z) = to_le 8 z.
Proof. rewrite <- (to_le_mod 8 (i64 z)), <- (to_le_mod 8 z). f_equal. exact (i64_eqm z). Qed.

(** Find a field in a concatenation of encoded integers. *)
Ltac field :=
  repeat (rewrite sub_app_r by (rewrite length_to_le; lia); rewrite length_to_le; cbn [Nat.sub]);
  first [rewrite sub_first | rewrite sub_last].

(** ** FNV-1a *)
Definition kFnvPrime : Z := 16777619.
Definition kFnvOffsetBasis : Z := 2166136261.

Definition fnv_step (hash b : Z) : Z := u32 (Z.lxor hash b * kFnvPrime).

Definition checksum32 (data : bytes) : Z := foldl fnv_step kFnvOffsetBasis data.

Lemma fnv_step_range h b : in_u 32 (fnv_step h b).
Proof. by apply wrapu_range. Qed.

Lemma checksum32_range data : in_u 32 (checksum32 data).
Proof.
  unfold checksum32. assert (H : in_u 32 kFnvOffsetBasis) by (vm_compute; split; congruence).
  revert H. generalize kFnvOffsetBasis. induction data as [|b data IH]; intros h H; [done|].
  apply IH, fnv_step_range.
Qed.

(** The prime has an inverse modulo 2^32, so a step loses nothing. *)
Definition kFnvInverse : Z := 899433627.

Lemma fnv_inverse x : in_u 32 x -> u32 (u32 (x * kFnvPrime) * kFnvInverse) = x.
Proof.
  intros H. unfold wrapu. rewrite Z.mul_mod_idemp_l by lia. rewrite <- Z.mul_assoc.
  rewrite <- Z.mul_mod_idemp_r by lia.
  change (kFnvPrime * kFnvInverse mod 2 ^ 32) with 1. rewrite Z.mul_1_r. by apply Z.mod_small.
Qed.

Lemma lxor_range w a b : 0 <= w -> in_u w a -> in_u w b -> in_u w (Z.lxor a b).
Proof.
  intros Hw [Ha Ha'] [Hb Hb']. assert (H0 : 0 <= Z.lxor a b) by (apply Z.lxor_nonneg; tauto).
  split; [done|]. destruct (Z.eq_dec (Z.lxor a b) 0) as [->|Hn]; [apply Z.pow_pos_nonneg; lia|].
  apply Z.log2_lt_pow2; [lia|]. pose proof (Z.log2_lxor a b Ha Hb).
  destruct (Z.eq_dec w 0) as [->|].
  { assert (a = 0) as -> by lia. assert (b = 0) as -> by lia. done. }
  assert (Hl : forall x, 0 <= x < 2 ^ w -> Z.log2 x < w).
  { intros x Hx. destruct (Z.eq_dec x 0) as [->|]; [cbn; lia|]. apply Z.log2_lt_pow2; lia. }
  pose proof (Hl a ltac:(lia)). pose proof (Hl b ltac:(lia)). lia.
Qed.

Lemma fnv_step_inj h h' b b' :
  in_u 32 h -> in_u 32 h' -> in_u 8 b -> in_u 8 b' -> fnv_step h b = fnv_step h' b' ->
  Z.lxor h b = Z.lxor h' b'.
Proof.
  intros Hh Hh' Hb Hb' E. unfold in_u in Hb, Hb'.
  rewrite <- (fnv_inverse (Z.lxor h b)), <- (fnv_inverse (Z.lxor h' b'));
    [by unfold fnv_step in E; rewrite E|..]; apply lxor_range; unfold in_u; try done; lia.
Qed.

Lemma fnv_fold_inj data : forall h h', bytes_ok data -> in_u 32 h -> in_u 32 h' ->
  foldl fnv_step h data = foldl fnv_step h' data -> h = h'.
Proof.
  induction data as [|b data IH]; intros h h' Hok Hh Hh' E; [done|].
  apply Forall_cons in Hok as [Hb Hok]. apply IH in E; [|done|apply fnv_step_range..].
  apply fnv_step_inj in E; [|done..].
  apply (f_equal (fun x => Z.lxor x b)) in E.
  by rewrite !Z.lxor_assoc, Z.lxor_nilpotent, !Z.lxor_0_r in E.
Qed.

(** Changing one byte changes the checksum. *)
Lemma checksum32_detects xs x y ys :
  bytes_ok xs -> bytes_ok ys -> in_u 8 x -> in_u 8 y -> x <> y ->
  checksum32 (xs ++ x :: ys) <> checksum32 (xs ++ y :: ys).
Proof.
  intros Hxs Hys Hx Hy Hn E. unfold checksum32 in E. rewrite !foldl_app in E. cbn in E.
  apply fnv_fold_inj in E; [|done|apply fnv_step_range..].
  assert (Hr : in_u 32 (foldl fnv_step kFnvOffsetBasis xs)) by exact (checksum32_range xs).
  apply fnv_step_inj in E; [|done..]. apply Hn.
  apply (f_equal (Z.lxor (foldl fnv_step kFnvOffsetBasis xs))) in E.
  by rewrite <- !Z.lxor_assoc, Z.lxor_nilpotent, !Z.lxor_0_l in E.
Qed.
