(* ===== verification/Sbe.v ===== *)
(** * Order entry messages

    [libs/ingest/sbe_messages.hpp]: the fixed layouts of new orders, cancels and
    replaces.  [append_primitive] and [read_primitive] copy an integer as the
    machine stores it. *)
From S2P Require Import Prelude Types Bytes.

Record NewOrder := mkNewOrder {
  no_side : Side;
  no_quantity : Z;
  no_price : Z;
  no_flags : Z }.

Record Cancel := mkCancelMsg { cn_order_id : Z }.

Record Replace := mkReplaceMsg {
  rp_order_id : Z;
  rp_new_quantity : Z;
  rp_new_price : Z;
  rp_new_flags : Z }.

Definition kNewOrderEncodedSize : nat := 1 + 8 + 8 + 2.
Definition kCancelEncodedSize : nat := 8.
Definition kReplaceEncodedSize : nat := 8 + 8 + 8 + 2.

(** [append_primitive<T>], [n] being [sizeof(T)]. *)
Definition append_primitive (n : nat) (value : Z) (buffer : bytes) : bytes := buffer ++ to_le n value.

(** [read_primitive<T>]: the unsigned value and the offset after it. *)
Definition read_primitive (n : nat) (data : bytes) (offset : nat) : result (Z * nat) :=
  if (length data <? offset + n)%nat then Throw "sbe decode out of bounds"
  else Ok (of_le (sub data offset n), (offset + n)%nat).

Definition require_size (data : bytes) (required : nat) (message : string) : result unit :=
  if (length data <? required)%nat then Throw message else Ok ().

Definition encode_new_order (msg : NewOrder) : bytes :=
  append_primitive 2 (no_flags msg) (append_primitive 8 (no_price msg)
    (append_primitive 8 (no_quantity msg) (append_primitive 1 (Side_to_u8 (no_side msg)) []))).

Definition decode_new_order (data : bytes) : result NewOrder :=
  _ ← require_size data kNewOrderEncodedSize "sbe new_order decode out of bounds";
  '(side, offset) ← read_primitive 1 data 0;
  '(quantity, offset) ← read_primitive 8 data offset;
  '(price, offset) ← read_primitive 8 data offset;
  '(flags, offset) ← read_primitive 2 data offset;
  Ok (mkNewOrder (Side_of_u8 side) (i64 quantity) (i64 price) flags).

Definition encode_cancel (msg : Cancel) : bytes := append_primitive 8 (cn_order_id msg) [].

Definition decode_cancel (data : bytes) : result Cancel :=
  _ ← require_size data kCancelEncodedSize "sbe cancel decode out of bounds";
  '(order_id, offset) ← read_primitive 8 data 0;
  Ok (mkCancelMsg order_id).

Definition encode_replace (msg : Replace) : bytes :=
  append_primitive 2 (rp_new_flags msg) (append_primitive 8 (rp_new_price msg)
    (append_primitive 8 (rp_new_quantity msg) (append_primitive 8 (rp_order_id msg) []))).

Definition decode_replace (data : bytes) : result Replace :=
  _ ← require_size data kReplaceEncodedSize "sbe replace decode out of bounds";
  '(order_id, offset) ← read_primitive 8 data 0;
  '(new_quantity, offset) ← read_primitive 8 data offset;
  '(new_price, offset) ← read_primitive 8 data offset;
  '(new_flags, offset) ← read_primitive 2 data offset;
  Ok (mkReplaceMsg order_id (i64 new_quantity) (i64 new_price) new_flags).

(** The fields fit their types. *)
Definition side_ok (s : Side) : Prop :=
  match s with kSideRaw b => in_u 8 b /\ 2 <= b | _ => True end.
Definition new_order_ok (m : NewOrder) : Prop :=
  side_ok (no_side m) /\ in_i64 (no_quantity m) /\ in_i64 (no_price m) /\ in_u 16 (no_flags m).
Definition replace_ok (m : Replace) : Prop :=
  in_u 64 (rp_order_id m) /\ in_i64 (rp_new_quantity m) /\ in_i64 (rp_new_price m) /\
  in_u 16 (rp_new_flags m).

(** ** Layout *)

Lemma side_roundtrip s : side_ok s -> Side_of_u8 (Side_to_u8 s mod 256 ^ Z.of_nat 1) = s.
Proof.
  destruct s as [| |b]; cbn [side_ok Side_to_u8]; [done|done|]. intros [Hb H2].
  rewrite read_u by exact Hb. unfold Side_of_u8.
  destruct (Z.eqb_spec b 0), (Z.eqb_spec b 1); [lia..|done].
Qed.

Lemma require_size_ok data n m : (n <= length data)%nat -> require_size data n m = Ok ().
Proof. intros H. unfold require_size. by destruct (Nat.ltb_spec (length data) n); [lia|]. Qed.

Lemma require_size_short data n m : (length data < n)%nat -> require_size data n m = Throw m.
Proof. intros H. unfold require_size. by destruct (Nat.ltb_spec (length data) n); [|lia]. Qed.

Lemma read_primitive_ok n data offset :
  (offset + n <= length data)%nat ->
  read_primitive n data offset = Ok (of_le (sub data offset n), (offset + n)%nat).
Proof. intros H. unfold read_primitive. by destruct (Nat.ltb_spec (length data) (offset + n)); [lia|]. Qed.

(** What the decoders compute, once the size is right. *)
Lemma decode_new_order_fields data :
  (kNewOrderEncodedSize <= length data)%nat ->
  decode_new_order data =
    Ok (mkNewOrder (Side_of_u8 (of_le (sub data 0 1))) (i64 (of_le (sub data 1 8)))
          (i64 (of_le (sub data 9 8))) (of_le (sub data 17 2))).
Proof.
  unfold kNewOrderEncodedSize. cbn [Nat.add]. intros H. unfold decode_new_order.
  rewrite require_size_ok by exact H. cbn [mbind result_bind].
  repeat (rewrite read_primitive_ok by (cbn; lia); cbn [mbind result_bind Nat.add]). done.
Qed.

Lemma decode_cancel_fields data :
  (kCancelEncodedSize <= length data)%nat ->
  decode_cancel data = Ok (mkCancelMsg (of_le (sub data 0 8))).
Proof.
  unfold kCancelEncodedSize. intros H. unfold decode_cancel.
  rewrite require_size_ok by exact H. cbn [mbind result_bind].
  by rewrite read_primitive_ok by (cbn; lia).
Qed.

Lemma decode_replace_fields data :
  (kReplaceEncodedSize <= length data)%nat ->
  decode_replace data =
    Ok (mkReplaceMsg (of_le (sub data 0 8)) (i64 (of_le (sub data 8 8)))
          (i64 (of_le (sub data 16 8))) (of_le (sub data 24 2))).
Proof.
  unfold kReplaceEncodedSize. cbn [Nat.add]. intros H. unfold decode_replace.
  rewrite require_size_ok by exact H. cbn [mbind result_bind].
  repeat (rewrite read_primitive_ok by (cbn; lia); cbn [mbind result_bind Nat.add]). done.
Qed.

(** C35: the codec is a round trip.  Decoding an encoded message, whatever
    follows it in the frame, gives the message back. *)
Theorem sbe_roundtrip rest :
  (forall m, new_order_ok m -> decode_new_order (encode_new_order m ++ rest) = Ok m) /\
  (forall m, in_u 64 (cn_order_id m) -> decode_cancel (encode_cancel m ++ rest) = Ok m) /\
  (forall m, replace_ok m -> decode_replace (encode_replace m ++ rest) = Ok m).
Proof.
  split; [|split].
  - intros [s q p f] (Hs & Hq & Hp & Hf). unfold encode_new_order, append_primitive.
    cbn [no_side no_quantity no_price no_flags app] in *. rewrite <- !app_assoc.
    rewrite decode_new_order_fields by (rewrite !length_app, !length_to_le; cbn; lia).
    do 2 f_equal; field; by rewrite ?side_roundtrip, ?read_i64, ?read_u.
  - intros [k] Hk. cbn in Hk. unfold encode_cancel, append_primitive. cbn [app cn_order_id].
    rewrite decode_cancel_fields by (unfold kCancelEncodedSize; rewrite length_app, length_to_le; lia).
    field. by rewrite read_u.
  - intros [k q p f] (Hk & Hq & Hp & Hf). unfold encode_replace, append_primitive.
    cbn [rp_order_id rp_new_quantity rp_new_price rp_new_flags app] in *. rewrite <- !app_assoc.
    rewrite decode_replace_fields by (rewrite !length_app, !length_to_le; cbn; lia).
    do 2 f_equal; field; by rewrite ?read_i64, ?read_u.
Qed.

(** The decoders are total: each throws exactly when the frame is shorter
    than its message, with its own message, and never runs past the end. *)
Lemma sbe_bounds data :
  (decode_new_order data = Throw "sbe new_order decode out of bounds" /\ (length data < 19)%nat \/
   exists m, decode_new_order data = Ok m /\ (19 <= length data)%nat) /\
  (decode_cancel data = Throw "sbe cancel decode out of bounds" /\ (length data < 8)%nat \/
   exists m, decode_cancel data = Ok m /\ (8 <= length data)%nat) /\
  (decode_replace data = Throw "sbe replace decode out of bounds" /\ (length data < 26)%nat \/
   exists m, decode_replace data = Ok m /\ (26 <= length data)%nat).
Proof.
  repeat split.
  - destruct (Nat.lt_ge_cases (length data) 19) as [H|H].
    + left. split; [|done]. unfold decode_new_order. by rewrite require_size_short.
    + right. eexists. split; [by apply decode_new_order_fields|done].
  - destruct (Nat.lt_ge_cases (length data) 8) as [H|H].
    + left. split; [|done]. unfold decode_cancel. by rewrite require_size_short.
    + right. eexists. split; [by apply decode_cancel_fields|done].
  - destruct (Nat.lt_ge_cases (length data) 26) as [H|H].
    + left. split; [|done]. unfold decode_replace. by rewrite require_size_short.
    + right. eexists. split; [by apply decode_replace_fields|done].
Qed.

Lemma sbe_roundtrip_witness :
  decode_new_order (encode_new_order (mkNewOrder kSell (-5) 70000 3) ++ [1; 2; 3]) =
    Ok (mkNewOrder kSell (-5) 70000 3).
Proof.
  refine (proj1 (sbe_roundtrip [1; 2; 3]) (mkNewOrder kSell (-5) 70000 3) _).
  vm_compute. repeat split; discriminate.
Defined.
