(* ===== verification/Ingest.v ===== *)
(** * Frames, the transport and the ingress pipeline

    [libs/ingest]: the datagram parser and the peer table of [UdpTransport],
    the authentication, rate limiting and queueing of [IngressPipeline].
    A datagram, its sender and the time it arrives are arguments; [Transport] has
    the socket and the thread they come from. *)
From S2P Require Import Prelude Types Bytes SpscRing.

Inductive MessageKind := kNewOrder | kCancel | kReplace | kHeartbeat.

#[export] Instance MessageKind_eq_dec : EqDecision MessageKind.
Proof. solve_decision. Defined.

Record FrameHeader := mkHeader {
  fh_account : Z;
  fh_nonce : Z;
  fh_received_time_ns : Z;
  fh_priority : Z;
  fh_kind : MessageKind }.

(** [Frame] and [OwnedFrame]: the pipeline copies the bytes the span shows. *)
Record Frame := mkFrame { fr_header : FrameHeader; fr_payload : bytes }.

(** ** The wire format *)
Definition kWireMagic : Z := 0x54524443.
Definition kWireVersion : Z := 1.
Definition kWireHeaderSize : nat := 36.

Record WireHeader := mkWire {
  wh_magic : Z;
  wh_version : Z;
  wh_flags : Z;
  wh_account : Z;
  wh_nonce : Z;
  wh_timestamp_ns : Z;
  wh_priority : Z;
  wh_kind : Z;
  wh_payload_len : Z }.

(** The packed struct over the first 36 bytes. *)
Definition wire_header (data : bytes) : WireHeader :=
  mkWire (of_le (sub data 0 4)) (of_le (sub data 4 2)) (of_le (sub data 6 2))
    (of_le (sub data 8 8)) (of_le (sub data 16 8)) (of_le (sub data 24 8))
    (of_le (sub data 32 1)) (of_le (sub data 33 1)) (of_le (sub data 34 2)).

Definition MessageKind_to_u8 (k : MessageKind) : Z :=
  match k with kNewOrder => 0 | kCancel => 1 | kReplace => 2 | kHeartbeat => 3 end.

(** [static_cast<MessageKind>], after the check that the byte is a kind. *)
Definition MessageKind_of_u8 (b : Z) : MessageKind :=
  if b =? 0 then kNewOrder else if b =? 1 then kCancel else if b =? 2 then kReplace else kHeartbeat.

(** [parse_frame]; [data] is the [len] bytes received. *)
Definition parse_frame (data : bytes) : option Frame :=
  if (length data <? kWireHeaderSize)%nat then None
  else
    let header := wire_header data in
    if negb (wh_magic header =? kWireMagic) then None
    else if negb (wh_version header =? kWireVersion) then None
    else
      let expected_len := Z.of_nat kWireHeaderSize + wh_payload_len header in
      if Z.of_nat (length data) <? expected_len then None
      else if wh_kind header >? MessageKind_to_u8 kHeartbeat then None
      else
        Some (mkFrame
          (mkHeader (wh_account header) (wh_nonce header) (i64 (wh_timestamp_ns header))
             (wh_priority header) (MessageKind_of_u8 (wh_kind header)))
          (if wh_payload_len header >? 0
           then sub data kWireHeaderSize (Z.to_nat (wh_payload_len header)) else [])).

(** ** The transport's counters and peers *)
Record TransportState := mkTransport {
  bytes_received : Z;
  frames_received : Z;
  frames_malformed : Z;
  peer_last_seen : gmap Z Z }.

Record TransportStats := mkTransportStats {
  ts_bytes_received : Z;
  ts_frames_received : Z;
  ts_frames_malformed : Z;
  ts_connections_active : Z }.

Definition new_transport : TransportState := mkTransport 0 0 0 ∅.

Definition kPeerLivenessWindow : Z := 5000000000.

(** [peer_key]: the address as stored and the port in host order. *)
Definition peer_key (s_addr port : Z) : Z := Z.lor (u64 (Z.shiftl s_addr 16)) port.

(** The loop that drops the peers not seen for longer than the window. *)
Definition purge (now : Z) (peers : gmap Z Z) : gmap Z Z :=
  filter (fun p : Z * Z => negb (now - p.2 >? kPeerLivenessWindow)) peers.

(** One turn of [receive_loop] for a datagram of [data] from [peer] at [now]:
    the state and the frame handed to the callback, if any.  An empty datagram
    is skipped. *)
Definition receive_datagram (data : bytes) (peer now : Z) (s : TransportState)
    : TransportState * option Frame :=
  match data with
  | [] => (s, None)
  | _ =>
      let received := u64 (bytes_received s + Z.of_nat (length data)) in
      let peers := purge now (<[peer := now]> (peer_last_seen s)) in
      match parse_frame data with
      | Some frame =>
          (mkTransport received (u64 (frames_received s + 1)) (frames_malformed s) peers, Some frame)
      | None =>
          (mkTransport received (frames_received s) (u64 (frames_malformed s + 1)) peers, None)
      end
  end.

(** [stats], which purges as it counts. *)
Definition transport_stats (now : Z) (s : TransportState) : TransportState * TransportStats :=
  let peers := purge now (peer_last_seen s) in
  (mkTransport (bytes_received s) (frames_received s) (frames_malformed s) peers,
   mkTransportStats (bytes_received s) (frames_received s) (frames_malformed s) (Z.of_nat (size peers))).

(** [stop] forgets the peers and keeps the counters. *)
Definition transport_stop (s : TransportState) : TransportState :=
  mkTransport (bytes_received s) (frames_received s) (frames_malformed s) ∅.

(** ** The pipeline *)
Record Config := mkIngressConfig {
  new_order_queue_depth : Z;
  cancel_queue_depth : Z;
  replace_queue_depth : Z;
  max_new_orders_per_second : Z;
  max_cancels_per_second : Z;
  max_replaces_per_second : Z }.

Definition default_config : Config := mkIngressConfig 4096 4096 4096 10000 20000 20000.

Record Stats := mkStats {
  accepted : Z;
  rejected_auth : Z;
  rejected_rate_limit : Z;
  rejected_queue_full : Z;
  dropped_heartbeats : Z }.

Definition no_stats : Stats := mkStats 0 0 0 0 0.

Record AccountWindow := mkWindow {
  window_start : Z;
  win_new_orders : Z;
  win_cancels : Z;
  win_replaces : Z }.

Definition new_window : AccountWindow := mkWindow 0 0 0 0.

(** The verifier, when one is set. *)
Abbreviation AuthVerifier := (option (FrameHeader -> bytes -> bool)).

Record IngressPipeline := mkPipeline {
  config : Config;
  verifier : AuthVerifier;
  stats : Stats;
  rate_windows : gmap Z AccountWindow;
  new_orders : SpscRing Frame;
  cancels : SpscRing Frame;
  replaces : SpscRing Frame }.

Definition kOneSecondNs : Z := 1000000000.

(** The constructor; the depths are powers of two. *)
Definition new_pipeline : result IngressPipeline :=
  n ← make_ring 4096; c ← make_ring 4096; r ← make_ring 4096;
  Ok (mkPipeline default_config None no_stats ∅ n c r).

Definition configure (c : Config) (v : AuthVerifier) (p : IngressPipeline) : result IngressPipeline :=
  n ← make_ring (new_order_queue_depth c);
  k ← make_ring (cancel_queue_depth c);
  r ← make_ring (replace_queue_depth c);
  Ok (mkPipeline c v no_stats ∅ n k r).

(** [rate_limit]: the window after the call and whether the frame is refused. *)
Definition rate_limit (c : Config) (w : AccountWindow) (kind : MessageKind) (timestamp : Z)
    : AccountWindow * bool :=
  let w := if i64 (timestamp - window_start w) >=? kOneSecondNs then mkWindow timestamp 0 0 0 else w in
  match kind with
  | kNewOrder =>
      if win_new_orders w >=? max_new_orders_per_second c then (w, true)
      else (mkWindow (window_start w) (u32 (win_new_orders w + 1)) (win_cancels w) (win_replaces w), false)
  | kCancel =>
      if win_cancels w >=? max_cancels_per_second c then (w, true)
      else (mkWindow (window_start w) (win_new_orders w) (u32 (win_cancels w + 1)) (win_replaces w), false)
  | kReplace =>
      if win_replaces w >=? max_replaces_per_second c then (w, true)
      else (mkWindow (window_start w) (win_new_orders w) (win_cancels w) (u32 (win_replaces w + 1)), false)
  | kHeartbeat => (w, false)
  end.

Definition set_stats (s : Stats) (p : IngressPipeline) : IngressPipeline :=
  mkPipeline (config p) (verifier p) s (rate_windows p) (new_orders p) (cancels p) (replaces p).

Definition set_windows (w : gmap Z AccountWindow) (p : IngressPipeline) : IngressPipeline :=
  mkPipeline (config p) (verifier p) (stats p) w (new_orders p) (cancels p) (replaces p).

Definition count_heartbeat (s : Stats) : Stats :=
  mkStats (accepted s) (rejected_auth s) (rejected_rate_limit s) (rejected_queue_full s)
    (u64 (dropped_heartbeats s + 1)).
Definition count_auth (s : Stats) : Stats :=
  mkStats (accepted s) (u64 (rejected_auth s + 1)) (rejected_rate_limit s) (rejected_queue_full s)
    (dropped_heartbeats s).
Definition count_rate (s : Stats) : Stats :=
  mkStats (accepted s) (rejected_auth s) (u64 (rejected_rate_limit s + 1)) (rejected_queue_full s)
    (dropped_heartbeats s).
Definition count_full (s : Stats) : Stats :=
  mkStats (accepted s) (rejected_auth s) (rejected_rate_limit s) (u64 (rejected_queue_full s + 1))
    (dropped_heartbeats s).
Definition count_accepted (s : Stats) : Stats :=
  mkStats (u64 (accepted s + 1)) (rejected_auth s) (rejected_rate_limit s) (rejected_queue_full s)
    (dropped_heartbeats s).

(** The [switch] that queues a frame by its kind. *)
Definition enqueue (f : Frame) (p : IngressPipeline) : IngressPipeline * bool :=
  match fh_kind (fr_header f) with
  | kNewOrder => let '(q, ok) := push f (new_orders p) in
      (mkPipeline (config p) (verifier p) (stats p) (rate_windows p) q (cancels p) (replaces p), ok)
  | kCancel => let '(q, ok) := push f (cancels p) in
      (mkPipeline (config p) (verifier p) (stats p) (rate_windows p) (new_orders p) q (replaces p), ok)
  | kReplace => let '(q, ok) := push f (replaces p) in
      (mkPipeline (config p) (verifier p) (stats p) (rate_windows p) (new_orders p) (cancels p) q, ok)
  | kHeartbeat => (p, false)
  end.

Definition authentic (p : IngressPipeline) (f : Frame) : bool :=
  match verifier p with Some v => v (fr_header f) (fr_payload f) | None => true end.

Definition submit_frame (f : Frame) (p : IngressPipeline) : IngressPipeline * bool :=
  if bool_decide (fh_kind (fr_header f) = kHeartbeat) then (set_stats (count_heartbeat (stats p)) p, true)
  else if negb (authentic p f) then (set_stats (count_auth (stats p)) p, false)
  else
    let account := fh_account (fr_header f) in
    let w := default new_window (rate_windows p !! account) in
    let '(w, limited) := rate_limit (config p) w (fh_kind (fr_header f)) (fh_received_time_ns (fr_header f)) in
    let p := set_windows (<[account := w]> (rate_windows p)) p in
    if limited then (set_stats (count_rate (stats p)) p, false)
    else
      let '(p, pushed) := enqueue f p in
      if negb pushed then (set_stats (count_full (stats p)) p, false)
      else (set_stats (count_accepted (stats p)) p, true).

Definition next_new_order (p : IngressPipeline) : option (IngressPipeline * option Frame) :=
  '(q, f) ← pop (new_orders p);
  Some (mkPipeline (config p) (verifier p) (stats p) (rate_windows p) q (cancels p) (replaces p), f).

Definition next_cancel (p : IngressPipeline) : option (IngressPipeline * option Frame) :=
  '(q, f) ← pop (cancels p);
  Some (mkPipeline (config p) (verifier p) (stats p) (rate_windows p) (new_orders p) q (replaces p), f).

Definition next_replace (p : IngressPipeline) : option (IngressPipeline * option Frame) :=
  '(q, f) ← pop (replaces p);
  Some (mkPipeline (config p) (verifier p) (stats p) (rate_windows p) (new_orders p) (cancels p) q, f).

Definition reset_stats (p : IngressPipeline) : IngressPipeline := set_stats no_stats p.
