(* ===== verification/IngestProps.v ===== *)
(** * Properties of the transport and the ingress pipeline *)
From S2P Require Import Prelude Types Bytes SpscRing SpscRingProps Ingest.

(** ** The wire format *)

(** The header of a frame as a client writes it. *)
Definition wire_of (flags : Z) (f : Frame) : bytes :=
  to_le 4 kWireMagic ++ to_le 2 kWireVersion ++ to_le 2 flags ++
  to_le 8 (fh_account (fr_header f)) ++ to_le 8 (fh_nonce (fr_header f)) ++
  to_le 8 (fh_received_time_ns (fr_header f)) ++ to_le 1 (fh_priority (fr_header f)) ++
  to_le 1 (MessageKind_to_u8 (fh_kind (fr_header f))) ++ to_le 2 (Z.of_nat (length (fr_payload f))).

Record frame_ok (f : Frame) : Prop := {
  fo_account : in_u 64 (fh_account (fr_header f));
  fo_nonce : in_u 64 (fh_nonce (fr_header f));
  fo_time : in_i64 (fh_received_time_ns (fr_header f));
  fo_priority : in_u 8 (fh_priority (fr_header f));
  fo_length : Z.of_nat (length (fr_payload f)) < 65536 }.

Lemma length_wire flags f : length (wire_of flags f) = 36%nat.
Proof. unfold wire_of. by rewrite !length_app, !length_to_le. Qed.

(** A field of the header, and the header as the concatenation of its fields. *)
Lemma sub_app2 a b n m : length a = n -> sub (a ++ b) n m = take m b.
Proof. intros <-. unfold sub. by rewrite drop_app_length. Qed.

Lemma sub_split b offset n m : sub b offset (n + m) = sub b offset n ++ sub b (offset + n) m.
Proof. unfold sub. by rewrite <- drop_drop, take_take_drop. Qed.

Lemma sub_le b offset n : bytes_ok b -> (offset + n <= length b)%nat ->
  to_le n (of_le (sub b offset n)) = sub b offset n.
Proof.
  intros Hb Hl. assert (E : length (sub b offset n) = n).
  { unfold sub. rewrite length_take, length_drop. lia. }
  rewrite <- E at 1. apply to_of_le. by apply Forall_take, Forall_drop.
Qed.

Lemma sub_range b offset n : bytes_ok b -> (offset + n <= length b)%nat ->
  in_u (8 * Z.of_nat n) (of_le (sub b offset n)).
Proof.
  intros Hb Hl. assert (E : length (sub b offset n) = n).
  { unfold sub. rewrite length_take, length_drop. lia. }
  rewrite <- E at 1. apply of_le_range. by apply Forall_take, Forall_drop.
Qed.

Lemma take_to_le n v rest : take n (to_le n v ++ rest) = to_le n v.
Proof. apply take_app_length'. by rewrite length_to_le. Qed.

Lemma kind_roundtrip k : MessageKind_of_u8 (MessageKind_to_u8 k) = k.
Proof. by destruct k. Qed.

Lemma kind_of_to b : 0 <= b <= 3 -> MessageKind_to_u8 (MessageKind_of_u8 b) = b.
Proof. intros. assert (b = 0 \/ b = 1 \/ b = 2 \/ b = 3) as [->|[->|[->| ->]]] by lia; done. Qed.

(** The fields of a header written by [wire_of]. *)
Lemma wire_header_of flags f rest :
  in_u 16 flags -> frame_ok f ->
  wire_header (wire_of flags f ++ rest) =
    mkWire kWireMagic kWireVersion flags (fh_account (fr_header f)) (fh_nonce (fr_header f))
      (u64 (fh_received_time_ns (fr_header f))) (fh_priority (fr_header f))
      (MessageKind_to_u8 (fh_kind (fr_header f))) (Z.of_nat (length (fr_payload f))).
Proof.
  intros Hf [H1 H2 H3 H4 H5]. unfold wire_header, wire_of. rewrite <- !app_assoc.
  f_equal; field; try (apply read_u; try done; lia).
  - done.
  - by destruct (fh_kind (fr_header f)).
  - apply read_u. unfold in_u. lia.
Qed.

(** The first 36 bytes are the fields of the header. *)
Lemma wire_header_bytes data :
  bytes_ok data -> (36 <= length data)%nat ->
  let h := wire_header data in
  data = (to_le 4 (wh_magic h) ++ to_le 2 (wh_version h) ++ to_le 2 (wh_flags h) ++
          to_le 8 (wh_account h) ++ to_le 8 (wh_nonce h) ++ to_le 8 (wh_timestamp_ns h) ++
          to_le 1 (wh_priority h) ++ to_le 1 (wh_kind h) ++ to_le 2 (wh_payload_len h)) ++
         drop 36 data.
Proof.
  intros Hb Hl h. unfold h. cbn. rewrite !sub_le by (try done; lia).
  rewrite <- !sub_split. unfold sub. rewrite drop_0. by rewrite take_drop.
Qed.

Lemma parse_frame_sound data f :
  bytes_ok data -> parse_frame data = Some f ->
  frame_ok f /\ exists flags extra, in_u 16 flags /\ data = wire_of flags f ++ fr_payload f ++ extra.
Proof.
  intros Hb. unfold parse_frame, kWireHeaderSize. destruct (Nat.ltb_spec (length data) 36) as [|Hl]; [done|].
  pose proof (wire_header_bytes data Hb Hl) as Hd. cbv zeta in Hd.
  assert (Hr : forall off n, (off + n <= 36)%nat -> in_u (8 * Z.of_nat n) (of_le (sub data off n))).
  { intros. apply sub_range; [done|lia]. }
  pose proof (Hr 6%nat 2%nat ltac:(lia)) as Hfl. pose proof (Hr 8%nat 8%nat ltac:(lia)) as Ha.
  pose proof (Hr 16%nat 8%nat ltac:(lia)) as Hno. pose proof (Hr 32%nat 1%nat ltac:(lia)) as Hpr.
  pose proof (Hr 33%nat 1%nat ltac:(lia)) as Hkr. pose proof (Hr 34%nat 2%nat ltac:(lia)) as Hpl.
  change (of_le (sub data 6 2)) with (wh_flags (wire_header data)) in Hfl.
  change (of_le (sub data 8 8)) with (wh_account (wire_header data)) in Ha.
  change (of_le (sub data 16 8)) with (wh_nonce (wire_header data)) in Hno.
  change (of_le (sub data 32 1)) with (wh_priority (wire_header data)) in Hpr.
  change (of_le (sub data 33 1)) with (wh_kind (wire_header data)) in Hkr.
  change (of_le (sub data 34 2)) with (wh_payload_len (wire_header data)) in Hpl.
  clear Hr. generalize dependent (wire_header data). intros h Hd Hfl Ha Hno Hpr Hkr Hpl.
  destruct (Z.eqb_spec (wh_magic h) kWireMagic) as [Hm|]; [|done].
  destruct (Z.eqb_spec (wh_version h) kWireVersion) as [Hv|]; [|done]. cbn [negb].
  destruct (Z.ltb_spec (Z.of_nat (length data)) (Z.of_nat 36 + wh_payload_len h)) as [|Hlen]; [done|].
  destruct (Z.gtb_spec (wh_kind h) (MessageKind_to_u8 kHeartbeat)) as [|Hk]; [done|].
  change (MessageKind_to_u8 kHeartbeat) with 3 in Hk. unfold in_u in Hpl, Hkr.
  change (2 ^ (8 * Z.of_nat 2)) with 65536 in Hpl. intros [= <-].
  assert (Epl : (if wh_payload_len h >? 0 then sub data 36 (Z.to_nat (wh_payload_len h)) else []) =
                sub data 36 (Z.to_nat (wh_payload_len h))).
  { destruct (Z.gtb_spec (wh_payload_len h) 0); [done|].
    assert (wh_payload_len h = 0) as -> by lia. unfold sub. by rewrite take_0. }
  rewrite Epl. assert (Elen : Z.of_nat (length (sub data 36 (Z.to_nat (wh_payload_len h)))) = wh_payload_len h).
  { unfold sub. rewrite length_take, length_drop. lia. }
  split.
  + split; cbn [fr_header fr_payload fh_account fh_nonce fh_received_time_ns fh_priority fh_kind];
      [done|done|apply i64_range|done|lia].
  + exists (wh_flags h), (drop (36 + Z.to_nat (wh_payload_len h)) data).
    split; [exact Hfl|]. rewrite Hd at 1. unfold wire_of. cbn [fr_header fr_payload
      fh_account fh_nonce fh_received_time_ns fh_priority fh_kind].
    rewrite Hm, Hv, Elen, to_le_i64, kind_of_to by lia. f_equal. unfold sub.
    rewrite <- drop_drop. by rewrite take_drop.
Qed.

Lemma parse_frame_complete flags extra f :
  frame_ok f -> in_u 16 flags -> parse_frame (wire_of flags f ++ fr_payload f ++ extra) = Some f.
Proof.
  intros Hok Hf. unfold parse_frame, kWireHeaderSize.
  rewrite !length_app, length_wire.
  destruct (Nat.ltb_spec (36 + (length (fr_payload f) + length extra)) 36); [lia|].
  rewrite wire_header_of by done. cbn [wh_magic wh_version wh_account wh_nonce wh_timestamp_ns
    wh_priority wh_kind wh_payload_len]. rewrite !Z.eqb_refl. cbn [negb].
  destruct (Z.ltb_spec (Z.of_nat (36 + (length (fr_payload f) + length extra)))
    (Z.of_nat 36 + Z.of_nat (length (fr_payload f)))); [lia|].
  destruct (Z.gtb_spec (MessageKind_to_u8 (fh_kind (fr_header f))) (MessageKind_to_u8 kHeartbeat));
    [by destruct (fh_kind (fr_header f))|].
  rewrite kind_roundtrip. rewrite i64_u64 by apply Hok. rewrite Nat2Z.id.
  assert ((if Z.of_nat (length (fr_payload f)) >? 0
    then sub (wire_of flags f ++ fr_payload f ++ extra) 36 (length (fr_payload f)) else []) =
    fr_payload f) as ->; [|by destruct f as [[]]].
  rewrite sub_at by apply length_wire.
  destruct (Z.gtb_spec (Z.of_nat (length (fr_payload f))) 0); [done|].
  destruct (fr_payload f); [done|]. cbn in *. lia.
Qed.

(** C34: the parser accepts exactly the well-formed datagrams, and reads them
    as written: a datagram parses to a frame when, and only when, it is the
    frame's header, its payload, and possibly more bytes that are ignored. *)
Theorem parse_frame_exact data f :
  bytes_ok data ->
  parse_frame data = Some f <->
  frame_ok f /\ exists flags extra, in_u 16 flags /\ data = wire_of flags f ++ fr_payload f ++ extra.
Proof.
  intros Hb. split; [by apply parse_frame_sound|].
  intros [Hok (flags & extra & Hf & ->)]. by apply parse_frame_complete.
Qed.

Lemma parse_frame_exact_witness :
  let f := mkFrame (mkHeader 7 9 (-1) 0 kCancel) [10; 20; 30] in
  parse_frame (wire_of 5 f ++ [10; 20; 30] ++ [99]) = Some f.
Proof.
  cbv zeta. refine (proj2 (parse_frame_exact _ (mkFrame (mkHeader 7 9 (-1) 0 kCancel) [10; 20; 30]) _) _).
  - apply (bool_decide_unpack _). vm_compute. exact I.
  - split; [split; vm_compute; first [reflexivity|split; congruence]|].
    exists 5, [99]. split; [vm_compute; split; congruence|reflexivity].
Defined.

(** ** The pipeline *)
Inductive IngressOp := ISubmit (f : Frame) | INext (k : MessageKind).
Inductive IngressReply := Submitted (ok : bool) | Delivered (f : option Frame).

Definition next_of (k : MessageKind) (p : IngressPipeline) : option (IngressPipeline * option Frame) :=
  match k with
  | kNewOrder => next_new_order p
  | kCancel => next_cancel p
  | kReplace => next_replace p
  | kHeartbeat => Some (p, None)
  end.

Definition ingress_step (op : IngressOp) (p : IngressPipeline) : option (IngressPipeline * IngressReply) :=
  match op with
  | ISubmit f => let '(p, ok) := submit_frame f p in Some (p, Submitted ok)
  | INext k => '(p, f) ← next_of k p; Some (p, Delivered f)
  end.

Fixpoint run_ingress (ops : list IngressOp) (p : IngressPipeline)
    : option (IngressPipeline * list IngressReply) :=
  match ops with
  | [] => Some (p, [])
  | op :: ops =>
      '(p, r) ← ingress_step op p; '(p, rs) ← run_ingress ops p; Some (p, r :: rs)
  end.

(** The frames of kind [k] that were accepted, and those handed on. *)
Definition accepted_frame (k : MessageKind) (x : IngressOp * IngressReply) : list Frame :=
  match x with
  | (ISubmit f, Submitted true) => if bool_decide (fh_kind (fr_header f) = k) then [f] else []
  | _ => []
  end.

Definition delivered_frame (k : MessageKind) (x : IngressOp * IngressReply) : list Frame :=
  match x with
  | (INext k', Delivered (Some f)) => if bool_decide (k' = k) then [f] else []
  | _ => []
  end.

Definition is_submit (op : IngressOp) : Z := match op with ISubmit _ => 1 | INext _ => 0 end.

Definition depth_of (c : Config) (k : MessageKind) : Z :=
  match k with
  | kCancel => cancel_queue_depth c
  | kReplace => replace_queue_depth c
  | _ => new_order_queue_depth c
  end.

Definition ring_of (k : MessageKind) (p : IngressPipeline) : SpscRing Frame :=
  match k with kCancel => cancels p | kReplace => replaces p | _ => new_orders p end.

Definition stats_total (s : Stats) : Z :=
  accepted s + rejected_auth s + rejected_rate_limit s + rejected_queue_full s + dropped_heartbeats s.

(** The queues hold [q], kind by kind. *)
Definition pipe_rep (p : IngressPipeline) (d : MessageKind -> Z) (q : MessageKind -> list Frame) : Prop :=
  forall k, k <> kHeartbeat -> exists base, ring_rep (ring_of k p) (d k) base (q k).

Lemma pipe_rep_ext p p' d q :
  new_orders p' = new_orders p -> cancels p' = cancels p -> replaces p' = replaces p ->
  pipe_rep p d q -> pipe_rep p' d q.
Proof. intros E1 E2 E3 Hp k Hk. destruct (Hp k Hk) as [base Hb]. exists base. destruct k; cbn in *; congruence. Qed.

(** Queueing a frame: it joins the queue of its kind, or nothing changes. *)
Lemma enqueue_rep f p d q :
  pipe_rep p d q -> fh_kind (fr_header f) <> kHeartbeat ->
  let k := fh_kind (fr_header f) in
  let r := enqueue f p in
  stats r.1 = stats p /\ rate_windows r.1 = rate_windows p /\ config r.1 = config p /\
  verifier r.1 = verifier p /\
  pipe_rep r.1 d (if r.2 then fun k' => if bool_decide (k' = k) then q k' ++ [f] else q k' else q).
Proof.
  intros Hp Hk. cbv zeta. set (k := fh_kind (fr_header f)) in *.
  destruct (Hp k Hk) as [base Hr]. pose proof (push_spec _ _ _ _ f Hr) as Hs.
  unfold enqueue. fold k.
  destruct (Z.of_nat (length (q k)) =? d k - 1).
  - destruct k; [| | |done]; cbn in Hs; rewrite Hs; cbn; repeat split; by apply (pipe_rep_ext p).
  - destruct Hs as (r' & Hs & Hr').
    destruct k eqn:Ek; [| | |done]; cbn in Hs; rewrite Hs; cbn; repeat split;
      intros k' Hk'; destruct (Hp k' Hk') as [b Hb];
      destruct (bool_decide_reflect (k' = k)) as [->|Hn]; rewrite ?Ek;
      try (rewrite bool_decide_true by done; by exists base);
      rewrite bool_decide_false by congruence; exists b; destruct k'; cbn in *; congruence.
Qed.

Lemma pipe_rep_eq p d q q' :
  (forall k, k <> kHeartbeat -> q k = q' k) -> pipe_rep p d q -> pipe_rep p d q'.
Proof. intros E Hp k Hk. rewrite <- E by done. by apply Hp. Qed.

Lemma submit_rep f p d q :
  pipe_rep p d q ->
  let r := submit_frame f p in
  pipe_rep r.1 d (fun k => q k ++ accepted_frame k (ISubmit f, Submitted r.2)).
Proof.
  intros Hp. cbv zeta. unfold submit_frame.
  destruct (bool_decide_reflect (fh_kind (fr_header f) = kHeartbeat)) as [Eh|Hh]; cbn [fst snd accepted_frame].
  { eapply pipe_rep_eq; [|by apply (pipe_rep_ext p)]. intros k Hk.
    rewrite bool_decide_false by congruence. by rewrite app_nil_r. }
  destruct (negb (authentic p f)); cbn [fst snd accepted_frame].
  { eapply pipe_rep_eq; [|by apply (pipe_rep_ext p)]. intros. by rewrite app_nil_r. }
  destruct (rate_limit _ _ _ _) as [w limited].
  set (p1 := set_windows _ p). assert (H1 : pipe_rep p1 d q) by by apply (pipe_rep_ext p).
  destruct limited; cbn [fst snd accepted_frame].
  { eapply pipe_rep_eq; [|by apply (pipe_rep_ext p1)]. intros. by rewrite app_nil_r. }
  destruct (enqueue_rep f p1 d q H1 Hh) as (_ & _ & _ & _ & H2).
  destruct (enqueue f p1) as [p2 pushed]. cbn [fst snd] in H2.
  destruct pushed; cbn [negb fst snd accepted_frame]; (eapply pipe_rep_eq; [|by apply (pipe_rep_ext p2)]).
  - intros k Hk. cbn. destruct (bool_decide_reflect (k = fh_kind (fr_header f))) as [->|Hn].
    + by rewrite bool_decide_true.
    + rewrite bool_decide_false by congruence. by rewrite app_nil_r.
  - intros. by rewrite app_nil_r.
Qed.

Lemma submit_stats f p :
  let s := stats p in
  0 <= accepted s /\ 0 <= rejected_auth s /\ 0 <= rejected_rate_limit s /\ 0 <= rejected_queue_full s /\
  0 <= dropped_heartbeats s ->
  stats_total s < 2 ^ 64 - 1 ->
  let s' := stats (submit_frame f p).1 in
  0 <= accepted s' /\ 0 <= rejected_auth s' /\ 0 <= rejected_rate_limit s' /\ 0 <= rejected_queue_full s' /\
  0 <= dropped_heartbeats s' /\ stats_total s' = stats_total s + 1.
Proof.
  cbv zeta. intros Hs Ht. unfold stats_total in *.
  assert (Hu : forall z, 0 <= z < 2 ^ 64 - 1 -> u64 (z + 1) = z + 1) by (intros; apply wrapu_small; unfold in_u; lia).
  unfold submit_frame. destruct (bool_decide _); [cbn; rewrite !Hu; lia|].
  destruct (negb (authentic p f)); [cbn; rewrite !Hu; lia|].
  destruct (rate_limit _ _ _ _) as [w limited]. destruct limited; [cbn; rewrite !Hu; lia|].
  assert (E : stats (enqueue f (set_windows (<[fh_account (fr_header f):=w]> (rate_windows p)) p)).1 = stats p).
  { unfold enqueue. destruct (fh_kind _); [..|done]; by destruct (push _ _). }
  destruct (enqueue f _) as [p2 pushed]. cbn in E.
  destruct pushed; cbn; rewrite E; rewrite !Hu; lia.
Qed.

(** The queues after the first frame of kind [k] is taken. *)
Definition dequeue (k : MessageKind) (rest : list Frame) (q : MessageKind -> list Frame) : MessageKind -> list Frame :=
  fun k' => if bool_decide (k' = k) then rest else q k'.

Lemma next_spec k p d q :
  pipe_rep p d q -> k <> kHeartbeat ->
  match q k with
  | [] => next_of k p = Some (p, None)
  | f :: rest => exists p', next_of k p = Some (p', Some f) /\ pipe_rep p' d (dequeue k rest q) /\ stats p' = stats p
  end.
Proof.
  intros Hp Hk. destruct (Hp k Hk) as [base Hr]. pose proof (pop_spec _ _ _ _ Hr) as Hs.
  destruct (q k) as [|f rest] eqn:Eq.
  - destruct p, k; cbn in Hs; [| | |done]; unfold next_of, next_new_order, next_cancel, next_replace; cbn;
      by rewrite Hs.
  - destruct Hs as (r' & Hs & Hr').
    exists (mkPipeline (config p) (verifier p) (stats p) (rate_windows p)
      (if bool_decide (k = kNewOrder) then r' else new_orders p)
      (if bool_decide (k = kCancel) then r' else cancels p)
      (if bool_decide (k = kReplace) then r' else replaces p)).
    split; [|split; [|done]].
    + destruct k; cbn in Hs; [| | |done]; unfold next_of, next_new_order, next_cancel, next_replace; by rewrite Hs.
    + intros k' Hk'. unfold dequeue. destruct (bool_decide_reflect (k' = k)) as [->|Hn].
      * exists (base + 1). destruct k; cbn in *; done.
      * destruct (Hp k' Hk') as [b Hb]. exists b. destruct k, k'; cbn in *; congruence || done.
Qed.

Lemma next_rep k p d q :
  pipe_rep p d q ->
  exists p' o q', next_of k p = Some (p', o) /\ pipe_rep p' d q' /\ stats p' = stats p /\
    (forall k', k' <> kHeartbeat -> q k' = delivered_frame k' (INext k, Delivered o) ++ q' k').
Proof.
  intros Hp. destruct (decide (k = kHeartbeat)) as [->|Hk]; [by exists p, None, q|].
  pose proof (next_spec k p d q Hp Hk) as Hs. destruct (q k) as [|f rest] eqn:Eq; [by exists p, None, q|].
  destruct Hs as (p' & E & Hp' & Hst). exists p', (Some f), (dequeue k rest q).
  split; [done|]. split; [done|]. split; [done|]. intros k' Hk'. cbn. unfold dequeue.
  destruct (bool_decide_reflect (k' = k)) as [->|Hn]; [by rewrite bool_decide_true|].
  by rewrite bool_decide_false by congruence.
Qed.

Lemma run_ingress_spec ops : forall p d q,
  pipe_rep p d q ->
  0 <= accepted (stats p) /\ 0 <= rejected_auth (stats p) /\ 0 <= rejected_rate_limit (stats p) /\
  0 <= rejected_queue_full (stats p) /\ 0 <= dropped_heartbeats (stats p) ->
  stats_total (stats p) + Zsum is_submit ops < 2 ^ 64 ->
  exists p' rs q', run_ingress ops p = Some (p', rs) /\ pipe_rep p' d q' /\
    stats_total (stats p') = stats_total (stats p) + Zsum is_submit ops /\
    (forall k, k <> kHeartbeat ->
       q k ++ concat (map (accepted_frame k) (combine ops rs)) =
       concat (map (delivered_frame k) (combine ops rs)) ++ q' k).
Proof.
  induction ops as [|op ops IH]; intros p d q Hp Hs Ht.
  { exists p, [], q. rewrite Zsum_nil, Z.add_0_r. split; [done|]. split; [done|]. split; [done|].
    intros k _. cbn. by rewrite app_nil_r. }
  rewrite Zsum_cons in *. assert (Hn : 0 <= Zsum is_submit ops).
  { apply Zsum_nonneg, Forall_forall. intros []; cbn; lia. }
  destruct op as [f|k0]; cbn [is_submit] in *.
  - pose proof (submit_rep f p d q Hp) as Hp1. pose proof (submit_stats f p Hs ltac:(lia)) as Hs1.
    cbv zeta in Hp1, Hs1. cbn [run_ingress ingress_step].
    destruct (submit_frame f p) as [p1 ok]. cbn [fst snd] in *. cbn [mbind option_bind].
    destruct (IH p1 d _ Hp1 ltac:(tauto) ltac:(lia)) as (p' & rs & q' & -> & Hp' & Ht' & Hq').
    exists p', (Submitted ok :: rs), q'. split; [done|]. split; [done|]. split; [lia|].
    intros k Hk. cbn [combine map concat delivered_frame]. rewrite app_assoc. by apply Hq'.
  - destruct (next_rep k0 p d q Hp) as (p1 & o & q1 & E & Hp1 & Hs1 & Hq1).
    cbn [run_ingress ingress_step]. rewrite E. cbn [mbind option_bind].
    destruct (IH p1 d q1 Hp1 ltac:(by rewrite Hs1) ltac:(rewrite Hs1; lia)) as (p' & rs & q' & -> & Hp' & Ht' & Hq').
    exists p', (Delivered o :: rs), q'. split; [done|]. split; [done|]. rewrite Hs1 in Ht'. split; [lia|].
    intros k Hk. cbn [combine map concat]. rewrite Hq1 by done.
    change (accepted_frame k (INext k0, Delivered o)) with (@nil Frame). cbn [app].
    rewrite <- !app_assoc. f_equal. by apply Hq'.
Qed.

Lemma configure_rep c v p0 p :
  0 <= new_order_queue_depth c -> 0 <= cancel_queue_depth c -> 0 <= replace_queue_depth c ->
  configure c v p0 = Ok p -> pipe_rep p (depth_of c) (fun _ => []) /\ stats p = no_stats.
Proof.
  intros H1 H2 H3. unfold configure.
  destruct (make_ring (new_order_queue_depth c)) as [n|] eqn:E1; [|done].
  destruct (make_ring (cancel_queue_depth c)) as [k|] eqn:E2; [|done].
  destruct (make_ring (replace_queue_depth c)) as [r|] eqn:E3; [|done]. intros [= <-].
  split; [|done]. intros [] Hk; [| | |done]; exists 0; by apply make_ring_rep.
Qed.

(** The pipeline loses nothing and invents nothing.  On a pipeline as
    configured, any run of submissions and requests completes; for every kind,
    the frames handed on are the accepted ones, in order, up to fewer than a
    queue's depth still waiting; and every submission is counted exactly once. *)
Theorem ingress_delivers_accepted c v p0 p ops :
  0 <= new_order_queue_depth c -> 0 <= cancel_queue_depth c -> 0 <= replace_queue_depth c ->
  configure c v p0 = Ok p -> Zsum is_submit ops < 2 ^ 64 ->
  exists p' rs, run_ingress ops p = Some (p', rs) /\
    stats_total (stats p') = Zsum is_submit ops /\
    forall k, k <> kHeartbeat -> exists waiting,
      concat (map (accepted_frame k) (combine ops rs)) =
        concat (map (delivered_frame k) (combine ops rs)) ++ waiting /\
      Z.of_nat (length waiting) < depth_of c k.
Proof.
  intros H1 H2 H3 Hc Hn. destruct (configure_rep c v p0 p H1 H2 H3 Hc) as [Hp Hs].
  destruct (run_ingress_spec ops p (depth_of c) _ Hp) as (p' & rs & q' & E & Hp' & Ht & Hq).
  - rewrite Hs. cbn. lia.
  - rewrite Hs. exact Hn.
  - exists p', rs. split; [done|]. rewrite Hs in Ht. split; [exact Ht|].
    intros k Hk. exists (q' k). split; [by apply Hq|]. destruct (Hp' k Hk) as [b Hr]. apply Hr.
Qed.

Definition small_config : Config := mkIngressConfig 2 2 2 1 5 5.
Definition small_pipeline : IngressPipeline :=
  mkPipeline small_config None no_stats ∅ (mkRing [None; None] 1 0 0) (mkRing [None; None] 1 0 0)
    (mkRing [None; None] 1 0 0).
Definition frame_at (k : MessageKind) (account t : Z) : Frame := mkFrame (mkHeader account 0 t 0 k) [].

Lemma ingress_delivers_accepted_witness :
  exists p' rs,
    run_ingress [ISubmit (frame_at kCancel 1 5); INext kCancel; ISubmit (frame_at kNewOrder 1 6);
                 ISubmit (frame_at kNewOrder 2 7)] small_pipeline = Some (p', rs) /\
    stats_total (stats p') = 3 /\
    forall k, k <> kHeartbeat -> exists waiting,
      concat (map (accepted_frame k) (combine
        [ISubmit (frame_at kCancel 1 5); INext kCancel; ISubmit (frame_at kNewOrder 1 6);
         ISubmit (frame_at kNewOrder 2 7)] rs)) =
        concat (map (delivered_frame k) (combine
        [ISubmit (frame_at kCancel 1 5); INext kCancel; ISubmit (frame_at kNewOrder 1 6);
         ISubmit (frame_at kNewOrder 2 7)] rs)) ++ waiting /\
      Z.of_nat (length waiting) < depth_of small_config k.
Proof.
  refine (ingress_delivers_accepted small_config None small_pipeline small_pipeline _ _ _ _ _ _);
    first [done | vm_compute; reflexivity].
Defined.

(** ** Rate limiting *)
Definition used (k : MessageKind) (w : AccountWindow) : Z :=
  match k with
  | kNewOrder => win_new_orders w | kCancel => win_cancels w | kReplace => win_replaces w | kHeartbeat => 0
  end.

Definition limit_of (k : MessageKind) (c : Config) : Z :=
  match k with
  | kNewOrder => max_new_orders_per_second c | kCancel => max_cancels_per_second c
  | kReplace => max_replaces_per_second c | kHeartbeat => 0
  end.

(** Frames of kind [k] let through in the window that starts at [s]: the start of
    the window of a frame, its kind and whether it was refused. *)
Definition passed (s : Z) (k : MessageKind) (r : Z * MessageKind * bool) : Z :=
  if (r.1.1 =? s) && bool_decide (r.1.2 = k) && negb r.2 then 1 else 0.

Lemma rate_limit_step c w k t :
  - 2 ^ 62 <= t < 2 ^ 62 -> - 2 ^ 62 <= window_start w < 2 ^ 62 ->
  (forall k', k' <> kHeartbeat -> 0 <= used k' w <= limit_of k' c /\ limit_of k' c < 2 ^ 32) ->
  let r := rate_limit c w k t in
  - 2 ^ 62 <= window_start r.1 < 2 ^ 62 /\
  (forall k', k' <> kHeartbeat -> 0 <= used k' r.1 <= limit_of k' c) /\
  ((window_start r.1 = window_start w /\
    forall k', used k' r.1 = used k' w + passed (window_start w) k' (window_start r.1, k, r.2) \/ k' = kHeartbeat) \/
   (window_start w < window_start r.1 /\
    forall k', used k' r.1 = passed (window_start r.1) k' (window_start r.1, k, r.2) \/ k' = kHeartbeat)).
Proof.
  intros Ht Hw Hl. cbv zeta. unfold rate_limit. rewrite i64_small by range.
  pose proof (Hl kNewOrder ltac:(done)) as L1. pose proof (Hl kCancel ltac:(done)) as L2.
  pose proof (Hl kReplace ltac:(done)) as L3. cbn in L1, L2, L3.
  assert (Hu : forall z, 0 <= z < 2 ^ 32 - 1 -> u32 (z + 1) = z + 1) by (intros; apply wrapu_small; unfold in_u; lia).
  assert (H1 : u32 (0 + 1) = 1) by done.
  unfold kOneSecondNs. destruct (Z.geb_spec (t - window_start w) 1000000000) as [Hnew|Hold].
  - destruct k; cbn [win_new_orders win_cancels win_replaces window_start];
      try match goal with |- context [0 >=? ?m] => destruct (Z.geb_spec 0 m) end;
      cbn [fst snd window_start]; (split; [lia|]); (split; [intros [] ?; cbn; rewrite ?H1; first [done|lia]|]);
      right; (split; [lia|]); intros []; unfold passed; cbn; rewrite ?Z.eqb_refl, ?H1; cbn; auto.
  - destruct k; cbn [win_new_orders win_cancels win_replaces window_start];
      try match goal with |- context [?u w >=? ?m] => destruct (Z.geb_spec (u w) m) end;
      cbn [fst snd window_start]; (split; [lia|]); (split; [intros [] ?; cbn; rewrite ?Hu by lia; first [done|lia]|]);
      left; (split; [done|]); intros []; unfold passed; cbn; rewrite ?Z.eqb_refl, ?Hu by lia; cbn; auto; left;
      case_bool_decide; first [done|cbn; lia].
Qed.

(** ** The limit on the pipeline *)

(** The start of the window that a frame of time [t] falls in, after one that
    started at [start]. *)
Definition next_start (start t : Z) : Z := if t - start >=? kOneSecondNs then t else start.

(** The frames of account [a] that reach the limiter. *)
Definition limited (v : AuthVerifier) (a : Z) (f : Frame) : bool :=
  (fh_account (fr_header f) =? a) && negb (bool_decide (fh_kind (fr_header f) = kHeartbeat)) &&
  match v with Some u => u (fr_header f) (fr_payload f) | None => true end.

Definition is_accepted (r : IngressReply) : bool := match r with Submitted ok => ok | Delivered _ => false end.

(** How many frames of kind [k] of account [a] were accepted in the window that
    starts at [s]; [start] is that of the last window so far. *)
Fixpoint accepted_in (v : AuthVerifier) (a : Z) (k : MessageKind) (s start : Z) (l : list (IngressOp * IngressReply)) : Z :=
  match l with
  | [] => 0
  | (ISubmit f, r) :: l =>
      if limited v a f then
        let start := next_start start (fh_received_time_ns (fr_header f)) in
        passed s k (start, fh_kind (fr_header f), negb (is_accepted r)) + accepted_in v a k s start l
      else accepted_in v a k s start l
  | _ :: l => accepted_in v a k s start l
  end.

Lemma rate_limit_start c w k t :
  - 2 ^ 62 <= t < 2 ^ 62 -> - 2 ^ 62 <= window_start w < 2 ^ 62 ->
  window_start (rate_limit c w k t).1 = next_start (window_start w) t.
Proof.
  intros Ht Hw. unfold rate_limit, next_start. rewrite i64_small by range.
  destruct (_ >=? kOneSecondNs), k; cbn [window_start win_new_orders win_cancels win_replaces];
    try match goal with |- context [?u >=? ?m] => destruct (u >=? m) end; done.
Qed.

(** The window of an account in the pipeline. *)
Definition window_of (a : Z) (p : IngressPipeline) : AccountWindow := default new_window (rate_windows p !! a).

Lemma enqueue_keeps f p :
  config (enqueue f p).1 = config p /\ verifier (enqueue f p).1 = verifier p /\ rate_windows (enqueue f p).1 = rate_windows p.
Proof. unfold enqueue. destruct (fh_kind _); [..|done]; by destruct (push _ _). Qed.

(** What a submission does to the windows: that of its account moves, if the frame
    reaches the limiter, and a frame the limiter refuses is not accepted. *)
Lemma submit_window f p a :
  let r := submit_frame f p in
  let x := rate_limit (config p) (window_of a p) (fh_kind (fr_header f)) (fh_received_time_ns (fr_header f)) in
  config r.1 = config p /\ verifier r.1 = verifier p /\
  window_of a r.1 = (if limited (verifier p) a f then x.1 else window_of a p) /\
  (limited (verifier p) a f = true -> x.2 = true -> r.2 = false).
Proof.
  cbv zeta. unfold submit_frame, limited. fold (authentic p f).
  destruct (bool_decide_reflect (fh_kind (fr_header f) = kHeartbeat)); [by rewrite andb_false_r|]. rewrite andb_true_r.
  destruct (authentic p f); cbn [negb]; [|by rewrite andb_false_r]. rewrite andb_true_r.
  fold (window_of (fh_account (fr_header f)) p).
  destruct (rate_limit _ (window_of (fh_account (fr_header f)) p) _ _) as [w refused] eqn:Er.
  set (p1 := set_windows _ p). pose proof (enqueue_keeps f p1) as (K1 & K2 & K3).
  assert (Hw : forall p2, rate_windows p2 = rate_windows p1 ->
    window_of a p2 = if fh_account (fr_header f) =? a
      then (rate_limit (config p) (window_of a p) (fh_kind (fr_header f)) (fh_received_time_ns (fr_header f))).1 else window_of a p).
  { intros p2 E. unfold window_of at 1. rewrite E. cbn. destruct (Z.eqb_spec (fh_account (fr_header f)) a) as [<-|Hn].
    - by rewrite lookup_insert_eq, Er.
    - by rewrite lookup_insert_ne. }
  assert (Hr : fh_account (fr_header f) =? a = true ->
    (rate_limit (config p) (window_of a p) (fh_kind (fr_header f)) (fh_received_time_ns (fr_header f))).2 = true -> refused = true).
  { intros <-%Z.eqb_eq. by rewrite Er. }
  destruct refused; [cbn; split; [done|split; [done|split; [by apply Hw|done]]]|]. destruct (enqueue f p1) as [p2 pushed]. cbn [fst snd] in *.
  destruct pushed; cbn; (split; [done|split; [done|split; [by apply Hw|]]]); intros H1 H2; by specialize (Hr H1 H2).
Qed.

Lemma next_keeps k p p' o : next_of k p = Some (p', o) ->
  config p' = config p /\ verifier p' = verifier p /\ rate_windows p' = rate_windows p.
Proof.
  destruct k; cbn; unfold next_new_order, next_cancel, next_replace; [..|by intros [= <- _]];
    destruct (pop _) as [[q x]|]; [|done| |done| |done]; by intros [= <- _].
Qed.

Section Limit.
Context (c : Config) (v : AuthVerifier) (a : Z) (k : MessageKind) (s : Z).
Hypothesis limits : forall k', k' <> kHeartbeat -> 0 <= limit_of k' c < 2 ^ 32.
Hypothesis Hk : k <> kHeartbeat.

Definition times_ok (op : IngressOp) : Prop :=
  match op with ISubmit f => - 2 ^ 62 <= fh_received_time_ns (fr_header f) < 2 ^ 62 | INext _ => True end.

(** What the window of the account allows yet. *)
Definition budget (w : AccountWindow) : Z :=
  if s <? window_start w then 0 else if s =? window_start w then limit_of k c - used k w else limit_of k c.

Lemma accepted_within_budget ops : forall p p' rs,
  config p = c -> verifier p = v -> Forall times_ok ops ->
  - 2 ^ 62 <= window_start (window_of a p) < 2 ^ 62 ->
  (forall k', k' <> kHeartbeat -> 0 <= used k' (window_of a p) <= limit_of k' c) ->
  run_ingress ops p = Some (p', rs) ->
  0 <= accepted_in v a k s (window_start (window_of a p)) (combine ops rs) <= budget (window_of a p).
Proof.
  induction ops as [|op ops IH]; intros p p' rs Hc Hv Ht Hw Hu E.
  { injection E as <- <-. cbn. unfold budget. pose proof (limits k Hk). pose proof (Hu k Hk). repeat case_match; lia. }
  apply Forall_cons in Ht as [Htf Ht]. cbn [run_ingress] in E. destruct op as [f|k0]; cbn [ingress_step] in E.
  2: { destruct (next_of k0 p) as [[p1 o]|] eqn:En; [|done]. cbn [mbind option_bind] in E.
       apply next_keeps in En as (K1 & K2 & K3). destruct (run_ingress ops p1) as [[p2 rs']|] eqn:Er; [|done].
       injection E as <- <-. cbn [combine accepted_in].
       assert (Ew : window_of a p1 = window_of a p) by (unfold window_of; by rewrite K3).
       rewrite <- Ew. apply (IH p1 p2 rs'); rewrite ?Ew; congruence || done. }
  pose proof (submit_window f p a) as Hs. cbv zeta in Hs. destruct (submit_frame f p) as [p1 ok]. cbn [fst snd] in Hs.
  destruct Hs as (K1 & K2 & K3 & K4). cbn [mbind option_bind] in E.
  destruct (run_ingress ops p1) as [[p2 rs']|] eqn:Er; [|done]. injection E as <- <-. cbn [combine accepted_in is_accepted].
  rewrite Hv in K3, K4. rewrite Hc in K1, K3, K4. destruct (limited v a f).
  2: { rewrite <- K3. apply (IH p1 p2 rs'); rewrite ?K3; congruence || done. }
  specialize (K4 eq_refl). cbn in Htf. set (t := fh_received_time_ns (fr_header f)) in *. set (k0 := fh_kind (fr_header f)) in *.
  rewrite <- (rate_limit_start c _ k0 t Htf Hw).
  pose proof (rate_limit_step c (window_of a p) k0 t Htf Hw) as Hstep.
  destruct (rate_limit c (window_of a p) k0 t) as [w' refused]. cbn [fst snd] in *.
  destruct Hstep as (Hw' & Hu' & Hcase); [intros k' Hk'; split; [by apply Hu|by apply limits]|].
  rewrite <- K3. specialize (IH p1 p2 rs' K1 (eq_trans K2 Hv) Ht). rewrite K3 in *. specialize (IH Hw' Hu' Er).
  pose proof (limits k Hk). pose proof (Hu k Hk). pose proof (Hu' k Hk).
  assert (Hp : 0 <= passed s k (window_start w', k0, negb ok) <= passed s k (window_start w', k0, refused) /\
    (s <> window_start w' -> passed s k (window_start w', k0, refused) = 0)).
  { unfold passed. cbn [fst snd]. destruct refused; [rewrite K4 by done; cbn; rewrite !andb_false_r; lia|].
    destruct (Z.eqb_spec (window_start w') s); cbn; [|lia]. destruct (bool_decide _), ok; cbn; lia. }
  unfold budget in *. destruct Hcase as [[Es Hpass]|[Es Hpass]]; destruct (Hpass k) as [Hpk|]; [|done| |done].
  - rewrite Es in *. destruct (Z.ltb_spec s (window_start (window_of a p))); [lia|].
    destruct (Z.eqb_spec s (window_start (window_of a p))) as [->|]; lia.
  - destruct (Z.ltb_spec s (window_start w')), (Z.ltb_spec s (window_start (window_of a p))); try lia.
    + destruct (Z.eqb_spec s (window_start (window_of a p))); lia.
    + destruct (Z.eqb_spec s (window_start (window_of a p))); [lia|].
      destruct (Z.eqb_spec s (window_start w')) as [->|]; lia.
Qed.
End Limit.

(** C32: the limiter keeps its promise.  On a pipeline as configured, in any run of
    submissions, of all accounts, and of requests: no window of an account accepts
    more frames of a kind than the configured limit.  A window starts with the first
    frame of its account that is verified, is no heartbeat and is stamped a second or
    more after the start of the window before (the first one starts at 0), and is over
    with the next such frame.  (Stamps are within 2^62, limits are 32 bits wide.) *)
Theorem rate_limit_per_window c v p0 p ops p' rs a k s :
  configure c v p0 = Ok p -> run_ingress ops p = Some (p', rs) -> k <> kHeartbeat ->
  (forall k', k' <> kHeartbeat -> 0 <= limit_of k' c < 2 ^ 32) -> Forall times_ok ops ->
  accepted_in v a k s 0 (combine ops rs) <= limit_of k c.
Proof.
  intros Hc E Hk Hl Ht. assert (H : config p = c /\ verifier p = v /\ window_of a p = new_window).
  { revert Hc. unfold configure. destruct (make_ring (new_order_queue_depth c)); [|done].
    destruct (make_ring (cancel_queue_depth c)); [|done]. destruct (make_ring (replace_queue_depth c)); [|done].
    intros [= <-]. split; [done|]. split; [done|]. unfold window_of. cbn [rate_windows]. by rewrite lookup_empty. }
  destruct H as (H1 & H2 & H3). pose proof (accepted_within_budget c v a k s Hl Hk ops p p' rs H1 H2 Ht) as H.
  rewrite H3 in H. destruct H as [_ H]; [cbn; lia| |exact E|].
  { intros k' Hk'. specialize (Hl k' Hk'). destruct k'; cbn in *; lia. }
  change (window_start new_window) with 0 in H. unfold budget in H. specialize (Hl k Hk).
  assert (Eu : used k new_window = 0) by by destruct k. rewrite Eu in H. repeat case_match; lia.
Qed.

(** Cancels and a new order of one account; the third cancel in the second is
    refused, and the one a second after the first is not. *)
Definition limit_demo : list IngressOp :=
  [ISubmit (frame_at kCancel 1 5000000000); ISubmit (frame_at kNewOrder 1 5000000001);
   ISubmit (frame_at kCancel 1 5000000002); INext kCancel; INext kCancel; ISubmit (frame_at kCancel 2 5000000003);
   INext kCancel; ISubmit (frame_at kCancel 1 5999999999); ISubmit (frame_at kCancel 1 6000000000)].

Definition limit_config : Config := mkIngressConfig 4 4 4 1 2 1.

Lemma rate_limit_per_window_witness :
  exists p p' rs, configure limit_config None small_pipeline = Ok p /\ run_ingress limit_demo p = Some (p', rs) /\
    map is_accepted rs = [true; true; true; false; false; true; false; false; true] /\
    accepted_in None 1 kCancel 5000000000 0 (combine limit_demo rs) <= 2.
Proof.
  destruct (configure limit_config None small_pipeline) as [p|] eqn:Hc; [|by vm_compute in Hc].
  destruct (run_ingress limit_demo p) as [[p' rs]|] eqn:E.
  2: { vm_compute in Hc. injection Hc as <-. by vm_compute in E. }
  exists p, p', rs. split; [done|]. split; [exact E|]. split.
  - vm_compute in Hc. injection Hc as <-. vm_compute in E. by injection E as _ <-.
  - refine (rate_limit_per_window limit_config None small_pipeline p limit_demo p' rs 1 kCancel 5000000000 Hc E _ _ _).
    + discriminate.
    + intros [] H; [vm_compute; split; congruence..|done].
    + repeat (apply Forall_cons; split; [first [exact I|vm_compute; split; congruence]|]). constructor.
Defined.

(** ** Behaviours a caller may not expect *)

(** The time of a frame is the one its sender wrote: a client that advances it by
    a second per frame is never limited. *)
Example client_clock_defeats_limit :
  let ops := map (fun i => ISubmit (frame_at kNewOrder 1 (i * 1000000000))) [1; 2; 3; 4; 5; 6; 7; 8] in
  match configure (mkIngressConfig 16 2 2 1 1 1) None small_pipeline with
  | Ok p => (fun x => map is_accepted x.2) <$> run_ingress ops p = Some (replicate 8 true)
  | Throw _ => False
  end.
Proof. vm_compute. reflexivity. Qed.

(** A frame refused because its queue is full still counts against the window:
    the next one is refused for its rate. *)
Example full_queue_spends_budget :
  let c := mkIngressConfig 1 2 2 1 5 5 in
  match configure c None small_pipeline with
  | Ok p =>
      let '(p, a) := submit_frame (frame_at kNewOrder 1 5) p in
      let '(p, b) := submit_frame (frame_at kNewOrder 1 6) p in
      a = false /\ b = false /\ rejected_queue_full (stats p) = 1 /\ rejected_rate_limit (stats p) = 1
  | Throw _ => False
  end.
Proof. vm_compute. repeat split. Qed.
