(* ===== verification/Transport.v ===== *)
(** * The transport

    [libs/ingest]: the endpoint syntax, the life of [UdpTransport] (socket,
    receive thread, callback) and its wrapper [QuicTransport].  The operating
    system is outside: what [socket], [inet_pton] and [bind] answer are arguments
    of [start], and what [recvfrom] returns is the input of the receive loop; the
    model keeps the set of descriptors that are open.  The wire format, the
    counters and the peer table are in [Ingest]. *)
From S2P Require Import Prelude Types Bytes Ingest.
Open Scope string_scope.
Open Scope list_scope.
Open Scope Z_scope.

(** ** Endpoints *)
Record EndpointInfo := mkEndpoint { ep_host : string; ep_port : Z; ep_valid : bool }.

Definition invalid_endpoint : EndpointInfo := mkEndpoint "" 0 false.

(** What follows a literal prefix. *)
Fixpoint strip (p s : string) : option string :=
  match p, s with
  | EmptyString, _ => Some s
  | String c p, String d s => if bool_decide (c = d) then strip p s else None
  | String _ _, EmptyString => None
  end.

Definition colon : Ascii.ascii := Ascii.ascii_of_nat 58.

(** The longest prefix of characters other than a colon, and the rest. *)
Fixpoint until_colon (s : string) : string * string :=
  match s with
  | EmptyString => (EmptyString, EmptyString)
  | String c rest =>
      if bool_decide (c = colon) then (EmptyString, s)
      else let '(host, tail) := until_colon rest in (String c host, tail)
  end.

Definition is_digit (c : Ascii.ascii) : bool :=
  let n := Z.of_nat (Ascii.nat_of_ascii c) in (48 <=? n) && (n <=? 57).

Fixpoint all_digits (s : string) : bool :=
  match s with EmptyString => true | String c s => is_digit c && all_digits s end.

Fixpoint digits_value (s : string) (acc : Z) : Z :=
  match s with
  | EmptyString => acc
  | String c s => digits_value s (10 * acc + (Z.of_nat (Ascii.nat_of_ascii c) - 48))
  end.

Definition INT_MAX : Z := 2 ^ 31 - 1.

(** [std::stoi] of a non-empty string of digits. *)
Definition stoi (digits : string) : result Z :=
  let v := digits_value digits 0 in
  if v >? INT_MAX then Throw "stoi" else Ok v.

(** The regular expression's first group and its separator. *)
Definition strip_scheme (uri : string) : option string :=
  match strip "quic://" uri with Some rest => Some rest | None => strip "udp://" uri end.

(** [parse_endpoint]: the whole text matches [(quic|udp)://([^:]+):(\d+)].  The
    host cannot contain a colon, so there is at most one way to match. *)
Definition parse_endpoint (uri : string) : result EndpointInfo :=
  match strip_scheme uri with
  | None => Ok invalid_endpoint
  | Some rest =>
      match until_colon rest with
      | (String _ _ as host, String _ (String _ _ as digits)) =>
          if all_digits digits then
            match stoi digits with
            | Ok port => Ok (mkEndpoint host (u16 port) true)
            | Throw e => Throw e
            end
          else Ok invalid_endpoint
      | _ => Ok invalid_endpoint
      end
  end.

(** ** The UDP transport *)

(** What the operating system answers to one [start]: a new descriptor or a
    negative number, whether a text is an IPv4 address, whether the address and
    port can be bound. *)
Record SocketAnswers := mkAnswers {
  sa_socket : Z;
  sa_inet_pton : string -> bool;
  sa_bind : string -> Z -> bool }.

(** One return of [recvfrom]: an error or a timeout, or a datagram, the key of
    its sender and the time. *)
Inductive Received :=
  | RError
  | RDatagram (data : bytes) (peer now : Z).

Definition kMaxDatagramSize : Z := 65536.

(** What [recvfrom] writes to the buffer. *)
Definition datagram (data : bytes) : bytes := take (Z.to_nat kMaxDatagramSize) data.
#[global] Arguments datagram : simpl never.

Section Udp.
(** The state the callback works on. *)
Context {W : Type}.

Abbreviation FrameCallback := (Frame -> W -> W).

Record UdpTransport := mkUdp {
  udp_callback : option FrameCallback;
  udp_running : bool;
  udp_receive_thread : bool;   (* joinable *)
  udp_socket_fd : Z;
  udp_counters : TransportState }.

Definition new_udp : UdpTransport := mkUdp None false false (-1) new_transport.

Definition set_fd (fd : Z) (t : UdpTransport) : UdpTransport :=
  mkUdp (udp_callback t) (udp_running t) (udp_receive_thread t) fd (udp_counters t).

(** The descriptors that are open. *)
Abbreviation Fds := (gset Z).

(** The two failing exits after [socket] succeeded. *)
Definition close_socket (t : UdpTransport) (fds : Fds) : UdpTransport * Fds :=
  (set_fd (-1) t, fds ∖ {[udp_socket_fd t]}).

(** [INADDR_ANY], or an address [inet_pton] understands. *)
Definition address_ok (os : SocketAnswers) (host : string) : bool :=
  bool_decide (host = "0.0.0.0") || bool_decide (host = "") || sa_inet_pton os host.

(** [start].  [None] is [std::terminate]: a thread is assigned over one that was
    not joined. *)
Definition udp_start (os : SocketAnswers) (endpoint_uri : string) (callback : FrameCallback)
    (t : UdpTransport) (fds : Fds) : option (UdpTransport * Fds * result bool) :=
  if udp_running t then Some (t, fds, Ok false)
  else match parse_endpoint endpoint_uri with
  | Throw e => Some (t, fds, Throw e)
  | Ok endpoint =>
      if negb (ep_valid endpoint) then Some (t, fds, Ok false)
      else
        let t := mkUdp (Some callback) (udp_running t) (udp_receive_thread t) (sa_socket os) (udp_counters t) in
        if udp_socket_fd t <? 0 then Some (t, fds, Ok false)
        else
          let fds := {[udp_socket_fd t]} ∪ fds in
          if negb (address_ok os (ep_host endpoint)) then
            let '(t, fds) := close_socket t fds in Some (t, fds, Ok false)
          else if negb (sa_bind os (ep_host endpoint) (ep_port endpoint)) then
            let '(t, fds) := close_socket t fds in Some (t, fds, Ok false)
          else if udp_receive_thread t then None
          else Some (mkUdp (udp_callback t) true true (udp_socket_fd t) (udp_counters t), fds, Ok true)
  end.

(** [stop]. *)
Definition udp_stop (t : UdpTransport) (fds : Fds) : UdpTransport * Fds :=
  let '(t, fds) :=
    if udp_socket_fd t >=? 0 then close_socket t fds else (t, fds) in
  (mkUdp None false false (udp_socket_fd t) (transport_stop (udp_counters t)), fds).

(** The destructor: the descriptors that are open after it. *)
Definition udp_destroy (t : UdpTransport) (fds : Fds) : Fds := (udp_stop t fds).2.

Definition udp_is_running (t : UdpTransport) : bool := udp_running t.

(** One turn of [receive_loop], which ends when [running_] is cleared. *)
Definition receive_turn (r : Received) (t : UdpTransport) (w : W) : UdpTransport * W :=
  if negb (udp_running t) then (t, w)
  else match r with
  | RError => (t, w)
  | RDatagram data peer now =>
      let '(s, frame) := receive_datagram (datagram data) peer now (udp_counters t) in
      (mkUdp (udp_callback t) (udp_running t) (udp_receive_thread t) (udp_socket_fd t) s,
       match frame, udp_callback t with Some f, Some callback => callback f w | _, _ => w end)
  end.

Definition udp_stats (now : Z) (t : UdpTransport) : UdpTransport * TransportStats :=
  let '(s, stats) := transport_stats now (udp_counters t) in
  (mkUdp (udp_callback t) (udp_running t) (udp_receive_thread t) (udp_socket_fd t) s, stats).

(** ** The wrapper *)

(** The pointer may be null; the constructor never leaves it so. *)
Record QuicTransport := mkQuic { quic_transport : option UdpTransport; quic_endpoint : string }.

Definition new_quic : QuicTransport := mkQuic (Some new_udp) "".

Definition quic_start (os : SocketAnswers) (endpoint_uri : string) (callback : FrameCallback)
    (q : QuicTransport) (fds : Fds) : option (QuicTransport * Fds * result bool) :=
  t ← quic_transport q;
  '(t, fds, r) ← udp_start os endpoint_uri callback t fds;
  Some (mkQuic (Some t) endpoint_uri, fds, r).

Definition quic_stop (q : QuicTransport) (fds : Fds) : QuicTransport * Fds :=
  match quic_transport q with
  | Some t => let '(t, fds) := udp_stop t fds in (mkQuic (Some t) "", fds)
  | None => (mkQuic None "", fds)
  end.

(** The destructor stops, and then the pointer destroys what it owns. *)
Definition quic_destroy (q : QuicTransport) (fds : Fds) : Fds :=
  let '(q, fds) := quic_stop q fds in
  match quic_transport q with Some t => udp_destroy t fds | None => fds end.

Definition quic_is_running (q : QuicTransport) : bool :=
  match quic_transport q with Some t => udp_is_running t | None => false end.

Definition quic_stats (now : Z) (q : QuicTransport) : QuicTransport * TransportStats :=
  match quic_transport q with
  | Some t => let '(t, s) := udp_stats now t in (mkQuic (Some t) (quic_endpoint q), s)
  | None => (q, mkTransportStats 0 0 0 0)
  end.

Definition quic_receive (r : Received) (q : QuicTransport) (w : W) : QuicTransport * W :=
  match quic_transport q with
  | Some t => let '(t, w) := receive_turn r t w in (mkQuic (Some t) (quic_endpoint q), w)
  | None => (q, w)
  end.

(** Stopping twice is stopping once: the destructors of a transport that was stopped
    have nothing left to do, and those of one that was not, stop it. *)
Lemma udp_stop_twice t fds : udp_stop (udp_stop t fds).1 (udp_stop t fds).2 = udp_stop t fds.
Proof.
  unfold udp_stop. destruct (Z.geb_spec (udp_socket_fd t) 0) as [H|H]; cbn; [done|].
  destruct (Z.geb_spec (udp_socket_fd t) 0); [lia|done].
Qed.

Lemma quic_destroy_stops q fds :
  quic_destroy q fds = (quic_stop q fds).2 /\ quic_destroy (quic_stop q fds).1 (quic_stop q fds).2 = (quic_stop q fds).2.
Proof.
  unfold quic_destroy, udp_destroy, quic_stop. destruct (quic_transport q) as [t|]; [|done].
  pose proof (udp_stop_twice t fds) as H1. destruct (udp_stop t fds) as [t1 fds1] eqn:E1. cbn [fst snd quic_transport] in *.
  rewrite H1. cbn [quic_transport snd]. by rewrite H1.
Qed.

(** ** Uses of a transport *)
Inductive TransportOp :=
  | TStart (os : SocketAnswers) (endpoint_uri : string) (callback : FrameCallback)
  | TReceive (r : Received)
  | TStats (now : Z)
  | TStop.

Definition transport_step (op : TransportOp) (s : QuicTransport * Fds * W)
    : option (QuicTransport * Fds * W) :=
  let '(q, fds, w) := s in
  match op with
  | TStart os uri callback => '(q, fds, _) ← quic_start os uri callback q fds; Some (q, fds, w)
  | TReceive r => let '(q, w) := quic_receive r q w in Some (q, fds, w)
  | TStats now => Some ((quic_stats now q).1, fds, w)
  | TStop => let '(q, fds) := quic_stop q fds in Some (q, fds, w)
  end.

Fixpoint transport_run (ops : list TransportOp) (s : QuicTransport * Fds * W)
    : option (QuicTransport * Fds * W) :=
  match ops with
  | [] => Some s
  | op :: ops => s ← transport_step op s; transport_run ops s
  end.
End Udp.
Arguments UdpTransport : clear implicits.
Arguments QuicTransport : clear implicits.
Arguments TransportOp : clear implicits.

(** ** Endpoints: what is accepted *)
Lemma strip_spec p : forall s rest, strip p s = Some rest <-> s = p +:+ rest.
Proof.
  induction p as [|c p IH]; intros s rest; cbn [strip]; [split; [by intros [= ->]|by intros ->]|].
  destruct s as [|d s]; [done|]. destruct (bool_decide_reflect (c = d)) as [->|Hn]; cbn.
  - rewrite IH. split; [by intros ->|by intros [= ->]].
  - split; [done|]. by intros [= ->].
Qed.

Definition no_colon (s : string) : Prop := until_colon s = (s, EmptyString).

Lemma until_colon_app host rest :
  no_colon host -> until_colon (host +:+ String colon rest) = (host, String colon rest).
Proof.
  unfold no_colon. induction host as [|c host IH]; [done|].
  change (String c host +:+ String colon rest) with (String c (host +:+ String colon rest)).
  cbn [until_colon]. destruct (bool_decide _); [done|].
  destruct (until_colon host) as [h t]. intros [= -> ->]. by rewrite IH.
Qed.

Lemma until_colon_split s : forall host tail, until_colon s = (host, tail) ->
  s = host +:+ tail /\ no_colon host /\ (tail = "" \/ exists rest, tail = String colon rest).
Proof.
  unfold no_colon. induction s as [|c s IH]; intros host tail; cbn [until_colon].
  - intros [= <- <-]. eauto.
  - destruct (bool_decide_reflect (c = colon)) as [->|Hn]; [intros [= <- <-]; eauto|].
    destruct (until_colon s) as [h t]. intros [= <- <-]. destruct (IH h t eq_refl) as (-> & Hh & Ht).
    split; [done|]. split; [|done]. cbn [until_colon]. by rewrite Hh, bool_decide_false.
Qed.

(** The texts a [start] can use, and the host and port it uses. *)
Definition endpoint_text (scheme host digits : string) : string :=
  scheme +:+ "://" +:+ host +:+ String colon digits.

Lemma strip_scheme_spec uri rest :
  strip_scheme uri = Some rest <-> uri = "quic://" +:+ rest \/ uri = "udp://" +:+ rest.
Proof.
  unfold strip_scheme. rewrite <- !(strip_spec _ uri).
  destruct (strip "quic://" uri) as [r|] eqn:E; [|by split; [right|intros [|]]].
  split; [by left|]. intros [|H]; [done|]. apply strip_spec in E as ->. done.
Qed.

(** An endpoint is usable exactly when it is a scheme, a host without colon and
    a decimal port of at most 2^31 - 1, which is reduced to 16 bits; a longer
    number is the only thing that throws. *)
Lemma parse_endpoint_exact uri host port :
  parse_endpoint uri = Ok (mkEndpoint host port true) <->
  exists scheme digits, (scheme = "quic" \/ scheme = "udp") /\ uri = endpoint_text scheme host digits /\
    host <> "" /\ no_colon host /\ digits <> "" /\ all_digits digits = true /\
    digits_value digits 0 <= INT_MAX /\ port = u16 (digits_value digits 0).
Proof.
  split.
  - unfold parse_endpoint. destruct (strip_scheme uri) as [rest|] eqn:Es; [|done].
    destruct (until_colon rest) as [h t] eqn:Eu.
    apply until_colon_split in Eu as (-> & Hh & Ht). apply strip_scheme_spec in Es.
    destruct h as [|c h]; [done|]. destruct t as [|d [|e t]]; [done..|].
    destruct Ht as [|(r & [= -> <-])]; [done|].
    destruct (all_digits _) eqn:Ed; [|done]. unfold stoi. destruct (_ >? _) eqn:El; [done|].
    intros [= <- <-]. destruct Es as [->| ->]; [exists "quic"|exists "udp"];
      eexists; (split; [auto|]); (split; [done|]); repeat split; (done || lia).
  - intros (scheme & digits & Hs & -> & Hh & Hn & Hd & Ha & Hv & ->). unfold parse_endpoint.
    assert (strip_scheme (endpoint_text scheme host digits) = Some (host +:+ String colon digits)) as ->.
    { apply strip_scheme_spec. destruct Hs as [->| ->]; [by left|by right]. }
    rewrite until_colon_app by done. destruct host as [|c host]; [done|]. destruct digits as [|d digits]; [done|].
    rewrite Ha. unfold stoi. destruct (_ >? _) eqn:E; [lia|done].
Qed.

(** ** What a transport promises *)
Section Lifecycle.
Context {W : Type}.
Abbreviation Callback := (Frame -> W -> W).

(** A [start] that succeeds on a transport that is not running. *)
Definition starts (os : SocketAnswers) (uri : string) : bool :=
  match parse_endpoint uri with
  | Ok e => ep_valid e && (sa_socket os >=? 0) && address_ok os (ep_host e) && sa_bind os (ep_host e) (ep_port e)
  | Throw _ => false
  end.

(** The specification: the callback while the transport runs, and the state it
    works on. *)
Definition spec_step (op : TransportOp W) (s : option Callback * W) : option Callback * W :=
  let '(active, w) := s in
  match op with
  | TStart os uri callback =>
      (match active with
       | Some _ => active
       | None => if starts os uri then Some callback else None
       end, w)
  | TReceive (RDatagram data _ _) =>
      (active,
       match active, parse_frame (datagram data) with
       | Some callback, Some f => callback f w
       | _, _ => w
       end)
  | TReceive RError | TStats _ => (active, w)
  | TStop => (None, w)
  end.

(** The transport holds a thread, a callback and one open descriptor while it
    runs, and nothing but perhaps the callback of a failed start otherwise. *)
Definition transport_rel (q : QuicTransport W) (fds : gset Z) (active : option Callback) : Prop :=
  exists t, quic_transport q = Some t /\
    match active with
    | Some callback => udp_running t = true /\ udp_receive_thread t = true /\
        udp_callback t = Some callback /\ 0 <= udp_socket_fd t /\ fds = {[udp_socket_fd t]}
    | None => udp_running t = false /\ udp_receive_thread t = false /\ udp_socket_fd t < 0 /\ fds = ∅
    end.

(** Close a branch of [start]: give its answer and check the transport it leaves. *)
Ltac answered :=
  do 3 eexists; split; [done|]; split; [done|]; intros ?; eexists; split; [done|];
  cbn; repeat split; first [done|lia|set_solver].

Lemma start_rel os uri callback t :
  udp_running t = false -> udp_receive_thread t = false -> udp_socket_fd t < 0 ->
  exists t' fds' r, udp_start os uri callback t ∅ = Some (t', fds', r) /\
    r = (if starts os uri then Ok true else r) /\
    forall e, transport_rel (mkQuic (Some t') e) fds' (if starts os uri then Some callback else None).
Proof.
  intros Hr Ht Hf. unfold udp_start, starts, transport_rel, close_socket. rewrite Hr.
  destruct (parse_endpoint uri) as [[host port valid]|e]; [|answered].
  cbn [ep_valid ep_host ep_port udp_socket_fd]. destruct valid; cbn [negb andb]; [|answered].
  destruct (Z.ltb_spec (sa_socket os) 0) as [Hs|Hs]; destruct (Z.geb_spec (sa_socket os) 0); try lia;
    cbn [andb]; [answered|].
  destruct (address_ok os host); cbn [negb andb]; [|answered].
  destruct (sa_bind os host port); cbn [negb andb]; [|answered].
  cbn [udp_receive_thread]. rewrite Ht. answered.
Qed.

Lemma stop_rel q fds active :
  transport_rel q fds active -> exists q', quic_stop q fds = (q', ∅) /\ transport_rel q' ∅ None.
Proof.
  intros (t & Hq & H). unfold quic_stop, udp_stop, close_socket. rewrite Hq. destruct active as [callback|].
  - destruct H as (_ & _ & _ & Hf & ->). destruct (Z.geb_spec (udp_socket_fd t) 0); [|lia].
    rewrite difference_diag_L. eexists. split; [done|]. eexists. by split.
  - destruct H as (_ & _ & Hf & ->). destruct (Z.geb_spec (udp_socket_fd t) 0); [lia|].
    eexists. split; [done|]. eexists. split; [done|]. by repeat split.
Qed.

Lemma receive_rel r q fds active w :
  transport_rel q fds active -> exists q', quic_receive r q w = (q', (spec_step (TReceive r) (active, w)).2) /\
    transport_rel q' fds active.
Proof.
  intros (t & Hq & H). unfold quic_receive, receive_turn. rewrite Hq.
  destruct active as [callback|].
  - destruct H as (Hr & Ht & Hc & Hf & Hfd). rewrite Hr. cbn [negb]. destruct r as [|data peer now].
    { eexists. split; [done|]. exists t. by repeat split. }
    unfold receive_datagram. destruct (datagram data) as [|b l] eqn:E; cbn [spec_step snd].
    { rewrite E. eexists. split; [done|]. eexists. split; [done|]. by repeat split. }
    rewrite E. destruct (parse_frame (b :: l)) as [f|]; rewrite ?Hc; eexists; (split; [done|]);
      eexists; (split; [done|]); by repeat split.
  - destruct H as (Hr & H). rewrite Hr. eexists. split; [by destruct r|]. exists t. by rewrite Hr.
Qed.

Lemma step_rel op q fds w active :
  transport_rel q fds active ->
  exists q' fds', transport_step op (q, fds, w) = Some (q', fds', (spec_step op (active, w)).2) /\
    transport_rel q' fds' (spec_step op (active, w)).1.
Proof.
  intros H. destruct op as [os uri callback|r|now|]; cbn [transport_step].
  - destruct H as (t & Hq & H). unfold quic_start. rewrite Hq. cbn [mbind option_bind spec_step fst snd].
    destruct active as [active|].
    + destruct H as (Hr & H). unfold udp_start. rewrite Hr. eexists _, _. split; [done|]. exists t. by rewrite Hr.
    + destruct H as (Hr & Ht & Hf & ->). destruct (start_rel os uri callback t Hr Ht Hf) as (t' & fds' & r & -> & _ & Hrel).
      eexists _, _. split; [done|]. apply Hrel.
  - destruct (receive_rel r q fds active w H) as (q' & -> & H'). eexists _, _. split; [done|].
    by destruct r.
  - destruct H as (t & Hq & H). unfold quic_stats, udp_stats. rewrite Hq. eexists _, _. split; [done|].
    eexists. split; [done|]. by destruct active.
  - destruct (stop_rel q fds active H) as (q' & -> & H'). eexists _, _. by split.
Qed.

Lemma transport_run_rel ops : forall q fds w active,
  transport_rel q fds active ->
  let s := foldl (fun s op => spec_step op s) (active, w) ops in
  exists q' fds', transport_run ops (q, fds, w) = Some (q', fds', s.2) /\ transport_rel q' fds' s.1.
Proof.
  induction ops as [|op ops IH]; intros q fds w active H; cbn [foldl transport_run].
  - eexists _, _. by split.
  - destruct (step_rel op q fds w active H) as (q' & fds' & -> & H').
    destruct (spec_step op (active, w)) as [active' w']. apply (IH q' fds' w' active' H').
Qed.

(** C33: the transport delivers what arrives while it runs, and leaks nothing.
    Whatever sequence of starts (that succeed or fail at any point), stops,
    status queries and receive results it sees, the transport never assigns a
    thread over a running one; each well-formed datagram received while it runs,
    cut at 65536 bytes, is handed once and in order to the callback of the start
    that succeeded, and nothing else is; it runs exactly after a successful
    start that no stop followed; one descriptor is open while it runs and none
    otherwise. *)
Theorem transport_delivers ops (w : W) :
  let s := foldl (fun s op => spec_step op s) (None, w) ops in
  exists q fds, transport_run ops (new_quic, ∅, w) = Some (q, fds, s.2) /\
    quic_is_running q = bool_decide (is_Some s.1) /\
    size fds = (if quic_is_running q then 1 else 0)%nat.
Proof.
  cbv zeta. destruct (transport_run_rel ops new_quic ∅ w None) as (q & fds & E & t & Hq & H).
  { eexists. split; [done|]. by repeat split. }
  exists q, fds. split; [exact E|]. unfold quic_is_running, udp_is_running. rewrite Hq. destruct (foldl _ _ _).1 as [c|].
  - destruct H as (-> & _ & _ & _ & ->). rewrite size_singleton. by rewrite bool_decide_true.
  - destruct H as (-> & _ & _ & ->). rewrite size_empty. by rewrite bool_decide_false by (by intros []).
Qed.
End Lifecycle.

(** ** Examples *)
Definition willing : SocketAnswers := mkAnswers 3 (fun _ => true) (fun _ _ => true).

(** The port is not checked: a larger number is reduced, a number beyond [int]
    throws out of [start]. *)
Example port_reduced :
  parse_endpoint "udp://0.0.0.0:65537" = Ok (mkEndpoint "0.0.0.0" 1 true).
Proof. by vm_compute. Qed.

Example port_throws :
  parse_endpoint "quic://127.0.0.1:2147483648" = Throw "stoi" /\
  (udp_start (W := unit) willing "quic://127.0.0.1:2147483648" (fun _ w => w) new_udp ∅) =
    Some (new_udp, ∅, Throw "stoi").
Proof. by vm_compute. Qed.

(** A host is an IPv4 address: a name is refused, after a socket was opened and
    closed again. *)
Example host_name_refused :
  (fun '(t, fds, r) => (udp_running t, elements fds, r)) <$>
    udp_start (W := unit) (mkAnswers 3 (fun _ => false) (fun _ _ => true)) "quic://localhost:9000"
      (fun _ w => w) new_udp ∅ = Some (false, [], Ok false).
Proof. by vm_compute. Qed.
