(* ===== verification/Wal.v ===== *)
(** * The write-ahead log

    [libs/wal].  A log file is a sequence of bytes; [Writer] appends to it
    through a buffer and [Reader] walks it.  Disk calls succeed here ([WalFile] has
    those that fail); what a crash leaves is the flushed bytes, or any prefix of
    them. *)
From S2P Require Import Prelude Bytes.

Definition kWalMagic : Z := 0x5443574c.

Record RecordHeader := mkRecordHeader {
  rh_magic : Z;
  rh_version : Z;
  rh_reserved : Z;
  rh_sequence : Z;
  rh_payload_size : Z;
  rh_checksum : Z }.

Record WalRecord := mkWalRecord { wr_header : RecordHeader; wr_payload : bytes }.

(** [sizeof(RecordHeader)], and its bytes: the struct has no padding. *)
Definition kHeaderSize : nat := 24.

Definition header_bytes (h : RecordHeader) : bytes :=
  to_le 4 (rh_magic h) ++ to_le 2 (rh_version h) ++ to_le 2 (rh_reserved h) ++
  to_le 8 (rh_sequence h) ++ to_le 4 (rh_payload_size h) ++ to_le 4 (rh_checksum h).

Definition header_of (b : bytes) : RecordHeader :=
  mkRecordHeader (of_le (sub b 0 4)) (of_le (sub b 4 2)) (of_le (sub b 6 2)) (of_le (sub b 8 8))
    (of_le (sub b 16 4)) (of_le (sub b 20 4)).

(** ** Reading *)
Record Reader := mkReader { rd_file : bytes; rd_pos : nat }.

Definition open_reader (file : bytes) : Reader := mkReader file 0.

(** [fread] of at most [n] bytes: those there are. *)
Definition fread (r : Reader) (n : nat) : bytes * Reader :=
  let b := sub (rd_file r) (rd_pos r) n in (b, mkReader (rd_file r) (rd_pos r + length b)).

(** [Reader::next]: a record and the reader after it; no record at the end of
    the file, a torn header included. *)
Definition next (r : Reader) : result (option WalRecord * Reader) :=
  let '(b, r) := fread r kHeaderSize in
  if negb (length b =? kHeaderSize)%nat then Ok (None, r)
  else
    let header := header_of b in
    if negb (rh_magic header =? kWalMagic) then Throw "invalid WAL magic"
    else if rh_payload_size header >? 0 then
      let '(payload, r) := fread r (Z.to_nat (rh_payload_size header)) in
      if negb (Z.of_nat (length payload) =? rh_payload_size header) then Throw "truncated WAL record"
      else if negb (rh_checksum header =? checksum32 payload) then Throw "WAL checksum mismatch"
      else Ok (Some (mkWalRecord header payload), r)
    else Ok (Some (mkWalRecord header []), r).

(** [while (reader.next(record)) ...]: every record up to the end.  [n] bounds
    the turns; [None] when they run out. *)
Fixpoint read_loop (n : nat) (r : Reader) : option (result (list WalRecord)) :=
  match n with
  | O => None
  | S n =>
      match next r with
      | Throw e => Some (Throw e)
      | Ok (None, _) => Some (Ok [])
      | Ok (Some rec, r) =>
          match read_loop n r with
          | Some (Ok recs) => Some (Ok (rec :: recs))
          | x => x
          end
      end
  end.

(** One turn more than there can be records. *)
Definition turns (r : Reader) : nat := S (length (rd_file r)).

Definition read_all (file : bytes) : option (result (list WalRecord)) :=
  read_loop (turns (open_reader file)) (open_reader file).

(** The loop of [Reader::seek_sequence]. *)
Fixpoint seek_loop (n : nat) (sequence : Z) (r : Reader) : option (result Reader) :=
  match n with
  | O => None
  | S n =>
      match next r with
      | Throw e => Some (Throw e)
      | Ok (None, r) => Some (Ok r)
      | Ok (Some rec, r) =>
          if rh_sequence (wr_header rec) >=? sequence then
            let offset := (kHeaderSize + Z.to_nat (rh_payload_size (wr_header rec)))%nat in
            if (rd_pos r <? offset)%nat then Some (Throw "failed to seek in WAL")
            else Some (Ok (mkReader (rd_file r) (rd_pos r - offset)))
          else seek_loop n sequence r
      end
  end.

Definition seek_sequence (sequence : Z) (r : Reader) : option (result Reader) :=
  seek_loop (turns r) sequence (open_reader (rd_file r)).

(** ** Writing *)
Record Writer := mkWriter {
  wt_file : bytes;
  wt_buffer : bytes;
  wt_flush_threshold : Z;
  wt_next_sequence : Z }.

(** The constructor on a file that holds [file] (nothing, when it is new); the
    outer option is the loop of [ensure_open] running out of turns. *)
Definition open_writer (file : bytes) (flush_threshold_bytes : Z) : option (result Writer) :=
  match read_all file with
  | None => None
  | Some (Throw e) => Some (Throw e)
  | Some (Ok recs) =>
      let next_sequence := foldl (fun _ rec => u64 (rh_sequence (wr_header rec) + 1)) 1 recs in
      Some (Ok (mkWriter file [] flush_threshold_bytes next_sequence))
  end.

Definition flush (w : Writer) : Writer :=
  match wt_buffer w with
  | [] => w
  | b => mkWriter (wt_file w ++ b) [] (wt_flush_threshold w) (wt_next_sequence w)
  end.

(** The header [append] writes; [reserved] is the caller's. *)
Definition record_header (reserved sequence : Z) (payload : bytes) : RecordHeader :=
  mkRecordHeader kWalMagic 1 reserved sequence (u32 (Z.of_nat (length payload))) (checksum32 payload).

Definition append (reserved : Z) (payload : bytes) (w : Writer) : Writer :=
  let header := record_header reserved (wt_next_sequence w) payload in
  let w := mkWriter (wt_file w) (wt_buffer w ++ header_bytes header ++ payload)
             (wt_flush_threshold w) (u64 (wt_next_sequence w + 1)) in
  if Z.of_nat (length (wt_buffer w)) >=? wt_flush_threshold w then flush w else w.

(** [sync] flushes, then asks the disk; the destructor flushes too. *)
Definition sync (w : Writer) : Writer := flush w.
