(* ===== verification/WalProps.v ===== *)
(** * The log gives back what was appended *)
From S2P Require Import Prelude Bytes Wal.

Definition encode_record (r : WalRecord) : bytes := header_bytes (wr_header r) ++ wr_payload r.
Definition encode_log (rs : list WalRecord) : bytes := concat (map encode_record rs).

(** A record [append] can have written. *)
Record record_ok (r : WalRecord) : Prop := {
  ro_magic : rh_magic (wr_header r) = kWalMagic;
  ro_version : in_u 16 (rh_version (wr_header r));
  ro_reserved : in_u 16 (rh_reserved (wr_header r));
  ro_sequence : in_u 64 (rh_sequence (wr_header r));
  ro_size : rh_payload_size (wr_header r) = Z.of_nat (length (wr_payload r));
  ro_bound : Z.of_nat (length (wr_payload r)) < 2 ^ 32;
  ro_checksum : rh_checksum (wr_header r) = checksum32 (wr_payload r);
  ro_bytes : bytes_ok (wr_payload r) }.

Lemma length_header h : length (header_bytes h) = 24%nat.
Proof. unfold header_bytes. by rewrite !length_app, !length_to_le. Qed.

Lemma header_of_bytes r : record_ok r -> header_of (header_bytes (wr_header r)) = wr_header r.
Proof.
  intros [H1 H2 H3 H4 H5 H6 H7 _]. unfold header_of, header_bytes.
  destruct (wr_header r) as [m v s q z c]. cbn in *. subst m z c.
  f_equal; field; try (apply read_u; try done).
  - unfold in_u. lia.
  - apply checksum32_range.
Qed.

Lemma fread_at pre b rest n : length b = n ->
  fread (mkReader (pre ++ b ++ rest) (length pre)) n =
    (b, mkReader (pre ++ b ++ rest) (length pre + n)).
Proof. intros <-. unfold fread. cbn [rd_file rd_pos]. by rewrite sub_at by done. Qed.

(** What is left of a file that ends early. *)
Lemma fread_end pre b n : (length b < n)%nat ->
  fread (mkReader (pre ++ b) (length pre)) n = (b, mkReader (pre ++ b) (length pre + length b)).
Proof.
  intros H. unfold fread. cbn [rd_file rd_pos].
  assert (sub (pre ++ b) (length pre) n = b) as ->; [|done].
  unfold sub. rewrite drop_app_length. apply take_ge. lia.
Qed.

Lemma next_record pre r rest :
  record_ok r ->
  next (mkReader (pre ++ encode_record r ++ rest) (length pre)) =
    Ok (Some r, mkReader (pre ++ encode_record r ++ rest) (length (pre ++ encode_record r))).
Proof.
  intros Hr. unfold next, encode_record, kHeaderSize. rewrite <- app_assoc.
  rewrite fread_at by apply length_header. rewrite length_header. cbn [Nat.eqb negb].
  rewrite header_of_bytes by done. rewrite (ro_magic _ Hr), Z.eqb_refl. cbn [negb].
  rewrite (ro_size _ Hr), !length_app, length_header.
  destruct (Z.gtb_spec (Z.of_nat (length (wr_payload r))) 0) as [Hp|Hp].
  - rewrite Nat2Z.id. pose proof (fread_at (pre ++ header_bytes (wr_header r)) (wr_payload r) rest _ eq_refl) as E.
    rewrite length_app, length_header, <- app_assoc in E. rewrite E.
    rewrite Z.eqb_refl, (ro_checksum _ Hr), Z.eqb_refl. cbn [negb].
    rewrite Nat.add_assoc. by destruct r.
  - destruct r as [h p]. cbn in *. destruct p; [|cbn in Hp; lia]. done.
Qed.

Lemma next_end file : next (mkReader file (length file)) = Ok (None, mkReader file (length file)).
Proof.
  unfold next. pose proof (fread_end file [] kHeaderSize) as E. rewrite app_nil_r in E.
  rewrite E by (unfold kHeaderSize; cbn; lia). cbn. by rewrite Nat.add_0_r.
Qed.

(** A record cut short: no record if the cut is in the header, an exception if
    it is in the payload. *)
Lemma next_torn pre r t u :
  record_ok r -> encode_record r = t ++ u -> u <> [] ->
  next (mkReader (pre ++ t) (length pre)) =
    if (length t <? kHeaderSize)%nat then Ok (None, mkReader (pre ++ t) (length (pre ++ t)))
    else Throw "truncated WAL record".
Proof.
  intros Hr E Hu. unfold next. destruct (Nat.ltb_spec (length t) kHeaderSize) as [Ht|Ht].
  - rewrite fread_end by done. unfold kHeaderSize in *.
    destruct (Nat.eqb_spec (length t) 24); [lia|]. cbn. by rewrite length_app.
  - unfold kHeaderSize in *. unfold encode_record in E.
    rewrite <- (take_drop 24 t), <- app_assoc in E.
    apply app_inj_1 in E as [E1 E2]; [|rewrite length_header, length_take; lia].
    rewrite <- (take_drop 24 t), <- E1. set (t' := drop 24 t) in *.
    rewrite fread_at by apply length_header. rewrite length_header. cbn [Nat.eqb negb].
    rewrite header_of_bytes by done. rewrite (ro_magic _ Hr), Z.eqb_refl. cbn [negb].
    rewrite (ro_size _ Hr).
    assert (Hl : (length t' < length (wr_payload r))%nat).
    { rewrite E2, length_app. destruct u; [done|cbn; lia]. }
    destruct (Z.gtb_spec (Z.of_nat (length (wr_payload r))) 0); [|lia]. rewrite Nat2Z.id.
    pose proof (fread_end (pre ++ header_bytes (wr_header r)) t' (length (wr_payload r)) Hl) as Ef.
    rewrite length_app, length_header, <- app_assoc in Ef. rewrite Ef.
    by destruct (Z.eqb_spec (Z.of_nat (length t')) (Z.of_nat (length (wr_payload r)))); [lia|].
Qed.

(** ** Walking a whole log *)
Lemma encode_log_cons r rs : encode_log (r :: rs) = encode_record r ++ encode_log rs.
Proof. done. Qed.

Lemma encode_log_app rs rs' : encode_log (rs ++ rs') = encode_log rs ++ encode_log rs'.
Proof. unfold encode_log. by rewrite map_app, concat_app. Qed.

Lemma encode_log_length rs : (24 * length rs <= length (encode_log rs))%nat.
Proof.
  induction rs as [|r rs IH]; [cbn; lia|]. rewrite encode_log_cons, length_app. unfold encode_record.
  rewrite length_app, length_header. cbn. lia.
Qed.

(** How a walk ends at [tail]: with the records before it, or with an exception. *)
Definition ends (tail : bytes) (out : result unit) : Prop :=
  forall pre, next (mkReader (pre ++ tail) (length pre)) =
    match out with
    | Ok _ => Ok (None, mkReader (pre ++ tail) (length (pre ++ tail)))
    | Throw e => Throw e
    end.

Lemma ends_nil : ends [] (Ok ()).
Proof. intros pre. rewrite app_nil_r. apply next_end. Qed.

Lemma ends_torn r t u : record_ok r -> encode_record r = t ++ u -> u <> [] ->
  ends t (if (length t <? kHeaderSize)%nat then Ok () else Throw "truncated WAL record").
Proof. intros Hr E Hu pre. rewrite (next_torn pre r t u) by done. by destruct (_ <? _)%nat. Qed.

Lemma read_loop_log rs tail out : forall n pre,
  Forall record_ok rs -> (length rs < n)%nat -> ends tail out ->
  read_loop n (mkReader (pre ++ encode_log rs ++ tail) (length pre)) =
    Some (match out with Ok _ => Ok rs | Throw e => Throw e end).
Proof.
  induction rs as [|r rs IH]; intros n pre Hok Hn Ht; (destruct n as [|n]; [cbn in Hn; lia|]); cbn [read_loop].
  - change (encode_log []) with (@nil Z). cbn [app]. rewrite Ht. by destruct out.
  - apply Forall_cons in Hok as [Hr Hok]. rewrite encode_log_cons, <- app_assoc.
    rewrite next_record by done. specialize (IH n (pre ++ encode_record r) Hok ltac:(cbn in Hn; lia) Ht).
    rewrite <- app_assoc in IH. rewrite IH. by destruct out.
Qed.

Lemma read_all_log rs tail out :
  Forall record_ok rs -> ends tail out ->
  read_all (encode_log rs ++ tail) = Some (match out with Ok _ => Ok rs | Throw e => Throw e end).
Proof.
  intros Hok Ht. apply (read_loop_log rs tail out _ [] Hok); [|done].
  unfold turns. cbn. rewrite length_app. pose proof (encode_log_length rs). lia.
Qed.

Lemma read_all_whole rs : Forall record_ok rs -> read_all (encode_log rs) = Some (Ok rs).
Proof.
  intros Hok. pose proof (read_all_log rs [] (Ok ()) Hok ends_nil) as E. by rewrite app_nil_r in E.
Qed.

(** ** Writing *)

(** The records a sequence of appends adds. *)
Fixpoint new_records (sequence : Z) (l : list (Z * bytes)) : list WalRecord :=
  match l with
  | [] => []
  | (reserved, payload) :: l =>
      mkWalRecord (record_header reserved sequence payload) payload ::
      new_records (u64 (sequence + 1)) l
  end.

Definition entry_ok (e : Z * bytes) : Prop :=
  in_u 16 e.1 /\ Z.of_nat (length e.2) < 2 ^ 32 /\ bytes_ok e.2.

Definition append_all (l : list (Z * bytes)) (w : Writer) : Writer :=
  foldl (fun w e => append e.1 e.2 w) w l.

(** The sequence number after a log. *)
Definition next_after (rs : list WalRecord) : Z :=
  foldl (fun _ rec => u64 (rh_sequence (wr_header rec) + 1)) 1 rs.

Lemma new_records_ok l : forall s, in_u 64 s -> Forall entry_ok l -> Forall record_ok (new_records s l).
Proof.
  induction l as [|[r p] l IH]; intros s Hs Hl; [constructor|].
  apply Forall_cons in Hl as [(H1 & H2 & H3) Hl]. cbn in H1, H2, H3. constructor.
  - split; cbn; first [done|apply wrapu_small; unfold in_u; lia|vm_compute; split; congruence].
  - apply IH; [by apply wrapu_range|done].
Qed.

Lemma new_records_app s l l' :
  exists s', new_records s (l ++ l') = new_records s l ++ new_records s' l'.
Proof.
  revert s. induction l as [|[r p] l IH]; intros s; [by exists s|].
  destruct (IH (u64 (s + 1))) as [s' E]. exists s'. cbn. by rewrite E.
Qed.

Lemma next_after_range rs : in_u 64 (next_after rs).
Proof.
  unfold next_after. destruct rs as [|r rs _] using rev_ind; [vm_compute; split; congruence|].
  rewrite foldl_snoc. by apply wrapu_range.
Qed.

(** A writer whose flushed bytes and buffer are whole records. *)
Record writer_rep (w : Writer) (flushed buffered : list WalRecord) (sequence : Z) : Prop := {
  wr_file_rep : wt_file w = encode_log flushed;
  wr_buffer_rep : wt_buffer w = encode_log buffered;
  wr_sequence_rep : wt_next_sequence w = sequence }.

Lemma flush_rep w rs bs s : writer_rep w rs bs s -> writer_rep (flush w) (rs ++ bs) [] s.
Proof.
  intros [H1 H2 H3]. unfold flush. destruct (wt_buffer w) as [|x b] eqn:E; split; cbn; auto.
  - rewrite encode_log_app, <- H2, app_nil_r. done.
  - rewrite encode_log_app, <- H2, H1. done.
Qed.

Lemma append_rep w rs bs s r p :
  writer_rep w rs bs s ->
  exists rs' bs', writer_rep (append r p w) rs' bs' (u64 (s + 1)) /\ prefix rs rs' /\
    rs' ++ bs' = rs ++ bs ++ new_records s [(r, p)].
Proof.
  intros [H1 H2 H3]. unfold append. rewrite H3. set (rec := mkWalRecord (record_header r s p) p).
  set (w1 := mkWriter _ _ _ _).
  assert (Hw : writer_rep w1 rs (bs ++ [rec]) (u64 (s + 1))).
  { split; cbn; [done| |done]. rewrite encode_log_app, H2. by rewrite encode_log_cons, app_nil_r. }
  destruct (_ >=? _).
  - exists (rs ++ bs ++ [rec]), []. split; [by apply flush_rep|]. split; [by eexists|].
    by rewrite app_nil_r.
  - exists rs, (bs ++ [rec]). split; [done|]. split; [done|]. done.
Qed.

Lemma append_all_rep l : forall w rs bs s,
  writer_rep w rs bs s ->
  exists rs' bs' s', writer_rep (append_all l w) rs' bs' s' /\ prefix rs rs' /\
    rs' ++ bs' = rs ++ bs ++ new_records s l.
Proof.
  induction l as [|[r p] l IH]; intros w rs bs s Hw.
  { exists rs, bs, s. split; [done|]. split; [done|]. cbn. by rewrite app_nil_r. }
  destruct (append_rep w rs bs s r p Hw) as (rs1 & bs1 & Hw1 & Hp1 & E1).
  destruct (IH _ _ _ _ Hw1) as (rs2 & bs2 & s2 & Hw2 & Hp2 & E2).
  exists rs2, bs2, s2. split; [done|]. split; [by etrans|]. rewrite E2, app_assoc, E1.
  cbn. by rewrite <- !app_assoc.
Qed.

(** C23: what is appended is what is read.  Opening a log of whole records and
    appending to it: after a sync the log reads back as the old records followed
    by the new ones, numbered on from the last; and at any moment before that,
    what has reached the file is whole records, a prefix of those. *)
Theorem wal_roundtrip rs l threshold :
  Forall record_ok rs -> Forall entry_ok l ->
  exists w, open_writer (encode_log rs) threshold = Some (Ok w) /\
    let final := rs ++ new_records (next_after rs) l in
    read_all (wt_file (sync (append_all l w))) = Some (Ok final) /\
    exists n, (length rs <= n)%nat /\ read_all (wt_file (append_all l w)) = Some (Ok (take n final)).
Proof.
  intros Hrs Hl. unfold open_writer. rewrite read_all_whole by done. eexists. split; [done|].
  fold (next_after rs). set (w := mkWriter _ _ _ _). cbv zeta.
  assert (Hw : writer_rep w rs [] (next_after rs)) by by split.
  destruct (append_all_rep l w rs [] _ Hw) as (rs' & bs' & s' & Hw' & [k Hk] & E). cbn [app] in E.
  assert (Hall : Forall record_ok (rs' ++ bs')).
  { rewrite E. apply Forall_app. split; [done|]. apply new_records_ok; [apply next_after_range|done]. }
  split.
  - pose proof (flush_rep _ _ _ _ Hw') as [Hf _ _]. unfold sync. rewrite Hf, <- E. by apply read_all_whole.
  - exists (length rs'). split; [rewrite Hk, length_app; lia|].
    rewrite (wr_file_rep _ _ _ _ Hw'), <- E, take_app_length. apply read_all_whole.
    by apply Forall_app in Hall as [? _].
Qed.

Lemma wal_roundtrip_witness :
  exists w, open_writer [] 100 = Some (Ok w) /\
    read_all (wt_file (sync (append_all [(0, [1; 2; 3]); (0, []); (7, [255])] w))) =
      Some (Ok (new_records 1 [(0, [1; 2; 3]); (0, []); (7, [255])])).
Proof.
  destruct (wal_roundtrip [] [(0, [1; 2; 3]); (0, []); (7, [255])] 100) as (w & Hw & Hr & _).
  - constructor.
  - repeat constructor; vm_compute; congruence.
  - exists w. split; [exact Hw|exact Hr].
Defined.

(** ** Torn and damaged logs *)

(** A part of record number [j], not all of it. *)
Definition torn (rs : list WalRecord) (j : nat) (t : bytes) : Prop :=
  t = [] \/ exists r u, rs !! j = Some r /\ encode_record r = t ++ u /\ u <> [].

(** Where a reader stops behind whole records. *)
Lemma torn_ends rs j t :
  Forall record_ok rs -> torn rs j t -> ends t (if (length t <? kHeaderSize)%nat then Ok () else Throw "truncated WAL record").
Proof.
  intros Hok [->|(r & u & Hr & Er & Hu)]; [exact ends_nil|].
  eapply ends_torn; [|exact Er|exact Hu]. by eapply Forall_lookup_1.
Qed.

Lemma torn_nothing rs j t :
  torn rs j t -> encode_log (take j rs) ++ t = encode_log rs -> t = [] /\ (length rs <= j)%nat.
Proof.
  intros Ht E. assert (El : encode_log rs = encode_log (take j rs) ++ encode_log (drop j rs))
    by by rewrite <- encode_log_app, take_drop.
  rewrite El in E. apply (inj (app _)) in E.
  destruct Ht as [->|(r & u & Hr & Er & Hu)].
  - split; [done|]. pose proof (encode_log_length (drop j rs)) as H. rewrite <- E, length_drop in H. cbn in H. lia.
  - apply (f_equal length) in E. rewrite (drop_S _ _ _ Hr), encode_log_cons, Er, !length_app in E.
    destruct u; [done|]. cbn in E. lia.
Qed.

(** Where a cut falls: after some whole records, inside the next one. *)
Lemma cut_log rs : forall k, (k <= length (encode_log rs))%nat ->
  exists j t, take k (encode_log rs) = encode_log (take j rs) ++ t /\ torn rs j t.
Proof.
  induction rs as [|r rs IH]; intros k Hk.
  { exists 0%nat, []. split; [by destruct k|by left]. }
  rewrite encode_log_cons in *. rewrite length_app in Hk.
  destruct (Nat.lt_ge_cases k (length (encode_record r))) as [Hlt|Hge].
  - exists 0%nat, (take k (encode_record r)). split; [by rewrite take_app_le by lia|].
    right. exists r, (drop k (encode_record r)). split; [done|]. split; [by rewrite take_drop|].
    intros E. apply (f_equal length) in E. rewrite length_drop in E. cbn in E. lia.
  - destruct (IH (k - length (encode_record r))%nat ltac:(lia)) as (j & t & E & Ht).
    exists (S j), t. rewrite take_app_ge by done. rewrite E. cbn [take]. rewrite encode_log_cons, app_assoc.
    by split.
Qed.

(** A crash loses the end of the log, never the middle.  Whatever byte the
    file is cut at, reading it gives whole records from the start of the log, or
    stops with the exception for a truncated payload; it never gives a record
    that was not appended. *)
Theorem wal_torn_prefix rs k :
  Forall record_ok rs -> (k <= length (encode_log rs))%nat ->
  exists j t, take k (encode_log rs) = encode_log (take j rs) ++ t /\
    read_all (take k (encode_log rs)) =
      Some (if (length t <? kHeaderSize)%nat then Ok (take j rs) else Throw "truncated WAL record").
Proof.
  intros Hok Hk. destruct (cut_log rs k Hk) as (j & t & E & Ht). exists j, t. split; [done|].
  rewrite E, (read_all_log _ _ _ (Forall_take _ _ _ Hok) (torn_ends _ _ _ Hok Ht)). by destruct (_ <? _)%nat.
Qed.

Definition demo_log : list WalRecord := new_records 1 [(0, [1; 2; 3]); (0, [4; 5])].

Lemma demo_log_ok : Forall record_ok demo_log.
Proof.
  apply new_records_ok; [vm_compute; split; congruence|]. repeat constructor; vm_compute; congruence.
Qed.

Lemma wal_torn_prefix_witness : exists j t,
  take 30 (encode_log demo_log) = encode_log (take j demo_log) ++ t /\
  read_all (take 30 (encode_log demo_log)) =
    Some (if (length t <? kHeaderSize)%nat then Ok (take j demo_log) else Throw "truncated WAL record").
Proof. refine (wal_torn_prefix demo_log 30 demo_log_ok _). vm_compute. lia. Defined.

(** C24: a damaged payload does not go unnoticed.  Changing any one byte of the
    payload of any record makes the reader stop at that record with a checksum
    mismatch. *)
Theorem wal_detects_damage rs r xs x y ys rest :
  Forall record_ok rs -> record_ok r -> wr_payload r = xs ++ x :: ys -> in_u 8 y -> x <> y ->
  read_all (encode_log rs ++ header_bytes (wr_header r) ++ (xs ++ y :: ys) ++ rest) =
    Some (Throw "WAL checksum mismatch").
Proof.
  intros Hok Hr Hp Hy Hn. pose proof (ro_bytes _ Hr) as Hb. rewrite Hp in Hb.
  apply Forall_app in Hb as [Hxs [Hx Hys]%Forall_cons].
  refine (read_all_log rs _ (Throw _) Hok _). intros pre. unfold next, kHeaderSize.
  rewrite fread_at by apply length_header. rewrite length_header. cbn [Nat.eqb negb].
  rewrite header_of_bytes by done. rewrite (ro_magic _ Hr), Z.eqb_refl. cbn [negb].
  rewrite (ro_size _ Hr), (ro_checksum _ Hr), Hp.
  assert (El : length (xs ++ y :: ys) = length (xs ++ x :: ys)) by by rewrite !length_app.
  destruct (Z.gtb_spec (Z.of_nat (length (xs ++ x :: ys))) 0) as [_|H0];
    [|rewrite length_app in H0; cbn in H0; lia].
  rewrite Nat2Z.id, <- El.
  pose proof (fread_at (pre ++ header_bytes (wr_header r)) (xs ++ y :: ys) rest _ eq_refl) as E.
  rewrite length_app, length_header, <- app_assoc in E. rewrite E, Z.eqb_refl. cbn [negb].
  destruct (Z.eqb_spec (checksum32 (xs ++ x :: ys)) (checksum32 (xs ++ y :: ys))) as [Ec|]; [|done].
  by apply checksum32_detects in Ec.
Qed.

Lemma wal_detects_damage_witness :
  read_all (encode_log demo_log ++ header_bytes (record_header 0 3 [9; 8; 7]) ++ ([9] ++ 0 :: [7]) ++ [1]) =
    Some (Throw "WAL checksum mismatch").
Proof.
  refine (wal_detects_damage demo_log (mkWalRecord (record_header 0 3 [9; 8; 7]) [9; 8; 7]) [9] 8 0 [7] [1]
    demo_log_ok _ eq_refl _ _).
  - refine (Forall_inv (new_records_ok [(0, [9; 8; 7])] 3 _ _)); [vm_compute; split; congruence|].
    repeat constructor; vm_compute; congruence.
  - vm_compute; split; congruence.
  - discriminate.
Defined.

(** ** Behaviours a caller may not expect *)

(** A header torn by a crash stays in the file: the writer opens as if the log
    were whole, and what it appends then is read back as something else: here a
    record numbered 2199023255892 that was never written. *)
Example append_after_torn_header :
  match open_writer (take 32 (encode_log demo_log)) 0 with
  | Some (Ok w) =>
      wt_next_sequence w = 2 /\
      match read_all (wt_file (append 0 [7] w)) with
      | Some (Ok rs) => map (fun r => (rh_sequence (wr_header r), wr_payload r)) rs =
                          [(1, [1; 2; 3]); (2199023255892, [])]
      | _ => False
      end
  | _ => False
  end.
Proof. vm_compute. split; reflexivity. Qed.

(** A payload torn by a crash makes the log impossible to open for writing. *)
Example torn_payload_blocks_writer :
  open_writer (take 52 (encode_log demo_log)) 0 = Some (Throw "truncated WAL record").
Proof. vm_compute. reflexivity. Qed.

(** The checksum covers the payload only: a changed sequence number, or the
    stored checksum of an empty record, goes unnoticed. *)
Example header_damage_unnoticed :
  let h := mkRecordHeader kWalMagic 9 0 12345 0 77 in
  read_all (header_bytes h) = Some (Ok [mkWalRecord h []]).
Proof. vm_compute. reflexivity. Qed.
