(* ===== verification/Output.v ===== *)
(** * Streams that write to a disk that may fail

    A [FILE] of the C library, or the buffer of an [std::ofstream]: bytes go into
    the stream, and from it to the file, a part at a time.  How much is an
    argument of every operation; a stream keeps the bytes it could not pass on. *)
From S2P Require Import Prelude Bytes.

(** An open file: what has reached it, and what the stream still holds. *)
Record Stream := mkStream { sm_file : bytes; sm_held : bytes }.

(** A part of [b]: at most so many bytes, or all of it. *)
Definition part (n : option nat) (b : bytes) : nat := match n with Some n => Nat.min n (length b) | None => length b end.

Definition drain (n : option nat) (s : Stream) : Stream :=
  let n := part n (sm_held s) in mkStream (sm_file s ++ take n (sm_held s)) (drop n (sm_held s)).

(** A write: a part of the data is taken, then a part of what the stream holds
    goes to the file. *)
Definition put (taken drained : option nat) (data : bytes) (s : Stream) : Stream :=
  drain drained (mkStream (sm_file s) (sm_held s ++ take (part taken data) data)).

(** All the bytes of a stream, in order. *)
Definition stream_bytes (s : Stream) : bytes := sm_file s ++ sm_held s.

Lemma drain_whole n s : sm_file (drain n s) ++ sm_held (drain n s) = sm_file s ++ sm_held s.
Proof. unfold drain. cbn [sm_file sm_held]. by rewrite <- app_assoc, take_drop. Qed.

Lemma drain_everything s : drain None s = mkStream (sm_file s ++ sm_held s) [].
Proof. unfold drain, part. by rewrite take_ge, drop_all by done. Qed.

Lemma drain_all s : sm_held (drain None s) = [].
Proof. by rewrite drain_everything. Qed.

Lemma put_bytes taken drained data s :
  stream_bytes (put taken drained data s) = stream_bytes s ++ take (part taken data) data.
Proof. unfold put, stream_bytes. rewrite drain_whole. cbn [sm_file sm_held]. by rewrite app_assoc. Qed.

Lemma drain_bytes n s : stream_bytes (drain n s) = stream_bytes s.
Proof. apply drain_whole. Qed.

Lemma put_everything data s : put None None data s = mkStream (stream_bytes s ++ data) [].
Proof.
  unfold put, part, stream_bytes. rewrite drain_everything. cbn [sm_file sm_held]. by rewrite take_ge, app_assoc by done.
Qed.

(** What is in the file is the start of what was written. *)
Lemma disk_prefix s : sm_file s `prefix_of` stream_bytes s.
Proof. by eexists. Qed.
