(* ===== verification/WalFile.v ===== *)
(** * The log on a disk that fails

    [libs/wal] again, with the C library's stream between the writer and the
    file: [fwrite] may take a part of the data, the stream may pass on any part of
    what it holds, [fflush] may leave bytes behind (the code does not look at its
    result) and [fsync] may fail.  The answers are arguments of each call.  A
    stream keeps the bytes it could not pass on; [Wal.Writer] is this writer on a
    disk that always answers well. *)
From S2P Require Import Prelude Bytes Output Wal WalProps.

(** How the disk answers one call of the writer: how much [fwrite] takes and how
    much reaches the file during it, how much [fflush] passes on, what [fsync]
    returns. *)
Record DiskAnswers := mkDiskAnswers {
  da_taken : option nat;
  da_drained : option nat;
  da_flushed : option nat;
  da_fsync : Z }.

Definition fwrite (io : DiskAnswers) (data : bytes) (s : Stream) : nat * Stream :=
  (part (da_taken io) data, put (da_taken io) (da_drained io) data s).

Definition fsync_file (io : DiskAnswers) : result () :=
  if negb (da_fsync io =? 0) then Throw "fsync failed" else Ok ().

Record FileWriter := mkFileWriter {
  fw_file : option Stream;                    (* file_, null once closed *)
  fw_buffer : bytes;
  fw_flush_threshold : Z;
  fw_next_sequence : Z }.

(** [Writer::ensure_open], with the answers of its two [fopen] and of [fseek]; the
    path in its messages is left out. *)
Definition open_checks (fopen_append : bool) (fseek : Z) (fopen_read : bool) : result () :=
  if negb fopen_append then Throw "failed to open WAL file"
  else if negb (fseek =? 0) then Throw "failed to seek WAL file"
  else if negb fopen_read then Throw "failed to open WAL for read"
  else Ok ().

Definition open_file (fopen_append : bool) (fseek : Z) (fopen_read : bool) (file : bytes) (flush_threshold_bytes : Z)
    : option (result FileWriter) :=
  match open_checks fopen_append fseek fopen_read with
  | Throw e => Some (Throw e)
  | Ok _ =>
      match read_all file with
      | None => None
      | Some (Throw e) => Some (Throw e)
      | Some (Ok recs) => Some (Ok (mkFileWriter (Some (mkStream file [])) [] flush_threshold_bytes (next_after recs)))
      end
  end.

(** [Writer::flush]; what follows a throw sees the stream as it is then, and the
    buffer as it was. *)
Definition file_flush (io : DiskAnswers) (w : FileWriter) : FileWriter * result () :=
  match fw_file w, fw_buffer w with
  | Some s, _ :: _ =>
      let '(wrote, s) := fwrite io (fw_buffer w) s in
      if negb (wrote =? length (fw_buffer w))%nat
      then (mkFileWriter (Some s) (fw_buffer w) (fw_flush_threshold w) (fw_next_sequence w),
            Throw "failed to write WAL buffer")
      else (mkFileWriter (Some (drain (da_flushed io) s)) [] (fw_flush_threshold w) (fw_next_sequence w), Ok ())
  | _, _ => (w, Ok ())
  end.

Definition file_append (io : DiskAnswers) (reserved : Z) (payload : bytes) (w : FileWriter) : FileWriter * result () :=
  match fw_file w with
  | None => (w, Throw "WAL writer not open")
  | Some s =>
      let header := record_header reserved (fw_next_sequence w) payload in
      let w := mkFileWriter (Some s) (fw_buffer w ++ header_bytes header ++ payload)
                 (fw_flush_threshold w) (u64 (fw_next_sequence w + 1)) in
      if Z.of_nat (length (fw_buffer w)) >=? fw_flush_threshold w then file_flush io w else (w, Ok ())
  end.

Definition file_sync (io : DiskAnswers) (w : FileWriter) : FileWriter * result () :=
  match file_flush io w with
  | (w, Ok _) => (w, match fw_file w with None => Ok () | Some _ => fsync_file io end)
  | x => x
  end.

(** [~Writer]: [closed] is how much [fclose] passes on; the rest is gone. *)
Definition file_destroy (io : DiskAnswers) (closed : option nat) (w : FileWriter) : bytes :=
  match fw_file (file_flush io w).1 with Some s => sm_file (drain closed s) | None => [] end.

(** ** Sequences of calls *)
Inductive Call :=
  | CAppend (io : DiskAnswers) (reserved : Z) (payload : bytes)
  | CFlush (io : DiskAnswers)
  | CSync (io : DiskAnswers).

Definition call (c : Call) (w : FileWriter) : FileWriter * result () :=
  match c with
  | CAppend io reserved payload => file_append io reserved payload w
  | CFlush io => file_flush io w
  | CSync io => file_sync io w
  end.

(** Up to the first exception, which the daemon does not catch. *)
Fixpoint run_calls (cs : list Call) (w : FileWriter) : FileWriter * result () :=
  match cs with
  | [] => (w, Ok ())
  | c :: cs => match call c w with (w, Ok _) => run_calls cs w | x => x end
  end.

Definition entry_of_call (c : Call) : list (Z * bytes) :=
  match c with CAppend _ reserved payload => [(reserved, payload)] | _ => [] end.

Definition appended (cs : list Call) : list (Z * bytes) := concat (map entry_of_call cs).

Definition disk_of (w : FileWriter) : bytes := match fw_file w with Some s => sm_file s | None => [] end.

(** What has reached the file, what the stream holds, and the buffer. *)
Definition unwritten (w : FileWriter) : bytes :=
  match fw_file w with Some s => sm_held s | None => [] end ++ fw_buffer w.

(** ** The file is always a prefix of the log *)

(** An open writer, all of whose bytes are the log [rs]. *)
Definition holds_log (w : FileWriter) (rs : list WalRecord) : Prop :=
  fw_file w <> None /\ disk_of w ++ unwritten w = encode_log rs /\ fw_next_sequence w = next_after rs.

(** A flush moves bytes towards the file; one that throws leaves a part of the
    buffer in both places. *)
Lemma file_flush_spec io w rs :
  holds_log w rs ->
  let '(w', r) := file_flush io w in
  disk_of w `prefix_of` disk_of w' /\ disk_of w' `prefix_of` encode_log rs /\
  (r = Ok () -> holds_log w' rs /\ fw_buffer w' = []).
Proof.
  intros (Hf & He & Hs). unfold file_flush, holds_log, disk_of, unwritten in *.
  destruct (fw_file w) as [s|] eqn:Ef; [|done]. destruct (fw_buffer w) as [|x b] eqn:Eb.
  - rewrite Ef, Eb. split; [done|]. split; [by eexists|]. intros _. rewrite Hs. naive_solver.
  - rewrite <- Eb in *. unfold fwrite, put. set (data := fw_buffer w) in *. set (n := part (da_taken io) data).
    set (s1 := drain _ _).
    assert (E : sm_file s1 ++ sm_held s1 = sm_file s ++ sm_held s ++ take n data) by apply drain_whole.
    assert (Hp : sm_file s `prefix_of` sm_file s1) by by eexists.
    destruct (Nat.eqb_spec n (length data)) as [En|En]; cbn [negb fw_file fw_buffer fw_next_sequence].
    + rewrite take_ge in E by lia. pose proof (drain_whole (da_flushed io) s1) as E2. rewrite E in E2.
      split; [etrans; [exact Hp|]; by eexists|]. split.
      * rewrite <- He, <- E2. by apply prefix_app_r.
      * intros _. rewrite app_nil_r, E2, He, Hs. done.
    + split; [exact Hp|]. split; [|done].
      exists (sm_held s1 ++ drop n data). rewrite <- He, (app_assoc (sm_file s1)), E, <- !app_assoc, take_drop. done.
Qed.

Lemma next_after_snoc rs r : next_after (rs ++ [r]) = u64 (rh_sequence (wr_header r) + 1).
Proof. unfold next_after. by rewrite foldl_snoc. Qed.

Lemma call_spec c w rs :
  holds_log w rs ->
  let rs' := rs ++ new_records (next_after rs) (entry_of_call c) in
  let '(w', r) := call c w in
  disk_of w `prefix_of` disk_of w' /\ disk_of w' `prefix_of` encode_log rs' /\ (r = Ok () -> holds_log w' rs').
Proof.
  intros H. cbv zeta. destruct c as [io reserved payload|io|io]; cbn [call entry_of_call new_records].
  - destruct H as (Hf & He & Hs). unfold file_append. destruct (fw_file w) as [s|] eqn:Ef; [|done].
    set (rec := mkWalRecord _ _). set (w1 := mkFileWriter _ _ _ _).
    assert (H1 : holds_log w1 (rs ++ [rec])).
    { split; [done|]. unfold disk_of, unwritten in *. rewrite Ef in He. cbn [w1 fw_file fw_buffer fw_next_sequence].
      split; [|by rewrite next_after_snoc, Hs]. rewrite encode_log_app, <- He, <- !app_assoc.
      rewrite encode_log_cons, app_nil_r, Hs. done. }
    assert (Hd : disk_of w1 = disk_of w) by (unfold disk_of; by rewrite Ef).
    destruct (_ >=? _).
    + pose proof (file_flush_spec io w1 _ H1) as H2. destruct (file_flush io w1) as [w2 r]. rewrite Hd in H2.
      destruct H2 as (? & ? & H3). split; [done|]. split; [done|]. intros Hr. by apply H3.
    + rewrite Hd. split; [done|]. split; [|done]. destruct H1 as (_ & E & _). rewrite <- E, Hd. by apply prefix_app_r.
  - rewrite app_nil_r. pose proof (file_flush_spec io w rs H) as H2. destruct (file_flush io w).
    destruct H2 as (? & ? & H3). split; [done|]. split; [done|]. intros Hr. by apply H3.
  - rewrite app_nil_r. unfold file_sync. pose proof (file_flush_spec io w rs H) as H2.
    destruct (file_flush io w) as [w' [[]|e]]; destruct H2 as (? & ? & H3); (split; [done|]; split; [done|]); [|done].
    intros _. by apply H3.
Qed.

Lemma new_records_cons rs e l :
  rs ++ new_records (next_after rs) (e :: l) =
  (rs ++ new_records (next_after rs) [e]) ++ new_records (next_after (rs ++ new_records (next_after rs) [e])) l.
Proof. destruct e as [r p]. cbn [new_records]. by rewrite next_after_snoc, <- app_assoc. Qed.

Lemma run_calls_spec cs : forall w rs,
  holds_log w rs ->
  let all := rs ++ new_records (next_after rs) (appended cs) in
  let '(w', r) := run_calls cs w in
  disk_of w `prefix_of` disk_of w' /\ disk_of w' `prefix_of` encode_log all /\ (r = Ok () -> holds_log w' all).
Proof.
  induction cs as [|c cs IH]; intros w rs H; cbv zeta; cbn [run_calls].
  { unfold appended. cbn [map concat new_records]. rewrite app_nil_r. split; [done|]. split; [|done].
    destruct H as (_ & E & _). rewrite <- E. by apply prefix_app_r. }
  pose proof (call_spec c w rs H) as Hc. cbv zeta in Hc. destruct (call c w) as [w1 r1]. destruct Hc as (Hp & Hq & Hr).
  set (rs1 := rs ++ new_records (next_after rs) (entry_of_call c)) in *.
  assert (E : rs ++ new_records (next_after rs) (appended (c :: cs)) = rs1 ++ new_records (next_after rs1) (appended cs)).
  { unfold rs1. destruct c as [io res p|io|io]; [exact (new_records_cons rs (res, p) (appended cs))|..];
      cbn [entry_of_call new_records]; by rewrite app_nil_r. }
  rewrite E. destruct r1 as [[]|e].
  - specialize (IH w1 rs1 (Hr eq_refl)). cbv zeta in IH. destruct (run_calls cs w1) as [w2 r2].
    destruct IH as (H1 & H2 & H3). split; [by etrans|done].
  - split; [done|]. split; [|done]. etrans; [exact Hq|]. rewrite (encode_log_app rs1). by eexists.
Qed.

(** What a sync that returns has written, when no [fflush] left anything. *)
Definition flushes_all (c : Call) : Prop :=
  match c with CAppend io _ _ | CFlush io | CSync io => da_flushed io = None end.

Definition nothing_pending (w : FileWriter) : Prop := forall s, fw_file w = Some s -> sm_held s = [].

Lemma flush_leaves_nothing io w :
  da_flushed io = None -> nothing_pending w -> (file_flush io w).2 = Ok () ->
  nothing_pending (file_flush io w).1 /\ (fw_file w <> None -> fw_buffer (file_flush io w).1 = []).
Proof.
  intros Hio Hn. unfold file_flush. destruct (fw_file w) as [s|] eqn:Ef; [|intros _; by split].
  destruct (fw_buffer w) as [|x b] eqn:Eb; [intros _; by split|].
  destruct (fwrite _ _ _) as [n s1]. destruct (negb _); [done|]. intros _. split; [|done].
  intros s' [= <-]. rewrite Hio. apply drain_all.
Qed.

Lemma calls_leave_nothing cs : forall w,
  Forall flushes_all cs -> nothing_pending w -> (run_calls cs w).2 = Ok () -> nothing_pending (run_calls cs w).1.
Proof.
  induction cs as [|c cs IH]; intros w Hcs Hn; [done|]. apply Forall_cons in Hcs as [Hc Hcs]. cbn [run_calls].
  assert (H1 : (call c w).2 = Ok () -> nothing_pending (call c w).1).
  { destruct c as [io res p|io|io]; cbn [call flushes_all] in *.
    - unfold file_append. destruct (fw_file w) as [s|] eqn:Ef; [|done]. destruct (_ >=? _).
      + intros Hr. apply flush_leaves_nothing; [done| |done]. intros s'. cbn. intros [= <-]. by apply Hn.
      + intros _ s'. cbn. intros [= <-]. by apply Hn.
    - intros Hr. by apply flush_leaves_nothing.
    - unfold file_sync. pose proof (flush_leaves_nothing io w Hc Hn) as H.
      destruct (file_flush io w) as [w1 [[]|e]]; [|done]. intros _. by apply H. }
  destruct (call c w) as [w1 [[]|e]]; [|done]. apply IH; [done|by apply H1].
Qed.

Lemma run_calls_app cs cs' w :
  run_calls (cs ++ cs') w = match run_calls cs w with (w, Ok _) => run_calls cs' w | x => x end.
Proof. revert w. induction cs as [|c cs IH]; intros w; [done|]. cbn. by destruct (call c w) as [w1 []]. Qed.

(** A sync that returns leaves the buffer empty. *)
Lemma file_sync_empties io w : (file_sync io w).2 = Ok () -> fw_file (file_sync io w).1 <> None -> fw_buffer (file_sync io w).1 = [].
Proof.
  unfold file_sync, file_flush. destruct (fw_file w) as [s|] eqn:Ef; [|done].
  destruct (fw_buffer w) as [|x b] eqn:Eb; [done|]. destruct (fwrite _ _ _) as [n s1]. by destruct (negb _).
Qed.

Lemma run_calls_synced cs w io :
  last cs = Some (CSync io) -> (run_calls cs w).2 = Ok () -> fw_file (run_calls cs w).1 <> None -> fw_buffer (run_calls cs w).1 = [].
Proof.
  intros [cs' ->]%last_Some. rewrite run_calls_app. destruct (run_calls cs' w) as [w1 [[]|e]]; [|done].
  cbn [run_calls call]. pose proof (file_sync_empties io w1) as H. destruct (file_sync io w1) as [w2 [[]|e]]; [|done]. exact H.
Qed.

(** Where a cut of a log falls, when it does not reach into the records [rs]. *)
Lemma cut_prefix rs log k :
  Forall record_ok log -> rs `prefix_of` log -> (k <= length (encode_log log))%nat -> (length (encode_log rs) <= k)%nat ->
  exists j t, (length rs <= j)%nat /\ take k (encode_log log) = encode_log (take j log) ++ t /\
    torn log j t.
Proof.
  intros Hok [new ->] Hk Hle. apply Forall_app in Hok as [Hrs Hnew]. rewrite encode_log_app in *. rewrite length_app in Hk.
  rewrite take_app_ge by done. set (k' := (k - _)%nat).
  destruct (cut_log new k' ltac:(unfold k'; lia)) as (j & t & E & Ht). exists (length rs + j)%nat, t. split; [lia|].
  rewrite E, take_app_add, app_assoc, <- encode_log_app. split; [done|].
  destruct Ht as [->|(r & u & Hr & Eu)]; [by left|right]. exists r, u. split; [|done].
  rewrite lookup_app_r by lia. rewrite <- Hr. f_equal. lia.
Qed.

Lemma read_prefix rs log k :
  Forall record_ok log -> rs `prefix_of` log -> (k <= length (encode_log log))%nat -> (length (encode_log rs) <= k)%nat ->
  exists j t, (length rs <= j)%nat /\ take k (encode_log log) = encode_log (take j log) ++ t /\ torn log j t /\
    read_all (take k (encode_log log)) =
      Some (if (length t <? kHeaderSize)%nat then Ok (take j log) else Throw "truncated WAL record").
Proof.
  intros Hok Hp Hk Hle. destruct (cut_prefix rs log k Hok Hp Hk Hle) as (j & t & Hj & E & Ht). exists j, t.
  do 3 (split; [done|]). rewrite E, (read_all_log _ _ _ (Forall_take _ _ _ Hok) (torn_ends _ _ _ Hok Ht)). by destruct (_ <? _)%nat.
Qed.

(** A failing disk costs the end of the log, never the middle.  Opened on
    a log of whole records and used until the first exception, whatever part of
    its data every [fwrite] takes, every [fflush] passes on, and whatever [fsync]
    answers: the file is the old log, then records that were appended, in order
    and whole, then a part of the next one, which a reader takes for the end or
    stops at; nothing that had reached the file is undone.  If no [fflush] leaves
    anything behind, a sync that returns has written every record. *)
Theorem disk_failures_lose_only_the_end rs threshold cs w :
  Forall record_ok rs -> Forall entry_ok (appended cs) ->
  open_file true 0 true (encode_log rs) threshold = Some (Ok w) ->
  let '(w', r) := run_calls cs w in
  let log := rs ++ new_records (next_after rs) (appended cs) in
  (exists j t, (length rs <= j)%nat /\ disk_of w' = encode_log (take j log) ++ t /\ torn log j t /\
     read_all (disk_of w') =
       Some (if (length t <? kHeaderSize)%nat then Ok (take j log) else Throw "truncated WAL record")) /\
  (forall io, Forall flushes_all cs -> last cs = Some (CSync io) -> r = Ok () -> read_all (disk_of w') = Some (Ok log)).
Proof.
  intros Hrs Hcs Ho. unfold open_file in Ho. cbn [negb Z.eqb] in Ho. rewrite read_all_whole in Ho by done. injection Ho as <-.
  set (w := mkFileWriter _ _ _ _).
  assert (Hw : holds_log w rs) by (split; [done|]; split; [|done]; unfold disk_of, unwritten; cbn; by rewrite app_nil_r).
  pose proof (run_calls_spec cs w rs Hw) as H. pose proof (calls_leave_nothing cs w) as Hn. cbv zeta in H |- *.
  pose proof (run_calls_synced cs w) as Hsync.
  set (log := rs ++ _) in *. destruct (run_calls cs w) as [w' r]. destruct H as (Hold & Hnew & Hend). cbn [fst snd] in *.
  assert (Hlog : Forall record_ok log) by (apply Forall_app; split; [done|]; apply new_records_ok; [apply next_after_range|done]).
  split.
  - destruct Hnew as [u Eu]. assert (Ed : disk_of w' = take (length (disk_of w')) (encode_log log)) by by rewrite Eu, take_app_length.
    assert (Hlen : (length (disk_of w') <= length (encode_log log))%nat) by (rewrite Eu, length_app; lia).
    destruct (read_prefix rs log _ Hlog ltac:(by eexists) Hlen) as (j & t & Hj & E & Ht & Er).
    + destruct Hold as [x Ex]. rewrite Ex. unfold disk_of. cbn. rewrite length_app. lia.
    + exists j, t. rewrite Ed. done.
  - intros io Hall Hlast ->. assert (Hp : nothing_pending w') by (apply Hn; [done|by intros s [= <-]|done]).
    destruct (Hend eq_refl) as (Hf & E & _). specialize (Hsync io Hlast eq_refl Hf).
    unfold unwritten in E. rewrite Hsync, app_nil_r in E.
    destruct (fw_file w') as [s|] eqn:Es; [|done]. rewrite (Hp s Es), app_nil_r in E. rewrite E. by apply read_all_whole.
Qed.

(** ** A disk that answers well *)
Definition healthy : DiskAnswers := mkDiskAnswers None None None 0.

Definition is_healthy (c : Call) : Prop :=
  match c with CAppend io _ _ | CFlush io | CSync io => io = healthy end.

Definition wal_call (c : Call) (w : Writer) : Writer :=
  match c with CAppend _ reserved payload => append reserved payload w | CFlush _ => flush w | CSync _ => sync w end.

(** A writer of [Wal] and its stream. *)
Definition implements (w : FileWriter) (v : Writer) : Prop :=
  w = mkFileWriter (Some (mkStream (wt_file v) [])) (wt_buffer v) (wt_flush_threshold v) (wt_next_sequence v).

Lemma healthy_flush w v : implements w v -> exists w', file_flush healthy w = (w', Ok ()) /\ implements w' (flush v).
Proof.
  intros ->. unfold file_flush, flush. cbn [fw_file fw_buffer]. destruct (wt_buffer v) as [|x b] eqn:Eb; [eexists; split; [done|]; by destruct v; cbn in *; subst|].
  rewrite <- Eb. unfold fwrite, put. cbn [healthy da_taken da_drained da_flushed sm_file sm_held part].
  rewrite Nat.eqb_refl, take_ge, !drain_everything by done. cbn [negb]. eexists. split; [done|].
  unfold implements. cbn. by rewrite app_nil_r.
Qed.

Lemma healthy_calls cs : forall w v,
  Forall is_healthy cs -> implements w v ->
  exists w', run_calls cs w = (w', Ok ()) /\ implements w' (foldl (fun v c => wal_call c v) v cs).
Proof.
  induction cs as [|c cs IH]; intros w v Hcs Hw; [by exists w|]. apply Forall_cons in Hcs as [Hc Hcs].
  enough (exists w', call c w = (w', Ok ()) /\ implements w' (wal_call c v)) as (w' & E & H)
    by (cbn [run_calls foldl]; rewrite E; by apply IH).
  destruct c as [io res p|io|io]; cbn [is_healthy] in Hc; subst io; cbn [call wal_call].
  - unfold append. rewrite Hw. unfold file_append. cbn [fw_file fw_buffer fw_next_sequence fw_flush_threshold wt_buffer wt_flush_threshold].
    destruct (_ >=? _); [by apply healthy_flush|]. by eexists.
  - by apply healthy_flush.
  - unfold file_sync, sync. destruct (healthy_flush w v Hw) as (w' & -> & H). exists w'. split; [|done]. by rewrite H.
Qed.

(** ** A disk that fails, for the witness and the examples *)
Module DemoDisk.
(** Every byte is taken by the stream, and none reaches the file. *)
Definition stalled : DiskAnswers := mkDiskAnswers None (Some 0%nat) (Some 0%nat) 0.

(** The disk fills up after 40 bytes. *)
Definition full : DiskAnswers := mkDiskAnswers (Some 40%nat) None None 0.

Definition writer : FileWriter := mkFileWriter (Some (mkStream [] [])) [] 0 1.

Lemma opened : open_file true 0 true (encode_log []) 0 = Some (Ok writer).
Proof. done. Qed.

Definition calls : list Call := [CAppend healthy 0 [1; 2; 3]; CAppend full 0 (replicate 30 7); CSync healthy].

Lemma calls_ok : Forall entry_ok (appended calls).
Proof. repeat constructor; vm_compute; congruence. Qed.
End DemoDisk.

Lemma disk_failures_lose_only_the_end_witness :
  exists j t, disk_of (run_calls DemoDisk.calls DemoDisk.writer).1 =
    encode_log (take j (new_records 1 (appended DemoDisk.calls))) ++ t.
Proof.
  pose proof (disk_failures_lose_only_the_end [] 0 DemoDisk.calls DemoDisk.writer (Forall_nil_2 _) DemoDisk.calls_ok
    DemoDisk.opened) as H.
  destruct (run_calls DemoDisk.calls DemoDisk.writer) as [w' r]. destruct H as [(j & t & _ & E & _) _].
  exists j, t. exact E.
Defined.

(** The second append throws; the file then ends in a part of its record. *)
Example full_disk :
  let '(w, r) := run_calls DemoDisk.calls DemoDisk.writer in
  r = Throw "failed to write WAL buffer" /\ length (disk_of w) = 67%nat /\
  read_all (disk_of w) = Some (Throw "truncated WAL record").
Proof. by vm_compute. Qed.

(** [sync] can return with nothing on the disk: the result of [fflush] is not
    looked at, and a buffer that is empty is not flushed again. *)
Example sync_without_writing :
  let '(w, r) := run_calls [CAppend DemoDisk.stalled 0 [1; 2; 3]; CSync healthy; CSync healthy] DemoDisk.writer in
  r = Ok () /\ disk_of w = [] /\ length (unwritten w) = 27%nat.
Proof. by vm_compute. Qed.

(** A flush that throws has written a part of the buffer and keeps all of it: the
    flush of the destructor writes that part again, and the log cannot be read. *)
Example retry_writes_twice :
  let '(w, r) := file_append DemoDisk.full 0 (replicate 30 7) DemoDisk.writer in
  r = Throw "failed to write WAL buffer" /\
  file_destroy healthy None w = take 40 (encode_log (new_records 1 [(0, replicate 30 7)])) ++ encode_log (new_records 1 [(0, replicate 30 7)]) /\
  read_all (file_destroy healthy None w) = Some (Throw "WAL checksum mismatch").
Proof. by vm_compute. Qed.
