(* ===== verification/Snapshot.v ===== *)
(** * The snapshot store

    [libs/snapshot]: one file of checksummed records, appended to by [persist]
    and compacted when it has too many records or bytes.  The directory is two
    files, the snapshots and the temporary one compaction writes; disk calls succeed
    here ([SnapshotFile] has those that fail). *)
From S2P Require Import Prelude Bytes.

Definition kSnapMagic : Z := 0x5443534e.
Definition kVersionLegacy : Z := 1.
Definition kVersionChecksummed : Z := 2.

Record SnapshotHeader := mkSnapHeader {
  sh_magic : Z;
  sh_version : Z;
  sh_reserved : Z;
  sh_sequence : Z;
  sh_payload_size : Z }.

Record EncodedRecord := mkEncoded { er_header : SnapshotHeader; er_payload : bytes }.

Record SnapshotRecord := mkSnapshotRecord { sr_sequence : Z; sr_payload : bytes }.

Record StoreOptions := mkOptions { max_records : Z; max_file_bytes : Z }.

Definition default_options : StoreOptions := mkOptions 1024 (Z.shiftl 64 20).

(** The snapshot file and the temporary file, if they exist. *)
Record Disk := mkDisk { dk_snapshot : option bytes; dk_tmp : option bytes }.

(** [directory_] is empty until [prepare]. *)
Record Store := mkStore { st_prepared : bool; st_disk : Disk; st_options : StoreOptions }.

(** ** Records *)
Definition kSnapHeaderSize : nat := 16.

Definition snap_header_bytes (h : SnapshotHeader) : bytes :=
  to_le 4 (sh_magic h) ++ to_le 2 (sh_version h) ++ to_le 2 (sh_reserved h) ++
  to_le 4 (sh_sequence h) ++ to_le 4 (sh_payload_size h).

Definition snap_header_of (b : bytes) : SnapshotHeader :=
  mkSnapHeader (of_le (sub b 0 4)) (of_le (sub b 4 2)) (of_le (sub b 6 2)) (of_le (sub b 8 4))
    (of_le (sub b 12 4)).

Definition encoded_record_size (r : EncodedRecord) : Z :=
  Z.of_nat kSnapHeaderSize + Z.of_nat (length (er_payload r)) + 4.

(** The bytes [write_record] adds to a stream. *)
Definition write_record (sequence : Z) (payload : bytes) : bytes :=
  snap_header_bytes (mkSnapHeader kSnapMagic kVersionChecksummed 0 sequence
                       (u32 (Z.of_nat (length payload)))) ++
  payload ++ to_le 4 (checksum32 payload).

(** [read_next_record] on the rest of the stream: a record and what follows, or
    nothing when not even a header is left. *)
Definition read_next_record (b : bytes) : result (option (EncodedRecord * bytes)) :=
  if (length b <? kSnapHeaderSize)%nat then Ok None
  else
    let header := snap_header_of b in
    let b := drop kSnapHeaderSize b in
    if negb (sh_magic header =? kSnapMagic) then Throw "invalid snapshot magic"
    else if negb (sh_version header =? kVersionLegacy) && negb (sh_version header =? kVersionChecksummed)
    then Throw "unsupported snapshot version"
    else
      if Z.of_nat (length b) <? sh_payload_size header then Throw "truncated snapshot payload"
      else
        let size := Z.to_nat (sh_payload_size header) in
        let payload := take size b in
        let b := drop size b in
        if sh_version header >=? kVersionChecksummed then
          if (length b <? 4)%nat then Throw "truncated snapshot checksum"
          else if negb (of_le (sub b 0 4) =? checksum32 payload) then Throw "snapshot checksum mismatch"
          else Ok (Some (mkEncoded header payload, drop 4 b))
        else Ok (Some (mkEncoded header payload, b)).

(** The loop of [load_records]; [None] when the turns run out. *)
Fixpoint load_loop (n : nat) (b : bytes) : option (result (list EncodedRecord)) :=
  match n with
  | O => None
  | S n =>
      match read_next_record b with
      | Throw e => Some (Throw e)
      | Ok None => Some (Ok [])
      | Ok (Some (r, b)) =>
          match load_loop n b with
          | Some (Ok rs) => Some (Ok (r :: rs))
          | x => x
          end
      end
  end.

Definition load_records (file : option bytes) : option (result (list EncodedRecord)) :=
  match file with
  | None => Some (Ok [])
  | Some b => load_loop (S (length b)) b
  end.

(** ** The store *)
Definition prepare (s : Store) : Store := mkStore true (st_disk s) (st_options s).
Definition set_options (o : StoreOptions) (s : Store) : Store := mkStore (st_prepared s) (st_disk s) o.

Definition set_disk (d : Disk) (s : Store) : Store := mkStore (st_prepared s) d (st_options s).

(** The file the store looks at: none before [prepare]. *)
Definition snapshot_file (s : Store) : option bytes :=
  if st_prepared s then dk_snapshot (st_disk s) else None.

Definition latest (s : Store) : option (result (option SnapshotRecord)) :=
  match load_records (snapshot_file s) with
  | None => None
  | Some (Throw e) => Some (Throw e)
  | Some (Ok rs) =>
      Some (Ok (match last rs with
                | None => None
                | Some r => Some (mkSnapshotRecord (sh_sequence (er_header r)) (er_payload r))
                end))
  end.

Definition record_count (s : Store) : option (result Z) :=
  match load_records (snapshot_file s) with
  | None => None
  | Some (Throw e) => Some (Throw e)
  | Some (Ok rs) => Some (Ok (Z.of_nat (length rs)))
  end.

(** [kept_size]. *)
Definition kept_size (rs : list EncodedRecord) : Z := Zsum encoded_record_size rs.

(** The [while] that drops the oldest records until the rest fits the limit,
    always keeping one. *)
Fixpoint drop_to_fit (limit : Z) (rs : list EncodedRecord) : list EncodedRecord :=
  match rs with
  | r :: ((_ :: _) as rest) => if kept_size rs >? limit then drop_to_fit limit rest else rs
  | _ => rs
  end.

(** The records compaction keeps. *)
Definition compacted (o : StoreOptions) (rs : list EncodedRecord) : list EncodedRecord :=
  let n := Z.of_nat (length rs) in
  let rs := if (max_records o >? 0) && (n >? max_records o)
            then drop (Z.to_nat (n - max_records o)) rs else rs in
  if max_file_bytes o >? 0 then drop_to_fit (max_file_bytes o) rs else rs.

Definition rewrite_records (rs : list EncodedRecord) : bytes :=
  concat (map (fun r => write_record (sh_sequence (er_header r)) (er_payload r)) rs).

(** What compaction does to the directory, one disk operation at a time. *)
Definition compaction_steps (kept : list EncodedRecord) : list (Disk -> Disk) :=
  [fun d => mkDisk (dk_snapshot d) (Some (rewrite_records kept));
   fun d => mkDisk None (dk_tmp d);
   fun d => mkDisk (dk_tmp d) None].

Definition run_steps (steps : list (Disk -> Disk)) (d : Disk) : Disk := foldl (fun d f => f d) d steps.

(** [compact_if_needed]. *)
Definition compact_if_needed (s : Store) : option (Store * result unit) :=
  let o := st_options s in
  match snapshot_file s with
  | None => Some (s, Ok ())
  | Some file =>
      if negb (max_file_bytes o >? 0) && negb (max_records o >? 0) then Some (s, Ok ())
      else match load_records (Some file) with
      | None => None
      | Some (Throw e) => Some (s, Throw e)
      | Some (Ok rs) =>
          let needs_compaction :=
            ((max_file_bytes o >? 0) && (Z.of_nat (length file) >? max_file_bytes o)) ||
            ((max_records o >? 0) && (Z.of_nat (length rs) >? max_records o)) in
          if negb needs_compaction || bool_decide (rs = []) then Some (s, Ok ())
          else Some (set_disk (run_steps (compaction_steps (compacted o rs)) (st_disk s)) s, Ok ())
      end
  end.

(** [persist]: append a record, then compact. *)
Definition persist (sequence_id : Z) (payload : bytes) (s : Store) : option (Store * result unit) :=
  if negb (st_prepared s) then Some (s, Throw "snapshot store directory not set")
  else
    let file := default [] (dk_snapshot (st_disk s)) ++ write_record sequence_id payload in
    compact_if_needed (set_disk (mkDisk (Some file) (dk_tmp (st_disk s))) s).
