(* ===== verification/SnapshotProps.v ===== *)
(** * The snapshot store keeps the latest records *)
From S2P Require Import Prelude Bytes Snapshot.

(** The bytes of a record: a legacy one has no checksum. *)
Definition encode_snap (r : EncodedRecord) : bytes :=
  snap_header_bytes (er_header r) ++ er_payload r ++
  (if sh_version (er_header r) >=? kVersionChecksummed then to_le 4 (checksum32 (er_payload r)) else []).

Definition encode_snaps (rs : list EncodedRecord) : bytes := concat (map encode_snap rs).

Record snap_ok (r : EncodedRecord) : Prop := {
  so_magic : sh_magic (er_header r) = kSnapMagic;
  so_version : sh_version (er_header r) = kVersionLegacy \/ sh_version (er_header r) = kVersionChecksummed;
  so_reserved : in_u 16 (sh_reserved (er_header r));
  so_sequence : in_u 32 (sh_sequence (er_header r));
  so_size : sh_payload_size (er_header r) = Z.of_nat (length (er_payload r));
  so_bound : Z.of_nat (length (er_payload r)) < 2 ^ 32 }.

(** The record [write_record] writes. *)
Definition current (sequence : Z) (payload : bytes) : EncodedRecord :=
  mkEncoded (mkSnapHeader kSnapMagic kVersionChecksummed 0 sequence (Z.of_nat (length payload))) payload.

Definition renew (r : EncodedRecord) : EncodedRecord := current (sh_sequence (er_header r)) (er_payload r).

Definition view (r : EncodedRecord) : SnapshotRecord :=
  mkSnapshotRecord (sh_sequence (er_header r)) (er_payload r).

Lemma length_snap_header h : length (snap_header_bytes h) = 16%nat.
Proof. unfold snap_header_bytes. by rewrite !length_app, !length_to_le. Qed.

Lemma snap_header_roundtrip r rest : snap_ok r ->
  snap_header_of (snap_header_bytes (er_header r) ++ rest) = er_header r.
Proof.
  intros [H1 H2 H3 H4 H5 H6]. unfold snap_header_of, snap_header_bytes. rewrite <- !app_assoc.
  destruct (er_header r) as [m v s q z]. cbn in *. subst m z.
  f_equal; field; apply read_u; try done.
  - destruct H2 as [-> | ->]; vm_compute; split; congruence.
  - unfold in_u. lia.
Qed.

Lemma current_ok sequence payload : in_u 32 sequence -> Z.of_nat (length payload) < 2 ^ 32 ->
  snap_ok (current sequence payload).
Proof. intros Hs Hp. split; cbn; [done|by right|split; done|done|done|done]. Qed.

Lemma renew_ok r : snap_ok r -> snap_ok (renew r).
Proof. intros []. by apply current_ok. Qed.

Lemma encode_current sequence payload : Z.of_nat (length payload) < 2 ^ 32 ->
  encode_snap (current sequence payload) = write_record sequence payload.
Proof.
  intros Hp. unfold encode_snap, write_record, current. cbn [er_header er_payload sh_version].
  rewrite wrapu_small by (unfold in_u; lia). done.
Qed.

Lemma read_next_encoded r rest : snap_ok r ->
  read_next_record (encode_snap r ++ rest) = Ok (Some (r, rest)).
Proof.
  intros Hr. unfold read_next_record, encode_snap, kSnapHeaderSize. rewrite <- !app_assoc.
  rewrite length_app, length_snap_header.
  destruct (Nat.ltb_spec (16 + length (er_payload r ++ (if sh_version (er_header r) >=? kVersionChecksummed
    then to_le 4 (checksum32 (er_payload r)) else []) ++ rest)) 16); [lia|].
  rewrite snap_header_roundtrip by done. rewrite (so_magic _ Hr), Z.eqb_refl. cbn [negb].
  rewrite drop_app_length' by (by rewrite length_snap_header).
  rewrite (so_size _ Hr), Nat2Z.id, length_app.
  rewrite take_app_length, drop_app_length.
  destruct (Z.ltb_spec (Z.of_nat (length (er_payload r) + length ((if sh_version (er_header r) >=? kVersionChecksummed
    then to_le 4 (checksum32 (er_payload r)) else []) ++ rest))) (Z.of_nat (length (er_payload r)))); [lia|].
  destruct (so_version _ Hr) as [Ev|Ev]; rewrite Ev; cbn [negb andb Z.eqb Z.geb kVersionLegacy kVersionChecksummed].
  - by destruct r.
  - cbn. rewrite length_app, length_to_le. cbn.
    rewrite sub_first, read_u by apply checksum32_range. rewrite Z.eqb_refl. cbn.
    rewrite drop_app_length' by (by rewrite length_to_le). by destruct r.
Qed.

Lemma encode_snaps_length rs : (16 * length rs <= length (encode_snaps rs))%nat.
Proof.
  induction rs as [|r rs IH]; [cbn; lia|]. unfold encode_snaps in *. cbn [map concat length].
  rewrite length_app. unfold encode_snap at 1. rewrite length_app, length_snap_header. lia.
Qed.

Lemma load_loop_encoded rs : forall n, Forall snap_ok rs -> (length rs < n)%nat ->
  load_loop n (encode_snaps rs) = Some (Ok rs).
Proof.
  induction rs as [|r rs IH]; intros n Hok Hn; (destruct n as [|n]; [cbn in Hn; lia|]); [done|].
  apply Forall_cons in Hok as [Hr Hok]. cbn [load_loop].
  change (encode_snaps (r :: rs)) with (encode_snap r ++ encode_snaps rs).
  rewrite read_next_encoded by done. rewrite IH; [done|done|cbn in Hn; lia].
Qed.

Lemma load_encoded rs : Forall snap_ok rs -> load_records (Some (encode_snaps rs)) = Some (Ok rs).
Proof.
  intros Hok. apply load_loop_encoded; [done|]. pose proof (encode_snaps_length rs). lia.
Qed.

Lemma rewrite_encoded rs : Forall snap_ok rs -> rewrite_records rs = encode_snaps (map renew rs).
Proof.
  intros Hok. unfold rewrite_records, encode_snaps. induction Hok as [|r rs Hr Hok IH]; [done|].
  cbn [map concat]. rewrite IH. f_equal. symmetry. apply encode_current, Hr.
Qed.

(** ** What compaction keeps *)
Lemma drop_to_fit_spec limit rs :
  exists k, drop_to_fit limit rs = drop k rs /\ (rs <> [] -> (k < length rs)%nat) /\
    (kept_size (drop_to_fit limit rs) <= limit \/ (length (drop_to_fit limit rs) <= 1)%nat).
Proof.
  induction rs as [|r rs IH]; [exists 0%nat; split; [done|]; split; [done|right; cbn; lia]|].
  destruct rs as [|r' rs]; [exists 0%nat; split; [done|]; split; [cbn; lia|right; cbn; lia]|].
  destruct IH as (k & E & Hk & Hs). cbn [drop_to_fit].
  destruct (Z.gtb_spec (kept_size (r :: r' :: rs)) limit).
  - exists (S k). cbn [drop]. split; [exact E|]. split; [|exact Hs].
    intros _. specialize (Hk ltac:(done)). cbn in *. lia.
  - exists 0%nat. split; [done|]. split; [cbn; lia|by left].
Qed.

Lemma compacted_spec o rs : rs <> [] ->
  exists k, compacted o rs = drop k rs /\ (k < length rs)%nat /\
    (0 < max_records o -> Z.of_nat (length (compacted o rs)) <= max_records o) /\
    (0 < max_file_bytes o -> kept_size (compacted o rs) <= max_file_bytes o \/
                             (length (compacted o rs) <= 1)%nat).
Proof.
  intros Hne. unfold compacted.
  set (rs1 := if (max_records o >? 0) && (Z.of_nat (length rs) >? max_records o)
              then drop (Z.to_nat (Z.of_nat (length rs) - max_records o)) rs else rs).
  assert (exists k, rs1 = drop k rs /\ (k < length rs)%nat /\
    (0 < max_records o -> Z.of_nat (length rs1) <= max_records o)) as (k & E & Hk & Hl).
  { assert (0 < length rs)%nat by (destruct rs; [done|cbn; lia]). unfold rs1.
    destruct (Z.gtb_spec (max_records o) 0); cbn [andb]; [|exists 0%nat; split; [done|]; split; [done|lia]].
    destruct (Z.gtb_spec (Z.of_nat (length rs)) (max_records o)); [|exists 0%nat; split; [done|lia]].
    eexists. split; [done|]. rewrite length_drop. lia. }
  destruct (Z.gtb_spec (max_file_bytes o) 0).
  - destruct (drop_to_fit_spec (max_file_bytes o) rs1) as (k' & E' & Hk' & Hs).
    assert (rs1 <> []) by (intros E0; apply (f_equal length) in E; rewrite E0, length_drop in E; cbn in E; lia).
    specialize (Hk' H0). rewrite E', E, drop_drop. exists (k + k')%nat.
    rewrite E, length_drop in Hk'. split; [done|]. split; [lia|]. split.
    + intros Hp. specialize (Hl Hp). rewrite E, length_drop in Hl. rewrite length_drop. lia.
    + intros _. by rewrite E', E, drop_drop in Hs.
  - exists k. split; [done|]. split; [done|]. split; [done|lia].
Qed.

(** A store whose file holds [rs]. *)
Definition holds (s : Store) (rs : list EncodedRecord) : Prop :=
  st_prepared s = true /\ Forall snap_ok rs /\ default [] (dk_snapshot (st_disk s)) = encode_snaps rs.

Lemma holds_load s rs : holds s rs -> load_records (snapshot_file s) = Some (Ok rs).
Proof.
  intros (Hp & Hok & Hf). unfold snapshot_file. rewrite Hp.
  destruct (dk_snapshot (st_disk s)) as [b|]; cbn in Hf.
  - subst b. by apply load_encoded.
  - destruct rs as [|r rs]; [done|]. apply (f_equal length) in Hf.
    pose proof (encode_snaps_length (r :: rs)). cbn in *. lia.
Qed.

Lemma latest_holds s rs : holds s rs -> latest s = Some (Ok (view <$> last rs)).
Proof. intros H. unfold latest. rewrite (holds_load s rs H). by destruct (last rs). Qed.

(** The records after a [persist]: the old ones and the new one, or the end of
    that list, rewritten in the current format. *)
Lemma persist_spec sequence payload s rs :
  holds s rs -> in_u 32 sequence -> Z.of_nat (length payload) < 2 ^ 32 ->
  let all := rs ++ [current sequence payload] in
  exists s' rs', persist sequence payload s = Some (s', Ok ()) /\ holds s' rs' /\ st_options s' = st_options s /\
    exists k, (k < length all)%nat /\
      ((rs' = all /\ k = 0%nat /\
        (0 < max_file_bytes (st_options s) -> Z.of_nat (length (encode_snaps all)) <= max_file_bytes (st_options s)) /\
        (0 < max_records (st_options s) -> Z.of_nat (length all) <= max_records (st_options s))) \/
       (rs' = map renew (drop k all) /\ compacted (st_options s) all = drop k all /\
        (0 < max_records (st_options s) -> Z.of_nat (length (drop k all)) <= max_records (st_options s)) /\
        (0 < max_file_bytes (st_options s) -> kept_size (drop k all) <= max_file_bytes (st_options s) \/
                             (length (drop k all) <= 1)%nat))).
Proof.
  intros (Hp & Hok & Hf) Hs Hl all. set (o := st_options s).
  assert (Hall : Forall snap_ok all) by (apply Forall_app; split; [done|constructor; [by apply current_ok|done]]).
  assert (Hfile : default [] (dk_snapshot (st_disk s)) ++ write_record sequence payload = encode_snaps all).
  { rewrite Hf, <- encode_current by done. unfold all, encode_snaps. rewrite map_app, concat_app. cbn.
    by rewrite app_nil_r. }
  assert (Hne : all <> []) by (unfold all; by destruct rs).
  unfold persist. rewrite Hp, Hfile. cbn [negb].
  set (s1 := set_disk _ s). assert (H1 : holds s1 all) by (split; [done|by split]).
  unfold compact_if_needed. unfold snapshot_file. cbn [s1 set_disk st_prepared st_disk dk_snapshot st_options].
  rewrite Hp. fold o. assert (Hlen : (0 < length all)%nat) by (destruct all; [done|cbn; lia]).
  destruct (Z.gtb_spec (max_file_bytes o) 0) as [Hmf|Hmf], (Z.gtb_spec (max_records o) 0) as [Hmr|Hmr];
    cbn [negb andb];
    [| | |by exists s1, all; split; [done|]; split; [done|]; split; [done|]; exists 0%nat; split; [done|]; left; repeat split; lia].
  all: rewrite load_encoded by done; rewrite (bool_decide_false (all = [])) by done; rewrite orb_false_r;
    set (needs := _ || _); destruct needs eqn:En; cbn [negb];
    [destruct (compacted_spec o all Hne) as (k & Ek & Hk & Hcr & Hcf); rewrite Ek in Hcr, Hcf;
     exists (set_disk (run_steps (compaction_steps (compacted o all)) (st_disk s1)) s1), (map renew (drop k all));
     split; [done|]; split; [|split; [done|exists k; split; [done|]; right; by repeat split]];
     split; [done|]; split; [apply Forall_map, Forall_drop; eapply Forall_impl; [exact Hall|exact renew_ok]|];
     cbn; rewrite Ek; apply rewrite_encoded; by apply Forall_drop
    |apply orb_false_iff in En as [En1 En2];
     exists s1, all; split; [done|]; split; [done|]; split; [done|]; exists 0%nat; split; [done|]; left;
     split; [done|]; split; [done|]; split; intros; cbn in En1, En2; lia].
Qed.

Lemma last_drop {A} k (l : list A) : (k < length l)%nat -> last (drop k l) = last l.
Proof.
  intros H. rewrite <- (take_drop k l) at 2. rewrite last_app.
  destruct (last (drop k l)) eqn:E; [done|]. apply last_None in E.
  apply (f_equal length) in E. rewrite length_drop in E. cbn in E. lia.
Qed.

(** C36: what is persisted is what is restored.  On a store that holds records
    of either format, or none, and whatever its limits, persisting succeeds, and
    the latest snapshot is then the one just persisted. *)
Theorem persist_then_latest sequence payload s rs :
  holds s rs -> in_u 32 sequence -> Z.of_nat (length payload) < 2 ^ 32 ->
  exists s' rs', persist sequence payload s = Some (s', Ok ()) /\ holds s' rs' /\
    latest s' = Some (Ok (Some (mkSnapshotRecord sequence payload))).
Proof.
  intros Hh Hs Hl. destruct (persist_spec sequence payload s rs Hh Hs Hl)
    as (s' & rs' & E & Hh' & _ & k & Hk & Hcase).
  exists s', rs'. split; [done|]. split; [done|]. rewrite (latest_holds _ _ Hh'). do 2 f_equal.
  destruct Hcase as [[-> _]|[-> _]]; [by rewrite last_snoc|].
  rewrite fmap_last, last_drop by done. by rewrite last_snoc.
Qed.

Definition empty_store (o : StoreOptions) : Store := mkStore true (mkDisk None None) o.

Lemma persist_then_latest_witness :
  exists s' rs', persist 7 [1; 2; 3] (empty_store (mkOptions 1 0)) = Some (s', Ok ()) /\ holds s' rs' /\
    latest s' = Some (Ok (Some (mkSnapshotRecord 7 [1; 2; 3]))).
Proof.
  refine (persist_then_latest 7 [1; 2; 3] (empty_store (mkOptions 1 0)) [] _ _ _).
  - split; [done|]. split; [constructor|done].
  - vm_compute; split; congruence.
  - vm_compute; congruence.
Defined.

Lemma kept_size_length rs : Forall snap_ok rs ->
  kept_size rs = Z.of_nat (length (encode_snaps (map renew rs))).
Proof.
  unfold kept_size, encode_snaps. induction 1 as [|r rs Hr Hok IH]; [done|].
  rewrite Zsum_cons, IH. cbn [map concat]. rewrite length_app, Nat2Z.inj_add. f_equal.
  unfold encode_snap. rewrite !length_app, length_snap_header. cbn. rewrite length_to_le.
  unfold encoded_record_size, kSnapHeaderSize. lia.
Qed.

(** Compaction keeps the store within its limits without losing what is
    recent.  After a successful persist the records are the last ones of the old
    records and the new one, never none; there are no more than [max_records],
    and the file is no larger than [max_file_bytes] unless one record alone is. *)
Theorem persist_within_limits sequence payload s rs :
  let o := st_options s in
  holds s rs -> in_u 32 sequence -> Z.of_nat (length payload) < 2 ^ 32 ->
  exists s' rs' k, persist sequence payload s = Some (s', Ok ()) /\ holds s' rs' /\
    map view rs' = drop k (map view rs ++ [mkSnapshotRecord sequence payload]) /\ rs' <> [] /\
    (0 < max_records o -> record_count s' = Some (Ok (Z.of_nat (length rs'))) /\
                          Z.of_nat (length rs') <= max_records o) /\
    (0 < max_file_bytes o -> Z.of_nat (length (encode_snaps rs')) <= max_file_bytes o \/ length rs' = 1%nat).
Proof.
  intros o Hh Hs Hl. destruct (persist_spec sequence payload s rs Hh Hs Hl)
    as (s' & rs' & E & Hh' & _ & k & Hk & Hcase). fold o in Hcase.
  set (all := rs ++ [current sequence payload]) in *.
  assert (Hv : map view all = map view rs ++ [mkSnapshotRecord sequence payload]).
  { unfold all. by rewrite map_app. }
  assert (Hok : Forall snap_ok all).
  { destruct Hh as (_ & Hok & _). apply Forall_app. split; [done|]. constructor; [by apply current_ok|done]. }
  assert (Hc : record_count s' = Some (Ok (Z.of_nat (length rs')))).
  { unfold record_count. by rewrite (holds_load _ _ Hh'). }
  exists s', rs', k. split; [done|]. split; [done|]. rewrite <- Hv.
  destruct Hcase as [(-> & -> & Hf & Hr)|(-> & _ & Hr & Hf)].
  - split; [done|]. split; [unfold all; by destruct rs|]. split; [auto|]. intros Hm. left. auto.
  - split; [rewrite map_map, skipn_map; by apply map_ext|].
    assert (Hd : (0 < length (drop k all))%nat) by (rewrite length_drop; lia).
    split; [destruct (drop k all); [cbn in Hd; lia|done]|].
    rewrite length_map in *. split; [auto|]. intros Hm. destruct (Hf Hm) as [Hsz|H1].
    + left. rewrite <- kept_size_length; [done|]. by apply Forall_drop.
    + right. lia.
Qed.

Lemma persist_within_limits_witness :
  exists s' rs' k, persist 9 [5] (empty_store (mkOptions 1 25)) = Some (s', Ok ()) /\ holds s' rs' /\
    map view rs' = drop k (map view [] ++ [mkSnapshotRecord 9 [5]]) /\ rs' <> [] /\
    (0 < 1 -> record_count s' = Some (Ok (Z.of_nat (length rs'))) /\ Z.of_nat (length rs') <= 1) /\
    (0 < 25 -> Z.of_nat (length (encode_snaps rs')) <= 25 \/ length rs' = 1%nat).
Proof.
  refine (persist_within_limits 9 [5] (empty_store (mkOptions 1 25)) [] _ _ _).
  - split; [done|]. split; [constructor|done].
  - vm_compute; split; congruence.
  - vm_compute; congruence.
Defined.

(** ** Behaviours a caller may not expect *)

(** Compaction removes the old file before it renames the new one: stopped in
    between, it leaves a directory in which the store finds no snapshot. *)
Example crash_in_compaction_loses_all :
  let old := encode_snaps [current 1 [1]; current 2 [2]] in
  let kept := [current 2 [2]] in
  let crashed := run_steps (take 2 (compaction_steps kept)) (mkDisk (Some old) None) in
  latest (mkStore true (mkDisk (Some old) None) default_options) =
    Some (Ok (Some (mkSnapshotRecord 2 [2]))) /\
  latest (mkStore true crashed default_options) = Some (Ok None).
Proof. vm_compute. split; reflexivity. Qed.

(** A header torn by a crash is skipped silently, and the next [persist] then
    makes the whole file unreadable. *)
Example persist_after_torn_header :
  let torn := encode_snaps [current 1 [1]] ++ take 7 (write_record 2 [2]) in
  let s := mkStore true (mkDisk (Some torn) None) default_options in
  latest s = Some (Ok (Some (mkSnapshotRecord 1 [1]))) /\
  match persist 3 [3] s with
  | Some (s', Throw e) => latest s' = Some (Throw e)
  | _ => False
  end.
Proof. vm_compute. split; reflexivity. Qed.
