(* ===== verification/SnapshotFile.v ===== *)
(** * The snapshot store on a disk that fails

    [persist] and its compaction of [libs/snapshot], with the answers of the disk
    as arguments: every open, write, flush and rename may fail.  An [ofstream] that
    failed throws at the next test of it, and its destructor passes on a part of
    what it still holds; the flush and the close at the end of a compaction are
    not tested.  [Snapshot.persist] is this store on a disk that answers well. *)
From S2P Require Import Prelude Bytes Output Snapshot SnapshotProps.

(** One [ostream::write]: what it takes (less than everything is a failure) and
    what reaches the file. *)
Record WriteAnswer := mkWriteAnswer { wa_taken : option nat; wa_drained : option nat }.

Definition fine : WriteAnswer := mkWriteAnswer None None.

Definition ostream_write (io : WriteAnswer) (data : bytes) (error : string) (s : Stream) : Stream * result () :=
  (put (wa_taken io) (wa_drained io) data s,
   if (part (wa_taken io) data =? length data)%nat then Ok () else Throw error).

Record RecordAnswers := mkRecordAnswers { ra_header : WriteAnswer; ra_payload : WriteAnswer; ra_checksum : WriteAnswer }.

Definition all_fine : RecordAnswers := mkRecordAnswers fine fine fine.

(** [write_record], write by write. *)
Definition write_record_to (io : RecordAnswers) (sequence : Z) (payload : bytes) (s : Stream) : Stream * result () :=
  let header := mkSnapHeader kSnapMagic kVersionChecksummed 0 sequence (u32 (Z.of_nat (length payload))) in
  match ostream_write (ra_header io) (snap_header_bytes header) "failed to write snapshot header" s with
  | (s, Throw e) => (s, Throw e)
  | (s, Ok _) =>
      match (if bool_decide (payload = []) then (s, Ok ())
             else ostream_write (ra_payload io) payload "failed to write snapshot payload" s) with
      | (s, Throw e) => (s, Throw e)
      | (s, Ok _) =>
          ostream_write (ra_checksum io) (to_le 4 (checksum32 payload)) "failed to write snapshot checksum" s
      end
  end.

(** The records compaction writes; every one is answered, the ones the list does
    not reach well. *)
Fixpoint write_records (ios : list RecordAnswers) (rs : list EncodedRecord) (s : Stream) : Stream * result () :=
  match rs with
  | [] => (s, Ok ())
  | r :: rs =>
      match write_record_to (hd all_fine ios) (sh_sequence (er_header r)) (er_payload r) s with
      | (s, Ok _) => write_records (tl ios) rs s
      | x => x
      end
  end.

(** The answers during a compaction: the two opens, the records, how much the
    flush and the close pass on, and whether the removal and the renaming work. *)
Record CompactAnswers := mkCompactAnswers {
  ca_read : bool;
  ca_open : bool;
  ca_records : list RecordAnswers;
  ca_flush : option nat;
  ca_close : option nat;
  ca_remove : bool;
  ca_rename : bool }.

(** The end of a compaction, from the opening of the temporary file on. *)
Definition compact_to (io : CompactAnswers) (kept : list EncodedRecord) (d : Disk) : Disk * result () :=
  if negb (ca_open io) then (d, Throw "failed to open temporary snapshot file for compaction")
  else
    match write_records (ca_records io) kept (mkStream [] []) with
    | (s, Throw e) => (mkDisk (dk_snapshot d) (Some (sm_file (drain (ca_close io) s))), Throw e)
    | (s, Ok _) =>
        let s := drain (ca_close io) (drain (ca_flush io) s) in
        if negb (ca_remove io) then (mkDisk (dk_snapshot d) (Some (sm_file s)), Throw "filesystem error: cannot remove")
        else if negb (ca_rename io) then (mkDisk None (Some (sm_file s)), Throw "filesystem error: cannot rename")
        else (mkDisk (Some (sm_file s)) None, Ok ())
    end.

Definition needs_compaction (o : StoreOptions) (file : bytes) (rs : list EncodedRecord) : bool :=
  ((max_file_bytes o >? 0) && (Z.of_nat (length file) >? max_file_bytes o)) ||
  ((max_records o >? 0) && (Z.of_nat (length rs) >? max_records o)).

Definition compact_if_needed_to (io : CompactAnswers) (s : Store) : option (Store * result ()) :=
  let o := st_options s in
  match snapshot_file s with
  | None => Some (s, Ok ())
  | Some file =>
      if negb (max_file_bytes o >? 0) && negb (max_records o >? 0) then Some (s, Ok ())
      else if negb (ca_read io) then Some (s, Throw "failed to open snapshot file for read")
      else match load_records (Some file) with
      | None => None
      | Some (Throw e) => Some (s, Throw e)
      | Some (Ok rs) =>
          if negb (needs_compaction o file rs) || bool_decide (rs = []) then Some (s, Ok ())
          else let '(d, r) := compact_to io (compacted o rs) (st_disk s) in Some (set_disk d s, r)
      end
  end.

Record PersistAnswers := mkPersistAnswers {
  pa_open : bool;
  pa_record : RecordAnswers;
  pa_flush : option nat;
  pa_close : option nat;                      (* what the destructor passes on *)
  pa_compact : CompactAnswers }.

Definition set_snapshot (file : bytes) (s : Store) : Store := set_disk (mkDisk (Some file) (dk_tmp (st_disk s))) s.

Definition persist_to (io : PersistAnswers) (sequence_id : Z) (payload : bytes) (s : Store)
    : option (Store * result ()) :=
  if negb (st_prepared s) then Some (s, Throw "snapshot store directory not set")
  else if negb (pa_open io) then Some (s, Throw "failed to open snapshot file for write")
  else
    let closed out := set_snapshot (sm_file (drain (pa_close io) out)) s in
    match write_record_to (pa_record io) sequence_id payload (mkStream (default [] (dk_snapshot (st_disk s))) []) with
    | (out, Throw e) => Some (closed out, Throw e)
    | (out, Ok _) =>
        let out := drain (pa_flush io) out in
        if negb (length (sm_held out) =? 0)%nat then Some (closed out, Throw "failed to flush snapshot file")
        else compact_if_needed_to (pa_compact io) (set_snapshot (sm_file out) s)
    end.

(** ** What a stream has been given *)

(** From [s] to [s'], [data] was written as far as [r] says. *)
Definition wrote (data : bytes) (s s' : Stream) (r : result ()) : Prop :=
  sm_file s `prefix_of` sm_file s' /\
  exists t, t `prefix_of` data /\ stream_bytes s' = stream_bytes s ++ t /\ (r = Ok () -> t = data).

Lemma drain_file n s : sm_file s `prefix_of` sm_file (drain n s).
Proof. by eexists. Qed.

Lemma put_file a b data s : sm_file s `prefix_of` sm_file (put a b data s).
Proof. by eexists. Qed.

Lemma take_prefix n (b : bytes) : take n b `prefix_of` b.
Proof. exists (drop n b). by rewrite take_drop. Qed.

Lemma ostream_wrote io data e s : wrote data s (ostream_write io data e s).1 (ostream_write io data e s).2.
Proof.
  split; [apply put_file|]. eexists. split; [|split; [apply put_bytes|]]; [apply take_prefix|].
  cbn [ostream_write snd]. destruct (Nat.eqb_spec (part (wa_taken io) data) (length data)) as [E|E]; [|done].
  intros _. by rewrite take_ge by lia.
Qed.

Lemma wrote_nothing s : wrote [] s s (Ok ()).
Proof. split; [done|]. exists []. by rewrite app_nil_r. Qed.

Lemma wrote_throw a b s s' e : wrote a s s' (Throw e) -> wrote (a ++ b) s s' (Throw e).
Proof. intros (H & t & Ht & E & _). split; [done|]. exists t. split; [by apply prefix_app_r|done]. Qed.

Lemma wrote_then a b s s1 s2 r : wrote a s s1 (Ok ()) -> wrote b s1 s2 r -> wrote (a ++ b) s s2 r.
Proof.
  intros (H1 & t1 & _ & E1 & Ht1) (H2 & t2 & Hp & E2 & Ht2). rewrite (Ht1 eq_refl) in E1.
  split; [by etrans|]. exists (a ++ t2). split; [by apply prefix_app|]. split; [by rewrite E2, E1, app_assoc|].
  intros Hr. by rewrite Ht2.
Qed.

Lemma write_record_wrote io sequence payload s :
  wrote (write_record sequence payload) s (write_record_to io sequence payload s).1 (write_record_to io sequence payload s).2.
Proof.
  unfold write_record_to, write_record.
  pose proof (ostream_wrote (ra_header io) (snap_header_bytes (mkSnapHeader kSnapMagic kVersionChecksummed 0 sequence
    (u32 (Z.of_nat (length payload))))) "failed to write snapshot header" s) as H1.
  destruct (ostream_write (ra_header io) _ _ s) as [s1 [[]|e]]; cbn [fst snd] in *; [|by apply wrote_throw].
  eapply wrote_then; [exact H1|].
  assert (H2 : forall p, p = (if bool_decide (payload = []) then (s1, Ok ())
    else ostream_write (ra_payload io) payload "failed to write snapshot payload" s1) -> wrote payload s1 p.1 p.2).
  { intros p ->. case_bool_decide as E; [rewrite E; apply wrote_nothing|apply ostream_wrote]. }
  specialize (H2 _ eq_refl). destruct (if bool_decide _ then _ else _) as [s2 [[]|e]]; cbn [fst snd] in *; [|by apply wrote_throw].
  eapply wrote_then; [exact H2|]. apply ostream_wrote.
Qed.

Lemma write_records_wrote rs : forall ios s,
  wrote (rewrite_records rs) s (write_records ios rs s).1 (write_records ios rs s).2.
Proof.
  induction rs as [|r rs IH]; intros ios s; cbn [write_records]; [apply wrote_nothing|].
  change (rewrite_records (r :: rs)) with (write_record (sh_sequence (er_header r)) (er_payload r) ++ rewrite_records rs).
  pose proof (write_record_wrote (hd all_fine ios) (sh_sequence (er_header r)) (er_payload r) s) as H1.
  destruct (write_record_to _ _ _ s) as [s1 [[]|e]]; cbn [fst snd] in *; [|by apply wrote_throw].
  eapply wrote_then; [exact H1|apply IH].
Qed.

(** What the file of a stream is after it. *)
Lemma wrote_file data b s' r :
  wrote data (mkStream b []) s' r ->
  exists t, t `prefix_of` data /\ sm_file s' = b ++ t /\ (r = Ok () -> sm_held s' = [] -> t = data).
Proof.
  intros ([t Ht] & u & Hu & E & Hr). cbn [sm_file] in Ht. exists t. unfold stream_bytes in E. cbn [sm_file sm_held] in E.
  rewrite Ht, app_nil_r, <- app_assoc in E.
  apply app_inv_head in E. split; [etrans; [|exact Hu]; exists (sm_held s'); done|]. split; [done|].
  intros H1 H2. rewrite H2, app_nil_r in E. rewrite E. by apply Hr.
Qed.

Lemma wrote_drain n data s s' r : wrote data s s' r -> wrote data s (drain n s') r.
Proof.
  intros (H & t & Ht & E & Hr). split; [etrans; [exact H|apply drain_file]|]. exists t. by rewrite drain_bytes.
Qed.

Lemma wrote_ok data s s' : wrote data s s' (Ok ()) -> stream_bytes s' = stream_bytes s ++ data.
Proof. intros (_ & t & _ & E & Ht). by rewrite E, Ht. Qed.

Lemma drain_none n s : sm_file (drain n (drain None s)) = stream_bytes s.
Proof. rewrite drain_everything. unfold drain. cbn [sm_file sm_held]. by rewrite take_nil, app_nil_r. Qed.

(** ** A file that ends early *)

(** The end of the new record is missing. *)
Definition torn_end (payload t : bytes) : result () :=
  if (length t <? kSnapHeaderSize)%nat then Ok ()
  else if (length t <? kSnapHeaderSize + length payload)%nat then Throw "truncated snapshot payload"
  else Throw "truncated snapshot checksum".

Lemma read_next_torn sequence payload t u :
  in_u 32 sequence -> Z.of_nat (length payload) < 2 ^ 32 -> write_record sequence payload = t ++ u -> u <> [] ->
  read_next_record t = match torn_end payload t with Ok _ => Ok None | Throw e => Throw e end.
Proof.
  intros Hs Hp E Hu. rewrite <- encode_current in E by done. pose proof (current_ok sequence payload Hs Hp) as Hok.
  unfold read_next_record, torn_end. destruct (Nat.ltb_spec (length t) kSnapHeaderSize) as [|Hge]; [done|].
  unfold encode_snap in E. assert (Et : exists v, t = snap_header_bytes (er_header (current sequence payload)) ++ v).
  { exists (drop 16 t). rewrite <- (take_drop 16 t) at 1. f_equal. apply (f_equal (take 16)) in E.
    rewrite (take_app_length' (snap_header_bytes _)) in E by (by rewrite length_snap_header).
    by rewrite E, take_app_le by (unfold kSnapHeaderSize in *; lia). }
  destruct Et as [v ->]. rewrite <- app_assoc in E. apply app_inv_head in E.
  rewrite snap_header_roundtrip by done. unfold kSnapHeaderSize in *.
  rewrite drop_app_length' by (by rewrite length_snap_header). rewrite length_app, length_snap_header in *.
  cbn [er_header current sh_magic sh_version sh_payload_size er_payload] in *. rewrite Z.eqb_refl. cbn [negb andb Z.eqb kVersionLegacy kVersionChecksummed].
  destruct (Z.ltb_spec (Z.of_nat (length v)) (Z.of_nat (length payload))), (Nat.ltb_spec (16 + length v) (16 + length payload)); try lia; [done|].
  rewrite Nat2Z.id. cbn. assert (Hl : (length v < length payload + 4)%nat).
  { apply (f_equal length) in E. rewrite !length_app in E. cbn in E. rewrite length_to_le in E. destruct u; [done|cbn in E; lia]. }
  rewrite length_drop. by destruct (Nat.leb_spec (length v - length payload) 3); [|lia].
Qed.

Lemma load_tail rs t (out : result ()) : Forall snap_ok rs ->
  read_next_record t = (match out with Ok _ => Ok None | Throw e => Throw e end) ->
  load_records (Some (encode_snaps rs ++ t)) = Some (match out with Ok _ => Ok rs | Throw e => Throw e end).
Proof.
  intros Hok Ht. cbn [load_records]. assert (Hn : (length rs < S (length (encode_snaps rs ++ t)))%nat).
  { rewrite length_app. pose proof (encode_snaps_length rs). lia. }
  revert Hn. generalize (S (length (encode_snaps rs ++ t))). induction Hok as [|r rs Hr Hok IH]; intros n Hn;
    (destruct n as [|n]; [cbn in Hn; lia|]); cbn [load_loop].
  - change (encode_snaps []) with (@nil Z). cbn [app]. rewrite Ht. by destruct out.
  - change (encode_snaps (r :: rs)) with (encode_snap r ++ encode_snaps rs). rewrite <- app_assoc, read_next_encoded by done.
    rewrite IH by (cbn in Hn; lia). by destruct out.
Qed.

(** ** What a failure leaves *)

(** What [persist] can leave in the directory of a store that held [rs]: the old
    records and a part of the new one; or, once compaction removed them, a part of
    the records to keep, under the final name or the temporary one. *)
Inductive left_over (rs : list EncodedRecord) (o : StoreOptions) (sequence : Z) (payload : bytes) (s' : Store) (r : result ()) : Prop :=
  | LAppended t :
      default [] (dk_snapshot (st_disk s')) = encode_snaps rs ++ t -> t `prefix_of` write_record sequence payload ->
      (r = Ok () -> t = write_record sequence payload) -> left_over rs o sequence payload s' r
  | LCompacted t :
      st_disk s' = mkDisk (Some t) None -> t `prefix_of` rewrite_records (compacted o (rs ++ [current sequence payload])) ->
      r = Ok () -> left_over rs o sequence payload s' r
  | LRemoved t :
      st_disk s' = mkDisk None (Some t) -> t `prefix_of` rewrite_records (compacted o (rs ++ [current sequence payload])) ->
      r = Throw "filesystem error: cannot rename" -> left_over rs o sequence payload s' r.

(** A compaction over [all]. *)
Lemma compact_to_spec io kept d :
  let '(d', r) := compact_to io kept d in
  (dk_snapshot d' = dk_snapshot d /\ r <> Ok ()) \/
  (exists t, t `prefix_of` rewrite_records kept /\
     ((d' = mkDisk (Some t) None /\ r = Ok () /\ (ca_flush io = None -> t = rewrite_records kept)) \/
      (d' = mkDisk None (Some t) /\ r = Throw "filesystem error: cannot rename"))).
Proof.
  unfold compact_to. destruct (ca_open io); cbn [negb]; [|by left].
  pose proof (write_records_wrote kept (ca_records io) (mkStream [] [])) as H.
  destruct (write_records _ _ _) as [s [[]|e]]; cbn [fst snd] in H; [|by left].
  pose proof (wrote_drain (ca_close io) _ _ _ _ (wrote_drain (ca_flush io) _ _ _ _ H)) as H'.
  destruct (wrote_file _ _ _ _ H') as (t & Ht & E & _). cbn [app] in E. rewrite E.
  destruct (ca_remove io); cbn [negb]; [|by left].
  destruct (ca_rename io); cbn [negb]; right; exists t; (split; [done|]); [left|by right].
  split; [done|]. split; [done|]. intros Hf.
  rewrite <- E, Hf, drain_none. by rewrite (wrote_ok _ _ _ H).
Qed.

Lemma encode_all rs sequence payload : Z.of_nat (length payload) < 2 ^ 32 ->
  encode_snaps (rs ++ [current sequence payload]) = encode_snaps rs ++ write_record sequence payload.
Proof. intros Hp. unfold encode_snaps. rewrite map_app, concat_app. cbn. by rewrite app_nil_r, encode_current. Qed.

(** What the store finds after a part of a record. *)
Definition found (rs : list EncodedRecord) (sequence : Z) (payload t : bytes) : result (option SnapshotRecord) :=
  if decide (t = write_record sequence payload) then Ok (Some (mkSnapshotRecord sequence payload))
  else match torn_end payload t with Ok _ => Ok (view <$> last rs) | Throw e => Throw e end.

Lemma latest_appended s rs sequence payload t :
  st_prepared s = true -> Forall snap_ok rs -> in_u 32 sequence -> Z.of_nat (length payload) < 2 ^ 32 ->
  default [] (dk_snapshot (st_disk s)) = encode_snaps rs ++ t -> t `prefix_of` write_record sequence payload ->
  latest s = Some (found rs sequence payload t).
Proof.
  intros Hp Hok Hs Hl Hf [u Hu]. unfold found. destruct (decide _) as [->|Hne].
  - rewrite <- encode_all in Hf by done.
    assert (Hh : holds s (rs ++ [current sequence payload])).
    { split; [done|]. split; [|done]. apply Forall_app. split; [done|]. constructor; [by apply current_ok|done]. }
    rewrite (latest_holds _ _ Hh). by rewrite last_snoc.
  - unfold latest, snapshot_file. rewrite Hp. assert (Hu' : u <> []) by (intros ->; by rewrite app_nil_r in Hu).
    pose proof (load_tail rs t (torn_end payload t) Hok (read_next_torn _ _ _ _ Hs Hl Hu Hu')) as E.
    destruct (dk_snapshot (st_disk s)) as [b|]; cbn [default from_option id] in Hf.
    + rewrite Hf, E. destruct (torn_end payload t); [by destruct (last rs)|done].
    + symmetry in Hf. apply app_eq_nil in Hf as [Hf ->]. destruct rs as [|r rs]; [done|].
      apply (f_equal length) in Hf. pose proof (encode_snaps_length (r :: rs)). cbn in *. lia.
Qed.

(** The store holds records, the last of which is this one. *)
Definition stored (s : Store) (sequence : Z) (payload : bytes) : Prop :=
  exists rs, holds s rs /\ last rs = Some (current sequence payload).

Lemma stored_latest s sequence payload : stored s sequence payload -> latest s = Some (Ok (Some (mkSnapshotRecord sequence payload))).
Proof. intros (rs & Hs & Hr). by rewrite (latest_holds _ _ Hs), Hr. Qed.

(** The compaction after a record that was written whole. *)
Lemma compact_if_needed_spec io sequence payload s rs :
  let s1 := set_snapshot (encode_snaps rs ++ write_record sequence payload) s in
  st_prepared s = true -> Forall snap_ok rs -> in_u 32 sequence -> Z.of_nat (length payload) < 2 ^ 32 ->
  exists s' r, compact_if_needed_to io s1 = Some (s', r) /\ st_prepared s' = true /\
    left_over rs (st_options s) sequence payload s' r /\
    (ca_flush io = None -> r = Ok () -> stored s' sequence payload).
Proof.
  intros s1 Hp Hok Hs Hl. set (all := rs ++ [current sequence payload]).
  assert (Hall : Forall snap_ok all) by (apply Forall_app; split; [done|]; constructor; [by apply current_ok|done]).
  assert (Hfound : forall s', st_prepared s' = true -> dk_snapshot (st_disk s') = dk_snapshot (st_disk s1) ->
    stored s' sequence payload).
  { intros s' Hp' Ed. exists all. split; [|by apply last_snoc]. split; [done|]. split; [done|]. rewrite Ed. by apply eq_sym, encode_all. }
  assert (Hsame : forall s' r, st_prepared s' = true -> dk_snapshot (st_disk s') = dk_snapshot (st_disk s1) ->
    left_over rs (st_options s) sequence payload s' r).
  { intros s' r Hp' Ed. apply (LAppended _ _ _ _ _ _ (write_record sequence payload)); [by rewrite Ed|done|done]. }
  unfold compact_if_needed_to, snapshot_file. cbn [s1 set_snapshot set_disk st_prepared st_disk st_options dk_snapshot].
  rewrite Hp. destruct (_ && _); [exists s1, (Ok ()); by auto|].
  destruct (negb (ca_read io)); [eexists s1, _; split; [done|]; by auto|].
  rewrite <- encode_all, load_encoded by done. fold all.
  destruct (_ || _); [exists s1, (Ok ()); by auto|].
  pose proof (compact_to_spec io (compacted (st_options s) all) (st_disk s1)) as H.
  unfold s1, set_snapshot, all in *. rewrite encode_all by done. cbn [set_disk st_disk] in H.
  destruct (compact_to _ _ _) as [d r]. eexists _, r. split; [done|]. split; [done|].
  destruct H as [[Ed Hr]|(t & Ht & [(-> & -> & Hf)|(-> & ->)])].
  - split; [by apply Hsame|]. by intros.
  - split; [by apply (LCompacted _ _ _ _ _ _ t)|]. intros E _. rewrite (Hf E).
    destruct (compacted_spec (st_options s) (rs ++ [current sequence payload]) ltac:(by destruct rs)) as (k & Ek & Hk & _).
    rewrite Ek, rewrite_encoded by by apply Forall_drop.
    exists (map renew (drop k all)). split; [split; [done|split; [|done]]|].
    + apply Forall_map, Forall_drop. eapply Forall_impl; [exact Hall|exact renew_ok].
    + rewrite fmap_last, last_drop by done. unfold all. by rewrite last_snoc.
  - split; [by apply (LRemoved _ _ _ _ _ _ t)|done].
Qed.

Lemma persist_to_spec io sequence payload s rs :
  holds s rs -> in_u 32 sequence -> Z.of_nat (length payload) < 2 ^ 32 ->
  exists s' r, persist_to io sequence payload s = Some (s', r) /\ st_prepared s' = true /\
    left_over rs (st_options s) sequence payload s' r /\
    (ca_flush (pa_compact io) = None -> r = Ok () -> stored s' sequence payload).
Proof.
  intros (Hp & Hok & Hf) Hs Hl. unfold persist_to. rewrite Hp. cbn [negb].
  assert (Happ : forall s' t e, st_prepared s' = true -> t `prefix_of` write_record sequence payload ->
    default [] (dk_snapshot (st_disk s')) = encode_snaps rs ++ t ->
    left_over rs (st_options s) sequence payload s' (Throw e)) by (intros s' t e _ Ht E; by apply (LAppended _ _ _ _ _ _ t)).
  destruct (pa_open io); cbn [negb].
  2: { eexists s, _. split; [done|]. split; [done|]. split; [|done]. apply (Happ s []); [done|apply prefix_nil|by rewrite app_nil_r]. }
  rewrite Hf. pose proof (write_record_wrote (pa_record io) sequence payload (mkStream (encode_snaps rs) [])) as H.
  destruct (write_record_to _ _ _ _) as [out r]. cbn [fst snd] in H.
  assert (Hclosed : forall out' e, wrote (write_record sequence payload) (mkStream (encode_snaps rs) []) out' r ->
    left_over rs (st_options s) sequence payload (set_snapshot (sm_file (drain (pa_close io) out')) s) (Throw e)).
  { intros out' e Ho. apply (wrote_drain (pa_close io)) in Ho. destruct (wrote_file _ _ _ _ Ho) as (t & Ht & E & _).
    by apply (Happ _ t). }
  destruct r as [[]|e].
  2: { eexists _, _. split; [done|]. split; [done|]. by split; [apply Hclosed|]. }
  pose proof (wrote_drain (pa_flush io) _ _ _ _ H) as H'.
  destruct (length (sm_held (drain (pa_flush io) out))) as [|n] eqn:El; cbn [Nat.eqb negb].
  2: { eexists _, _. split; [done|]. split; [done|]. by split; [apply Hclosed|]. }
  apply nil_length_inv in El. destruct (wrote_file _ _ _ _ H') as (t & _ & E & Ht).
  rewrite E, Ht by done.
  exact (compact_if_needed_spec (pa_compact io) sequence payload s rs Hp Hok Hs Hl).
Qed.

(** C37: a failing disk does not undo a snapshot before compaction does.  On a
    store that holds records, whatever the disk answers, persisting returns or
    throws, and leaves the old records with a part of the new one, of which the
    store then finds the new snapshot, the old one, or throws for a truncated
    record; or, in a compaction that removed the file, a part of the records to
    keep: under the final name when persisting returns, since the last flush is
    not checked, and under the temporary one when the renaming throws.  If that
    flush wrote everything, persisting returns with the new snapshot found. *)
Theorem persist_survives_failures io sequence payload s rs :
  holds s rs -> in_u 32 sequence -> Z.of_nat (length payload) < 2 ^ 32 ->
  exists s' r, persist_to io sequence payload s = Some (s', r) /\
    left_over rs (st_options s) sequence payload s' r /\
    (forall t, default [] (dk_snapshot (st_disk s')) = encode_snaps rs ++ t -> t `prefix_of` write_record sequence payload ->
       latest s' = Some (found rs sequence payload t)) /\
    (ca_flush (pa_compact io) = None -> r = Ok () -> latest s' = Some (Ok (Some (mkSnapshotRecord sequence payload)))).
Proof.
  intros Hh Hs Hl. destruct (persist_to_spec io sequence payload s rs Hh Hs Hl) as (s' & r & E & Hp & Hleft & Hst).
  exists s', r. split; [done|]. split; [done|]. destruct Hh as (_ & Hok & _).
  split; [intros t Et Ht; by apply latest_appended|]. intros Hf Hr. by apply stored_latest, Hst.
Qed.

(** ** Whatever the file holds *)

(** Every record takes bytes, so the loop over a file ends. *)
Lemma read_next_shorter b r b' : read_next_record b = Ok (Some (r, b')) -> (length b' < length b)%nat.
Proof.
  unfold read_next_record. destruct (Nat.ltb_spec (length b) kSnapHeaderSize) as [|Hlen]; [done|].
  assert (H : (length (drop kSnapHeaderSize b) < length b)%nat) by (rewrite length_drop; unfold kSnapHeaderSize in *; lia).
  destruct (negb _); [done|]. destruct (_ && _); [done|]. destruct (_ <? _); [done|].
  destruct (_ >=? _); [destruct (_ <? _)%nat; [done|]; destruct (negb _); [done|]|]; intros [= _ <-];
    rewrite ?length_drop in *; lia.
Qed.

Lemma load_loop_total n : forall b, (length b < n)%nat -> load_loop n b <> None.
Proof.
  induction n as [|n IH]; intros b Hn; [lia|]. cbn [load_loop].
  destruct (read_next_record b) as [[[r b']|]|e] eqn:E; [|done..].
  apply read_next_shorter in E. specialize (IH b' ltac:(lia)). by destruct (load_loop n b') as [[]|].
Qed.

Lemma persist_to_total io sequence payload s : exists s' r, persist_to io sequence payload s = Some (s', r).
Proof.
  unfold persist_to. destruct (negb (st_prepared s)); [by eauto|]. destruct (negb (pa_open io)); [by eauto|].
  destruct (write_record_to _ _ _ _) as [out [[]|e]]; [|by eauto]. destruct (negb _); [by eauto|].
  unfold compact_if_needed_to. destruct (snapshot_file _) as [file|]; [|by eauto]. destruct (_ && _); [by eauto|].
  destruct (negb (ca_read _)); [by eauto|]. cbn [load_records].
  pose proof (load_loop_total (S (length file)) file ltac:(lia)). destruct (load_loop _ _) as [[rs|e]|]; [|by eauto|done].
  destruct (_ || _); [by eauto|]. destruct (compact_to _ _ _) as [d r]. by eauto.
Qed.

(** ** A disk that answers well *)
Lemma healthy_record sequence payload b :
  write_record_to all_fine sequence payload (mkStream b []) = (mkStream (b ++ write_record sequence payload) [], Ok ()).
Proof.
  unfold write_record_to, ostream_write. cbn [all_fine ra_header ra_payload ra_checksum fine wa_taken wa_drained part].
  rewrite !Nat.eqb_refl, !put_everything. unfold stream_bytes. cbn [sm_file sm_held]. rewrite app_nil_r.
  unfold write_record. case_bool_decide as E; cbn [sm_file sm_held]; rewrite ?put_everything; unfold stream_bytes;
    cbn [sm_file sm_held]; [rewrite E|]; by rewrite ?app_nil_r, <- ?app_assoc.
Qed.

Lemma healthy_records rs b :
  write_records [] rs (mkStream b []) = (mkStream (b ++ rewrite_records rs) [], Ok ()).
Proof.
  revert b. induction rs as [|r rs IH]; intros b; cbn [write_records hd tl].
  - unfold rewrite_records. cbn. by rewrite app_nil_r.
  - rewrite healthy_record, IH. unfold rewrite_records. cbn [map concat]. by rewrite app_assoc.
Qed.

Definition compact_fine : CompactAnswers := mkCompactAnswers true true [] None None true true.
Definition persist_fine : PersistAnswers := mkPersistAnswers true all_fine None None compact_fine.

Lemma drain_nothing n b : drain n (mkStream b []) = mkStream b [].
Proof. unfold drain. cbn [sm_file sm_held]. by rewrite take_nil, drop_nil, app_nil_r. Qed.

Lemma healthy_persist sequence payload s : persist_to persist_fine sequence payload s = persist sequence payload s.
Proof.
  unfold persist_to, persist. destruct (negb (st_prepared s)); [done|]. cbn [persist_fine pa_open pa_record pa_flush pa_compact negb].
  rewrite healthy_record, drain_nothing. cbn [sm_held sm_file length Nat.eqb negb].
  fold (set_snapshot (default [] (dk_snapshot (st_disk s)) ++ write_record sequence payload) s).
  unfold compact_if_needed_to, compact_if_needed. destruct (snapshot_file _) as [file|]; [|done].
  destruct (_ && _); [done|]. cbn [compact_fine ca_read negb]. destruct (load_records _) as [[rs|]|]; try done.
  unfold needs_compaction. destruct (_ || bool_decide _); [done|].
  unfold compact_to. cbn [compact_fine ca_open ca_records ca_flush ca_close ca_remove ca_rename negb].
  by rewrite healthy_records, !drain_nothing.
Qed.

(** ** A disk that fails, for the witness and the examples *)
Module DemoSnapshot.
Definition old : list EncodedRecord := [current 1 [1]].
Definition store : Store := mkStore true (mkDisk (Some (encode_snaps old)) None) (mkOptions 1 0).

Lemma store_holds : holds store old.
Proof. split; [done|]. split; [|done]. constructor; [|done]. apply current_ok; [by vm_compute|by vm_compute]. Qed.

(** The disk fills up within the payload. *)
Definition full : PersistAnswers :=
  mkPersistAnswers true (mkRecordAnswers fine (mkWriteAnswer (Some 1%nat) None) fine) None None compact_fine.

(** It fills up while compaction writes the records out. *)
Definition full_in_compaction : PersistAnswers :=
  mkPersistAnswers true all_fine None None
    (mkCompactAnswers true true
       [mkRecordAnswers (mkWriteAnswer None (Some 0%nat)) (mkWriteAnswer None (Some 0%nat)) (mkWriteAnswer None (Some 0%nat))]
       (Some 0%nat) (Some 0%nat) true true).
End DemoSnapshot.

Lemma persist_survives_failures_witness :
  exists s' r, persist_to DemoSnapshot.full 2 [2; 2] DemoSnapshot.store = Some (s', r) /\
    left_over DemoSnapshot.old (mkOptions 1 0) 2 [2; 2] s' r.
Proof.
  destruct (persist_survives_failures DemoSnapshot.full 2 [2; 2] DemoSnapshot.store DemoSnapshot.old DemoSnapshot.store_holds)
    as (s' & r & E & H & _); [by vm_compute|by vm_compute|]. by exists s', r.
Defined.

(** A disk that fills up within a record: [persist] throws, and what is left
    makes the store throw from then on, the older snapshot included. *)
Example torn_snapshot_blocks_store :
  match persist_to DemoSnapshot.full 2 [2; 2] DemoSnapshot.store with
  | Some (s, Throw _) => latest s = Some (Throw "truncated snapshot payload")
  | _ => False
  end.
Proof. by vm_compute. Qed.

(** A disk that fills up during a compaction: [persist] returns, and the store is
    empty. *)
Example full_disk_loses_snapshots :
  match persist_to DemoSnapshot.full_in_compaction 2 [2; 2] DemoSnapshot.store with
  | Some (s, Ok _) => latest DemoSnapshot.store = Some (Ok (Some (mkSnapshotRecord 1 [1]))) /\ latest s = Some (Ok None)
  | _ => False
  end.
Proof. vm_compute. split; reflexivity. Qed.
