(* ===== verification/Replay.v ===== *)
(** * Replay

    [libs/replay]: the driver that restores a state from the latest snapshot
    and the log after it.  The handlers act on a state of the caller's; the
    snapshot directory and the log are what the disk holds when [execute] runs. *)
From S2P Require Import Prelude Bytes Wal WalProps Snapshot SnapshotProps.

Section Driver.
Context {St : Type}.

(** A handler: a [std::function] that changes the caller's state and may throw. *)
Abbreviation Handler A := (A -> St -> St * result unit).

Record Driver := mkDriver {
  snapshot_store : Store;
  wal_path : option bytes;
  snapshot_handler : option (Handler (Z * bytes));
  event_handler : option (Handler WalRecord) }.

(** [configure] with the directory and the file that its paths name; a log that
    does not exist is [None]. *)
Definition configure (directory : Disk) (wal : option bytes) (d : Driver) : Driver :=
  mkDriver (prepare (set_disk directory (snapshot_store d))) wal (snapshot_handler d) (event_handler d).

Definition set_snapshot_handler (h : Handler (Z * bytes)) (d : Driver) : Driver :=
  mkDriver (snapshot_store d) (wal_path d) (Some h) (event_handler d).

Definition set_event_handler (h : Handler WalRecord) (d : Driver) : Driver :=
  mkDriver (snapshot_store d) (wal_path d) (snapshot_handler d) (Some h).

Definition new_driver : Driver := mkDriver (mkStore false (mkDisk None None) default_options) None None None.

(** The loop over the log; [None] when the turns run out. *)
Fixpoint replay_loop (n : nat) (h : Handler WalRecord) (resume_from : Z) (r : Reader) (s : St)
    : option (St * result unit) :=
  match n with
  | O => None
  | S n =>
      match next r with
      | Throw e => Some (s, Throw e)
      | Ok (None, _) => Some (s, Ok ())
      | Ok (Some record, r) =>
          if rh_sequence (wr_header record) <? resume_from then replay_loop n h resume_from r s
          else match h record s with
          | (s, Ok _) => replay_loop n h resume_from r s
          | (s, Throw e) => Some (s, Throw e)
          end
      end
  end.

(** The part of [execute] after the snapshot. *)
Definition replay_log (h : Handler WalRecord) (resume_from : Z) (wal : option bytes) (s : St)
    : option (St * result unit) :=
  match wal with
  | None => Some (s, Ok ())
  | Some file => let r := open_reader file in replay_loop (turns r) h resume_from r s
  end.

Definition execute (d : Driver) (s : St) : option (St * result unit) :=
  match event_handler d with
  | None => Some (s, Throw "event handler not set for replay")
  | Some h =>
      match latest (snapshot_store d) with
      | None => None
      | Some (Throw e) => Some (s, Throw e)
      | Some (Ok None) => replay_log h 1 (wal_path d) s
      | Some (Ok (Some snap)) =>
          let resume_from := u32 (sr_sequence snap + 1) in
          match snapshot_handler d with
          | None => replay_log h resume_from (wal_path d) s
          | Some sh =>
              match sh (sr_sequence snap, sr_payload snap) s with
              | (s, Ok _) => replay_log h resume_from (wal_path d) s
              | (s, Throw e) => Some (s, Throw e)
              end
          end
      end
  end.
End Driver.
Arguments Driver St : clear implicits.

(** ** What the handlers see *)

(** Handlers that write down what they are given. *)
Inductive Delivery :=
  | DSnapshot (sequence : Z) (payload : bytes)
  | DRecord (record : WalRecord).

Definition record_snapshot (p : Z * bytes) (s : list Delivery) : list Delivery * result unit :=
  (s ++ [DSnapshot p.1 p.2], Ok ()).
Definition record_event (r : WalRecord) (s : list Delivery) : list Delivery * result unit :=
  (s ++ [DRecord r], Ok ()).

Definition from_sequence (resume_from : Z) (rs : list WalRecord) : list WalRecord :=
  List.filter (fun r => negb (rh_sequence (wr_header r) <? resume_from)) rs.

(** A handler that does not throw is given the records in order. *)
Lemma replay_loop_fold {St} (h : WalRecord -> St -> St * result unit) rs tail out resume :
  (forall r s, (h r s).2 = Ok ()) -> forall n pre s,
  Forall record_ok rs -> (length rs < n)%nat -> ends tail out ->
  replay_loop n h resume (mkReader (pre ++ encode_log rs ++ tail) (length pre)) s =
    Some (foldl (fun s r => (h r s).1) s (from_sequence resume rs), out).
Proof.
  intros Hh. induction rs as [|r rs IH]; intros n pre s Hok Hn Ht; (destruct n as [|n]; [cbn in Hn; lia|]);
    cbn [replay_loop].
  - change (encode_log []) with (@nil Z). cbn [app]. rewrite Ht. cbn. by destruct out as [[]|].
  - apply Forall_cons in Hok as [Hr Hok]. rewrite encode_log_cons, <- app_assoc.
    rewrite next_record by done.
    specialize (fun s => IH n (pre ++ encode_record r) s Hok ltac:(cbn in Hn; lia) Ht).
    rewrite <- app_assoc in IH. unfold from_sequence in *. cbn [List.filter].
    destruct (_ <? _); cbn [negb foldl]; [apply IH|]. rewrite <- IH.
    pose proof (Hh r s) as E. by destruct (h r s) as [s' o]; cbn in E; subst o.
Qed.

Lemma replay_log_fold {St} (h : WalRecord -> St -> St * result unit) rs tail out resume s :
  (forall r s, (h r s).2 = Ok ()) -> Forall record_ok rs -> ends tail out ->
  replay_log h resume (Some (encode_log rs ++ tail)) s = Some (foldl (fun s r => (h r s).1) s (from_sequence resume rs), out).
Proof.
  intros Hh Hok Ht. apply (replay_loop_fold h rs tail out resume Hh _ []); [done| |done].
  unfold turns. cbn. rewrite length_app. pose proof (encode_log_length rs). lia.
Qed.

Lemma replay_log_whole rs tail out resume s :
  Forall record_ok rs -> ends tail out ->
  replay_log record_event resume (Some (encode_log rs ++ tail)) s =
    Some (s ++ map DRecord (from_sequence resume rs), out).
Proof.
  intros Hok Ht. rewrite (replay_log_fold record_event rs tail out) by done. f_equal. f_equal.
  generalize (from_sequence resume rs). clear. intros l. revert s.
  induction l as [|r l IH]; intros s; cbn [foldl map]; [by rewrite app_nil_r|]. rewrite IH. cbn. by rewrite <- app_assoc.
Qed.

(** The driver the theorems run. *)
Definition recorder (directory : Disk) (wal : option bytes) : Driver (list Delivery) :=
  configure directory wal (set_event_handler record_event (set_snapshot_handler record_snapshot new_driver)).

(** The number after the latest snapshot. *)
Definition resume_after (snaps : list EncodedRecord) : Z :=
  match last snaps with Some r => u32 (sh_sequence (er_header r) + 1) | None => 1 end.

Definition deliver_snapshot (snaps : list EncodedRecord) : list Delivery :=
  match last snaps with
  | Some r => [DSnapshot (sh_sequence (er_header r)) (er_payload r)]
  | None => []
  end.

Lemma recorder_latest directory wal snaps :
  Forall snap_ok snaps -> default [] (dk_snapshot directory) = encode_snaps snaps ->
  latest (snapshot_store (recorder directory wal)) = Some (Ok (view <$> last snaps)).
Proof. intros Hok E. apply latest_holds. by split. Qed.

Lemma execute_recorder directory wal snaps :
  Forall snap_ok snaps -> default [] (dk_snapshot directory) = encode_snaps snaps ->
  execute (recorder directory wal) [] =
    replay_log record_event (resume_after snaps) wal (deliver_snapshot snaps).
Proof.
  intros Hok E. unfold execute. cbn [recorder configure set_event_handler set_snapshot_handler
    event_handler snapshot_handler wal_path].
  change (snapshot_store _) with (snapshot_store (recorder directory wal)).
  rewrite (recorder_latest _ _ snaps) by done. unfold resume_after, deliver_snapshot.
  by destruct (last snaps).
Qed.

(** C22: replay delivers the latest snapshot, then the records of the log that
    come after it, in order and each once, and nothing else.  A log cut inside a
    record still delivers every whole record before the cut. *)
Theorem replay_delivers directory snaps rs k :
  Forall snap_ok snaps -> default [] (dk_snapshot directory) = encode_snaps snaps ->
  Forall record_ok rs -> (k <= length (encode_log rs))%nat ->
  exists j t, take k (encode_log rs) = encode_log (take j rs) ++ t /\
    execute (recorder directory (Some (take k (encode_log rs)))) [] =
      Some (deliver_snapshot snaps ++ map DRecord (from_sequence (resume_after snaps) (take j rs)),
            if (length t <? kHeaderSize)%nat then Ok () else Throw "truncated WAL record").
Proof.
  intros Hs E Hok Hk. destruct (cut_log rs k Hk) as (j & t & Ec & Ht). exists j, t. split; [done|].
  rewrite (execute_recorder _ _ snaps) by done. rewrite Ec.
  apply replay_log_whole; [by apply Forall_take|by eapply torn_ends].
Qed.

Lemma replay_delivers_witness :
  exists j t, take 40 (encode_log demo_log) = encode_log (take j demo_log) ++ t /\
    execute (recorder (mkDisk (Some (encode_snaps [current 1 [9]])) None) (Some (take 40 (encode_log demo_log)))) [] =
      Some ([DSnapshot 1 [9]] ++ map DRecord (from_sequence 2 (take j demo_log)),
            if (length t <? kHeaderSize)%nat then Ok () else Throw "truncated WAL record").
Proof.
  refine (replay_delivers (mkDisk (Some (encode_snaps [current 1 [9]])) None) [current 1 [9]] demo_log 40 _ _ _ _).
  - constructor; [|constructor]. apply current_ok; [vm_compute; split; congruence|by vm_compute].
  - done.
  - apply demo_log_ok.
  - vm_compute. lia.
Defined.

(** ** Restoring what was saved *)

(** Numbering a log in two parts. *)
Lemma new_records_split l l' : forall s, 0 <= s -> s + Z.of_nat (length l) < 2 ^ 64 ->
  new_records s (l ++ l') = new_records s l ++ new_records (s + Z.of_nat (length l)) l'.
Proof.
  induction l as [|[r p] l IH]; intros s H0 Hs; cbn [app new_records length] in *; [by rewrite Z.add_0_r|].
  rewrite (wrapu_small 64 (s + 1)) by (unfold in_u; lia). rewrite IH by lia. cbn. do 3 f_equal. lia.
Qed.

Lemma from_sequence_app q rs rs' :
  from_sequence q (rs ++ rs') = from_sequence q rs ++ from_sequence q rs'.
Proof. apply List.filter_app. Qed.

Lemma from_sequence_new q s e l :
  from_sequence q (new_records s (e :: l)) =
    let rest := from_sequence q (new_records (u64 (s + 1)) l) in
    if s <? q then rest else mkWalRecord (record_header e.1 s e.2) e.2 :: rest.
Proof. destruct e. unfold from_sequence. cbn [new_records List.filter]. cbn. by destruct (s <? q). Qed.

Lemma from_sequence_below q l : forall s, 0 <= s -> s + Z.of_nat (length l) <= q -> q < 2 ^ 64 ->
  from_sequence q (new_records s l) = [].
Proof.
  induction l as [|e l IH]; intros s H0 Hs Hq; [done|]. cbn [length] in *.
  rewrite from_sequence_new, (wrapu_small 64 (s + 1)) by (unfold in_u; lia).
  destruct (Z.ltb_spec s q); [|lia]. apply IH; lia.
Qed.

Lemma from_sequence_above q l : forall s, 0 <= s -> q <= s -> s + Z.of_nat (length l) < 2 ^ 64 ->
  from_sequence q (new_records s l) = new_records s l.
Proof.
  induction l as [|[r p] l IH]; intros s H0 Hs Hq; [done|]. cbn [length] in *.
  rewrite from_sequence_new. destruct (Z.ltb_spec s q); [lia|]. cbn [new_records].
  rewrite (wrapu_small 64 (s + 1)) by (unfold in_u; lia). cbn zeta. f_equal. apply IH; lia.
Qed.

(** A snapshot numbered with the last record it covers, then more records. *)
Lemma resume_splits_log l l' :
  Z.of_nat (length l) < 2 ^ 32 - 1 -> Z.of_nat (length (l ++ l')) < 2 ^ 63 ->
  from_sequence (u32 (Z.of_nat (length l) + 1)) (new_records 1 (l ++ l')) =
    new_records (Z.of_nat (length l) + 1) l'.
Proof.
  intros Hq Hl. rewrite length_app in Hl. rewrite wrapu_small by (unfold in_u; lia).
  rewrite new_records_split, from_sequence_app by lia.
  rewrite from_sequence_below by lia. cbn [app].
  replace (1 + Z.of_nat (length l)) with (Z.of_nat (length l) + 1) by lia.
  apply from_sequence_above; lia.
Qed.

(** A restart resumes where the snapshot was taken.  Append [l] to a new log,
    persist a snapshot numbered with the records it covers, append [l'] and sync:
    replay hands over that snapshot, whatever the store held before, and then
    exactly the records of [l'].  (The number is 32 bits wide and must not be the
    largest one.) *)
Theorem restart_resumes_after_snapshot l l' threshold payload store snaps :
  Forall entry_ok (l ++ l') -> Z.of_nat (length l) < 2 ^ 32 - 1 -> Z.of_nat (length (l ++ l')) < 2 ^ 63 ->
  holds store snaps -> Z.of_nat (length payload) < 2 ^ 32 ->
  exists w store', open_writer [] threshold = Some (Ok w) /\
    persist (Z.of_nat (length l)) payload store = Some (store', Ok ()) /\
    execute (recorder (st_disk store') (Some (wt_file (sync (append_all (l ++ l') w))))) [] =
      Some (DSnapshot (Z.of_nat (length l)) payload ::
            map DRecord (new_records (Z.of_nat (length l) + 1) l'), Ok ()).
Proof.
  intros Hl Hq Hn Hst Hp. eexists.
  destruct (persist_spec (Z.of_nat (length l)) payload store snaps Hst ltac:(unfold in_u; lia) Hp)
    as (store' & snaps' & E & (_ & Hok & Hf) & _ & k & Hk & Hcase).
  exists store'. split; [reflexivity|]. split; [done|]. cbn [foldl].
  assert (Hlast : view <$> last snaps' = Some (mkSnapshotRecord (Z.of_nat (length l)) payload)).
  { destruct Hcase as [[-> _]|[-> _]]; [by rewrite last_snoc|].
    rewrite fmap_last, last_drop by done. by rewrite last_snoc. }
  rewrite (execute_recorder _ _ snaps') by done. unfold resume_after, deliver_snapshot.
  destruct (last snaps') as [r|]; [|done]. injection Hlast as -> ->.
  set (w := mkWriter _ _ _ _).
  destruct (append_all_rep (l ++ l') w [] [] 1 ltac:(by split)) as (rs' & bs' & s' & Hw & _ & Er).
  cbn [app] in Er. apply flush_rep in Hw. rewrite Er in Hw. unfold sync. rewrite (wr_file_rep _ _ _ _ Hw).
  rewrite <- (app_nil_r (encode_log _)).
  rewrite replay_log_whole with (out := Ok ()); [|apply new_records_ok; [by vm_compute|done]|apply ends_nil].
  by rewrite resume_splits_log.
Qed.

Lemma restart_resumes_after_snapshot_witness :
  exists w store', open_writer [] 10 = Some (Ok w) /\
    persist 2 [5] (empty_store (mkOptions 1 0)) = Some (store', Ok ()) /\
    execute (recorder (st_disk store') (Some (wt_file (sync (append_all ([(0, [1]); (0, [2])] ++ [(0, [3])]) w))))) [] =
      Some ([DSnapshot 2 [5]; DRecord (mkWalRecord (record_header 0 3 [3]) [3])], Ok ()).
Proof.
  refine (restart_resumes_after_snapshot [(0, [1]); (0, [2])] [(0, [3])] 10 [5] (empty_store (mkOptions 1 0)) [] _ _ _ _ _).
  - repeat constructor; vm_compute; congruence.
  - by vm_compute.
  - by vm_compute.
  - split; [done|]. split; [constructor|done].
  - by vm_compute.
Defined.

(** ** Behaviours a caller may not expect *)

(** The number to resume from is 32 bits wide: after the last snapshot number
    the daemon can write it is 0, and the whole log is delivered again. *)
Example resume_number_wraps :
  execute (recorder (mkDisk (Some (encode_snaps [current (2 ^ 32 - 1) [9]])) None) (Some (encode_log demo_log))) [] =
    Some (DSnapshot (2 ^ 32 - 1) [9] :: map DRecord demo_log, Ok ()).
Proof. by vm_compute. Qed.
