(* ===== verification/Api.v ===== *)
(** * The API router

    [libs/api]: registered endpoints, the node state queries and the two bounded
    buffers that feed the execution extensions.  The mutex makes every method
    atomic, so a method is a function on the state. *)
From S2P Require Import Prelude Types Bytes.
Open Scope string_scope.
Open Scope list_scope.
Open Scope Z_scope.

Record ExpressFeedFrame := mkExpressFrame { ef_wal_offset : Z; ef_payload : bytes }.

Record TradeMetadata := mkTradeMetadata {
  tm_wal_offset : Z;
  tm_order_id : OrderId;
  tm_account : Z;
  tm_market : Z;
  tm_price : Z;
  tm_quantity : Z;
  tm_timestamp_ns : Z }.

Record NodeStatus := mkNodeStatus {
  chain_id : Z;
  block_number : Z;
  peer_connections : Z;
  healthy : bool }.

(** A provider that is not set is [None]; one that is set is the value it
    returns when [node_status] calls it. *)
Record NodeStateProvider := mkProvider {
  pv_chain_id : option Z;
  pv_block_number : option Z;
  pv_peer_connections : option Z;
  pv_healthy : option bool }.

Record ApiRouter := mkRouter {
  endpoints : gset string;
  express_feed_frames : list ExpressFeedFrame;
  trade_metadata : list TradeMetadata;
  express_feed_capacity : Z;
  trade_metadata_capacity : Z;
  node_state_provider : NodeStateProvider }.

Definition kDefaultBufferCapacity : Z := 4096.

Definition new_router (express_feed_capacity trade_metadata_capacity : Z) : ApiRouter :=
  mkRouter ∅ [] [] (Z.max 1 express_feed_capacity) (Z.max 1 trade_metadata_capacity)
    (mkProvider None None None None).

(** ** Endpoints *)
Definition register_endpoint (name : string) (a : ApiRouter) : ApiRouter :=
  if bool_decide (name = "") then a
  else mkRouter ({[name]} ∪ endpoints a) (express_feed_frames a) (trade_metadata a)
         (express_feed_capacity a) (trade_metadata_capacity a) (node_state_provider a).

Definition has_endpoint (name : string) (a : ApiRouter) : bool := bool_decide (name ∈ endpoints a).

Definition endpoint_count (a : ApiRouter) : Z := Z.of_nat (size (endpoints a)).

(** ** Node state *)
Definition set_node_state_provider (p : NodeStateProvider) (a : ApiRouter) : ApiRouter :=
  mkRouter (endpoints a) (express_feed_frames a) (trade_metadata a)
    (express_feed_capacity a) (trade_metadata_capacity a) p.

Definition node_status (a : ApiRouter) : NodeStatus :=
  let p := node_state_provider a in
  mkNodeStatus (default 1 (pv_chain_id p)) (default 0 (pv_block_number p))
    (default 0 (pv_peer_connections p)) (default true (pv_healthy p)).

Definition to_hex (value : Z) : string := "0x" +:+ print 16 value.

Definition eth_chain_id (a : ApiRouter) : string := to_hex (chain_id (node_status a)).
Definition eth_block_number (a : ApiRouter) : string := to_hex (block_number (node_status a)).

Definition monmouth_node_status (a : ApiRouter) : string :=
  let status := node_status a in
  "{" +:+ quoted "healthy" +:+ ":" +:+ (if healthy status then "true" else "false")
  +:+ "," +:+ quoted "chainId" +:+ ":" +:+ quoted (to_hex (chain_id status))
  +:+ "," +:+ quoted "blockNumber" +:+ ":" +:+ quoted (to_hex (block_number status))
  +:+ "," +:+ quoted "peerConnections" +:+ ":" +:+ print 10 (peer_connections status) +:+ "}".

Definition rpc_result (method : string) (a : ApiRouter) : string :=
  if bool_decide (method = "eth_chainId") then eth_chain_id a
  else if bool_decide (method = "eth_blockNumber") then eth_block_number a
  else if bool_decide (method = "monmouth_nodeStatus") then monmouth_node_status a
  else "{" +:+ quoted "error" +:+ ":" +:+ quoted "method not found" +:+ "}".

(** ** Bounded buffers *)
Section Buffer.
Context {T : Type}.

(** The [while] that drops the oldest entries. *)
Fixpoint evict (max_size : Z) (buffer : list T) : list T :=
  match buffer with
  | [] => []
  | _ :: rest => if Z.of_nat (length buffer) >=? max_size then evict max_size rest else buffer
  end.

Definition push_with_fifo_eviction (max_size : Z) (value : T) (buffer : list T) : list T :=
  if max_size =? 0 then buffer else evict max_size buffer ++ [value].
End Buffer.

Definition push_express_feed_frame (frame : ExpressFeedFrame) (a : ApiRouter) : ApiRouter :=
  mkRouter (endpoints a) (push_with_fifo_eviction (express_feed_capacity a) frame (express_feed_frames a))
    (trade_metadata a) (express_feed_capacity a) (trade_metadata_capacity a) (node_state_provider a).

Definition get_express_feed_frames (min_wal_offset : Z) (a : ApiRouter) : list ExpressFeedFrame :=
  List.filter (fun f => ef_wal_offset f >=? min_wal_offset) (express_feed_frames a).

Definition express_feed_frame_count (a : ApiRouter) : Z := Z.of_nat (length (express_feed_frames a)).

Definition push_trade_metadata (metadata : TradeMetadata) (a : ApiRouter) : ApiRouter :=
  mkRouter (endpoints a) (express_feed_frames a)
    (push_with_fifo_eviction (trade_metadata_capacity a) metadata (trade_metadata a))
    (express_feed_capacity a) (trade_metadata_capacity a) (node_state_provider a).

Definition get_trade_metadata (min_wal_offset : Z) (a : ApiRouter) : list TradeMetadata :=
  List.filter (fun t => tm_wal_offset t >=? min_wal_offset) (trade_metadata a).

Definition trade_metadata_count (a : ApiRouter) : Z := Z.of_nat (length (trade_metadata a)).

(** ** Buffers keep the most recent entries *)
Definition last_n {T} (n : nat) (l : list T) : list T := drop (length l - n) l.

Section BufferFacts.
Context {T : Type}.
Implicit Types l buffer : list T.

Lemma evict_last n buffer : 0 <= n -> evict (n + 1) buffer = last_n (Z.to_nat n) buffer.
Proof.
  intros Hn. unfold last_n. induction buffer as [|x buffer IH]; [done|]. cbn [evict].
  destruct (Z.geb_spec (Z.of_nat (length (x :: buffer))) (n + 1)) as [H|H]; cbn [length] in *.
  - rewrite IH. by replace (S (length buffer) - Z.to_nat n)%nat with (S (length buffer - Z.to_nat n)) by lia.
  - by replace (S (length buffer) - Z.to_nat n)%nat with 0%nat by lia.
Qed.

Lemma last_n_last_n n m l : (n <= m)%nat -> last_n n (last_n m l) = last_n n l.
Proof.
  intros H. unfold last_n. rewrite length_drop, drop_drop. f_equal. lia.
Qed.

Lemma last_n_snoc n l x : last_n (S n) (l ++ [x]) = last_n n l ++ [x].
Proof.
  unfold last_n. rewrite length_app. cbn. rewrite drop_app_le by lia. do 2 f_equal. lia.
Qed.

Lemma push_last n x l buffer : 0 <= n ->
  buffer = last_n (Z.to_nat (n + 1)) l ->
  push_with_fifo_eviction (n + 1) x buffer = last_n (Z.to_nat (n + 1)) (l ++ [x]).
Proof.
  intros Hn ->. unfold push_with_fifo_eviction. destruct (Z.eqb_spec (n + 1) 0); [lia|].
  rewrite evict_last by done. replace (Z.to_nat (n + 1)) with (S (Z.to_nat n)) by lia.
  by rewrite last_n_snoc, last_n_last_n by lia.
Qed.
End BufferFacts.

(** ** Runs of the router *)
Inductive ApiOp :=
  | ARegister (name : string)
  | AProvider (p : NodeStateProvider)
  | AFrame (f : ExpressFeedFrame)
  | ATrade (t : TradeMetadata).

Definition api_step (a : ApiRouter) (op : ApiOp) : ApiRouter :=
  match op with
  | ARegister name => register_endpoint name a
  | AProvider p => set_node_state_provider p a
  | AFrame f => push_express_feed_frame f a
  | ATrade t => push_trade_metadata t a
  end.

Definition api_run (ops : list ApiOp) (a : ApiRouter) : ApiRouter := foldl api_step a ops.

Definition frames_of (ops : list ApiOp) : list ExpressFeedFrame :=
  omap (fun op => match op with AFrame f => Some f | _ => None end) ops.
Definition trades_of (ops : list ApiOp) : list TradeMetadata :=
  omap (fun op => match op with ATrade t => Some t | _ => None end) ops.
Definition names_of (ops : list ApiOp) : list string :=
  omap (fun op => match op with ARegister n => if bool_decide (n = "") then None else Some n | _ => None end) ops.

Lemma omap_snoc {A B} (f : A -> option B) l x :
  omap f (l ++ [x]) = omap f l ++ match f x with Some y => [y] | None => [] end.
Proof. by rewrite omap_app. Qed.

(** What a run leaves behind. *)
Record api_rep (c t : Z) (ops : list ApiOp) (a : ApiRouter) : Prop := {
  ar_express_capacity : express_feed_capacity a = Z.max 1 c;
  ar_trade_capacity : trade_metadata_capacity a = Z.max 1 t;
  ar_frames : express_feed_frames a = last_n (Z.to_nat (Z.max 1 c)) (frames_of ops);
  ar_trades : trade_metadata a = last_n (Z.to_nat (Z.max 1 t)) (trades_of ops);
  ar_endpoints : forall name, name ∈ endpoints a <-> name ∈ names_of ops }.

Lemma api_run_rep c t ops : api_rep c t ops (api_run ops (new_router c t)).
Proof.
  induction ops as [|op ops IH] using rev_ind; [split; cbn; try done; set_solver|].
  unfold api_run in *. rewrite foldl_snoc. set (a := foldl _ _ ops) in *. destruct IH as [H1 H2 H3 H4 H5].
  unfold frames_of, trades_of, names_of in *.
  destruct op as [n|p|f|m]; cbn [api_step]; unfold register_endpoint;
    [destruct (bool_decide (n = "")) eqn:En| | |];
    split; cbn; unfold frames_of, trades_of, names_of; rewrite ?omap_snoc, ?En, ?app_nil_r; try done.
  - intros name. rewrite elem_of_union, elem_of_singleton, elem_of_app, H5, list_elem_of_singleton. tauto.
  - replace (Z.max 1 c) with (Z.max 1 c - 1 + 1) in * by lia. rewrite H1. by apply push_last; [lia|].
  - replace (Z.max 1 t) with (Z.max 1 t - 1 + 1) in * by lia. rewrite H2. by apply push_last; [lia|].
Qed.

(** The feeds are bounded and lose only the oldest entries.  After any
    sequence of calls a query returns, in order, the entries at or above the
    offset asked for among the last [capacity] ones pushed, a capacity of 0
    counting as 1; an endpoint is known when it was registered under a name. *)
Theorem api_feeds_keep_latest express_capacity trade_capacity ops offset name :
  let a := api_run ops (new_router express_capacity trade_capacity) in
  get_express_feed_frames offset a =
    List.filter (fun f => ef_wal_offset f >=? offset)
      (last_n (Z.to_nat (Z.max 1 express_capacity)) (frames_of ops)) /\
  get_trade_metadata offset a =
    List.filter (fun t => tm_wal_offset t >=? offset)
      (last_n (Z.to_nat (Z.max 1 trade_capacity)) (trades_of ops)) /\
  express_feed_frame_count a <= Z.max 1 express_capacity /\
  trade_metadata_count a <= Z.max 1 trade_capacity /\
  has_endpoint name a = bool_decide (name ∈ names_of ops).
Proof.
  cbv zeta. destruct (api_run_rep express_capacity trade_capacity ops) as [_ _ Hf Ht He].
  set (a := api_run _ _) in *. unfold get_express_feed_frames, get_trade_metadata,
    express_feed_frame_count, trade_metadata_count, has_endpoint.
  rewrite Hf, Ht. split; [done|]. split; [done|]. unfold last_n. rewrite !length_drop.
  split; [lia|]. split; [lia|]. by apply bool_decide_ext.
Qed.

(** ** Hexadecimal *)
Definition digit_value (c : Ascii.ascii) : option Z :=
  let n := Z.of_nat (Ascii.nat_of_ascii c) in
  if (48 <=? n) && (n <=? 57) then Some (n - 48)
  else if (97 <=? n) && (n <=? 102) then Some (n - 87)
  else None.

Fixpoint read_digits (base acc : Z) (s : string) : option Z :=
  match s with
  | "" => Some acc
  | String c s => d ← digit_value c; read_digits base (acc * base + d) s
  end.

(** A reader of what [to_hex] prints. *)
Definition of_hex (s : string) : option Z :=
  match s with
  | String c0 (String cx s) =>
      if bool_decide (String c0 (String cx "") = "0x") then read_digits 16 0 s else None
  | _ => None
  end.

Lemma digit_value_digit d : 0 <= d < 16 -> digit_value (digit d) = Some d.
Proof.
  intros H.
  assert (Hd : exists n : nat, (n < 16)%nat /\ d = Z.of_nat n) by (exists (Z.to_nat d); lia).
  destruct Hd as (n & Hn & ->). clear H. do 16 (destruct n as [|n]; [reflexivity|]). lia.
Qed.

Lemma read_print_loop n : forall v s, 0 <= v < 16 ^ Z.of_nat n -> (0 < n)%nat ->
  read_digits 16 0 (print_loop n 16 v s) = read_digits 16 v s.
Proof.
  induction n as [|n IH]; intros v s Hv Hn; [lia|]. cbn [print_loop].
  pose proof (Z.div_mod v 16 ltac:(lia)) as E. pose proof (Z.mod_pos_bound v 16 ltac:(lia)) as Hm.
  rewrite Nat2Z.inj_succ, Z.pow_succ_r in Hv by lia.
  destruct (Z.eqb_spec (v / 16) 0) as [H0|H0].
  - cbn [read_digits]. rewrite digit_value_digit by done. cbn. f_equal. lia.
  - assert (0 < v / 16) by (pose proof (Z.div_pos v 16); lia).
    destruct n as [|n]; [change (16 ^ Z.of_nat 0) with 1 in Hv; lia|].
    rewrite IH by (try apply Nat.lt_0_succ; nia).
    cbn [read_digits]. rewrite digit_value_digit by done. cbn. f_equal. lia.
Qed.

(** The hexadecimal answers can be read back.  Every 64-bit chain id and
    block number is printed as [0x] and digits that denote it, so the answers of
    [eth_chainId] and [eth_blockNumber] identify the number. *)
Lemma rpc_numbers_roundtrip a :
  in_u 64 (chain_id (node_status a)) -> in_u 64 (block_number (node_status a)) ->
  of_hex (rpc_result "eth_chainId" a) = Some (chain_id (node_status a)) /\
  of_hex (rpc_result "eth_blockNumber" a) = Some (block_number (node_status a)).
Proof.
  assert (H : forall v, in_u 64 v -> of_hex (to_hex v) = Some v).
  { intros v Hv. change (read_digits 16 0 (print 16 v) = Some v). unfold print.
    rewrite read_print_loop; [done| |lia]. unfold in_u in Hv. change (16 ^ Z.of_nat 64) with (2 ^ 256). lia. }
  intros H1 H2. by split; apply H.
Qed.

Lemma rpc_numbers_roundtrip_witness :
  of_hex (rpc_result "eth_chainId" (new_router 4 4)) = Some 1 /\
  of_hex (rpc_result "eth_blockNumber" (new_router 4 4)) = Some 0.
Proof. apply (rpc_numbers_roundtrip (new_router 4 4)); by vm_compute. Defined.

(** The answers on a node whose provider is set. *)
Example rpc_answers :
  let a := set_node_state_provider (mkProvider (Some 7031) (Some 255) (Some 12) (Some false)) (new_router 0 0) in
  rpc_result "eth_chainId" a = "0x1b77" /\
  rpc_result "monmouth_nodeStatus" a =
    "{" +:+ quoted "healthy" +:+ ":false," +:+ quoted "chainId" +:+ ":" +:+ quoted "0x1b77" +:+ "," +:+
    quoted "blockNumber" +:+ ":" +:+ quoted "0xff" +:+ "," +:+ quoted "peerConnections" +:+ ":12}".
Proof. by vm_compute. Qed.
