(* ===== verification/Auth.v ===== *)
(** * Authentication

    [libs/auth], and the verifier the daemon gives the pipeline.  The signature
    scheme is libsodium's: its functions are parameters, and what the code relies
    on is the law that a signature made with a secret key verifies with its
    public key. *)
From S2P Require Import Prelude Types Bytes Sbe SpscRing Ingest.

Definition kPublicKeySize : nat := 32.
Definition kSecretKeySize : nat := 64.
Definition kSignatureSize : nat := 64.

Abbreviation PublicKey := bytes.
Abbreviation SecretKey := bytes.
Abbreviation Signature := bytes.

(** [keys_]. *)
Record Authenticator := mkAuth { auth_keys : gmap Z PublicKey }.

Definition new_authenticator : Authenticator := mkAuth ∅.

Definition register_account (account : Z) (public_key : PublicKey) (a : Authenticator) : Authenticator :=
  mkAuth (<[account := public_key]> (auth_keys a)).

Definition unregister_account (account : Z) (a : Authenticator) : Authenticator :=
  mkAuth (base.delete account (auth_keys a)).

Definition has_account (account : Z) (a : Authenticator) : bool :=
  bool_decide (is_Some (auth_keys a !! account)).

(** [nullptr] is [None]. *)
Definition get_public_key (account : Z) (a : Authenticator) : option PublicKey := auth_keys a !! account.

Definition account_count (a : Authenticator) : Z := Z.of_nat (size (auth_keys a)).

(** The header as [verify_frame] sees it in the daemon: the object in memory,
    with six bytes of padding after its 26 bytes of members.  The source leaves
    the padding unspecified, so the model takes it as an argument. *)
Definition frame_header_memory (h : FrameHeader) (padding : bytes) : bytes :=
  to_le 8 (fh_account h) ++ to_le 8 (fh_nonce h) ++ to_le 8 (fh_received_time_ns h) ++
  to_le 1 (fh_priority h) ++ to_le 1 (MessageKind_to_u8 (fh_kind h)) ++ padding.

(** The message a signature must cover. *)
Definition signed_message (header_data payload : bytes) : bytes :=
  header_data ++ drop kSignatureSize payload.

(** The static [SodiumInitializer]: what [sodium_init] returned the first time. *)
Definition ensure_sodium_init (sodium_init : Z) : result unit :=
  if sodium_init <? 0 then Throw "Failed to initialize libsodium" else Ok ().

(** The constructor. *)
Definition construct_authenticator (sodium_init : Z) : result Authenticator :=
  _ ← ensure_sodium_init sodium_init; Ok new_authenticator.

(** [generate_keypair]; the pair is what [crypto_sign_keypair] writes. *)
Definition generate_keypair (sodium_init : Z) (crypto_sign_keypair : PublicKey * SecretKey)
    : result (PublicKey * SecretKey) :=
  _ ← ensure_sodium_init sodium_init; Ok crypto_sign_keypair.

Section Sodium.
(** [crypto_sign_verify_detached(sig, message, pk) == 0] and the signature that
    [crypto_sign_detached] writes. *)
Context (crypto_sign_verify_detached : Signature -> bytes -> PublicKey -> bool).
Context (crypto_sign_detached : bytes -> SecretKey -> Signature).

Definition verify_with_key (public_key : PublicKey) (message : bytes) (signature : Signature) : bool :=
  crypto_sign_verify_detached signature message public_key.

Definition sign (secret_key : SecretKey) (message : bytes) : Signature :=
  crypto_sign_detached message secret_key.

Definition verify (account : Z) (message : bytes) (signature : Signature) (a : Authenticator) : bool :=
  match get_public_key account a with
  | None => false
  | Some key => verify_with_key key message signature
  end.

(** [FrameAuthenticator::verify_frame]. *)
Definition verify_frame (header_data payload : bytes) (account : Z) (a : Authenticator) : bool :=
  if (length payload <? kSignatureSize)%nat then false
  else verify account (signed_message header_data payload) (take kSignatureSize payload) a.

(** The daemon's [auth_verifier]. *)
Definition auth_verifier (padding : bytes) (a : Authenticator) (header : FrameHeader) (payload : bytes) : bool :=
  verify_frame (frame_header_memory header padding) payload (fh_account header) a.

(** The payload of a frame a client signs. *)
Definition sign_payload (secret_key : SecretKey) (header_data body : bytes) : bytes :=
  sign secret_key (header_data ++ body) ++ body.

(** ** Runs of the key store *)
Inductive KeyOp :=
  | KRegister (account : Z) (public_key : PublicKey)
  | KUnregister (account : Z).

Definition key_step (a : Authenticator) (op : KeyOp) : Authenticator :=
  match op with
  | KRegister account key => register_account account key a
  | KUnregister account => unregister_account account a
  end.

(** The key the last operation on an account left. *)
Fixpoint current_key (account : Z) (ops : list KeyOp) (found : option PublicKey) : option PublicKey :=
  match ops with
  | [] => found
  | KRegister b key :: ops => current_key account ops (if account =? b then Some key else found)
  | KUnregister b :: ops => current_key account ops (if account =? b then None else found)
  end.

Lemma keys_after ops account : forall a,
  get_public_key account (foldl key_step a ops) = current_key account ops (get_public_key account a).
Proof.
  induction ops as [|[b key|b] ops IH]; intros a; cbn [foldl current_key]; [done|..]; rewrite IH; f_equal;
    unfold get_public_key; cbn.
  - destruct (Z.eqb_spec account b) as [->|Hn]; [by rewrite lookup_insert_eq|by rewrite lookup_insert_ne].
  - destruct (Z.eqb_spec account b) as [->|Hn]; [by rewrite lookup_delete_eq|by rewrite lookup_delete_ne].
Qed.

(** A signature made with [sk] verifies with [pk] and has the scheme's size. *)
Definition keypair (pk : PublicKey) (sk : SecretKey) : Prop :=
  forall m, crypto_sign_verify_detached (crypto_sign_detached m sk) m pk = true /\
            length (crypto_sign_detached m sk) = kSignatureSize.

(** C38: a frame is accepted exactly when it should be.  After any sequence of
    registrations and removals, a frame passes if and only if its account has a
    key, its payload starts with a signature, and that signature verifies with
    that key over the header and the rest of the payload; in particular every
    frame signed with the secret key of the account's current key passes. *)
Theorem verify_frame_exact ops header payload account :
  let a := foldl key_step new_authenticator ops in
  (verify_frame header payload account a = true <->
     exists key signature body,
       current_key account ops None = Some key /\ payload = signature ++ body /\
       length signature = kSignatureSize /\
       crypto_sign_verify_detached signature (header ++ body) key = true) /\
  (forall pk sk body, keypair pk sk -> current_key account ops None = Some pk ->
     verify_frame header (sign_payload sk header body) account a = true).
Proof.
  cbv zeta. set (a := foldl _ _ _).
  assert (Hk : get_public_key account a = current_key account ops None) by apply keys_after.
  assert (Hv : forall key s b, current_key account ops None = Some key -> length s = kSignatureSize ->
    verify_frame header (s ++ b) account a = crypto_sign_verify_detached s (header ++ b) key).
  { intros key s b Ek Hs. unfold verify_frame, verify, signed_message. rewrite Hk, Ek, length_app, Hs.
    destruct (Nat.ltb_spec (kSignatureSize + length b) kSignatureSize); [lia|].
    by rewrite <- Hs, take_app_length, drop_app_length. }
  split; [split|].
  - unfold verify_frame at 1. destruct (Nat.ltb_spec (length payload) kSignatureSize) as [|Hl]; [done|].
    unfold verify. rewrite Hk. destruct (current_key account ops None) as [key|] eqn:Ek; [|done].
    intros Hs. exists key, (take kSignatureSize payload), (drop kSignatureSize payload).
    rewrite take_drop, length_take. repeat split; [lia|exact Hs].
  - intros (key & s & b & Ek & -> & Hs & Hc). by rewrite (Hv key).
  - intros pk sk body Hkp Ek. unfold sign_payload, sign. destruct (Hkp (header ++ body)) as [Hc Hs].
    by rewrite (Hv pk).
Qed.

End Sodium.

(** ** A toy scheme for the witnesses: the checksum of the message, padded *)
Definition toy_sign (m : bytes) (sk : SecretKey) : Signature := to_le 64 (checksum32 (m ++ sk)).
Definition toy_verify (s m : bytes) (pk : PublicKey) : bool := bool_decide (s = toy_sign m pk).

Lemma toy_keypair k : keypair toy_verify toy_sign k k.
Proof. intros m. unfold toy_verify. rewrite bool_decide_true by done. split; [done|apply length_to_le]. Qed.

Definition demo_header : FrameHeader := mkHeader 1 5 1000 0 kNewOrder.

Lemma verify_frame_exact_witness :
  let header := frame_header_memory demo_header [0; 0; 0; 0; 0; 0] in
  verify_frame toy_verify header (sign_payload toy_sign [7] header [1; 2; 3]) 1
    (foldl key_step new_authenticator [KRegister 1 [7]; KUnregister 2]) = true.
Proof.
  cbv zeta.
  refine (proj2 (verify_frame_exact toy_verify toy_sign [KRegister 1 [7]; KUnregister 2]
    (frame_header_memory demo_header [0; 0; 0; 0; 0; 0]) [] 1) [7] [7] [1; 2; 3] (toy_keypair [7]) _).
  done.
Defined.
