(* ===== verification/Telemetry.v ===== *)
(** * Telemetry

    [libs/telemetry]: the streaming histogram and the sink.  Doubles are IEEE
    binary64 computed by the Standard Library's [SpecFloat]; a shift by a
    negative amount is undefined behaviour and gives [None]. *)
From S2P Require Import Prelude.
From Stdlib Require Import SpecFloat.

Record Sample := mkSample { smp_id : Z; smp_value : Z }.

Definition kNumBuckets : nat := 30.

Record StreamingHistogram := mkHistogram {
  hg_buckets : list Z;
  hg_count : Z;
  hg_sum : Z;
  hg_min : Z;
  hg_max : Z }.

Definition empty_histogram : StreamingHistogram :=
  mkHistogram (replicate kNumBuckets 0) 0 0 INT64_MAX 0.

(** [std::bit_width]. *)
Definition bit_width (v : Z) : Z := if v =? 0 then 0 else Z.log2 v + 1.

Definition bucket_index (value_ns : Z) : nat :=
  if value_ns <=? 0 then 0%nat
  else Z.to_nat (Z.min (bit_width (u64 value_ns)) (Z.of_nat kNumBuckets - 1)).

Definition bucket_midpoint (idx : nat) : option Z :=
  match idx with
  | O => Some 1
  | 1%nat => None
  | S (S i) => Some (i64 (Z.shiftl 3 (Z.of_nat i)))
  end.

Definition bump (x : Z) : Z := u64 (x + 1).

Definition record (value_ns : Z) (h : StreamingHistogram) : StreamingHistogram :=
  mkHistogram (alter bump (bucket_index value_ns) (hg_buckets h)) (bump (hg_count h))
    (i64 (hg_sum h + value_ns)) (Z.min (hg_min h) value_ns) (Z.max (hg_max h) value_ns).

Definition reset (h : StreamingHistogram) : StreamingHistogram := empty_histogram.

(** ** Doubles *)
Definition double_of (z : Z) : spec_float := binary_normalize 53 1024 z 0 false.
Definition ddiv (x y : spec_float) : spec_float := SFdiv 53 1024 x y.
Definition dmul (x y : spec_float) : spec_float := SFmul 53 1024 x y.

(** The conversion of a non-negative double to an integer: truncation. *)
Definition u64_of_double (x : spec_float) : Z :=
  match x with
  | S754_finite false m e => u64 (Z.shiftl (Zpos m) e)
  | _ => 0
  end.

(** The literal [0.99]. *)
Definition d0_99 : spec_float := S754_finite false 8917127262193582 (-53).

Definition mean (h : StreamingHistogram) : spec_float :=
  if hg_count h =? 0 then S754_zero false else ddiv (double_of (hg_sum h)) (double_of (hg_count h)).

(** The loop of [percentile], from bucket [idx]. *)
Fixpoint percentile_loop (idx : nat) (buckets : list Z) (target cumulative max : Z) : option spec_float :=
  match buckets with
  | [] => Some (double_of max)
  | b :: buckets =>
      let cumulative := u64 (cumulative + b) in
      if cumulative >=? target then double_of <$> bucket_midpoint idx
      else percentile_loop (S idx) buckets target cumulative max
  end.

Definition percentile (p : spec_float) (h : StreamingHistogram) : option spec_float :=
  if hg_count h =? 0 then Some (S754_zero false)
  else
    let target := u64_of_double (dmul (double_of (hg_count h)) p) in
    percentile_loop 0 (hg_buckets h) target 0 (hg_max h).

(** ** The sink *)
Definition kMaxMetricId : nat := 1024.

Record TelemetrySink := mkSink { sk_buffer : list Sample; sk_histograms : list StreamingHistogram }.

Definition new_sink : TelemetrySink := mkSink [] (replicate kMaxMetricId empty_histogram).

Record Summary := mkLatencySummary {
  sm_id : Z;
  sm_count : Z;
  sm_mean_ns : spec_float;
  sm_p99_ns : option spec_float }.

Definition push (s : Sample) (t : TelemetrySink) : TelemetrySink := mkSink (sk_buffer t ++ [s]) (sk_histograms t).

Definition increment (id delta : Z) (t : TelemetrySink) : TelemetrySink := push (mkSample id delta) t.

Definition slot (id : Z) : nat := Z.to_nat (id mod Z.of_nat kMaxMetricId).

Definition record_latency (id latency : Z) (t : TelemetrySink) : TelemetrySink :=
  mkSink (sk_buffer t) (alter (record latency) (slot id) (sk_histograms t)).

Definition drain (t : TelemetrySink) : TelemetrySink * list Sample := (mkSink [] (sk_histograms t), sk_buffer t).

Definition summary_of (idx : nat) (h : StreamingHistogram) : Summary :=
  mkLatencySummary (Z.of_nat idx) (hg_count h) (mean h) (percentile d0_99 h).

(** The loop of [drain_latency], from slot [idx]. *)
Fixpoint drain_loop (idx : nat) (hs : list StreamingHistogram) : list StreamingHistogram * list Summary :=
  match hs with
  | [] => ([], [])
  | h :: hs =>
      let '(hs', summaries) := drain_loop (S idx) hs in
      if hg_count h =? 0 then (h :: hs', summaries) else (reset h :: hs', summary_of idx h :: summaries)
  end.

Definition drain_latency (t : TelemetrySink) : TelemetrySink * list Summary :=
  let '(hs, summaries) := drain_loop 0 (sk_histograms t) in (mkSink (sk_buffer t) hs, summaries).

(** ** What a histogram holds *)
Definition minimum (l : list Z) : Z := foldl Z.min INT64_MAX l.
Definition maximum (l : list Z) : Z := foldl Z.max 0 l.

(** How many of the values fall in a bucket. *)
Definition in_bucket (idx : nat) (l : list Z) : Z :=
  Z.of_nat (length (List.filter (fun v => (bucket_index v =? idx)%nat) l)).

Record holds_values (h : StreamingHistogram) (l : list Z) : Prop := {
  hv_length : length (hg_buckets h) = kNumBuckets;
  hv_bucket : forall i b, hg_buckets h !! i = Some b -> b = u64 (in_bucket i l);
  hv_count : hg_count h = u64 (Z.of_nat (length l));
  hv_sum : hg_sum h = i64 (Zsum id l);
  hv_min : hg_min h = minimum l;
  hv_max : hg_max h = maximum l }.

Lemma bump_u64 z : bump (u64 z) = u64 (z + 1).
Proof. unfold bump, wrapu. by rewrite Z.add_mod_idemp_l. Qed.

Lemma empty_holds : holds_values empty_histogram [].
Proof.
  split; try by vm_compute. intros i b H. cbn in H.
  apply (lookup_replicate 30) in H as [-> _]. by vm_compute.
Qed.

Lemma bucket_index_bound v : (bucket_index v < kNumBuckets)%nat.
Proof. unfold bucket_index, kNumBuckets. destruct (_ <=? _); lia. Qed.

Lemma in_bucket_snoc i l v :
  in_bucket i (l ++ [v]) = in_bucket i l + (if (bucket_index v =? i)%nat then 1 else 0).
Proof.
  unfold in_bucket. rewrite List.filter_app, length_app. cbn. destruct (_ =? _)%nat; cbn; lia.
Qed.

Lemma record_holds h l v : holds_values h l -> holds_values (record v h) (l ++ [v]).
Proof.
  intros [H0 H1 H2 H3 H4 H5]. split; cbn -[kNumBuckets].
  - by rewrite length_alter.
  - intros i b. rewrite list_lookup_alter, in_bucket_snoc.
    destruct (Nat.eqb_spec (bucket_index v) i) as [->|Hn].
    + rewrite decide_True by done. intros (b0 & E & ->)%fmap_Some. by rewrite (H1 _ _ E), bump_u64.
    + rewrite decide_False by done. rewrite Z.add_0_r. apply H1.
  - rewrite H2, bump_u64, length_app, Nat2Z.inj_add. done.
  - rewrite H3, i64_add_l, Zsum_app. f_equal. rewrite Zsum_cons, Zsum_nil. cbn. lia.
  - by rewrite H4; unfold minimum; rewrite foldl_snoc.
  - by rewrite H5; unfold maximum; rewrite foldl_snoc.
Qed.

(** The latencies recorded in a slot, in order. *)
Definition values_in (idx : nat) (l : list (Z * Z)) : list Z :=
  map snd (List.filter (fun e => (slot e.1 =? idx)%nat) l).

Definition record_all (l : list (Z * Z)) (t : TelemetrySink) : TelemetrySink :=
  foldl (fun t e => record_latency e.1 e.2 t) t l.

Lemma slot_bound id : (slot id < kMaxMetricId)%nat.
Proof. unfold slot. pose proof (Z.mod_pos_bound id (Z.of_nat kMaxMetricId) ltac:(done)). lia. Qed.

(** Every slot holds the latencies recorded in it. *)
Definition sink_rep (l : list (Z * Z)) (t : TelemetrySink) : Prop :=
  length (sk_histograms t) = kMaxMetricId /\
  forall idx h, sk_histograms t !! idx = Some h -> holds_values h (values_in idx l).

Lemma new_sink_rep : sink_rep [] new_sink.
Proof.
  split; [apply length_replicate|]. intros idx h H.
  change (replicate kMaxMetricId empty_histogram !! idx = Some h) in H.
  apply lookup_replicate in H as [-> _]. apply empty_holds.
Qed.

Lemma record_latency_rep l t e : sink_rep l t -> sink_rep (l ++ [e]) (record_latency e.1 e.2 t).
Proof.
  intros [Hn Hl]. split; [cbn; by rewrite length_alter|]. intros idx h. cbn.
  unfold values_in. rewrite List.filter_app, map_app. cbn [List.filter].
  destruct (Nat.eqb_spec (slot e.1) idx) as [<-|Hd].
  - rewrite list_lookup_alter_eq. intros (h0 & H0 & ->)%fmap_Some. by apply record_holds, Hl.
  - rewrite list_lookup_alter_ne by done. intros H. rewrite app_nil_r. by apply Hl.
Qed.

Lemma record_all_rep l : sink_rep l (record_all l new_sink).
Proof.
  induction l as [|e l IH] using rev_ind; [apply new_sink_rep|].
  unfold record_all in *. rewrite foldl_snoc. by apply record_latency_rep.
Qed.

(** What draining returns: a summary per histogram that is not empty, in order,
    and empty histograms after. *)
Lemma drain_loop_spec hs : forall idx,
  (drain_loop idx hs).2 =
    omap (fun '(i, h) => if hg_count h =? 0 then None else Some (summary_of i h)) (zip (seq idx (length hs)) hs) /\
  (drain_loop idx hs).1 = map (fun h => if hg_count h =? 0 then h else empty_histogram) hs.
Proof.
  induction hs as [|h hs IH]; intros idx; [done|]. cbn [drain_loop length seq zip zip_with].
  destruct (IH (S idx)) as [E1 E2]. destruct (drain_loop (S idx) hs) as [hs' ss]. cbn in *. subst.
  by destruct (hg_count h =? 0).
Qed.

(** The summary of a slot that holds [l], and nothing for an empty one. *)
Definition slot_summary (idx : nat) (l : list Z) : option Summary :=
  let h := foldl (fun h v => record v h) empty_histogram l in
  if Z.of_nat (length l) =? 0 then None
  else Some (mkLatencySummary (Z.of_nat idx) (Z.of_nat (length l))
               (ddiv (double_of (i64 (Zsum id l))) (double_of (Z.of_nat (length l)))) (percentile d0_99 h)).

Lemma holds_unique h h' l : holds_values h l -> holds_values h' l -> h = h'.
Proof.
  intros [L1 B1 C1 S1 M1 X1] [L2 B2 C2 S2 M2 X2].
  assert (hg_buckets h = hg_buckets h').
  { apply (list_eq_same_length _ _ kNumBuckets); [done|congruence|].
    intros i x y _ Hx Hy. by rewrite (B1 _ _ Hx), (B2 _ _ Hy). }
  destruct h, h'; cbn in *; congruence.
Qed.

Lemma fold_holds l : holds_values (foldl (fun h v => record v h) empty_histogram l) l.
Proof. induction l as [|v l IH] using rev_ind; [apply empty_holds|]. rewrite foldl_snoc. by apply record_holds. Qed.

Lemma summary_spec idx h l : holds_values h l -> Z.of_nat (length l) < 2 ^ 64 ->
  (if hg_count h =? 0 then None else Some (summary_of idx h)) = slot_summary idx l.
Proof.
  intros Hh Hn. rewrite (holds_unique _ _ _ Hh (fold_holds l)). unfold slot_summary, summary_of, mean.
  destruct (fold_holds l) as [_ _ Hc Hs _ _]. rewrite Hc, Hs, wrapu_small by (unfold in_u; lia).
  by destruct (_ =? 0).
Qed.

Lemma values_in_length idx l : (length (values_in idx l) <= length l)%nat.
Proof. unfold values_in. rewrite length_map. induction l as [|e l IH]; cbn; [lia|]. destruct (_ =? _)%nat; cbn; lia. Qed.

Lemma omap_zip_seq {A B} (f : nat * A -> option B) (g : nat -> option B) l : forall k,
  (forall i x, l !! i = Some x -> f ((k + i)%nat, x) = g (k + i)%nat) ->
  omap f (zip (seq k (length l)) l) = omap g (seq k (length l)).
Proof.
  induction l as [|x l IH]; intros k H; [done|]. cbn [length seq].
  pose proof (H 0%nat x eq_refl) as H0. rewrite Nat.add_0_r in H0.
  assert (E : omap f (zip (seq (S k) (length l)) l) = omap g (seq (S k) (length l))).
  { apply IH. intros i y Hi. replace (S k + i)%nat with (k + S i)%nat by lia. exact (H (S i) y Hi). }
  change (zip (k :: seq (S k) (length l)) (x :: l)) with ((k, x) :: zip (seq (S k) (length l)) l).
  change (match f (k, x) with Some y => y :: omap f (zip (seq (S k) (length l)) l)
          | None => omap f (zip (seq (S k) (length l)) l) end =
          match g k with Some y => y :: omap g (seq (S k) (length l)) | None => omap g (seq (S k) (length l)) end).
  by rewrite H0, E.
Qed.

(** Draining reports what was recorded and starts over.  After any latencies
    (fewer than [2^64]), draining gives one summary for every slot with at least
    one latency, in slot order, with their number, their mean and their 99th
    percentile as doubles, and leaves the sink as new. *)
Lemma drain_reports_recorded l :
  Z.of_nat (length l) < 2 ^ 64 ->
  drain_latency (record_all l new_sink) =
    (new_sink, omap (fun idx => slot_summary idx (values_in idx l)) (seq 0 kMaxMetricId)).
Proof.
  intros Hl. destruct (record_all_rep l) as [Hn Hr]. unfold drain_latency.
  assert (Hb : sk_buffer (record_all l new_sink) = []).
  { unfold record_all. clear. induction l as [|e l IH] using rev_ind; [done|]. by rewrite foldl_snoc. }
  set (hs := sk_histograms (record_all l new_sink)) in *.
  assert (Hs : forall idx h, hs !! idx = Some h ->
    (if hg_count h =? 0 then None else Some (summary_of idx h)) = slot_summary idx (values_in idx l)).
  { intros idx h H. apply summary_spec; [by apply Hr|]. pose proof (values_in_length idx l). lia. }
  destruct (drain_loop_spec hs 0) as [E1 E2]. destruct (drain_loop 0 hs) as [hs' ss]. cbn [fst snd] in *. subst.
  rewrite Hb. f_equal.
  - unfold new_sink. f_equal. symmetry. apply replicate_as_elem_of. rewrite length_map. split; [done|].
    intros x (h & -> & (idx & Hi)%list_elem_of_lookup)%list_elem_of_fmap.
    specialize (Hs idx h Hi). cbv beta. destruct (Z.eqb_spec (hg_count h) 0) as [H0|]; [|done].
    unfold slot_summary in Hs. destruct (Z.eqb_spec (Z.of_nat (length (values_in idx l))) 0); [|done].
    assert (values_in idx l = []) as E by (destruct (values_in idx l); [done|cbn in *; lia]).
    apply (holds_unique _ _ []); [|apply empty_holds]. rewrite <- E. by apply Hr.
  - rewrite <- Hn. by apply omap_zip_seq.
Qed.

Lemma drain_reports_recorded_witness :
  drain_latency (record_all [(3, 100); (1027, 300); (5, 7)] new_sink) =
    (new_sink, omap (fun idx => slot_summary idx (values_in idx [(3, 100); (1027, 300); (5, 7)])) (seq 0 kMaxMetricId)).
Proof. apply (drain_reports_recorded [(3, 100); (1027, 300); (5, 7)]). by vm_compute. Defined.

(** ** Behaviours a caller may not expect *)

(** Ids are taken modulo 1024: two metrics can share a slot. *)
Example ids_collide : slot 3 = slot 1027.
Proof. reflexivity. Qed.

(** Bucket 1, where a latency of one nanosecond falls, has no midpoint: the shift
    amount is negative.  (The comment on the buckets says that bucket [i] covers
    [2^i] up to [2^(i+1)]; it covers [2^(i-1)] up to [2^i].) *)
Example one_nanosecond_undefined :
  bucket_index 1 = 1%nat /\ percentile d0_99 (record 1 empty_histogram) = Some (double_of 1) /\
  percentile d0_99 (record 1 (record 1 empty_histogram)) = None.
Proof. vm_compute. repeat split. Qed.

(** The 99th percentile of one latency is reported as 1 ns: the rank [0.99]
    truncates to 0, which the empty first bucket reaches. *)
Example single_latency_percentile :
  percentile d0_99 (record 1000000 empty_histogram) = Some (double_of 1).
Proof. by vm_compute. Qed.
