(* ===== verification/Config.v ===== *)
(** * Configuration

    [libs/config]: the TOML document to the engine's configuration, and its
    validation.  The TOML parser and its accessors are third-party: the class
    [TomlLibrary] names what the loader calls of them. *)
From S2P Require Import Prelude.
Open Scope string_scope.
Open Scope list_scope.
Open Scope Z_scope.

Record TransportConfig := mkTransportConfig { endpoint : string }.

Record IngressConfig := mkIngress {
  new_order_queue_depth : Z;
  cancel_queue_depth : Z;
  replace_queue_depth : Z;
  max_new_orders_per_second : Z;
  max_cancels_per_second : Z }.

Record MarketRiskConfig := mkMarketRisk {
  contract_size : Z;
  initial_margin_basis_points : Z;
  maintenance_margin_basis_points : Z;
  initial_mark_price : Z }.

Record MarketFundingConfig := mkMarketFunding { clamp_basis_points : Z; max_rate_basis_points : Z }.

Record MarketConfig := mkMarketConfig {
  mc_id : Z;
  mc_symbol : string;
  mc_risk : MarketRiskConfig;
  mc_funding : MarketFundingConfig }.

Record MatcherConfig := mkMatcherConfig { arena_bytes : Z }.

Record PersistenceConfig := mkPersistence {
  wal_path : string;
  snapshot_dir : string;
  wal_flush_threshold : Z }.

Record TelemetryConfig := mkTelemetryConfig { tel_enabled : bool; buffer_size : Z }.

Record EngineConfig := mkEngineConfig {
  transport : TransportConfig;
  ingress : IngressConfig;
  matcher : MatcherConfig;
  persistence : PersistenceConfig;
  telemetry : TelemetryConfig;
  markets : list MarketConfig }.

(** The member initialisers. *)
Definition default_transport : TransportConfig := mkTransportConfig "quic://127.0.0.1:9000".
Definition default_ingress : IngressConfig := mkIngress 4096 4096 4096 10000 20000.
Definition default_market_risk : MarketRiskConfig := mkMarketRisk 1 500 300 1000.
Definition default_market_funding : MarketFundingConfig := mkMarketFunding 50 100.
Definition default_market : MarketConfig :=
  mkMarketConfig 1 "BTC-PERP" default_market_risk default_market_funding.
Definition default_matcher : MatcherConfig := mkMatcherConfig (2 ^ 20).
Definition default_persistence : PersistenceConfig :=
  mkPersistence "/var/lib/tradecore/events.wal" "/var/lib/tradecore/snapshots" 128.
Definition default_telemetry : TelemetryConfig := mkTelemetryConfig true 1024.
Definition default_engine : EngineConfig :=
  mkEngineConfig default_transport default_ingress default_matcher default_persistence default_telemetry [].

Record ValidationError := mkError { err_field : string; err_message : string }.

Record LoadResult := mkLoadResult {
  success : bool;
  lr_config : EngineConfig;
  errors : list ValidationError;
  raw_error : string }.

(** What a failed load carries. *)
Definition load_failure (message : string) : LoadResult := mkLoadResult false default_engine [] message.

(** ** The TOML library *)
Class TomlLibrary := {
  table : Type;
  node : Type;
  (** [tbl[key]], the accessors of the node it gives, and the parsers: a table
      or the text of the error. *)
  get : table -> string -> node;
  as_table : node -> option table;
  as_array : node -> option (list node);
  value_int64 : node -> option Z;
  value_string : node -> option string;
  value_bool : node -> option bool;
  parse : string -> table + string;
  parse_file : string -> table + string }.

Section Loader.
Context `{TomlLibrary}.

Definition get_int_or (tbl : table) (key : string) (default_val : Z) : Z :=
  default default_val (value_int64 (get tbl key)).

Definition get_str_or (tbl : table) (key default_val : string) : string :=
  default default_val (value_string (get tbl key)).

Definition parse_transport (root : table) : TransportConfig :=
  let cfg := default_transport in
  match as_table (get root "transport") with
  | Some transport => mkTransportConfig (get_str_or transport "endpoint" (endpoint cfg))
  | None => cfg
  end.

Definition parse_ingress (root : table) : IngressConfig :=
  let cfg := default_ingress in
  match as_table (get root "ingress") with
  | Some ingress =>
      mkIngress
        (u64 (get_int_or ingress "new_order_queue_depth" (new_order_queue_depth cfg)))
        (u64 (get_int_or ingress "cancel_queue_depth" (cancel_queue_depth cfg)))
        (u64 (get_int_or ingress "replace_queue_depth" (replace_queue_depth cfg)))
        (u32 (get_int_or ingress "max_new_orders_per_second" (max_new_orders_per_second cfg)))
        (u32 (get_int_or ingress "max_cancels_per_second" (max_cancels_per_second cfg)))
  | None => cfg
  end.

Definition parse_matcher (root : table) : MatcherConfig :=
  let cfg := default_matcher in
  match as_table (get root "matcher") with
  | Some matcher => mkMatcherConfig (u64 (get_int_or matcher "arena_bytes" (arena_bytes cfg)))
  | None => cfg
  end.

Definition parse_persistence (root : table) : PersistenceConfig :=
  let cfg := default_persistence in
  match as_table (get root "persistence") with
  | Some persistence =>
      mkPersistence (get_str_or persistence "wal_path" (wal_path cfg))
        (get_str_or persistence "snapshot_dir" (snapshot_dir cfg))
        (u64 (get_int_or persistence "wal_flush_threshold" (wal_flush_threshold cfg)))
  | None => cfg
  end.

Definition parse_telemetry (root : table) : TelemetryConfig :=
  let cfg := default_telemetry in
  match as_table (get root "telemetry") with
  | Some telemetry =>
      mkTelemetryConfig (default (tel_enabled cfg) (value_bool (get telemetry "enabled")))
        (u64 (get_int_or telemetry "buffer_size" (buffer_size cfg)))
  | None => cfg
  end.

Definition parse_market_risk (market_tbl : table) (risk : MarketRiskConfig) : MarketRiskConfig :=
  match as_table (get market_tbl "risk") with
  | Some risk_tbl =>
      mkMarketRisk (get_int_or risk_tbl "contract_size" (contract_size risk))
        (i32 (get_int_or risk_tbl "initial_margin_bp" (initial_margin_basis_points risk)))
        (i32 (get_int_or risk_tbl "maintenance_margin_bp" (maintenance_margin_basis_points risk)))
        (get_int_or risk_tbl "initial_mark_price" (initial_mark_price risk))
  | None => risk
  end.

Definition parse_market_funding (market_tbl : table) (funding : MarketFundingConfig) : MarketFundingConfig :=
  match as_table (get market_tbl "funding") with
  | Some funding_tbl =>
      mkMarketFunding (i32 (get_int_or funding_tbl "clamp_bp" (clamp_basis_points funding)))
        (get_int_or funding_tbl "max_rate_bp" (max_rate_basis_points funding))
  | None => funding
  end.

Definition parse_market (market_tbl : table) : MarketConfig :=
  let market := default_market in
  mkMarketConfig (u32 (get_int_or market_tbl "id" (mc_id market)))
    (get_str_or market_tbl "symbol" (mc_symbol market))
    (parse_market_risk market_tbl (mc_risk market))
    (parse_market_funding market_tbl (mc_funding market)).

Definition parse_markets (root : table) : list MarketConfig :=
  let markets :=
    match as_array (get root "markets") with
    | Some arr => parse_market <$> omap as_table arr
    | None => []
    end in
  match markets with [] => [default_market] | _ => markets end.

Definition parse_config (root : table) : EngineConfig :=
  mkEngineConfig (parse_transport root) (parse_ingress root) (parse_matcher root)
    (parse_persistence root) (parse_telemetry root) (parse_markets root).

(** ** Validation *)
Definition error_if (c : bool) (field message : string) : list ValidationError :=
  if c then [mkError field message] else [].

(** The body of the loop over the markets. *)
Definition validate_market (i : nat) (market : MarketConfig) : list ValidationError :=
  let prefix := "markets[" +:+ print 10 (Z.of_nat i) +:+ "]" in
  let risk := mc_risk market in
  error_if (mc_id market =? 0) (prefix +:+ ".id") "market id must be greater than 0" ++
  error_if (contract_size risk <=? 0) (prefix +:+ ".risk.contract_size") "must be positive" ++
  error_if (initial_margin_basis_points risk <=? 0) (prefix +:+ ".risk.initial_margin_bp") "must be positive" ++
  error_if (maintenance_margin_basis_points risk <=? 0) (prefix +:+ ".risk.maintenance_margin_bp")
    "must be positive" ++
  error_if (maintenance_margin_basis_points risk >? initial_margin_basis_points risk) (prefix +:+ ".risk")
    "maintenance_margin_bp must be <= initial_margin_bp" ++
  error_if (max_rate_basis_points (mc_funding market) <=? 0) (prefix +:+ ".funding.max_rate_bp")
    "must be positive".

Fixpoint validate_markets (i : nat) (l : list MarketConfig) : list ValidationError :=
  match l with
  | [] => []
  | market :: l => validate_market i market ++ validate_markets (S i) l
  end.

Definition validate (config : EngineConfig) : list ValidationError :=
  error_if (bool_decide (endpoint (transport config) = "")) "transport.endpoint" "endpoint cannot be empty" ++
  error_if (max_new_orders_per_second (ingress config) =? 0) "ingress.max_new_orders_per_second"
    "must be greater than 0" ++
  error_if (arena_bytes (matcher config) <? 2 ^ 16) "matcher.arena_bytes" "must be at least 64KB" ++
  error_if (bool_decide (wal_path (persistence config) = "")) "persistence.wal_path" "wal_path cannot be empty" ++
  error_if (bool_decide (snapshot_dir (persistence config) = "")) "persistence.snapshot_dir"
    "snapshot_dir cannot be empty" ++
  validate_markets 0 (markets config).

(** What [load] and [load_from_string] do with the parser's answer. *)
Definition finish_load (parse_result : table + string) : LoadResult :=
  match parse_result with
  | inr error => load_failure error
  | inl root =>
      let config := parse_config root in
      let errors := validate config in
      mkLoadResult (bool_decide (errors = [])) config errors ""
  end.

(** [exists_file] is [std::filesystem::exists]. *)
Definition load (exists_file : string -> bool) (path : string) : LoadResult :=
  if negb (exists_file path) then load_failure ("Config file not found: " +:+ path)
  else finish_load (parse_file path).

Definition load_from_string (toml_content : string) : LoadResult := finish_load (parse toml_content).
End Loader.

(** ** The default document *)
Definition newline : string := String (Ascii.ascii_of_nat 10) EmptyString.

Definition text (lines : list string) : string := foldr (fun l rest => l +:+ newline +:+ rest) EmptyString lines.

Definition generate_default : string := text
  ["# TradeCore Engine Configuration";
   "# Generated default configuration";
   "";
   "[transport]";
   "endpoint = " +:+ quoted "quic://127.0.0.1:9000";
   "";
   "[ingress]";
   "new_order_queue_depth = 4096";
   "cancel_queue_depth = 4096";
   "replace_queue_depth = 4096";
   "max_new_orders_per_second = 100000";
   "max_cancels_per_second = 200000";
   "";
   "[matcher]";
   "arena_bytes = 1048576  # 1MB";
   "";
   "[persistence]";
   "wal_path = " +:+ quoted "/var/lib/tradecore/events.wal";
   "snapshot_dir = " +:+ quoted "/var/lib/tradecore/snapshots";
   "wal_flush_threshold = 128";
   "";
   "[telemetry]";
   "enabled = true";
   "buffer_size = 1024";
   "";
   "[[markets]]";
   "id = 1";
   "symbol = " +:+ quoted "BTC-PERP";
   "";
   "[markets.risk]";
   "contract_size = 1";
   "initial_margin_bp = 500      # 5%";
   "maintenance_margin_bp = 300  # 3%";
   "initial_mark_price = 100000  # $100,000";
   "";
   "[markets.funding]";
   "clamp_bp = 50   # 0.5%";
   "max_rate_bp = 100  # 1%"].

(** ** What a configuration that loads guarantees *)
Record market_ok (m : MarketConfig) : Prop := {
  mo_id : mc_id m <> 0;
  mo_contract : 0 < contract_size (mc_risk m);
  mo_margins : 0 < maintenance_margin_basis_points (mc_risk m) <= initial_margin_basis_points (mc_risk m);
  mo_rate : 0 < max_rate_basis_points (mc_funding m) }.

Record config_ok (c : EngineConfig) : Prop := {
  co_endpoint : endpoint (transport c) <> "";
  co_rate : max_new_orders_per_second (ingress c) <> 0;
  co_arena : 2 ^ 16 <= arena_bytes (matcher c);
  co_wal : wal_path (persistence c) <> "";
  co_snapshots : snapshot_dir (persistence c) <> "";
  co_markets : Forall market_ok (markets c) }.

Lemma error_if_nil c field message : error_if c field message = [] <-> c = false.
Proof. by destruct c. Qed.

Lemma validate_market_ok i m : validate_market i m = [] <-> market_ok m.
Proof.
  unfold validate_market. rewrite !app_nil, !error_if_nil. split.
  - intros. split; lia.
  - intros [? ? ? ?]. lia.
Qed.

Lemma validate_markets_ok l : forall i, validate_markets i l = [] <-> Forall market_ok l.
Proof.
  induction l as [|m l IH]; intros i; cbn [validate_markets]; [by rewrite Forall_nil|].
  by rewrite app_nil, Forall_cons, validate_market_ok, IH.
Qed.

Lemma validate_ok c : validate c = [] <-> config_ok c.
Proof.
  unfold validate. rewrite !app_nil, !error_if_nil, !bool_decide_eq_false, validate_markets_ok. split.
  - intros (? & ? & ? & ? & ? & ?). split; (done || lia).
  - intros []. repeat split; (done || lia).
Qed.

(** The configuration is in range whatever the document holds. *)
Lemma parse_config_range `{TomlLibrary} root :
  let c := parse_config root in
  markets c <> [] /\ in_u 32 (max_new_orders_per_second (ingress c)) /\
  Forall (fun m => in_u 32 (mc_id m)) (markets c).
Proof.
  cbv zeta. split; [|split].
  - change (parse_markets root <> []). unfold parse_markets. cbv zeta.
    destruct (match as_array _ with Some arr => _ | None => _ end); done.
  - change (in_u 32 (max_new_orders_per_second (parse_ingress root))). unfold parse_ingress.
    destruct (as_table _); [by apply wrapu_range|by vm_compute].
  - change (Forall (fun m => in_u 32 (mc_id m)) (parse_markets root)). unfold parse_markets. cbv zeta.
    set (l := match as_array _ with Some arr => _ | None => _ end).
    assert (Hl : Forall (fun m => in_u 32 (mc_id m)) l).
    { unfold l. destruct (as_array _); [|constructor]. apply Forall_fmap, Forall_true.
      intros t. by apply wrapu_range. }
    destruct l; [|done]. repeat constructor; by vm_compute.
Qed.

(** A configuration is accepted exactly when it is usable.  Loading a text
    succeeds if and only if the parser gives a document whose configuration has
    an endpoint, paths, a non-zero order rate, an arena of 64 KiB and, in every
    market, a non-zero id, positive contract size and funding bound, and margins
    with maintenance at most initial; the configuration is then the document's,
    with at least one market.  Otherwise either the parser's error or at least
    one validation error is reported. *)
Lemma load_accepts_exactly `{TomlLibrary} content :
  let r := load_from_string content in
  (success r = true <-> exists root, parse content = inl root /\ config_ok (parse_config root)) /\
  (success r = true -> errors r = [] /\ markets (lr_config r) <> [] /\
     exists root, parse content = inl root /\ lr_config r = parse_config root) /\
  (success r = false -> parse content = inr (raw_error r) \/ errors r <> []).
Proof.
  cbv zeta. unfold load_from_string, finish_load.
  destruct (parse content) as [root|e]; cbn [success errors raw_error lr_config load_failure].
  - rewrite bool_decide_eq_true, bool_decide_eq_false, validate_ok. split; [|split].
    + split; [eauto|]. by intros (r & [= ->] & ?).
    + intros Hok. split; [done|]. split; [apply parse_config_range|eauto].
    + by right.
  - split; [|split]; [|done|auto]. split; [done|]. by intros (r & ? & ?).
Qed.

(** ** A small library for the examples *)
Module Toml.
Inductive doc :=
  | DInt (z : Z)
  | DStr (s : string)
  | DBool (b : bool)
  | DTable (entries : list (string * doc))
  | DArray (elements : list doc).

Definition find (d : doc) (key : string) : doc :=
  match d with
  | DTable entries =>
      match List.find (fun e => bool_decide (e.1 = key)) entries with Some e => e.2 | None => DBool false end
  | _ => DBool false
  end.

(** What the default document says. *)
Definition generated : doc :=
  DTable [
    ("transport", DTable [("endpoint", DStr "quic://127.0.0.1:9000")]);
    ("ingress", DTable [("new_order_queue_depth", DInt 4096); ("cancel_queue_depth", DInt 4096);
      ("replace_queue_depth", DInt 4096); ("max_new_orders_per_second", DInt 100000);
      ("max_cancels_per_second", DInt 200000)]);
    ("matcher", DTable [("arena_bytes", DInt 1048576)]);
    ("persistence", DTable [("wal_path", DStr "/var/lib/tradecore/events.wal");
      ("snapshot_dir", DStr "/var/lib/tradecore/snapshots"); ("wal_flush_threshold", DInt 128)]);
    ("telemetry", DTable [("enabled", DBool true); ("buffer_size", DInt 1024)]);
    ("markets", DArray [DTable [("id", DInt 1); ("symbol", DStr "BTC-PERP");
      ("risk", DTable [("contract_size", DInt 1); ("initial_margin_bp", DInt 500);
        ("maintenance_margin_bp", DInt 300); ("initial_mark_price", DInt 100000)]);
      ("funding", DTable [("clamp_bp", DInt 50); ("max_rate_bp", DInt 100)])]])].

(** A parser that knows two texts. *)
Definition parse_doc (text : string) : doc + string :=
  if bool_decide (text = generate_default) then inl generated
  else if bool_decide (text = "[[markets]]") then
    inl (DTable [("markets", DArray [DTable [("id", DInt 65536)]]);
                 ("ingress", DTable [("new_order_queue_depth", DInt 1000); ("max_cancels_per_second", DInt 0)])])
  else inr "parse error".

Definition library : TomlLibrary := {|
  table := doc; node := doc;
  get := find;
  as_table d := match d with DTable _ => Some d | _ => None end;
  as_array d := match d with DArray l => Some l | _ => None end;
  value_int64 d := match d with DInt z => Some z | _ => None end;
  value_string d := match d with DStr s => Some s | _ => None end;
  value_bool d := match d with DBool b => Some b | _ => None end;
  parse := parse_doc; parse_file := fun _ => inr "no file" |}.
End Toml.

Lemma load_accepts_exactly_witness :
  success (load_from_string (H := Toml.library) generate_default) = true.
Proof.
  refine (proj2 (proj1 (load_accepts_exactly (H := Toml.library) generate_default)) _).
  exists Toml.generated. split; [by vm_compute|]. apply validate_ok. by vm_compute.
Defined.

(** The default document loads; it is not the default configuration. *)
Example default_document_loads :
  let r := load_from_string (H := Toml.library) generate_default in
  success r = true /\ max_new_orders_per_second (ingress (lr_config r)) = 100000 /\
  max_new_orders_per_second default_ingress = 10000 /\
  initial_mark_price default_market_risk = 1000 /\
  (initial_mark_price ∘ mc_risk <$> markets (lr_config r)) = [100000].
Proof. by vm_compute. Qed.

(** A document that validates, although its queue depth is not a power of two,
    no cancel is ever let through, and its market id does not fit 16 bits. *)
Example unusable_document_loads :
  let r := load_from_string (H := Toml.library) "[[markets]]" in
  success r = true /\ new_order_queue_depth (ingress (lr_config r)) = 1000 /\
  max_cancels_per_second (ingress (lr_config r)) = 0 /\ (mc_id <$> markets (lr_config r)) = [65536].
Proof. by vm_compute. Qed.
