(* ===== verification/Daemon.v ===== *)
(** * The daemon

    [apps/tradecored/src/main.cpp]: the boot sequence and the event loop that
    takes frames from the ingress queues, logs them, checks them against the risk
    engine, matches them and books the fills.  The loop is one thread; the
    transport's thread only pushes into the queues.  A turn here starts with what
    the queues hold; [Main] has the process around the loop, with frames that
    arrive during a turn.  The lines written for frames that do not decode
    are in [Main]. *)
From S2P Require Import Telemetry Config.
From S2P Require Import Prelude Types Bytes Matcher Risk FundingLedger SpscRing Sbe Ingest Wal Snapshot Api.

Record RestingOrderContext := mkContext { rc_account : Z; rc_market : Z; rc_side : Side }.

Record Daemon := mkDaemon {
  dm_ingress : IngressPipeline;
  dm_matcher : Engine;
  dm_risk : RiskEngine;
  dm_funding : Funding.FundingEngine;
  dm_wal : Writer;
  dm_snapshot : Store;
  dm_api : ApiRouter;
  dm_telemetry : TelemetrySink;
  dm_resting_orders : gmap Z RestingOrderContext;
  dm_default_market : Z;
  dm_chain_id : Z;
  dm_block_number : Z;
  dm_last_snapshot_block : Z }.

Definition set_ingress (x : IngressPipeline) (d : Daemon) : Daemon :=
  mkDaemon x (dm_matcher d) (dm_risk d) (dm_funding d) (dm_wal d) (dm_snapshot d) (dm_api d) (dm_telemetry d)
    (dm_resting_orders d) (dm_default_market d) (dm_chain_id d) (dm_block_number d) (dm_last_snapshot_block d).

(** The matcher, the risk engine, the log, the feeds and the contexts: what
    handling a frame changes. *)
Definition set_core (e : Engine) (r : RiskEngine) (w : Writer) (a : ApiRouter)
    (resting : gmap Z RestingOrderContext) (d : Daemon) : Daemon :=
  mkDaemon (dm_ingress d) e r (dm_funding d) w (dm_snapshot d) a (dm_telemetry d) resting (dm_default_market d)
    (dm_chain_id d) (dm_block_number d) (dm_last_snapshot_block d).

Definition set_matcher (e : Engine) (d : Daemon) : Daemon :=
  set_core e (dm_risk d) (dm_wal d) (dm_api d) (dm_resting_orders d) d.
Definition set_resting (r : gmap Z RestingOrderContext) (d : Daemon) : Daemon :=
  set_core (dm_matcher d) (dm_risk d) (dm_wal d) (dm_api d) r d.

(** ** Logging a frame *)
Definition build_wal_payload (frame : Frame) : bytes :=
  append_primitive 8 (fh_received_time_ns (fr_header frame))
    (append_primitive 8 (fh_nonce (fr_header frame))
      (append_primitive 8 (fh_account (fr_header frame))
        (append_primitive 1 (MessageKind_to_u8 (fh_kind (fr_header frame))) []))) ++
  fr_payload frame.

Definition append_ingress_wal_record (wal : Writer) (frame : Frame) : Writer * Z :=
  (append 0 (build_wal_payload frame) wal, wt_next_sequence wal).

(** The first two calls of every handler: the log, then the express feed. *)
Definition journal (frame : Frame) (d : Daemon) : Daemon * Z :=
  let '(wal, wal_offset) := append_ingress_wal_record (dm_wal d) frame in
  let api := push_express_feed_frame (mkExpressFrame wal_offset (fr_payload frame)) (dm_api d) in
  (set_core (dm_matcher d) (dm_risk d) wal api (dm_resting_orders d) d, wal_offset).

(** ** Booking the fills *)
Definition fill_context (c : RestingOrderContext) (fill : FillEvent) : FillContext :=
  mkFillContext (rc_account c) (rc_market c) (rc_side c) (fill_quantity fill) (fill_price fill).

(** The body of the loop of [process_fills]: the taker, the maker if it is known,
    the trade feed. *)
Definition process_fill (taker : RestingOrderContext) (wal_offset timestamp_ns : Z)
    (d : Daemon) (fill : FillEvent) : Daemon :=
  let risk := apply_fill (fill_context taker fill) (dm_risk d) in
  let risk :=
    match dm_resting_orders d !! value (fill_maker_order fill) with
    | Some maker => apply_fill (fill_context maker fill) risk
    | None => risk
    end in
  let api := push_trade_metadata
    (mkTradeMetadata wal_offset (fill_taker_order fill) (rc_account taker) (rc_market taker)
       (fill_price fill) (fill_quantity fill) timestamp_ns) (dm_api d) in
  set_core (dm_matcher d) risk (dm_wal d) api (dm_resting_orders d) d.

Definition process_fills (fills : list FillEvent) (taker : RestingOrderContext)
    (wal_offset timestamp_ns : Z) (d : Daemon) : Daemon :=
  foldl (process_fill taker wal_offset timestamp_ns) d fills.

(** ** The handlers

    The body of each [while] loop, for a frame taken from its queue: the log, and
    then, for a frame that is in it at [wal_offset], the [try] block.  [None] is
    undefined behaviour in the matcher.  A decoder that throws is caught: the
    frame is logged and nothing else happens. *)
Definition new_order_id (d : Daemon) (frame : Frame) : OrderId :=
  mkOrderId (dm_default_market d) (u16 (Z.land (fh_account (fr_header frame)) 0xffff))
    (u32 (Z.land (fh_nonce (fr_header frame)) 0xffffffff)).

(** The order that is submitted: never an iceberg size, always good till
    cancelled. *)
Definition new_order_request (d : Daemon) (frame : Frame) (order : NewOrder) : OrderRequest :=
  mkRequest (new_order_id d frame) (fh_account (fr_header frame)) (no_side order) (no_quantity order)
    (no_price order) 0 kGtc (no_flags order).

Definition order_intent (d : Daemon) (frame : Frame) (order : NewOrder) : OrderIntent :=
  mkIntent (fh_account (fr_header frame)) (dm_default_market d) (no_side order) (no_quantity order)
    (no_price order) (HasFlag (no_flags order) kReduceOnly).

Definition execute_new_order (wal_offset : Z) (frame : Frame) (d : Daemon) : option Daemon :=
  match decode_new_order (fr_payload frame) with
  | Throw _ => Some d
  | Ok order =>
      let order_id := new_order_id d frame in
      match rk_decision (evaluate_order (dm_risk d) (order_intent d frame order)) with
      | kAccepted =>
          '(matcher, result) ← submit (new_order_request d frame order) (dm_matcher d);
          let d := set_matcher matcher d in
          if negb (or_accepted result) then Some d
          else
            let taker := mkContext (fh_account (fr_header frame)) (dm_default_market d) (no_side order) in
            let d := process_fills (or_fills result) taker wal_offset (fh_received_time_ns (fr_header frame)) d in
            Some (set_resting
              (if or_resting result then <[value order_id := taker]> (dm_resting_orders d)
               else base.delete (value order_id) (dm_resting_orders d)) d)
      | _ => Some d
      end
  end.

Definition execute_cancel (frame : Frame) (d : Daemon) : option Daemon :=
  match decode_cancel (fr_payload frame) with
  | Throw _ => Some d
  | Ok msg =>
      let order_id := decode_order_id (cn_order_id msg) in
      '(matcher, result) ← cancel (mkCancel order_id) (dm_matcher d);
      let d := set_matcher matcher d in
      Some (if cr_cancelled result
            then set_resting (base.delete (value order_id) (dm_resting_orders d)) d else d)
  end.

(** The context [process_replaces] books the fills to. *)
Definition replace_taker (frame : Frame) (order_id : OrderId) (d : Daemon) : RestingOrderContext :=
  default (mkContext (fh_account (fr_header frame)) (id_market order_id) kBuy)
    (dm_resting_orders d !! value order_id).

Definition replace_request (msg : Replace) : ReplaceRequest :=
  mkReplace (decode_order_id (rp_order_id msg)) (rp_new_quantity msg) (rp_new_price msg) 0 kGtc
    (rp_new_flags msg).

Definition execute_replace (wal_offset : Z) (frame : Frame) (d : Daemon) : option Daemon :=
  match decode_replace (fr_payload frame) with
  | Throw _ => Some d
  | Ok msg =>
      let order_id := decode_order_id (rp_order_id msg) in
      let taker := replace_taker frame order_id d in
      '(matcher, result) ← Matcher.replace (replace_request msg) (dm_matcher d);
      let d := set_matcher matcher d in
      let d := if rr_accepted result
               then process_fills (rr_fills result) taker wal_offset (fh_received_time_ns (fr_header frame)) d
               else d in
      Some (if rr_accepted result && rr_resting result
            then set_resting (<[value order_id := taker]> (dm_resting_orders d)) d
            else if rr_accepted result && negb (rr_resting result)
            then set_resting (base.delete (value order_id) (dm_resting_orders d)) d
            else d)
  end.

Definition handle_new_order (frame : Frame) (d : Daemon) : option Daemon :=
  let '(d, wal_offset) := journal frame d in execute_new_order wal_offset frame d.

Definition handle_cancel (frame : Frame) (d : Daemon) : option Daemon :=
  let '(d, wal_offset) := journal frame d in execute_cancel frame d.

Definition handle_replace (frame : Frame) (d : Daemon) : option Daemon :=
  let '(d, wal_offset) := journal frame d in execute_replace wal_offset frame d.

(** The [try] block of a queue's loop. *)
Definition execute_frame (k : MessageKind) (wal_offset : Z) (frame : Frame) (d : Daemon) : option Daemon :=
  match k with
  | kNewOrder => execute_new_order wal_offset frame d
  | kCancel => execute_cancel frame d
  | kReplace => execute_replace wal_offset frame d
  | kHeartbeat => Some d
  end.

(** The handler of a queue. *)
Definition handle (k : MessageKind) (frame : Frame) (d : Daemon) : option Daemon :=
  match k with
  | kNewOrder => handle_new_order frame d
  | kCancel => handle_cancel frame d
  | kReplace => handle_replace frame d
  | kHeartbeat => Some d
  end.

Definition next_frame (k : MessageKind) (p : IngressPipeline) : option (IngressPipeline * option Frame) :=
  match k with
  | kNewOrder => next_new_order p
  | kCancel => next_cancel p
  | kReplace => next_replace p
  | kHeartbeat => Some (p, None)
  end.

(** [process_new_orders], [process_cancels] and [process_replaces]: the loop over
    one queue and the number of frames it took.  [n] bounds the turns; [None]
    also when they run out. *)
Fixpoint process_queue (n : nat) (k : MessageKind) (d : Daemon) (processed : Z) : option (Daemon * Z) :=
  match n with
  | O => None
  | S n =>
      '(ingress, frame) ← next_frame k (dm_ingress d);
      let d := set_ingress ingress d in
      match frame with
      | None => Some (d, processed)
      | Some frame => d ← handle k frame d; process_queue n k d (u64 (processed + 1))
      end
  end.

(** One more turn than a queue can hold frames. *)
Definition queue_turns (k : MessageKind) (p : IngressPipeline) : nat :=
  S (length (buffer (match k with kCancel => cancels p | kReplace => replaces p | _ => new_orders p end))).

Definition process (k : MessageKind) (d : Daemon) : option (Daemon * Z) :=
  process_queue (queue_turns k (dm_ingress d)) k d 0.

(** ** The event loop *)
Definition kSnapshotInterval : Z := 256.

Definition set_block (block last_snapshot : Z) (s : Store) (d : Daemon) : Daemon :=
  mkDaemon (dm_ingress d) (dm_matcher d) (dm_risk d) (dm_funding d) (dm_wal d) s (dm_api d) (dm_telemetry d)
    (dm_resting_orders d) (dm_default_market d) (dm_chain_id d) block last_snapshot.

Definition snapshot_payload (chain_id block : Z) : bytes :=
  append_primitive 8 block (append_primitive 8 chain_id []).

(** The block count and the snapshot after the queues; an exception of the store
    leaves the loop. *)
Definition advance_block (processed : Z) (d : Daemon) : option (Daemon * result unit) :=
  let new_block := u64 (dm_block_number d + processed) in
  if u64 (new_block - dm_last_snapshot_block d) >=? kSnapshotInterval then
    let seq := u32 (Z.min new_block (2 ^ 32 - 1)) in
    '(s, r) ← persist seq (snapshot_payload (dm_chain_id d) new_block) (dm_snapshot d);
    Some (match r with
          | Ok _ => (set_block new_block new_block s d, Ok ())
          | Throw e => (set_block new_block (dm_last_snapshot_block d) s d, Throw e)
          end)
  else Some (set_block new_block (dm_last_snapshot_block d) (dm_snapshot d) d, Ok ()).

(** One turn of the event loop.  The three calls are operands of a sum, whose
    order the language does not fix; the model takes them from left to right. *)
Definition turn (d : Daemon) : option (Daemon * result unit) :=
  '(d, n) ← process kNewOrder d;
  '(d, c) ← process kCancel d;
  '(d, r) ← process kReplace d;
  let processed := u64 (u64 (n + c) + r) in
  if processed >? 0 then advance_block processed d else Some (d, Ok ()).

(** After the loop. *)
Definition shutdown (d : Daemon) : Daemon :=
  set_core (dm_matcher d) (dm_risk d) (sync (dm_wal d)) (dm_api d) (dm_resting_orders d) d.

(** ** Boot *)
Definition ingress_config (c : Config.IngressConfig) : Ingest.Config :=
  mkIngressConfig (Config.new_order_queue_depth c) (Config.cancel_queue_depth c)
    (Config.replace_queue_depth c) (Config.max_new_orders_per_second c) (Config.max_cancels_per_second c)
    (max_replaces_per_second default_config).

(** A market's configuration reaches the matcher, the risk engine and the funding
    engine; its id is converted to 16 bits. *)
Definition boot_market (m : Config.MarketConfig) (s : Engine * RiskEngine * Funding.FundingEngine)
    : Engine * RiskEngine * Funding.FundingEngine :=
  let '(matcher, risk, funding) := s in
  let id := u16 (Config.mc_id m) in
  (add_market id matcher,
   set_mark_price id (Config.initial_mark_price (Config.mc_risk m))
     (configure_market id
        (mkRiskConfig (Config.contract_size (Config.mc_risk m))
           (Config.initial_margin_basis_points (Config.mc_risk m))
           (Config.maintenance_margin_basis_points (Config.mc_risk m))) risk),
   Funding.configure_funding id
     (Funding.mkConfig (Config.clamp_basis_points (Config.mc_funding m))
        (Config.max_rate_basis_points (Config.mc_funding m))) funding).

(** The sample that marks the start, which no one drains. *)
Definition boot_telemetry (c : Config.TelemetryConfig) : TelemetrySink :=
  if Config.tel_enabled c then Telemetry.push (mkSample 1 0) new_sink else new_sink.

Definition default_market_of (cfg : Config.EngineConfig) : Z :=
  match Config.markets cfg with [] => 1 | m :: _ => u16 (Config.mc_id m) end.

(** The ingress pipeline, configured before the transport starts. *)
Definition boot_ingress (cfg : Config.EngineConfig) (verifier : AuthVerifier) : result IngressPipeline :=
  p ← new_pipeline; configure (ingress_config (Config.ingress cfg)) verifier p.

(** From the configuration to the event loop: [verifier] is the authenticator's,
    [wal_file] and [directory] are what the disk holds, [chain_id] comes from the
    environment.  [Main] starts the transport between the two. *)
Definition boot (cfg : Config.EngineConfig) (verifier : AuthVerifier) (wal_file : bytes) (directory : Disk)
    (chain_id : Z) : option (result Daemon) :=
  match boot_ingress cfg verifier with
  | Throw e => Some (Throw e)
  | Ok ingress =>
      let '(matcher, risk, funding) := foldl (fun s m => boot_market m s) (∅, new_risk, ∅) (Config.markets cfg) in
      match open_writer wal_file (Config.wal_flush_threshold (Config.persistence cfg)) with
      | None => None
      | Some (Throw e) => Some (Throw e)
      | Some (Ok wal) =>
          let api := foldl (fun a name => register_endpoint name a)
            (new_router kDefaultBufferCapacity kDefaultBufferCapacity)
            ["/orders"%string; "/express-feed"%string; "/trade-metadata"%string; "/state-root"%string] in
          Some (Ok (mkDaemon ingress matcher risk funding wal (mkStore true directory default_options) api
                      (boot_telemetry (Config.telemetry cfg)) ∅
                      (default_market_of cfg) chain_id 0 0))
      end
  end.
