(* ===== verification/Handlers.v ===== *)
(** * What a handler looks at

    A handler reads and changes the books, the accounts, the feeds and the contexts;
    of the log it sees the next sequence number, and the queues, the snapshots and
    the block count are none of its business.  Daemons with the same inside are one
    to it. *)
From S2P Require Import Config.
From S2P Require Import Prelude Types Bytes Matcher Risk FundingLedger SpscRing Sbe Ingest Wal Snapshot Api Daemon.

(** The inside of [d] with what is outside of it in [o]. *)
Definition inside (o d : Daemon) : Daemon :=
  mkDaemon (dm_ingress o) (dm_matcher d) (dm_risk d) (dm_funding o) (dm_wal o) (dm_snapshot o) (dm_api d)
    (dm_telemetry o) (dm_resting_orders d) (dm_default_market d) (dm_chain_id o) (dm_block_number o)
    (dm_last_snapshot_block o).

Lemma inside_same d : inside d d = d.
Proof. by destruct d. Qed.

(** ** The [try] blocks *)
Lemma process_fills_inside o fills taker off t : forall d,
  process_fills fills taker off t (inside o d) = inside o (process_fills fills taker off t d).
Proof. unfold process_fills. induction fills as [|f fills IH]; intros d; [done|]. cbn [foldl]. by rewrite <- IH. Qed.

Lemma set_matcher_inside e o d : set_matcher e (inside o d) = inside o (set_matcher e d).
Proof. done. Qed.

Lemma execute_inside o k off f d : execute_frame k off f (inside o d) = inside o <$> execute_frame k off f d.
Proof.
  destruct k; [| | |done]; cbn [execute_frame].
  - unfold execute_new_order, order_intent, new_order_request, new_order_id.
    cbn [inside dm_matcher dm_risk dm_default_market]. destruct (decode_new_order _) as [m|]; [|done].
    destruct (rk_decision _); [|done..]. destruct (submit _ _) as [[e res]|]; [|done]. cbn [mbind option_bind].
    destruct (or_accepted res); [|done]. cbn [negb]. fold (inside o d). by rewrite set_matcher_inside, process_fills_inside.
  - unfold execute_cancel. destruct (decode_cancel _); [|done]. cbn [inside dm_matcher].
    destruct (cancel _ _) as [[e r]|]; [|done]. cbn. by destruct (cr_cancelled r).
  - unfold execute_replace. destruct (decode_replace _) as [m|]; [|done].
    change (replace_taker f ?id (inside o d)) with (replace_taker f id d). cbn [inside dm_matcher].
    destruct (Matcher.replace _ _) as [[e r]|]; [|done]. cbn [mbind option_bind]. destruct (rr_accepted r); [|done].
    fold (inside o d). rewrite set_matcher_inside, process_fills_inside. by destruct (rr_resting r).
Qed.

(** What is outside stays. *)
Lemma execute_outside k off f d d' : execute_frame k off f d = Some d' -> inside d d' = d'.
Proof.
  intros E. pose proof (execute_inside d k off f d) as H. rewrite inside_same, E in H. cbn in H. by injection H.
Qed.

(** ** The handlers *)
Lemma handle_executes k f d :
  k <> kHeartbeat -> handle k f d = execute_frame k (wt_next_sequence (dm_wal d)) f (journal f d).1.
Proof. by destruct k. Qed.

Lemma journal_inside f o d :
  wt_next_sequence (dm_wal o) = wt_next_sequence (dm_wal d) ->
  journal f (inside o d) = (inside (journal f o).1 (journal f d).1, wt_next_sequence (dm_wal d)).
Proof. intros E. unfold journal, append_ingress_wal_record. cbn. by rewrite E. Qed.

Lemma handle_inside k f o d :
  k <> kHeartbeat -> wt_next_sequence (dm_wal o) = wt_next_sequence (dm_wal d) ->
  handle k f (inside o d) = inside (journal f o).1 <$> handle k f d.
Proof.
  intros Hk E. rewrite !handle_executes, journal_inside by done. cbn [fst inside dm_wal]. rewrite E.
  apply execute_inside.
Qed.

(** The log gets the frame; the rest of the outside stays. *)
Lemma handle_outside k f d d' :
  handle k f d = Some d' ->
  inside (match k with kHeartbeat => d | _ => (journal f d).1 end) d' = d'.
Proof.
  destruct (decide (k = kHeartbeat)) as [->|Hk]; [intros [= <-]; apply inside_same|].
  rewrite handle_executes by done. intros E%execute_outside. by destruct k.
Qed.

Lemma set_ingress_inside p d : set_ingress p d = inside (set_ingress p d) d.
Proof. by destruct d. Qed.

(** Handlers do not look at the queues. *)
Lemma handle_ingress k f p d : handle k f (set_ingress p d) = set_ingress p <$> handle k f d.
Proof.
  destruct (decide (k = kHeartbeat)) as [->|Hk]; [done|]. rewrite set_ingress_inside, handle_inside by done.
  destruct (handle k f d) as [d'|] eqn:E; [|done]. cbn [fmap option_fmap option_map]. f_equal.
  apply handle_outside in E. rewrite <- E. by destruct k.
Qed.

(** ** Daemons with the same inside *)
Definition same_inside (d1 d2 : Daemon) : Prop :=
  inside d1 d2 = d1 /\ wt_next_sequence (dm_wal d1) = wt_next_sequence (dm_wal d2).

#[export] Instance same_inside_equiv : Equivalence same_inside.
Proof.
  split.
  - intros d. split; [apply inside_same|done].
  - intros d1 d2 [E En]. split; [|done]. rewrite <- E. by destruct d2.
  - intros d1 d2 d3 [E1 N1] [E2 N2]. split; [|congruence]. rewrite <- E2 in E1. rewrite <- E1. by destruct d3.
Qed.

Lemma append_next r p w : wt_next_sequence (append r p w) = u64 (wt_next_sequence w + 1).
Proof. unfold append. by destruct (_ >=? _); [unfold flush; destruct (wt_buffer _)|]. Qed.

(** A handler takes them to daemons with the same inside. *)
#[export] Instance handle_proper k f : Proper (same_inside ==> option_Forall2 same_inside) (handle k f).
Proof.
  intros d1 d2 [E En]. destruct (decide (k = kHeartbeat)) as [->|Hk]; [by constructor|].
  rewrite <- E, handle_inside by done. destruct (handle k f d2) as [d'|] eqn:Eh; [|constructor]. constructor.
  apply handle_outside in Eh. split; [by destruct d'|]. rewrite <- Eh.
  destruct k; [| | |done]; cbn; by rewrite !append_next, En.
Qed.
