(* ===== verification/Exchange.v ===== *)
(** * The exchange the daemon is

    What a client of the daemon can rely on, without the log, the queues, nodes,
    levels or the contexts kept beside the books: the books of [MatcherSpec], the
    accounts of [Risk], and for each frame the trades it makes.  A fill belongs to
    the account the order book itself names.  [DaemonProps] proves that the
    handlers implement this. *)
From S2P Require Import Prelude Types Bytes OrderedMap Matcher MatcherSpec BookRefine MatcherRefine.
From S2P Require Import Risk RiskProps Sbe Ingest Api Daemon.

Record Exchange := mkExchange { ex_books : gmap Z Book; ex_risk : RiskEngine }.

Section Exchange.
(** The market that is traded. *)
Context (market : Z).

Definition owner (r : OrderRequest) : RestingOrderContext := mkContext (req_account r) market (req_side r).

(** A fill, in the accounts of the taker and of the owner of the resting order. *)
Definition book_fill (b : Book) (taker : RestingOrderContext) (e : RiskEngine) (f : FillEvent) : RiskEngine :=
  let e := apply_fill (fill_context taker f) e in
  match find_key (value (fill_maker_order f)) (all_orders b) with
  | Some o => apply_fill (fill_context (owner (ord_request o)) f) e
  | None => e
  end.

Definition book_fills (b : Book) (taker : RestingOrderContext) (fills : list FillEvent) (e : RiskEngine) : RiskEngine :=
  foldl (book_fill b taker) e fills.

Definition trade_of (taker : RestingOrderContext) (offset time : Z) (f : FillEvent) : TradeMetadata :=
  mkTradeMetadata offset (fill_taker_order f) (rc_account taker) (rc_market taker) (fill_price f) (fill_quantity f) time.

Definition exchange_id (frame : Frame) : OrderId :=
  mkOrderId market (u16 (Z.land (fh_account (fr_header frame)) 0xffff)) (u32 (Z.land (fh_nonce (fr_header frame)) 0xffffffff)).

Definition exchange_request (frame : Frame) (order : NewOrder) : OrderRequest :=
  mkRequest (exchange_id frame) (fh_account (fr_header frame)) (no_side order) (no_quantity order)
    (no_price order) 0 kGtc (no_flags order).

Definition exchange_intent (frame : Frame) (order : NewOrder) : OrderIntent :=
  mkIntent (fh_account (fr_header frame)) market (no_side order) (no_quantity order) (no_price order)
    (HasFlag (no_flags order) kReduceOnly).

(** The frame at [offset] of the log: the exchange after it, and its trades. *)
Definition exchange_new_order (offset : Z) (frame : Frame) (order : NewOrder) (x : Exchange)
    : Exchange * list TradeMetadata :=
  match rk_decision (evaluate_order (ex_risk x) (exchange_intent frame order)) with
  | kAccepted =>
      let r := exchange_request frame order in
      let '(books, res) := spec_submit spec_place r (ex_books x) in
      if or_accepted res
      then (mkExchange books (book_fills (default new_book (ex_books x !! market)) (owner r) (or_fills res) (ex_risk x)),
            map (trade_of (owner r) offset (fh_received_time_ns (fr_header frame))) (or_fills res))
      else (mkExchange books (ex_risk x), [])
  | _ => (x, [])
  end.

Definition exchange_cancel (msg : Cancel) (x : Exchange) : Exchange :=
  mkExchange (spec_cancel (mkCancel (decode_order_id (cn_order_id msg))) (ex_books x)).1 (ex_risk x).

Definition exchange_replace (offset : Z) (frame : Frame) (msg : Replace) (x : Exchange)
    : Exchange * list TradeMetadata :=
  let id := decode_order_id (rp_order_id msg) in
  let b := default new_book (ex_books x !! id_market id) in
  let '(books, res) := spec_replace spec_place (replace_request msg) (ex_books x) in
  match find_key (value id) (all_orders b), rr_accepted res with
  | Some o, true =>
      let taker := owner (ord_request o) in
      (mkExchange books (book_fills (spec_remove (value id) b) taker (rr_fills res) (ex_risk x)),
       map (trade_of taker offset (fh_received_time_ns (fr_header frame))) (rr_fills res))
  | _, _ => (mkExchange books (ex_risk x), [])
  end.

Definition exchange_step (k : MessageKind) (offset : Z) (frame : Frame) (x : Exchange)
    : Exchange * list TradeMetadata :=
  match k with
  | kNewOrder => match decode_new_order (fr_payload frame) with
                 | Ok order => exchange_new_order offset frame order x | Throw _ => (x, []) end
  | kCancel => match decode_cancel (fr_payload frame) with
               | Ok msg => (exchange_cancel msg x, []) | Throw _ => (x, []) end
  | kReplace => match decode_replace (fr_payload frame) with
                | Ok msg => exchange_replace offset frame msg x | Throw _ => (x, []) end
  | kHeartbeat => (x, [])
  end.

(** A new order whose identifier does not rest. *)
Definition unused (k : MessageKind) (frame : Frame) (x : Exchange) : bool :=
  match k with
  | kNewOrder =>
      bool_decide (find_key (value (exchange_id frame)) (all_orders (default new_book (ex_books x !! market))) = None)
  | _ => true
  end.

(** Frames one after the other, each a record of the log further; and whether no new
    order among them has the identifier of one that rests. *)
Fixpoint exchange_run (offset : Z) (l : list (MessageKind * Frame)) (x : Exchange) : Exchange * list TradeMetadata :=
  match l with
  | [] => (x, [])
  | (k, f) :: l =>
      let '(x, trades) := exchange_step k offset f x in
      let '(x, rest) := exchange_run (u64 (offset + 1)) l x in (x, trades ++ rest)
  end.

Fixpoint all_unused (offset : Z) (l : list (MessageKind * Frame)) (x : Exchange) : bool :=
  match l with
  | [] => true
  | (k, f) :: l => unused k f x && all_unused (u64 (offset + 1)) l (exchange_step k offset f x).1
  end.
End Exchange.

(** ** What an order does to the orders of its book *)
Lemma match_run_makers b order :
  book_wf b ->
  forall f, f ∈ (match_run b order).1.1 ->
    exists o, o ∈ queue (negb (is_buy (req_side order))) b /\ fill_maker_order f = req_id (ord_request o).
Proof.
  intros Hwf f Hf. destruct (match_queue_priority order _ _ (queue_wf b (negb (is_buy (req_side order))) Hwf)
    (req_quantity order)) as [E _]. fold (match_run b order) in E.
  assert (Hin : fill_maker_order f ∈ fill_maker_order <$> (match_run b order).1.1) by by apply list_elem_of_fmap_2.
  rewrite E in Hin. apply elem_of_take in Hin as (i & Hi & _).
  apply list_lookup_fmap_Some in Hi as (o & Hi & Eo). exists o. split; [by eapply list_elem_of_lookup_2|done].
Qed.

Lemma all_orders_queue b o buy : o ∈ queue buy b -> o ∈ all_orders b.
Proof. unfold all_orders. destruct buy; cbn; set_solver. Qed.

Lemma queue_all_orders b o : book_wf b -> o ∈ all_orders b -> o ∈ queue (ord_buy o) b.
Proof.
  intros Hwf. unfold all_orders. intros [Ho|Ho]%elem_of_app.
  - pose proof (queue_wf b true Hwf) as Hok. rewrite Forall_forall in Hok. by destruct (Hok o Ho) as [-> _].
  - pose proof (queue_wf b false Hwf) as Hok. rewrite Forall_forall in Hok. by destruct (Hok o Ho) as [-> _].
Qed.

(** Makers are resting orders of the other side; what rests afterwards rested
    before or is the order itself. *)
Record effect (b : Book) (order : OrderRequest) (b' : Book) (res : OrderResult) : Prop := {
  ef_makers : forall f, f ∈ or_fills res -> exists o, o ∈ all_orders b /\
    ord_buy o = negb (is_buy (req_side order)) /\ fill_maker_order f = req_id (ord_request o);
  ef_orders : forall o, o ∈ all_orders b' ->
    (exists o0, o0 ∈ all_orders b /\ ord_request o = ord_request o0) \/
    (or_resting res = true /\ ord_request o = order);
  ef_resting : or_resting res = true -> or_accepted res = true }.

Lemma place_effect n b order :
  book_wf b -> effect b order (place_with n b order).1 (place_with n b order).2.
Proof.
  intros Hwf. unfold place_with. destruct (_ && _); [by split; cbn; [set_solver|eauto|]|].
  destruct (_ && _); [by split; cbn; [set_solver|eauto|]|].
  pose proof (settle_settled b order) as [Hf Ho Hw _ _]. split.
  - rewrite Hf. intros f Hin. destruct (match_run_makers b order Hwf f Hin) as (o & Hq & E).
    exists o. split; [by eapply all_orders_queue|]. split; [|done].
    pose proof (queue_wf b (negb (is_buy (req_side order))) Hwf) as Hok. rewrite Forall_forall in Hok.
    by destruct (Hok o Hq).
  - intros o Hin. assert (Hq : o ∈ queue (is_buy (req_side order)) (settle b order).1 \/
                              o ∈ queue (negb (is_buy (req_side order))) (settle b order).1).
    { unfold all_orders in Hin. destruct (is_buy (req_side order)); cbn; set_solver. }
    destruct Hq as [Hq|Hq].
    + rewrite Hw in Hq. destruct (or_resting _); [|left; exists o; split; [by eapply all_orders_queue|done]].
      rewrite insert_order_perm in Hq. apply elem_of_cons in Hq as [->|Hq]; [by right|].
      left. exists o. split; [by eapply all_orders_queue|done].
    + rewrite Ho in Hq. unfold match_run in Hq.
      destruct (shrinks_elem _ _ (match_queue_shrinks order _ _
        (queue_wf b (negb (is_buy (req_side order))) Hwf) (req_quantity order)) o Hq) as (o0 & H0 & [E _]).
      left. exists o0. split; [by eapply all_orders_queue|done].
  - unfold settle. destruct (match_run b order) as [[fills rem] q]. destruct (_ >? _); [|done].
    destruct (_ || _); [done|]. by destruct (find_key _ _).
Qed.

(** ** Net positions *)
Section MapSum.
Context {V : Type} (f : V -> Z).

Definition map_sum (m : gmap Z V) : Z := Zsum (fun p : Z * V => f p.2) (map_to_list m).

Lemma map_sum_empty : map_sum ∅ = 0.
Proof. unfold map_sum. by rewrite map_to_list_empty. Qed.

Lemma map_sum_insert m k v : m !! k = None -> map_sum (<[k := v]> m) = f v + map_sum m.
Proof.
  intros H. unfold map_sum. rewrite (Zsum_perm _ _ _ (map_to_list_insert m k v H)). by rewrite Zsum_cons.
Qed.

Lemma map_sum_update m k v :
  map_sum (<[k := v]> m) = map_sum m - (match m !! k with Some v0 => f v0 | None => 0 end) + f v.
Proof.
  destruct (m !! k) as [v0|] eqn:E; [|rewrite map_sum_insert by done; lia].
  rewrite <- insert_delete_eq, map_sum_insert by apply lookup_delete_eq.
  rewrite <- (insert_delete_id m k v0 E) at 2. rewrite map_sum_insert by apply lookup_delete_eq. lia.
Qed.
End MapSum.

Definition account_position (m : Z) (s : AccountState) : Z :=
  match positions s !! m with Some p => pos_quantity p | None => 0 end.

(** What all accounts together hold in a market. *)
Definition net_position (m : Z) (e : RiskEngine) : Z := map_sum (account_position m) (accounts e).

Lemma existing_account e a m :
  existing_quantity e a m = match accounts e !! a with Some s => account_position m s | None => 0 end.
Proof. done. Qed.

Lemma apply_fill_net fill e m :
  net_position m (apply_fill fill e) ==64
    net_position m e + (if fc_market fill =? m then
                          if is_buy (fc_side fill) then fc_quantity fill else - fc_quantity fill else 0).
Proof.
  pose proof (apply_fill_existing fill e (fc_account fill) m) as E. rewrite Z.eqb_refl in E. cbn [andb] in E.
  assert (Hup : exists s, accounts (apply_fill fill e) = <[fc_account fill := s]> (accounts e)).
  { unfold apply_fill. destruct (same_direction _ _); cbn; eauto. }
  destruct Hup as [s Hs]. rewrite !existing_account, Hs, lookup_insert_eq in E.
  unfold net_position. rewrite Hs, map_sum_update, E.
  destruct (fc_market fill =? m).
  - rewrite i64_eqm, signed_qty_eqm. apply eqm64_eq. lia.
  - apply eqm64_eq. lia.
Qed.

(** Booking a fill to both sides leaves the net position as it was. *)
Lemma both_sides_net taker maker fill e m :
  rc_market maker = rc_market taker -> is_buy (rc_side maker) = negb (is_buy (rc_side taker)) ->
  net_position m (apply_fill (fill_context maker fill) (apply_fill (fill_context taker fill) e)) ==64 net_position m e.
Proof.
  intros Hm Hs. rewrite !apply_fill_net. cbn. rewrite Hm, Hs.
  destruct (rc_market taker =? m), (is_buy (rc_side taker)); apply eqm64_eq; cbn; lia.
Qed.

(** Nothing the daemon places is fill-or-kill: the outcome [n] of that test, which
    an overflow of the depth can change, does not matter. *)
Lemma place_not_fok n b order : req_tif order <> kFok -> place_with n b order = spec_place b order.
Proof. intros H. unfold spec_place, place_with. by rewrite bool_decide_false. Qed.

Lemma submit_not_fok n r a : req_tif r <> kFok -> spec_submit (place_with n) r a = spec_submit spec_place r a.
Proof. intros H. unfold spec_submit. by rewrite place_not_fok. Qed.

Lemma replace_not_fok n r a : rep_new_tif r <> kFok -> spec_replace (place_with n) r a = spec_replace spec_place r a.
Proof.
  intros H. unfold spec_replace. destruct (a !! _); [|done]. destruct (find_key _ _); [|done]. by rewrite place_not_fok.
Qed.

Lemma spec_submit_cases r a :
  let x := spec_submit spec_place r a in
  let b := default new_book (a !! id_market (req_id r)) in
  (x.1 = a /\ or_accepted x.2 = false) \/
  (x.1 = <[id_market (req_id r) := (spec_place b r).1]> a /\ x.2 = (spec_place b r).2).
Proof.
  cbv zeta. unfold spec_submit. destruct (_ <=? 0); [by left|]. destruct (_ && _); [by left|].
  right. by destruct (spec_place _ _).
Qed.

Lemma books_wf_default a m : books_wf a -> book_wf (default new_book (a !! m)).
Proof. intros H. destruct (a !! m) eqn:E; [by apply (H m)|apply new_book_wf]. Qed.

Lemma remove_key_elem k q o : o ∈ remove_key k q <-> o ∈ q /\ ord_key o <> k.
Proof.
  unfold remove_key. rewrite !list_elem_of_In, List.filter_In.
  destruct (Z.eqb_spec (ord_key o) k); cbn; naive_solver.
Qed.

Lemma spec_remove_elem k b o : o ∈ all_orders (spec_remove k b) <-> o ∈ all_orders b /\ ord_key o <> k.
Proof. unfold all_orders. cbn. rewrite !elem_of_app, !remove_key_elem. tauto. Qed.

Lemma spec_remove_fresh k b : find_key k (all_orders (spec_remove k b)) = None.
Proof.
  apply find_key_None. intros (o & -> & Ho)%list_elem_of_fmap. apply spec_remove_elem in Ho. by destruct Ho.
Qed.

(** ** Every trade has two sides *)
Lemma find_key_elem q o : NoDup (keys q) -> o ∈ q -> find_key (ord_key o) q = Some o.
Proof.
  intros Hd Ho. destruct (find_key (ord_key o) q) as [o'|] eqn:E.
  - apply find_key_Some in E as [Ho' Ek]. f_equal. by apply (NoDup_map_inj ord_key q).
  - apply find_key_None in E. destruct E. by apply list_elem_of_fmap_2.
Qed.

(** The makers of an order are in the book, on the other side. *)
Lemma makers_found b order b' res :
  book_wf b -> effect b order b' res ->
  forall f, f ∈ or_fills res -> exists o, o ∈ all_orders b /\
    find_key (value (fill_maker_order f)) (all_orders b) = Some o /\ ord_buy o = negb (is_buy (req_side order)).
Proof.
  intros Hwf [Hf _ _] f Hin. destruct (Hf f Hin) as (o & Ho & Hb & ->). exists o. split; [done|]. split; [|done].
  change (value (req_id (ord_request o))) with (ord_key o). by apply find_key_elem, Ho; apply wf_keys.
Qed.

Lemma book_fills_net market b taker fills m : forall e,
  rc_market taker = market ->
  (forall f, f ∈ fills -> exists o, o ∈ all_orders b /\
     find_key (value (fill_maker_order f)) (all_orders b) = Some o /\ ord_buy o = negb (is_buy (rc_side taker))) ->
  net_position m (book_fills market b taker fills e) ==64 net_position m e.
Proof.
  unfold book_fills. induction fills as [|f fills IH]; intros e Hm Hf; [done|]. cbn [foldl].
  rewrite IH by (try done; intros f' Hf'; apply Hf; by right).
  destruct (Hf f ltac:(by left)) as (o & _ & Ho & Hb). unfold book_fill. rewrite Ho. by apply both_sides_net.
Qed.

(** Whatever a frame does, the positions of all accounts in a market add up to
    what they did. *)
Lemma exchange_step_net market k offset f x m :
  books_wf (ex_books x) ->
  net_position m (ex_risk (exchange_step market k offset f x).1) ==64 net_position m (ex_risk x).
Proof.
  intros Hwf. destruct k; cbn [exchange_step]; [| | |done].
  - destruct (decode_new_order _) as [order|]; [|done]. unfold exchange_new_order.
    destruct (rk_decision _); [|done..]. set (r := exchange_request market f order).
    pose proof (spec_submit_cases r (ex_books x)) as Hc. change (id_market (req_id r)) with market in Hc.
    destruct (spec_submit _ _ _) as [books res]. cbn [fst snd] in Hc. destruct (or_accepted res) eqn:Ea; [|done].
    destruct Hc as [[_ Hn]|[_ ->]]; [congruence|]. apply book_fills_net; [done|]. cbn [owner rc_side].
    eapply (makers_found _ r); [by apply books_wf_default|apply place_effect; by apply books_wf_default].
  - by destruct (decode_cancel _).
  - destruct (decode_replace _) as [msg|]; [|done]. unfold exchange_replace, spec_replace.
    change (rep_id (replace_request msg)) with (decode_order_id (rp_order_id msg)).
    set (id := decode_order_id _). change (encode_order_id id) with (value id).
    destruct (ex_books x !! id_market id) as [b|] eqn:Eb; [|done]. change (default new_book (Some b)) with b.
    destruct (find_key (value id) (all_orders b)) as [o|]; [|done].
    assert (Hb : book_wf (spec_remove (value id) b)) by (apply spec_remove_wf; by apply (Hwf _ _ Eb)).
    pose proof (place_effect _ _ (replaced_request (ord_request o) (replace_request msg)) Hb : effect _ _ (spec_place _ _).1 (spec_place _ _).2) as He.
    destruct (spec_place _ _) as [b' res]. cbn [rr_accepted rr_fills fst snd] in *. destruct (or_accepted res); [|done].
    apply book_fills_net; [done|]. exact (makers_found _ _ _ _ Hb He).
Qed.
