(* ===== verification/DaemonProps.v ===== *)
(** * The daemon implements the exchange

    Every handler runs to its end, logs its frame exactly once, and does to the
    books what [Exchange] says; and as long as order ids are not reused, the
    contexts the daemon keeps beside the books name the owners of the resting
    orders, so that the accounts and the trade feed are those of [Exchange] too. *)
From S2P Require Import Config.
From S2P Require Import Prelude Types Bytes OrderedMap Matcher MatcherSpec BookRefine MatcherRefine.
From S2P Require Import Risk RiskProps FundingLedger SpscRing SpscRingProps Sbe Ingest IngestProps.
From S2P Require Import Wal WalProps Snapshot Api Daemon Handlers Exchange.

(** ** The contexts *)

(** Every order of the books is of the market and has its owner for context. *)
Definition contexts_ok (market : Z) (resting : gmap Z RestingOrderContext) (a : gmap Z Book) : Prop :=
  forall m b o, a !! m = Some b -> o ∈ all_orders b ->
    m = market /\ resting !! ord_key o = Some (owner market (ord_request o)).

Lemma ord_key_request o o' : ord_request o = ord_request o' -> ord_key o = ord_key o'.
Proof. unfold ord_key. by intros ->. Qed.

Lemma find_key_fresh k q o : find_key k q = None -> o ∈ q -> ord_key o <> k.
Proof. rewrite find_key_None. intros Hn Ho E. apply Hn. rewrite <- E. by apply list_elem_of_fmap_2. Qed.

(** It is enough to look at the book that changes. *)
Lemma contexts_book market resting resting' a b b' :
  contexts_ok market resting (<[market := b]> a) ->
  (forall o, o ∈ all_orders b' -> resting' !! ord_key o = Some (owner market (ord_request o))) ->
  contexts_ok market resting' (<[market := b']> a).
Proof.
  intros Hc Hb m0 b0 o Hb0 Ho. destruct (decide (m0 = market)) as [->|Hne].
  - rewrite lookup_insert_eq in Hb0. injection Hb0 as <-. split; [done|by apply Hb].
  - rewrite lookup_insert_ne in Hb0 by done.
    destruct (Hc m0 b0 o) as [E _]; [by rewrite lookup_insert_ne|done|done].
Qed.

Lemma contexts_lookup market resting a b o :
  contexts_ok market resting (<[market := b]> a) -> o ∈ all_orders b ->
  resting !! ord_key o = Some (owner market (ord_request o)).
Proof. intros Hc Ho. by apply (Hc market b o); [rewrite lookup_insert_eq|]. Qed.

(** The contexts after an order whose key did not rest: entered if it rests,
    erased if it does not. *)
Lemma contexts_after market resting a b order b' res :
  contexts_ok market resting (<[market := b]> a) -> effect b order b' res ->
  find_key (encode_order_id (req_id order)) (all_orders b) = None ->
  contexts_ok market
    (if or_resting res then <[value (req_id order) := owner market order]> resting
     else base.delete (value (req_id order)) resting) (<[market := b']> a).
Proof.
  intros Hc [_ Hef _] Hf. eapply contexts_book; [exact Hc|]. intros o Ho.
  destruct (Hef o Ho) as [(o0 & H0 & E)|[Hr E]].
  - rewrite (ord_key_request _ _ E), E, <- (contexts_lookup _ _ _ _ _ Hc H0).
    pose proof (find_key_fresh _ _ _ Hf H0) as Hn. unfold encode_order_id in Hn.
    destruct (or_resting res); [by rewrite lookup_insert_ne|by rewrite lookup_delete_ne].
  - rewrite Hr. unfold ord_key, encode_order_id. by rewrite E, lookup_insert_eq.
Qed.

(** Orders that only leave the books keep their contexts. *)
Lemma contexts_shrink market resting resting' a b b' :
  contexts_ok market resting (<[market := b]> a) ->
  (forall o, o ∈ all_orders b' -> exists o0, o0 ∈ all_orders b /\ ord_request o = ord_request o0 /\
     resting' !! ord_key o0 = resting !! ord_key o0) ->
  contexts_ok market resting' (<[market := b']> a).
Proof.
  intros Hc Hef. eapply contexts_book; [exact Hc|]. intros o Ho. destruct (Hef o Ho) as (o0 & H0 & E & El).
  by rewrite (ord_key_request _ _ E), E, El, (contexts_lookup _ _ _ _ _ Hc H0).
Qed.

Lemma contexts_refused market resting a b order b' res :
  contexts_ok market resting (<[market := b]> a) -> effect b order b' res ->
  or_accepted res = false -> contexts_ok market resting (<[market := b']> a).
Proof.
  intros Hc [_ Ho Hr] Ea. eapply contexts_shrink; [exact Hc|]. intros o Hin.
  destruct (Ho o Hin) as [(o0 & H0 & E)|[Er _]]; [by exists o0|].
  by rewrite (Hr Er) in Ea.
Qed.

(** The default book, whether or not the market exists yet. *)
Lemma contexts_default market resting a :
  contexts_ok market resting a -> contexts_ok market resting (<[market := default new_book (a !! market)]> a).
Proof.
  intros Hc m b o Hb Ho. destruct (decide (m = market)) as [->|Hne].
  - rewrite lookup_insert_eq in Hb. injection Hb as <-.
    destruct (a !! market) as [b0|] eqn:E; [by apply (Hc market b0)|]. cbn in Ho. set_solver.
  - rewrite lookup_insert_ne in Hb by done. by apply (Hc m b).
Qed.

Lemma insert_same_eq (a : gmap Z Book) m b : a !! m = Some b -> <[m := b]> a = a.
Proof. apply insert_id. Qed.

(** ** Booking the fills *)

(** The context of a fill's maker names the owner of the order in the book. *)
Definition maker_known (market : Z) (b : Book) (resting : gmap Z RestingOrderContext) (f : FillEvent) : Prop :=
  exists o, find_key (value (fill_maker_order f)) (all_orders b) = Some o /\
    resting !! value (fill_maker_order f) = Some (owner market (ord_request o)).

Lemma makers_known market resting a b order b' res :
  contexts_ok market resting (<[market := b]> a) -> book_wf b -> effect b order b' res ->
  forall f, f ∈ or_fills res -> maker_known market b resting f.
Proof.
  intros Hc Hwf He f Hin. destruct (makers_found _ _ _ _ Hwf He f Hin) as (o & Ho & Hk & _). exists o. split; [done|].
  apply find_key_Some in Hk as [_ <-]. by eapply contexts_lookup.
Qed.

(** Trades, to a feed that holds [capacity]. *)
Definition publish (capacity : Z) (trades feed : list TradeMetadata) : list TradeMetadata :=
  foldl (fun l t => push_with_fifo_eviction capacity t l) feed trades.

(** What the daemon keeps when it books fills. *)
Record kept (d d' : Daemon) : Prop := {
  kp_ingress : dm_ingress d' = dm_ingress d;
  kp_wal : dm_wal d' = dm_wal d;
  kp_market : dm_default_market d' = dm_default_market d;
  kp_frames : express_feed_frames (dm_api d') = express_feed_frames (dm_api d);
  kp_capacity : express_feed_capacity (dm_api d') = express_feed_capacity (dm_api d);
  kp_trades : trade_metadata_capacity (dm_api d') = trade_metadata_capacity (dm_api d) }.

Lemma process_fills_spec fills taker off t : forall d,
  let d' := process_fills fills taker off t d in
  kept d d' /\ dm_matcher d' = dm_matcher d /\ dm_resting_orders d' = dm_resting_orders d /\
  trade_metadata (dm_api d') =
    publish (trade_metadata_capacity (dm_api d)) (map (trade_of taker off t) fills) (trade_metadata (dm_api d)).
Proof.
  unfold process_fills, publish. induction fills as [|f fills IH]; intros d; [by repeat split|].
  cbn [foldl map]. destruct (IH (process_fill taker off t d f)) as ([H1 H2 H3 H4 H5 H6] & H7 & H8 & H9).
  split; [by split|]. by rewrite H7, H8, H9.
Qed.

Lemma process_fills_risk market b fills taker off t : forall d,
  (forall f, f ∈ fills -> maker_known market b (dm_resting_orders d) f) ->
  dm_risk (process_fills fills taker off t d) = book_fills market b taker fills (dm_risk d).
Proof.
  unfold process_fills, book_fills. induction fills as [|f fills IH]; intros d Hk; [done|]. cbn [foldl].
  rewrite IH by (intros f' Hf'; apply (Hk f'); by right). f_equal.
  destruct (Hk f ltac:(by left)) as (o & Ho & Hc). unfold book_fill. cbn. by rewrite Ho, Hc.
Qed.

(** ** The [try] blocks *)

(** The identifier of a new order does not rest in the default market. *)
Definition fresh_id (frame : Frame) (d : Daemon) : bool :=
  match dm_matcher d !! dm_default_market d with
  | Some sh => bool_decide (book_orders sh !! value (new_order_id d frame) = None)
  | None => true
  end.

Definition fresh (k : MessageKind) (frame : Frame) (d : Daemon) : bool :=
  match k with kNewOrder => fresh_id frame d | _ => true end.

(** The test on the engine is the one on the books it represents. *)
Lemma fresh_unused k f d a :
  engine_rep (dm_matcher d) a -> fresh k f d = unused (dm_default_market d) k f (mkExchange a (dm_risk d)).
Proof.
  intros He. destruct k; [|done..]. cbn [fresh unused ex_books]. unfold fresh_id. specialize (He (dm_default_market d)).
  destruct He as [sh b Hrep|]; [|done]. apply bool_decide_ext. by apply (find_key_heap sh b).
Qed.

(** The exchange next to a daemon whose engine represents [a]. *)
Abbreviation beside d a := (mkExchange a (dm_risk d)).
Abbreviation stepped k off f d a := (exchange_step (dm_default_market d) k off f (beside d a)).

Record executed (k : MessageKind) (off : Z) (f : Frame) (d : Daemon) (a : gmap Z Book) (d' : Daemon) : Prop := {
  xc_engine : engine_rep (dm_matcher d') (ex_books (stepped k off f d a).1);
  xc_kept : kept d d';
  xc_accounts : contexts_ok (dm_default_market d) (dm_resting_orders d) a -> fresh k f d = true ->
    contexts_ok (dm_default_market d) (dm_resting_orders d') (ex_books (stepped k off f d a).1) /\
    dm_risk d' = ex_risk (stepped k off f d a).1 /\
    trade_metadata (dm_api d') =
      publish (trade_metadata_capacity (dm_api d)) (stepped k off f d a).2 (trade_metadata (dm_api d)) }.

(** A block that ends in booking [fills] and in the contexts [resting]. *)
Lemma executed_fills k off f d a e' a' b taker fills resting t :
  engine_rep e' a' -> ex_books (stepped k off f d a).1 = a' ->
  (contexts_ok (dm_default_market d) (dm_resting_orders d) a -> fresh k f d = true ->
    contexts_ok (dm_default_market d) resting a' /\
    (forall fl, fl ∈ fills -> maker_known (dm_default_market d) b (dm_resting_orders d) fl) /\
    stepped k off f d a =
      (mkExchange a' (book_fills (dm_default_market d) b taker fills (dm_risk d)), map (trade_of taker off t) fills)) ->
  executed k off f d a (set_resting resting (process_fills fills taker off t (set_matcher e' d))).
Proof.
  intros He E Hc. destruct (process_fills_spec fills taker off t (set_matcher e' d)) as ([H1 H2 H3 H4 H5 H6] & H7 & H8 & H9).
  pose proof (process_fills_risk (dm_default_market d) b fills taker off t (set_matcher e' d)) as Hr. cbn in Hr.
  split; [rewrite E; cbn; by rewrite H7|by split|].
  intros Hc0 Hf. destruct (Hc Hc0 Hf) as (Hc' & Hk & ->). cbn. by rewrite Hr, H9.
Qed.

(** A block that books nothing and leaves the contexts as they are. *)
Lemma executed_books k off f d a e' a' :
  engine_rep e' a' -> stepped k off f d a = (mkExchange a' (dm_risk d), []) ->
  (contexts_ok (dm_default_market d) (dm_resting_orders d) a -> fresh k f d = true ->
    contexts_ok (dm_default_market d) (dm_resting_orders d) a') ->
  executed k off f d a (set_matcher e' d).
Proof.
  intros He E Hc. split; [by rewrite E|done|]. intros Hc0 Hf. rewrite E. split; [by apply Hc|done].
Qed.

Lemma executed_nothing k off f d a :
  engine_rep (dm_matcher d) a -> stepped k off f d a = (beside d a, []) -> executed k off f d a d.
Proof.
  intros He E. assert (Ed : set_matcher (dm_matcher d) d = d) by by destruct d.
  rewrite <- Ed at 2. by apply executed_books with a.
Qed.

Lemma decode_new_order_range data m : decode_new_order data = Ok m -> in_i64 (no_quantity m).
Proof.
  destruct (Nat.lt_ge_cases (length data) kNewOrderEncodedSize) as [H|H].
  - unfold decode_new_order. by rewrite require_size_short.
  - rewrite decode_new_order_fields by done. intros [= <-]. apply i64_range.
Qed.

Lemma decode_replace_range data m : decode_replace data = Ok m -> in_i64 (rp_new_quantity m).
Proof.
  destruct (Nat.lt_ge_cases (length data) kReplaceEncodedSize) as [H|H].
  - unfold decode_replace. by rewrite require_size_short.
  - rewrite decode_replace_fields by done. intros [= <-]. apply i64_range.
Qed.

Lemma execute_new_order_spec off f d a :
  engine_rep (dm_matcher d) a ->
  exists d', execute_new_order off f d = Some d' /\ executed kNewOrder off f d a d'.
Proof.
  intros He. unfold execute_new_order. destruct (decode_new_order (fr_payload f)) as [order|] eqn:Ed.
  2:{ exists d. split; [done|]. apply executed_nothing; [done|]. cbn. by rewrite Ed. }
  assert (Hstep : stepped kNewOrder off f d a = exchange_new_order (dm_default_market d) off f order (beside d a))
    by (cbn; by rewrite Ed).
  unfold exchange_new_order in Hstep. cbn [ex_risk ex_books] in Hstep.
  change (exchange_intent (dm_default_market d) f order) with (order_intent d f order) in Hstep.
  destruct (rk_decision _); [|exists d; split; [done|]; by apply executed_nothing..].
  change (exchange_request (dm_default_market d) f order) with (new_order_request d f order) in Hstep.
  set (r := new_order_request d f order) in *. set (M := dm_default_market d) in *.
  destruct (submit_sim (dm_matcher d) a r He (decode_new_order_range _ _ Ed)) as (n & e' & Es & He' & _).
  rewrite submit_not_fok in Es, He' by done.
  rewrite Es. cbn [mbind option_bind]. pose proof (spec_submit_cases r a) as Hcases.
  destruct (spec_submit spec_place r a) as [a' res]. cbn [fst snd] in *.
  change (id_market (req_id r)) with M in Hcases. set (b := default new_book (a !! M)) in *.
  assert (Hbwf : book_wf b) by (apply books_wf_default; by eapply engine_rep_wf).
  pose proof (place_effect _ b r Hbwf : effect b r (spec_place b r).1 (spec_place b r).2) as Heff.
  destruct (or_accepted res) eqn:Ea; cbn [negb].
  - destruct Hcases as [[_ Hn]|[-> ->]]; [congruence|]. eexists. split; [reflexivity|].
    eapply executed_fills; [exact He'|exact (f_equal (fun x => ex_books x.1) Hstep)|].
    intros Hc%contexts_default Hf. fold b in Hc.
    rewrite (fresh_unused _ _ _ _ He) in Hf. apply bool_decide_eq_true in Hf.
    split; [|split; [by eapply makers_known|exact Hstep]].
    destruct (process_fills_spec (or_fills (spec_place b r).2) (owner M r) off (fh_received_time_ns (fr_header f))
      (set_matcher e' d)) as (_ & _ & Hro & _).
    pose proof (contexts_after _ _ _ _ _ _ _ Hc Heff Hf) as H. cbn in Hro. change (mkContext _ _ _) with (owner M r).
    cbn. rewrite Hro. exact H.
  - eexists. split; [reflexivity|]. apply executed_books with a'; [done|exact Hstep|].
    intros Hc _. destruct Hcases as [[-> _]|[-> Er]]; [done|]. rewrite Er in Ea.
    apply contexts_default in Hc. by eapply contexts_refused.
Qed.

Lemma execute_cancel_spec off f d a :
  engine_rep (dm_matcher d) a ->
  exists d', execute_cancel f d = Some d' /\ executed kCancel off f d a d'.
Proof.
  intros He. unfold execute_cancel. destruct (decode_cancel (fr_payload f)) as [msg|] eqn:Ed.
  2:{ exists d. split; [done|]. apply executed_nothing; [done|]. cbn. by rewrite Ed. }
  set (id := decode_order_id (cn_order_id msg)). set (M := dm_default_market d).
  assert (Hstep : stepped kCancel off f d a = (mkExchange (spec_cancel (mkCancel id) a).1 (dm_risk d), []))
    by (cbn; by rewrite Ed).
  destruct (cancel_sim (dm_matcher d) a (mkCancel id) He) as (e' & -> & He'). cbn [mbind option_bind].
  unfold spec_cancel in *. cbn [cancel_id] in *. change (encode_order_id id) with (value id) in *.
  destruct (a !! id_market id) as [b|] eqn:Eb; [destruct (find_key (value id) (all_orders b)) as [o|] eqn:Ef|].
  2,3: eexists; (split; [reflexivity|]); by apply executed_books with a.
  cbn [fst snd cr_cancelled] in *. eexists. split; [reflexivity|].
  eapply (executed_fills _ _ _ _ _ e' _ b (mkContext 0 0 kBuy) [] _ 0); [exact He'|by rewrite Hstep|].
  intros Hc _. split; [|split; [by intros fl []%elem_of_nil|exact Hstep]].
  assert (Hm : id_market id = M) by (apply find_key_Some in Ef as [Ho _]; by destruct (Hc _ b o Eb Ho)).
  rewrite Hm in *. eapply contexts_shrink; [by rewrite (insert_same_eq a _ b)|]. intros o' Ho'.
  apply spec_remove_elem in Ho' as [Ho' Hk]. exists o'. split; [done|]. split; [done|]. by apply lookup_delete_ne.
Qed.

(** The order a replace names is of the default market, its context is its owner,
    and the book without it keeps its contexts. *)
Lemma replace_contexts market resting f d a id b o :
  a !! id_market id = Some b -> find_key (value id) (all_orders b) = Some o ->
  market = dm_default_market d -> resting = dm_resting_orders d -> contexts_ok market resting a ->
  id_market id = market /\ replace_taker f id d = owner market (ord_request o) /\
  contexts_ok market resting (<[market := spec_remove (value id) b]> a).
Proof.
  intros Eb [Hob Hok]%find_key_Some -> -> Hc. destruct (Hc _ b o Eb Hob) as (Hm & Hlk). rewrite Hok in Hlk.
  split; [done|]. split; [unfold replace_taker; by rewrite Hlk|].
  eapply contexts_shrink; [rewrite (insert_same_eq a _ b); [done|by rewrite <- Hm]|].
  intros o' [Ho' _]%spec_remove_elem. by exists o'.
Qed.

Lemma execute_replace_spec off f d a :
  engine_rep (dm_matcher d) a ->
  exists d', execute_replace off f d = Some d' /\ executed kReplace off f d a d'.
Proof.
  intros He. unfold execute_replace. destruct (decode_replace (fr_payload f)) as [msg|] eqn:Ed.
  2:{ exists d. split; [done|]. apply executed_nothing; [done|]. cbn. by rewrite Ed. }
  set (id := decode_order_id (rp_order_id msg)). set (rq := replace_request msg). set (M := dm_default_market d).
  assert (Hstep : stepped kReplace off f d a = exchange_replace M off f msg (beside d a)) by (cbn; by rewrite Ed).
  unfold exchange_replace in Hstep. cbn [ex_risk ex_books] in Hstep. fold id rq in Hstep.
  destruct (replace_sim (dm_matcher d) a rq He (decode_replace_range _ _ Ed)) as (n & e' & Es & He' & _).
  rewrite replace_not_fok in Es, He' by done. rewrite Es. cbn [mbind option_bind].
  unfold spec_replace in *. change (rep_id rq) with id in *. change (encode_order_id id) with (value id) in *.
  destruct (a !! id_market id) as [b|] eqn:Eb; [destruct (find_key (value id) (all_orders b)) as [o|] eqn:Ef|].
  2,3: eexists; (split; [reflexivity|]); apply executed_books with a; [done| |done];
    (etrans; [exact Hstep|]); cbn; by rewrite ?Ef.
  change (default new_book (Some b)) with b in Hstep. rewrite Ef in Hstep.
  set (order := replaced_request (ord_request o) rq) in *. set (b1 := spec_remove (value id) b) in *.
  assert (Hbwf : book_wf b1) by (apply spec_remove_wf; by apply (engine_rep_wf (dm_matcher d) a He (id_market id) b)).
  pose proof (place_effect _ b1 order Hbwf : effect b1 order (spec_place b1 order).1 (spec_place b1 order).2) as Heff.
  destruct (spec_place b1 order) as [b' res]. cbn [fst snd rr_accepted rr_fills rr_resting] in *.
  pose proof (fun H => replace_contexts M _ f d a id b o Eb Ef eq_refl eq_refl H) as Hctx. fold b1 in Hctx.
  destruct (or_accepted res) eqn:Ea; cbn [andb negb].
  - assert (Hfills : forall resting,
      (contexts_ok M (dm_resting_orders d) a -> replace_taker f id d = owner M (ord_request o) ->
         contexts_ok M resting (<[id_market id := b']> a)) ->
      executed kReplace off f d a (set_resting resting (process_fills (or_fills res) (replace_taker f id d) off
        (fh_received_time_ns (fr_header f)) (set_matcher e' d)))).
    { intros resting Hr. eapply executed_fills; [exact He'|exact (f_equal (fun x => ex_books x.1) Hstep)|]. intros Hc _.
      destruct (Hctx Hc) as (Hm & Ht & Hc1). split; [by apply Hr|]. rewrite Ht.
      split; [|exact Hstep]. by eapply makers_known. }
    destruct (process_fills_spec (or_fills res) (replace_taker f id d) off (fh_received_time_ns (fr_header f))
      (set_matcher e' d)) as (_ & _ & Hro & _). cbn in Hro.
    pose proof (fun H => contexts_after _ _ _ _ _ _ _ (proj2 (proj2 (Hctx H))) Heff (spec_remove_fresh _ _)) as Hafter.
    destruct (or_resting res) eqn:Er; cbn [andb negb]; (eexists; split; [reflexivity|]); apply Hfills;
      intros Hc Ht; rewrite Hro, ?Ht, (proj1 (Hctx Hc)); exact (Hafter Hc).
  - eexists. split; [reflexivity|]. apply executed_books with (<[id_market id := b']> a); [done|exact Hstep|].
    intros Hc _. destruct (Hctx Hc) as (-> & _ & Hc1). by eapply contexts_refused.
Qed.

(** ** The handlers *)

(** The frame conditions of a handler: the log and the express feed grow by the
    frame, the queues and the market stay. *)
Record logged (f : Frame) (d d' : Daemon) : Prop := {
  lg_ingress : dm_ingress d' = dm_ingress d;
  lg_market : dm_default_market d' = dm_default_market d;
  lg_wal : dm_wal d' = append 0 (build_wal_payload f) (dm_wal d);
  lg_frames : express_feed_frames (dm_api d') =
    push_with_fifo_eviction (express_feed_capacity (dm_api d))
      (mkExpressFrame (wt_next_sequence (dm_wal d)) (fr_payload f)) (express_feed_frames (dm_api d));
  lg_capacity : express_feed_capacity (dm_api d') = express_feed_capacity (dm_api d);
  lg_trades : trade_metadata_capacity (dm_api d') = trade_metadata_capacity (dm_api d) }.

(** What a handler does: the matcher holds the books of the exchange, and the
    contexts, the accounts and the trades are right if ids are fresh. *)
Record handled (k : MessageKind) (f : Frame) (d : Daemon) (a : gmap Z Book) (d' : Daemon)
    (x : Exchange * list TradeMetadata) : Prop := {
  hd_engine : engine_rep (dm_matcher d') (ex_books x.1);
  hd_accounts : contexts_ok (dm_default_market d) (dm_resting_orders d) a -> fresh k f d = true ->
    contexts_ok (dm_default_market d) (dm_resting_orders d') (ex_books x.1) /\ dm_risk d' = ex_risk x.1 /\
    trade_metadata (dm_api d') = publish (trade_metadata_capacity (dm_api d)) x.2 (trade_metadata (dm_api d)) /\
    forall m, net_position m (dm_risk d') ==64 net_position m (dm_risk d) }.

Lemma execute_spec k off f d a :
  engine_rep (dm_matcher d) a -> exists d', execute_frame k off f d = Some d' /\ executed k off f d a d'.
Proof.
  intros He. destruct k; [by apply execute_new_order_spec|by apply execute_cancel_spec|by apply execute_replace_spec|].
  exists d. split; [done|]. by apply executed_nothing.
Qed.

Lemma handle_spec k f d a :
  k <> kHeartbeat -> engine_rep (dm_matcher d) a ->
  exists d', handle k f d = Some d' /\ logged f d d' /\
    handled k f d a d' (stepped k (wt_next_sequence (dm_wal d)) f d a).
Proof.
  intros Hk He. rewrite handle_executes by done.
  destruct (execute_spec k (wt_next_sequence (dm_wal d)) f (journal f d).1 a He) as (d' & -> & [H1 [] H3]).
  exists d'. split; [done|]. split; [by split|].
  split; [exact H1|]. intros Hc Hf. destruct H3 as (Hc' & Hr & Ht); [exact Hc|by destruct k|].
  split; [exact Hc'|]. split; [exact Hr|]. split; [exact Ht|]. intros m. rewrite Hr.
  exact (exchange_step_net _ k _ f (beside d a) m (engine_rep_wf _ _ He)).
Qed.
