(* ===== verification/DaemonRuns.v ===== *)
(** * Runs of the daemon

    Sequences of frames from a booted daemon: the log gives them all back, the
    positions of all accounts cancel, and a turn of the event loop handles
    exactly what the queues hold. *)
From S2P Require Import Config.
From S2P Require Import Prelude Types Bytes OrderedMap Matcher MatcherSpec BookRefine MatcherRefine.
From S2P Require Import Risk RiskProps FundingLedger SpscRing SpscRingProps Sbe Ingest IngestProps.
From S2P Require Import Wal WalProps Snapshot SnapshotProps Api Daemon Handlers Exchange DaemonProps.

(** A frame and the queue it is taken from. *)
Abbreviation Work := (MessageKind * Frame)%type.

Fixpoint handle_all (l : list Work) (d : Daemon) : option Daemon :=
  match l with
  | [] => Some d
  | (k, f) :: l => d ← handle k f d; handle_all l d
  end.

(** No new order of the run has the identifier of an order that rests when it
    arrives. *)
Fixpoint all_fresh (l : list Work) (d : Daemon) : bool :=
  match l with
  | [] => true
  | (k, f) :: l => fresh k f d && match handle k f d with Some d => all_fresh l d | None => true end
  end.

(** What the log is given, and what the express feed is given. *)
Definition wal_entries (l : list Work) : list (Z * bytes) := map (fun x : Work => (0, build_wal_payload x.2)) l.

Fixpoint express_of (sequence : Z) (l : list Work) : list ExpressFeedFrame :=
  match l with
  | [] => []
  | (k, f) :: l => mkExpressFrame sequence (fr_payload f) :: express_of (u64 (sequence + 1)) l
  end.

Abbreviation queued := (fun x : Work => x.1 <> kHeartbeat).

Lemma handle_all_app l l' d : handle_all (l ++ l') d = d' ← handle_all l d; handle_all l' d'.
Proof.
  revert d. induction l as [|[k f] l IH]; intros d; [done|]. cbn. destruct (handle k f d); [apply IH|done].
Qed.

(** Sequences of handlers: they end, log every frame in order, and keep the
    balance. *)
Record handled_all (l : list Work) (d : Daemon) (a : gmap Z Book) (d' : Daemon) (a' : gmap Z Book) : Prop := {
  ha_engine : engine_rep (dm_matcher d') a';
  ha_ingress : dm_ingress d' = dm_ingress d;
  ha_market : dm_default_market d' = dm_default_market d;
  ha_wal : dm_wal d' = append_all (wal_entries l) (dm_wal d);
  ha_capacity : express_feed_capacity (dm_api d') = express_feed_capacity (dm_api d);
  ha_feed : forall n sent, 0 <= n -> express_feed_capacity (dm_api d) = n + 1 ->
    express_feed_frames (dm_api d) = last_n (Z.to_nat (n + 1)) sent ->
    express_feed_frames (dm_api d') =
      last_n (Z.to_nat (n + 1)) (sent ++ express_of (wt_next_sequence (dm_wal d)) l);
  ha_balance : contexts_ok (dm_default_market d) (dm_resting_orders d) a -> all_fresh l d = true ->
    contexts_ok (dm_default_market d) (dm_resting_orders d') a' /\
    forall m, net_position m (dm_risk d') ==64 net_position m (dm_risk d) }.

Lemma handle_all_spec l : forall d a,
  Forall queued l -> engine_rep (dm_matcher d) a ->
  exists d' a', handle_all l d = Some d' /\ handled_all l d a d' a'.
Proof.
  induction l as [|[k f] l IH]; intros d a Hq He.
  { exists d, a. split; [done|]. split; try done. intros n sent _ _ E. cbn. by rewrite app_nil_r. }
  apply Forall_cons in Hq as [Hk Hq]. cbn in Hk.
  destruct (handle_spec k f d a Hk He) as (d1 & E1 & [L1 L2 L3 L4 L5 _] & [He1 Hb1]).
  set (a1 := ex_books _) in *.
  destruct (IH d1 a1 Hq He1) as (d2 & a2 & E2 & [H1 H2 H3 H4 H5 H6 H7]).
  exists d2, a2. split; [cbn; by rewrite E1|].
  split; [done|congruence|congruence|by rewrite H4, L3|congruence| |].
  - intros n sent Hn Hc Hs. rewrite (H6 n (sent ++ [mkExpressFrame (wt_next_sequence (dm_wal d)) (fr_payload f)])).
    + cbn. rewrite L3, append_next. by rewrite <- app_assoc.
    + done.
    + by rewrite L5.
    + rewrite L4, Hc. by apply push_last.
  - intros Hc Hf. cbn in Hf. rewrite E1 in Hf. apply andb_true_iff in Hf as [Hf1 Hf2].
    destruct (Hb1 Hc Hf1) as (Hc1 & _ & _ & Hn1). rewrite <- L2 in Hc1 |- *. destruct (H7 Hc1 Hf2) as [Hc2 Hn2].
    split; [done|]. intros m. by rewrite Hn2.
Qed.

(** ** Boot *)
Definition no_orders (a : gmap Z Book) : Prop := forall m b, a !! m = Some b -> all_orders b = [].

(** The books of the configured markets. *)
Definition opening_books (ms : list Config.MarketConfig) (a : gmap Z Book) : gmap Z Book :=
  foldl (fun a m => (spec_exec spec_place (OpAddMarket (u16 (Config.mc_id m))) a).1) a ms.

Lemma opening_no_orders ms : forall a, no_orders a -> no_orders (opening_books ms a).
Proof.
  induction ms as [|m ms IH]; intros a Hn; [done|]. apply IH. intros m0 b. cbn.
  destruct (a !! _); [apply Hn|]. intros [[<- <-]|[_ H]]%lookup_insert_Some; [done|by eapply Hn].
Qed.

Lemma boot_markets ms : forall e r fd a,
  engine_rep e a -> accounts r = ∅ ->
  let s := foldl (fun s m => boot_market m s) (e, r, fd) ms in
  engine_rep s.1.1 (opening_books ms a) /\ accounts s.1.2 = ∅.
Proof.
  induction ms as [|m ms IH]; intros e r fd a He Hr; [done|]. cbn [foldl boot_market].
  set (id := u16 (Config.mc_id m)).
  destruct (exec_sim e a (OpAddMarket id) He I) as (n & e' & E & He' & _). cbn in E. injection E as <-.
  eapply IH; [exact He'|].
  unfold set_mark_price, configure_market, set_market. by destruct (markets r !! id).
Qed.

(** A booted daemon. *)
Record booted (cfg : Config.EngineConfig) (log : list WalRecord) (d : Daemon) : Prop := {
  bt_engine : engine_rep (dm_matcher d) (opening_books (Config.markets cfg) ∅);
  bt_accounts : accounts (dm_risk d) = ∅;
  bt_wal : dm_wal d = mkWriter (encode_log log) [] (Config.wal_flush_threshold (Config.persistence cfg)) (next_after log);
  bt_feed : express_feed_frames (dm_api d) = [];
  bt_capacity : express_feed_capacity (dm_api d) = 4096 }.

Lemma boot_spec cfg v log dir chain d :
  Forall record_ok log -> boot cfg v (encode_log log) dir chain = Some (Ok d) -> booted cfg log d.
Proof.
  intros Hlog. unfold boot. destruct (boot_ingress cfg v) as [ingress|]; [|done].
  destruct (boot_markets (Config.markets cfg) ∅ new_risk ∅ ∅ engine_rep_empty) as (He & Ha); [done|].
  destruct (foldl _ _ _) as [[matcher risk] funding]. cbn in He, Ha.
  unfold open_writer. rewrite read_all_whole by done. intros [= <-]. split; cbn; done.
Qed.

(** A boot on a log of whole records succeeds when the queues can be made. *)
Lemma boot_runs cfg v log dir chain p :
  Forall record_ok log -> boot_ingress cfg v = Ok p ->
  exists d, boot cfg v (encode_log log) dir chain = Some (Ok d) /\ dm_ingress d = p /\
    dm_snapshot d = mkStore true dir default_options.
Proof.
  intros Hlog Hp. unfold boot. rewrite Hp. destruct (foldl _ _ _) as [[matcher risk] funding].
  unfold open_writer. rewrite read_all_whole by done. by eexists.
Qed.

Lemma opening_empty cfg : no_orders (opening_books (Config.markets cfg) ∅).
Proof. apply opening_no_orders. intros m b. by rewrite lookup_empty. Qed.

Lemma no_orders_contexts a market resting : no_orders a -> contexts_ok market resting a.
Proof. intros Hn m b o Hb Ho. rewrite (Hn m b Hb) in Ho. set_solver. Qed.

Lemma booted_run cfg log d l :
  booted cfg log d -> Forall queued l ->
  exists d' a a', handle_all l d = Some d' /\ handled_all l d a d' a' /\ no_orders a.
Proof.
  intros [He _ _ _ _] Hq. pose proof (opening_empty cfg) as Hn. set (a := opening_books _ _) in *. destruct (handle_all_spec l d a Hq He) as (d' & a' & E & H).
  by exists d', a, a'.
Qed.

(** ** The log *)

(** A logged frame, as a reader of the log sees it: kind, account, nonce, time
    and payload. *)
Definition wal_entry (b : bytes) : Z * Z * Z * Z * bytes :=
  (of_le (sub b 0 1), of_le (sub b 1 8), of_le (sub b 9 8), i64 (of_le (sub b 17 8)), drop 25 b).

Definition entry_of (f : Frame) : Z * Z * Z * Z * bytes :=
  (MessageKind_to_u8 (fh_kind (fr_header f)), fh_account (fr_header f), fh_nonce (fr_header f),
   fh_received_time_ns (fr_header f), fr_payload f).

Lemma build_wal_payload_eq f :
  build_wal_payload f =
    to_le 1 (MessageKind_to_u8 (fh_kind (fr_header f))) ++ to_le 8 (fh_account (fr_header f)) ++
    to_le 8 (fh_nonce (fr_header f)) ++ to_le 8 (fh_received_time_ns (fr_header f)) ++ fr_payload f.
Proof. unfold build_wal_payload, append_primitive. cbn [app]. by rewrite <- !app_assoc. Qed.

Lemma kind_u8_range k : in_u 8 (MessageKind_to_u8 k).
Proof. destruct k; vm_compute; split; congruence. Qed.

Lemma wal_entry_roundtrip f : frame_ok f -> wal_entry (build_wal_payload f) = entry_of f.
Proof.
  intros [Ha Hn Ht _ _]. rewrite build_wal_payload_eq. unfold wal_entry, entry_of.
  repeat match goal with |- (_, _) = (_, _) => apply (f_equal2 pair) end.
  - field. apply read_u, kind_u8_range.
  - field. by apply read_u.
  - field. by apply read_u.
  - field. by apply read_i64.
  - rewrite !app_assoc. apply drop_app_length'. by rewrite !length_app, !length_to_le.
Qed.

Lemma build_wal_payload_ok f : frame_ok f -> bytes_ok (fr_payload f) -> entry_ok (0, build_wal_payload f).
Proof.
  intros [_ _ _ _ Hl] Hb. split; [vm_compute; split; congruence|]. rewrite build_wal_payload_eq. cbn [snd].
  rewrite !length_app, !length_to_le. split; [lia|]. rewrite !Forall_app. repeat split; by try apply to_le_ok.
Qed.

(** Every record of new entries carries its entry, numbered from [s]. *)
Lemma new_records_payload l : forall s, map wr_payload (new_records s l) = map snd l.
Proof. induction l as [|[r p] l IH]; intros s; [done|]. cbn. by rewrite IH. Qed.

(** The records of frames read back as the frames. *)
Lemma new_records_work s l :
  in_u 64 s -> Forall (fun x : Work => frame_ok x.2 /\ bytes_ok (fr_payload x.2)) l ->
  map (fun r => wal_entry (wr_payload r)) (new_records s (wal_entries l)) = map (fun x : Work => entry_of x.2) l /\
  Forall record_ok (new_records s (wal_entries l)).
Proof.
  intros Hs Hl. split.
  - rewrite <- map_map. rewrite new_records_payload. unfold wal_entries. rewrite !map_map. apply map_ext_in.
    intros x Hx. apply wal_entry_roundtrip. apply list_elem_of_In in Hx. rewrite Forall_forall in Hl. by apply Hl.
  - apply new_records_ok; [done|]. apply Forall_map. eapply Forall_impl; [exact Hl|].
    intros x (H1 & H2). by apply build_wal_payload_ok.
Qed.

(** Appending the entries of frames to a log of whole records: the file always
    reads as the log with some of them, after a flush with all of them. *)
Lemma log_reads_back w log l :
  Forall record_ok log -> writer_rep w log [] (next_after log) ->
  Forall (fun x : Work => frame_ok x.2 /\ bytes_ok (fr_payload x.2)) l ->
  exists new n, map (fun r => wal_entry (wr_payload r)) new = map (fun x : Work => entry_of x.2) l /\
    Forall record_ok (log ++ new) /\
    wt_file (append_all (wal_entries l) w) = encode_log (log ++ take n new) /\
    wt_file (sync (append_all (wal_entries l) w)) = encode_log (log ++ new).
Proof.
  intros Hlog Hrep Hl. exists (new_records (next_after log) (wal_entries l)).
  destruct (new_records_work (next_after log) l (next_after_range log) Hl) as [Hn Hok].
  destruct (append_all_rep (wal_entries l) _ _ _ _ Hrep) as (rs' & bs' & s' & Hw' & [k Hk] & Er). cbn [app] in Er.
  exists (length k). split; [done|]. split; [by apply Forall_app|]. split.
  - rewrite (wr_file_rep _ _ _ _ Hw'). f_equal. subst rs'. rewrite <- app_assoc in Er. apply (inj (app log)) in Er.
    by rewrite <- Er, take_app_length.
  - apply flush_rep in Hw'. rewrite Er in Hw'. exact (wr_file_rep _ _ _ _ Hw').
Qed.

(** The log is complete and is written first.  On a daemon booted on a log of
    whole records, any frames taken from the queues are handled to the end; after
    shutdown the log reads back as the old records followed by one record per
    frame, in the order they were taken, each giving back the kind, account,
    nonce, time and payload of its frame, whether or not the frame decoded, passed
    the risk check or traded; and the express feed holds the last 4096 of them. *)
Theorem daemon_logs_every_frame cfg v log dir chain d l :
  Forall record_ok log -> boot cfg v (encode_log log) dir chain = Some (Ok d) ->
  Forall (fun x : Work => x.1 <> kHeartbeat /\ frame_ok x.2 /\ bytes_ok (fr_payload x.2)) l ->
  exists d' new, handle_all l d = Some d' /\
    read_all (wt_file (dm_wal (shutdown d'))) = Some (Ok (log ++ new)) /\
    map (fun r => wal_entry (wr_payload r)) new = map (fun x : Work => entry_of x.2) l /\
    express_feed_frames (dm_api d') = last_n 4096 (express_of (next_after log) l).
Proof.
  intros Hlog Hb Hl. pose proof (boot_spec _ _ _ _ _ _ Hlog Hb) as Hbt.
  destruct (booted_run cfg log d l Hbt) as (d' & a & a' & E & H & _).
  { eapply Forall_impl; [exact Hl|]. by intros x []. }
  destruct Hbt as [_ _ Hw Hf Hc].
  destruct (log_reads_back (dm_wal d) log l Hlog) as (new & n & Hn & Hok & _ & Hr); [by rewrite Hw| |].
  { eapply Forall_impl; [exact Hl|]. by intros x []. }
  exists d', new. split; [done|]. split; [|split; [done|]].
  - cbn. rewrite (ha_wal _ _ _ _ _ H), Hr. by apply read_all_whole.
  - rewrite (ha_feed _ _ _ _ _ H 4095 []); [|done|done|by rewrite Hf].
    by rewrite Hw.
Qed.

(** Collateral credited to accounts. *)
Definition set_risk (r : RiskEngine) (d : Daemon) : Daemon :=
  set_core (dm_matcher d) r (dm_wal d) (dm_api d) (dm_resting_orders d) d.

Definition deposit (credits : list (Z * Z)) (d : Daemon) : Daemon :=
  set_risk (foldl (fun e c => credit_collateral c.1 c.2 e) (dm_risk d) credits) d.

Lemma credit_net a x e m : net_position m (credit_collateral a x e) = net_position m e.
Proof.
  unfold net_position, credit_collateral. cbn. rewrite map_sum_update. unfold ensure_account.
  destruct (accounts e !! a); cbn; unfold account_position; cbn; rewrite ?lookup_empty; lia.
Qed.

Lemma deposit_net credits m : forall d, net_position m (dm_risk (deposit credits d)) = net_position m (dm_risk d).
Proof.
  intros d. cbn. generalize (dm_risk d). induction credits as [|c l IH]; intros e; [done|].
  cbn [foldl]. by rewrite IH, credit_net.
Qed.

(** C13: every trade has two sides.  Boot, credit any collateral to any accounts,
    and handle any frames: as long as no new order reuses the identifier of an
    order that still rests, the positions of all accounts in a market add up to
    zero (modulo 2^64). *)
Theorem positions_sum_to_zero cfg v log dir chain d credits l :
  Forall record_ok log -> boot cfg v (encode_log log) dir chain = Some (Ok d) ->
  Forall queued l -> all_fresh l (deposit credits d) = true ->
  exists d', handle_all l (deposit credits d) = Some d' /\ forall m, net_position m (dm_risk d') ==64 0.
Proof.
  intros Hlog Hb Hl Hf. destruct (boot_spec _ _ _ _ _ _ Hlog Hb) as [He Ha _ _ _]. pose proof (opening_empty cfg) as Hn. set (a := opening_books _ _) in *.
  destruct (handle_all_spec l (deposit credits d) a Hl He) as (d' & a' & E & H). exists d'. split; [done|].
  destruct (ha_balance _ _ _ _ _ H) as [_ Hp]; [by apply no_orders_contexts|done|].
  intros m. rewrite Hp, deposit_net. unfold net_position. by rewrite Ha.
Qed.

(** ** The event loop *)

Lemma handle_all_ingress l p : forall d, handle_all l (set_ingress p d) = set_ingress p <$> handle_all l d.
Proof.
  induction l as [|[k f] l IH]; intros d; [done|]. cbn. rewrite handle_ingress.
  destruct (handle k f d) as [d1|]; [|done]. cbn. apply IH.
Qed.

Lemma next_frame_of k p : next_frame k p = next_of k p.
Proof. by destruct k. Qed.

(** The loop over one queue handles what the queue holds and empties it. *)
Lemma process_queue_spec k dep fs : k <> kHeartbeat -> forall n d a q c,
  pipe_rep (dm_ingress d) dep q -> q k = fs -> engine_rep (dm_matcher d) a -> (length fs < n)%nat -> in_u 64 c ->
  exists p d' a', process_queue n k d c = Some (set_ingress p d', u64 (c + Z.of_nat (length fs))) /\
    handle_all (map (pair k) fs) d = Some d' /\ pipe_rep p dep (dequeue k [] q) /\ engine_rep (dm_matcher d') a'.
Proof.
  intros Hk. induction fs as [|f fs IH]; intros n d a q c Hp Hq He Hn Hc; (destruct n as [|n]; [cbn in Hn; lia|]);
    cbn [process_queue]; rewrite next_frame_of; pose proof (next_spec k _ _ _ Hp Hk) as Hs; rewrite Hq in Hs.
  - rewrite Hs. exists (dm_ingress d), d, a. cbn. rewrite Z.add_0_r, wrapu_small by done.
    split; [done|]. split; [done|]. split; [|done]. apply (pipe_rep_eq _ _ q); [|done].
    intros k' _. unfold dequeue. by destruct (bool_decide_reflect (k' = k)) as [->|].
  - destruct Hs as (p & -> & Hp' & _). cbn [mbind option_bind map handle_all]. rewrite handle_ingress.
    destruct (handle_spec k f d a Hk He) as (d1 & -> & _ & [He1 _]). cbn. set (a1 := ex_books _) in *.
    destruct (IH n (set_ingress p d1) a1 (dequeue k fs q) (u64 (c + 1))) as (p2 & d2 & a2 & E & Ha & Hp2 & He2).
    + exact Hp'.
    + unfold dequeue. by rewrite bool_decide_true.
    + exact He1.
    + cbn in Hn. lia.
    + by apply wrapu_range.
    + rewrite handle_all_ingress in Ha. destruct (handle_all _ d1) as [d2'|]; [|done]. injection Ha as <-.
      exists p2, d2', a2. cbn in E. rewrite E. split; [|split; [done|split; [|exact He2]]].
      * do 2 f_equal. unfold wrapu. rewrite Zplus_mod_idemp_l. f_equal. cbn [length]. lia.
      * apply (pipe_rep_eq _ _ (dequeue k [] (dequeue k fs q))); [|done]. intros k' _. unfold dequeue.
        by destruct (bool_decide_reflect (k' = k)).
Qed.

Lemma process_spec k d a dep q :
  k <> kHeartbeat -> pipe_rep (dm_ingress d) dep q -> engine_rep (dm_matcher d) a ->
  exists p d' a', process k d = Some (set_ingress p d', u64 (Z.of_nat (length (q k)))) /\
    handle_all (map (pair k) (q k)) d = Some d' /\ pipe_rep p dep (dequeue k [] q) /\ engine_rep (dm_matcher d') a'.
Proof.
  intros Hk Hp He. apply (process_queue_spec k dep (q k) Hk _ d a q 0 Hp eq_refl He); [|by vm_compute].
  unfold queue_turns. destruct (Hp k Hk) as [base [Hs _ _ Hr _]]. pose proof (sh_len _ _ Hs) as Hlen.
  change (match k with kCancel => cancels (dm_ingress d) | kReplace => replaces (dm_ingress d)
          | _ => new_orders (dm_ingress d) end) with (ring_of k (dm_ingress d)).
  rewrite Hlen. lia.
Qed.

(** The frames a turn takes, in the order it takes them. *)
Definition queued_work (q : MessageKind -> list Frame) : list Work :=
  map (pair kNewOrder) (q kNewOrder) ++ map (pair kCancel) (q kCancel) ++ map (pair kReplace) (q kReplace).

Lemma turn_queues d a dep q :
  pipe_rep (dm_ingress d) dep q -> engine_rep (dm_matcher d) a ->
  Z.of_nat (length (queued_work q)) < 2 ^ 64 ->
  exists p d', handle_all (queued_work q) d = Some d' /\ pipe_rep p dep (fun _ => []) /\
    turn d = (if Z.of_nat (length (queued_work q)) >? 0
              then advance_block (Z.of_nat (length (queued_work q))) (set_ingress p d')
              else Some (set_ingress p d', Ok ())).
Proof.
  intros Hp He Hl. unfold queued_work in *. rewrite !length_app, !length_map in *.
  destruct (process_spec kNewOrder d a dep q ltac:(done) Hp He) as (p1 & d1 & a1 & E1 & H1 & Hp1 & He1).
  destruct (process_spec kCancel (set_ingress p1 d1) a1 dep _ ltac:(done) Hp1 He1)
    as (p2 & d2 & a2 & E2 & H2 & Hp2 & He2).
  destruct (process_spec kReplace (set_ingress p2 d2) a2 dep _ ltac:(done) Hp2 He2)
    as (p3 & d3 & a3 & E3 & H3 & Hp3 & He3).
  rewrite handle_all_ingress in H2, H3.
  destruct (handle_all _ d1) as [x2|] eqn:F2; [|done]. injection H2 as <-.
  change (dequeue kNewOrder [] q kCancel) with (q kCancel) in *.
  change (dequeue kCancel [] (dequeue kNewOrder [] q) kReplace) with (q kReplace) in *.
  rewrite handle_all_ingress in H3. destruct (handle_all _ x2) as [x3|] eqn:F3; [|done]. injection H3 as <-.
  exists p3, x3. split; [|split].
  - rewrite handle_all_app, H1. cbn [mbind option_bind]. rewrite handle_all_app, F2. exact F3.
  - eapply pipe_rep_eq; [|exact Hp3]. by intros [].
  - unfold turn. rewrite E1. cbn [mbind option_bind]. rewrite E2. cbn [mbind option_bind]. rewrite E3.
    cbn [mbind option_bind]. rewrite !(wrapu_small 64 (Z.of_nat (length (q _)))) by (unfold in_u; lia).
    rewrite !(wrapu_small 64) by (rewrite ?(wrapu_small 64) by (unfold in_u; lia); unfold in_u; lia).
    rewrite !Nat2Z.inj_add, Z.add_assoc. done.
Qed.

(** Handlers leave the block count, the chain and the snapshots alone. *)
Definition outer (d : Daemon) : Z * Z * Z * Store :=
  (dm_block_number d, dm_last_snapshot_block d, dm_chain_id d, dm_snapshot d).

Lemma handle_outer k f d d' : handle k f d = Some d' -> outer d' = outer d.
Proof. intros E%handle_outside. rewrite <- E. by destruct k. Qed.

Lemma handle_all_outer l : forall d d', handle_all l d = Some d' -> outer d' = outer d.
Proof.
  induction l as [|[k f] l IH]; intros d d'; cbn [handle_all]; [by intros [= <-]|].
  destruct (handle k f d) as [d1|] eqn:E; [|done]. cbn [mbind option_bind]. intros Hd.
  rewrite (IH _ _ Hd). by apply (handle_outer k f).
Qed.

(** The end of a turn, on a store whose file can be read. *)
Lemma advance_block_spec n d snaps :
  let block := u64 (dm_block_number d + n) in
  holds (dm_snapshot d) snaps ->
  exists s snaps' last, advance_block n d = Some (set_block block last s d, Ok ()) /\ holds s snaps' /\
    (if u64 (block - dm_last_snapshot_block d) >=? kSnapshotInterval
     then last = block /\
          latest s = Some (Ok (Some (mkSnapshotRecord (Z.min block (2 ^ 32 - 1))
                                       (to_le 8 (dm_chain_id d) ++ to_le 8 block))))
     else last = dm_last_snapshot_block d /\ s = dm_snapshot d).
Proof.
  cbv zeta. intros Hst. unfold advance_block. set (block := u64 (dm_block_number d + n)).
  assert (Hb : in_u 64 block) by by apply wrapu_range.
  destruct (_ >=? _); [|by eexists _, snaps, _].
  assert (Hseq : u32 (Z.min block (2 ^ 32 - 1)) = Z.min block (2 ^ 32 - 1)) by (apply wrapu_small; range).
  rewrite Hseq.
  destruct (persist_spec (Z.min block (2 ^ 32 - 1)) (snapshot_payload (dm_chain_id d) block) (dm_snapshot d) snaps Hst)
    as (s' & rs' & -> & Hs' & _ & k & Hk & Hcase); [range| |].
  { unfold snapshot_payload, append_primitive. rewrite !length_app, !length_to_le. cbn. lia. }
  exists s', rs', block. split; [done|]. split; [done|]. split; [done|].
  rewrite (latest_holds _ _ Hs'). do 3 f_equal.
  destruct Hcase as [[-> _]|[-> _]]; [by rewrite last_snoc|].
  rewrite fmap_last, last_drop by done. by rewrite last_snoc.
Qed.

(** C31: a turn of the event loop takes everything that is queued.  New orders are
    handled first, then cancels, then replaces, each queue in order, and the
    queues are empty after; the block number grows by the number of frames; and
    when it has grown by 256 since the last snapshot, the latest snapshot becomes
    the one numbered with the new block (at most [2^32 - 1]), holding the chain id
    and the block; otherwise the store is left alone. *)
Theorem turn_handles_queued d a dep q snaps :
  let l := queued_work q in
  let block := u64 (dm_block_number d + Z.of_nat (length l)) in
  pipe_rep (dm_ingress d) dep q -> engine_rep (dm_matcher d) a -> holds (dm_snapshot d) snaps ->
  Z.of_nat (length l) < 2 ^ 64 -> l <> [] ->
  exists d' d'', handle_all l d = Some d' /\ turn d = Some (d'', Ok ()) /\
    dm_matcher d'' = dm_matcher d' /\ dm_risk d'' = dm_risk d' /\ dm_wal d'' = dm_wal d' /\
    dm_api d'' = dm_api d' /\ dm_resting_orders d'' = dm_resting_orders d' /\
    pipe_rep (dm_ingress d'') dep (fun _ => []) /\ dm_block_number d'' = block /\
    (if u64 (block - dm_last_snapshot_block d) >=? kSnapshotInterval
     then dm_last_snapshot_block d'' = block /\
          latest (dm_snapshot d'') = Some (Ok (Some (mkSnapshotRecord (Z.min block (2 ^ 32 - 1))
                                                      (to_le 8 (dm_chain_id d) ++ to_le 8 block))))
     else dm_last_snapshot_block d'' = dm_last_snapshot_block d /\ dm_snapshot d'' = dm_snapshot d).
Proof.
  cbv zeta. intros Hp He Hst Hl Hne.
  destruct (turn_queues d a dep q Hp He Hl) as (p & d' & Hh & Hp' & Ht). set (l := queued_work q) in *.
  pose proof (handle_all_outer l d d' Hh) as Eo. injection Eo as Eb El Ec Es. exists d'.
  assert (0 < Z.of_nat (length l)) by (destruct l; [done|cbn; lia]).
  rewrite Ht. destruct (Z.gtb_spec (Z.of_nat (length l)) 0); [|lia].
  destruct (advance_block_spec (Z.of_nat (length l)) (set_ingress p d') snaps) as (s & snaps' & last & E & _ & Hb').
  { cbn. by rewrite Es. }
  eexists. split; [done|]. split; [exact E|]. cbn in *. rewrite Eb, El, Ec, Es in *.
  repeat (split; [done|]). by destruct (_ >=? _).
Qed.

(** ** A small daemon, used by the examples *)
Module DemoDaemon.
Definition cfg : Config.EngineConfig :=
  Config.mkEngineConfig Config.default_transport (Config.mkIngress 4 4 4 100 100) Config.default_matcher
    Config.default_persistence Config.default_telemetry [Config.default_market].

Definition dead : Daemon :=
  mkDaemon (mkPipeline default_config None no_stats ∅ (mkRing [] 0 0 0) (mkRing [] 0 0 0) (mkRing [] 0 0 0))
    ∅ new_risk ∅ (mkWriter [] [] 0 1) (mkStore false (mkDisk None None) default_options) (new_router 1 1)
    Telemetry.new_sink ∅ 0 0 0 0.

Definition start : Daemon :=
  match boot cfg None [] (mkDisk None None) 1 with Some (Ok d) => d | _ => dead end.

Definition order (account nonce : Z) (side : Side) (quantity price : Z) : Work :=
  (kNewOrder, mkFrame (mkHeader account nonce 1000 0 kNewOrder) (encode_new_order (mkNewOrder side quantity price 0))).

Definition cancel_of (account : Z) (id : OrderId) : Work :=
  (kCancel, mkFrame (mkHeader account 0 1000 0 kCancel) (encode_cancel (mkCancelMsg (value id)))).

Definition replace_of (account : Z) (id : OrderId) (quantity price : Z) : Work :=
  (kReplace, mkFrame (mkHeader account 0 1000 0 kReplace) (encode_replace (mkReplaceMsg (value id) quantity price 0))).

Definition rich : list (Z * Z) := [(1, 1000000); (2, 1000000); (3, 1000000)].

(** A sale and a purchase that trade, then a replace and a cancel. *)
Definition trading : list Work :=
  [order 1 1 kSell 10 100; order 2 1 kBuy 4 100; replace_of 1 (mkOrderId 1 1 1) 5 99;
   order 3 1 kBuy 2 100; cancel_of 1 (mkOrderId 1 1 1)].

Definition run (l : list Work) (d : Daemon) : Daemon := default dead (handle_all l d).

Definition position (account : Z) (d : Daemon) : Z := existing_quantity (dm_risk d) account 1.
End DemoDaemon.

Lemma demo_boot : boot DemoDaemon.cfg None (encode_log []) (mkDisk None None) 1 = Some (Ok DemoDaemon.start).
Proof. by vm_compute. Qed.

(** The frames of concrete runs are in range. *)
Ltac frames_ok :=
  repeat (apply Forall_cons; split;
    [split; [discriminate|split; [split; vm_compute; first [reflexivity|split; congruence]|
       apply (bool_decide_unpack _); vm_compute; exact I]]|]);
  apply Forall_nil; exact I.

Lemma daemon_logs_every_frame_witness :
  exists d' new, handle_all DemoDaemon.trading DemoDaemon.start = Some d' /\
    read_all (wt_file (dm_wal (shutdown d'))) = Some (Ok ([] ++ new)) /\
    map (fun r => wal_entry (wr_payload r)) new = map (fun x : Work => entry_of x.2) DemoDaemon.trading /\
    express_feed_frames (dm_api d') = last_n 4096 (express_of 1 DemoDaemon.trading).
Proof.
  refine (daemon_logs_every_frame DemoDaemon.cfg None [] (mkDisk None None) 1 DemoDaemon.start
    DemoDaemon.trading _ demo_boot _); [constructor|frames_ok].
Defined.

Lemma positions_sum_to_zero_witness :
  exists d', handle_all DemoDaemon.trading (deposit DemoDaemon.rich DemoDaemon.start) = Some d' /\
    forall m, net_position m (dm_risk d') ==64 0.
Proof.
  refine (positions_sum_to_zero DemoDaemon.cfg None [] (mkDisk None None) 1 DemoDaemon.start DemoDaemon.rich
    DemoDaemon.trading _ demo_boot _ _);
    [constructor|repeat (apply Forall_cons; split; [discriminate|]); apply Forall_nil; exact I|by vm_compute].
Defined.

(** That run trades: account 1 sells to 2 and 3. *)
Example demo_positions :
  let d := DemoDaemon.run DemoDaemon.trading (deposit DemoDaemon.rich DemoDaemon.start) in
  (DemoDaemon.position 1 d, DemoDaemon.position 2 d, DemoDaemon.position 3 d) = (-6, 4, 2).
Proof. by vm_compute. Qed.

(** A daemon with one order and one cancel queued. *)
Definition demo_queued : IngressPipeline :=
  (submit_frame (DemoDaemon.cancel_of 1 (mkOrderId 1 1 1)).2
    (submit_frame (DemoDaemon.order 1 1 kSell 10 100).2 (dm_ingress DemoDaemon.start)).1).1.

Lemma turn_handles_queued_witness :
  exists d' d'', handle_all [DemoDaemon.order 1 1 kSell 10 100; DemoDaemon.cancel_of 1 (mkOrderId 1 1 1)]
      (set_ingress demo_queued DemoDaemon.start) = Some d' /\
    turn (set_ingress demo_queued DemoDaemon.start) = Some (d'', Ok ()) /\ dm_block_number d'' = 2.
Proof.
  assert (Hp : pipe_rep (dm_ingress DemoDaemon.start) (depth_of (ingress_config (Config.ingress DemoDaemon.cfg)))
    (fun _ => [])).
  { refine (proj1 (configure_rep _ None (mkPipeline default_config None no_stats ∅
      (mkRing [] 0 0 0) (mkRing [] 0 0 0) (mkRing [] 0 0 0)) _ _ _ _ _)); by vm_compute. }
  apply (submit_rep (DemoDaemon.order 1 1 kSell 10 100).2) in Hp.
  apply (submit_rep (DemoDaemon.cancel_of 1 (mkOrderId 1 1 1)).2) in Hp.
  destruct (boot_spec _ _ _ _ _ _ (Forall_nil_2 _) demo_boot) as [He _ _ _ _]. set (a := opening_books _ _) in *.
  destruct (turn_handles_queued (set_ingress demo_queued DemoDaemon.start) a _ _ [] Hp He)
    as (d' & d'' & H1 & H2 & _ & _ & _ & _ & _ & _ & H3 & _).
  - split; [reflexivity|]. split; [constructor|reflexivity].
  - by vm_compute.
  - by vm_compute.
  - exists d', d''. split; [exact H1|]. split; [exact H2|]. exact H3.
Defined.

(** ** Behaviours a caller may not expect *)
Module Surprises.
Import DemoDaemon.

Definition funded : Daemon := deposit rich start.

(** The orders that rest in market 1: account, side, price and quantity left. *)
Definition resting_in (d : Daemon) : list (Z * Z * Z) :=
  match dm_matcher d !! 1 with
  | Some sh => (fun p => (req_account (rec_request p.2), req_price (rec_request p.2), rec_remaining p.2)) <$>
                 map_to_list (book_orders sh)
  | None => []
  end.

(** Nothing in the daemon credits collateral: after boot every order is refused. *)
Example no_collateral_no_trade :
  let d := run trading start in resting_in d = [] /\ (position 1 d, position 2 d, position 3 d) = (0, 0, 0).
Proof. by vm_compute. Qed.

(** The identifier of an order is its account modulo 65536 and its nonce modulo
    [2^32]: reusing it in an order that fills entirely erases the context of the
    order that rests, whose fills are then booked to the taker alone. *)
Definition reused_id : list Work :=
  [order 1 1 kSell 10 100; order 2 1 kBuy 5 95; order 1 1 kSell 5 95; order 3 1 kBuy 4 100].

Example reused_id_unbalances :
  let d := run reused_id funded in
  (position 1 d, position 2 d, position 3 d) = (-5, 5, 4) /\ net_position 1 (dm_risk d) = 4 /\
  all_fresh reused_id funded = false.
Proof. vm_compute. repeat split. Qed.

(** A reused identifier that does not fill entirely trades in the matcher and is
    then refused: the fills are not booked at all. *)
Example refused_order_trades :
  let before := run [order 1 1 kSell 10 100; order 2 1 kBuy 5 95] funded in
  let after := run [order 1 1 kSell 8 95] before in
  resting_in before = [(1, 100, 10); (2, 95, 5)] /\ resting_in after = [(1, 100, 10)] /\
  (position 1 after, position 2 after) = (0, 0).
Proof. vm_compute. repeat split. Qed.

(** Any account can cancel or replace any order. *)
Example anyone_can_cancel :
  resting_in (run [order 1 1 kSell 10 100; cancel_of 2 (mkOrderId 1 1 1)] funded) = [] /\
  resting_in (run [order 1 1 kSell 10 100; replace_of 2 (mkOrderId 1 1 1) 3 90] funded) = [(1, 90, 3)].
Proof. vm_compute. repeat split. Qed.

(** A replace is not checked against the margin: an order of a size that is refused
    when it is new is reached by replacing a small one. *)
Example replace_skips_risk_check :
  resting_in (run [order 1 1 kSell 1000000 1000] funded) = [] /\
  resting_in (run [order 1 1 kSell 10 1000; replace_of 1 (mkOrderId 1 1 1) 1000000 1000] funded) =
    [(1, 1000, 1000000)].
Proof. vm_compute. repeat split. Qed.

(** Orders that rest reserve no margin: each is checked as if it were the only one,
    and the fills of both leave the account to be liquidated. *)
Example resting_orders_reserve_nothing :
  let resting := run [order 1 1 kSell 18000 1000; order 1 2 kSell 18000 1000] funded in
  let filled := run [order 2 1 kBuy 18000 1000; order 3 1 kBuy 18000 1000] resting in
  length (resting_in resting) = 2%nat /\ position 1 filled = -36000 /\
  lq_status (evaluate (dm_risk filled) 1) = kNeedsFull.
Proof. vm_compute. repeat split. Qed.

(** An iceberg order is always refused: its display size is never passed on. *)
Example iceberg_refused :
  resting_in (run [(kNewOrder, mkFrame (mkHeader 1 1 1000 0 kNewOrder)
    (encode_new_order (mkNewOrder kSell 10 100 kIceberg)))] funded) = [].
Proof. by vm_compute. Qed.

(** After a restart the block count starts again from 0 while the log goes on:
    snapshots are numbered with blocks, records with sequence numbers. *)
Example numbers_diverge_after_restart :
  match boot cfg None (encode_log demo_log) (mkDisk None None) 1 with
  | Some (Ok d) => dm_block_number d = 0 /\ wt_next_sequence (dm_wal d) = 3
  | _ => False
  end.
Proof. vm_compute. split; reflexivity. Qed.

(** A configuration that validates can stop the boot, or collapse two markets. *)
Definition odd_queue : Config.EngineConfig :=
  Config.mkEngineConfig Config.default_transport (Config.mkIngress 1000 4 4 100 100) Config.default_matcher
    Config.default_persistence Config.default_telemetry [Config.default_market].

Definition wide_id : Config.EngineConfig :=
  Config.mkEngineConfig Config.default_transport (Config.mkIngress 4 4 4 100 100) Config.default_matcher
    Config.default_persistence Config.default_telemetry
    [Config.default_market; Config.mkMarketConfig 65537 "ETH-PERP" Config.default_market_risk Config.default_market_funding].

Example valid_configuration_throws :
  Config.validate odd_queue = [] /\
  boot odd_queue None [] (mkDisk None None) 1 = Some (Throw "SpscRing capacity must be power of two").
Proof. vm_compute. split; reflexivity. Qed.

Example valid_configuration_collapses :
  Config.validate wide_id = [] /\
  match boot wide_id None [] (mkDisk None None) 1 with
  | Some (Ok d) => size (dm_matcher d) = 1%nat
  | _ => False
  end.
Proof. vm_compute. split; reflexivity. Qed.
End Surprises.
