(* ===== verification/SignedFrames.v ===== *)
(** * What is signed and what is executed

    The pipeline queues the payload it verified as it is, signature included, and the
    handlers decode an order from its start.  Over any run, what the daemon does with
    a frame depends on the 64 bytes of the signature, and what the client signed
    reaches the log and the express feed only. *)
From S2P Require Import Config.
From S2P Require Import Prelude Types Bytes Matcher MatcherRefine Risk SpscRing Sbe Ingest Transport Wal WalProps.
From S2P Require Import Snapshot Api Auth Daemon Handlers DaemonProps DaemonRuns.
Open Scope list_scope.
Open Scope Z_scope.

(** ** Decoding *)
Lemma sub_signature payload n m : (n + m <= kSignatureSize)%nat ->
  sub payload n m = sub (take kSignatureSize payload) n m.
Proof. intros H. unfold sub. rewrite skipn_firstn_comm, take_take. f_equal. lia. Qed.

(** The decoders look at the first bytes only. *)
Lemma decoded_from_signature payload :
  (kSignatureSize <= length payload)%nat ->
  decode_new_order payload = decode_new_order (take kSignatureSize payload) /\
  decode_cancel payload = decode_cancel (take kSignatureSize payload) /\
  decode_replace payload = decode_replace (take kSignatureSize payload).
Proof.
  unfold kSignatureSize. intros Hl. assert (Ht : length (take 64 payload) = 64%nat) by (rewrite length_take; lia).
  rewrite !decode_new_order_fields, !decode_cancel_fields, !decode_replace_fields
    by (unfold kNewOrderEncodedSize, kCancelEncodedSize, kReplaceEncodedSize; cbn; lia).
  repeat split; do 2 f_equal; rewrite ?(sub_signature payload) by (unfold kSignatureSize; lia); done.
Qed.

(** A frame, and the same header and signature before another message. *)
Definition same_signature (f f' : Frame) : Prop :=
  fr_header f' = fr_header f /\ exists body, fr_payload f' = take kSignatureSize (fr_payload f) ++ body.

Lemma same_signature_decodes f f' :
  same_signature f f' -> (kSignatureSize <= length (fr_payload f))%nat ->
  decode_new_order (fr_payload f') = decode_new_order (fr_payload f) /\
  decode_cancel (fr_payload f') = decode_cancel (fr_payload f) /\
  decode_replace (fr_payload f') = decode_replace (fr_payload f).
Proof.
  intros [_ [body E]] Hl.
  assert (Ht : length (take kSignatureSize (fr_payload f)) = kSignatureSize) by (rewrite length_take; lia).
  assert (Hl' : (kSignatureSize <= length (fr_payload f'))%nat) by (rewrite E, length_app; lia).
  destruct (decoded_from_signature _ Hl) as (-> & -> & ->). destruct (decoded_from_signature _ Hl') as (-> & -> & ->).
  by rewrite E, take_app_length' by done.
Qed.

(** ** Handling *)
Lemma execute_same_signature k off f f' d :
  same_signature f f' -> (kSignatureSize <= length (fr_payload f))%nat -> execute_frame k off f' d = execute_frame k off f d.
Proof.
  intros Hs Hl. destruct (same_signature_decodes f f' Hs Hl) as (E1 & E2 & E3). destruct Hs as [Eh _].
  destruct k; cbn [execute_frame]; [| | |done].
  - unfold execute_new_order, order_intent, new_order_request, new_order_id. by rewrite E1, Eh.
  - unfold execute_cancel. by rewrite E2.
  - unfold execute_replace, replace_taker. by rewrite E3, Eh.
Qed.

(** The daemon with other frames on its express feed. *)
Definition with_frames (fs : list ExpressFeedFrame) (d : Daemon) : Daemon :=
  let a := dm_api d in
  set_core (dm_matcher d) (dm_risk d) (dm_wal d)
    (mkRouter (endpoints a) fs (trade_metadata a) (express_feed_capacity a) (trade_metadata_capacity a) (node_state_provider a))
    (dm_resting_orders d) d.

Lemma process_fills_frames fs fills taker off t : forall d,
  process_fills fills taker off t (with_frames fs d) = with_frames fs (process_fills fills taker off t d).
Proof. unfold process_fills. induction fills as [|f fills IH]; intros d; [done|]. cbn [foldl]. by rewrite <- IH. Qed.

Lemma set_matcher_frames e fs d : set_matcher e (with_frames fs d) = with_frames fs (set_matcher e d).
Proof. done. Qed.

(** Nothing that is executed looks at them. *)
Lemma execute_frames fs k off f d : execute_frame k off f (with_frames fs d) = with_frames fs <$> execute_frame k off f d.
Proof.
  destruct k; [| | |done]; cbn [execute_frame].
  - unfold execute_new_order, order_intent, new_order_request, new_order_id.
    cbn [with_frames set_core dm_matcher dm_risk dm_default_market]. destruct (decode_new_order _) as [m|]; [|done].
    destruct (rk_decision _); [|done..]. destruct (submit _ _) as [[e res]|]; [|done]. cbn [mbind option_bind].
    destruct (or_accepted res); [|done]. cbn [negb]. fold (with_frames fs d). by rewrite set_matcher_frames, process_fills_frames.
  - unfold execute_cancel. destruct (decode_cancel _); [|done]. cbn [with_frames set_core dm_matcher].
    destruct (cancel _ _) as [[e r]|]; [|done]. cbn. by destruct (cr_cancelled r).
  - unfold execute_replace. destruct (decode_replace _) as [m|]; [|done].
    change (replace_taker f ?id (with_frames fs d)) with (replace_taker f id d). cbn [with_frames set_core dm_matcher].
    destruct (Matcher.replace _ _) as [[e r]|]; [|done]. cbn [mbind option_bind]. destruct (rr_accepted r); [|done].
    fold (with_frames fs d). rewrite set_matcher_frames, process_fills_frames. by destruct (rr_resting r).
Qed.

(** Two daemons that did the same: all but what is outside of the handlers and the
    frames on the express feed. *)
Definition did_same (d d' : Daemon) : Prop :=
  exists o fs, d' = inside o (with_frames fs d) /\ wt_next_sequence (dm_wal o) = wt_next_sequence (dm_wal d).

Lemma did_same_refl d : did_same d d.
Proof. exists d, (express_feed_frames (dm_api d)). split; [|done]. by destruct d as [? ? ? ? ? ? []]. Qed.

Lemma handle_same k f f' d d' :
  same_signature f f' -> (kSignatureSize <= length (fr_payload f))%nat -> did_same d d' ->
  option_Forall2 did_same (handle k f d) (handle k f' d').
Proof.
  intros Hs Hl (o & fs & -> & En). destruct (decide (k = kHeartbeat)) as [->|Hk]; [constructor; by exists o, fs|].
  rewrite !handle_executes by done. cbn [inside dm_wal]. rewrite En, (execute_same_signature k _ f f') by done.
  set (off := wt_next_sequence (dm_wal d)).
  set (fs' := push_with_fifo_eviction (express_feed_capacity (dm_api d)) (mkExpressFrame off (fr_payload f')) fs).
  assert (Ej : (journal f' (inside o (with_frames fs d))).1 = inside (journal f' o).1 (with_frames fs' (journal f d).1)).
  { unfold journal, append_ingress_wal_record. cbn. by rewrite En. }
  rewrite Ej, execute_inside, execute_frames. destruct (execute_frame k off f (journal f d).1) as [d1|] eqn:E; [|constructor].
  constructor. exists (journal f' o).1, fs'. split; [done|]. rewrite <- (execute_outside _ _ _ _ _ E). cbn.
  by rewrite !append_next, En.
Qed.

Lemma handle_all_same l l' : forall d d',
  Forall2 (fun x y : Work => y.1 = x.1 /\ same_signature x.2 y.2 /\ (kSignatureSize <= length (fr_payload x.2))%nat) l l' ->
  did_same d d' -> option_Forall2 did_same (handle_all l d) (handle_all l' d').
Proof.
  revert l'. induction l as [|[k f] l IH]; intros l' d d' H Hd; inversion H as [|? [k' f'] ? ? (Ek & Hs & Hl) Hrest]; subst; [by constructor|].
  cbn in Ek, Hs, Hl. subst k'. cbn [handle_all]. destruct (handle_same k f f' d d' Hs Hl Hd) as [d1 d1' H1|]; [|constructor].
  by apply IH.
Qed.

Lemma verified_length verify padding a header payload :
  auth_verifier verify padding a header payload = true -> (kSignatureSize <= length payload)%nat.
Proof.
  unfold auth_verifier, verify_frame. destruct (Nat.ltb_spec (length payload) kSignatureSize); [done|]. intros _. lia.
Qed.

(** C39: what is executed is not what was signed.  From boot, with any collateral,
    take any frames that pass authentication, and put behind the signature of each any
    other message: the daemon ends with the same books, the same accounts, the same
    contexts of resting orders and the same trades.  What the clients signed and sent
    has no influence on what is executed; only the log and the express feed show it. *)
Theorem order_decoded_from_signature verify padding a cfg v log dir chain d credits l l' :
  Forall record_ok log -> boot cfg v (encode_log log) dir chain = Some (Ok d) -> Forall queued l ->
  Forall (fun x : Work => auth_verifier verify padding a (fr_header x.2) (fr_payload x.2) = true) l ->
  Forall2 (fun x y : Work => y.1 = x.1 /\ same_signature x.2 y.2) l l' ->
  exists d1 d2, handle_all l (deposit credits d) = Some d1 /\ handle_all l' (deposit credits d) = Some d2 /\
    dm_matcher d2 = dm_matcher d1 /\ dm_risk d2 = dm_risk d1 /\ dm_resting_orders d2 = dm_resting_orders d1 /\
    trade_metadata (dm_api d2) = trade_metadata (dm_api d1).
Proof.
  intros Hlog Hb Hq Hv Hl. pose proof (bt_engine _ _ _ (boot_spec _ _ _ _ _ _ Hlog Hb)) as He.
  destruct (handle_all_spec l (deposit credits d) _ Hq He) as (d1 & b & E1 & _).
  assert (H : Forall2 (fun x y : Work => y.1 = x.1 /\ same_signature x.2 y.2 /\ (kSignatureSize <= length (fr_payload x.2))%nat) l l').
  { clear -Hl Hv. induction Hl as [|x y l l' [H1 H2] Hl IH]; [constructor|]. apply Forall_cons in Hv as [Hx Hv].
    constructor; [|by apply IH]. split; [done|]. split; [done|]. by eapply verified_length. }
  pose proof (handle_all_same l l' _ _ H (did_same_refl (deposit credits d))) as Hs. rewrite E1 in Hs.
  inversion Hs as [? d2 (o & fs & -> & _) E2 E3|]. by exists d1, (inside o (with_frames fs d1)).
Qed.

(** ** A signed order, for the witness and the example *)
Module DemoSigned.
Definition padding : bytes := [0; 0; 0; 0; 0; 0].
Definition authenticator : Authenticator := register_account 1 [7] new_authenticator.

(** A buy of 10 at 100, signed as a client does. *)
Definition order : NewOrder := mkNewOrder kBuy 10 100 0.
Definition frame : Frame :=
  mkFrame demo_header (sign_payload toy_sign [7] (frame_header_memory demo_header padding) (encode_new_order order)).

(** The same signature before nothing. *)
Definition stripped : Frame := mkFrame demo_header (take kSignatureSize (fr_payload frame)).
End DemoSigned.

Lemma order_decoded_from_signature_witness :
  exists d d1 d2, boot DemoDaemon.cfg None (encode_log []) (mkDisk None None) 1 = Some (Ok d) /\
    handle_all [(kNewOrder, DemoSigned.frame)] (deposit DemoDaemon.rich d) = Some d1 /\
    handle_all [(kNewOrder, DemoSigned.stripped)] (deposit DemoDaemon.rich d) = Some d2 /\
    dm_matcher d2 = dm_matcher d1.
Proof.
  destruct (boot DemoDaemon.cfg None (encode_log []) (mkDisk None None) 1) as [[d|]|] eqn:Hb; [|by vm_compute in Hb..].
  destruct (order_decoded_from_signature toy_verify DemoSigned.padding DemoSigned.authenticator DemoDaemon.cfg None []
    (mkDisk None None) 1 d DemoDaemon.rich [(kNewOrder, DemoSigned.frame)] [(kNewOrder, DemoSigned.stripped)])
    as (d1 & d2 & E1 & E2 & Em & _); [constructor|exact Hb|by repeat constructor|..].
  - constructor; [by vm_compute|constructor].
  - constructor; [|constructor]. split; [done|]. split; [done|]. by exists [].
  - exists d, d1, d2. split; [done|]. split; [exact E1|]. split; [exact E2|exact Em].
Defined.

(** The order that was signed is not the one decoded. *)
Example signed_order_lost :
  auth_verifier toy_verify DemoSigned.padding DemoSigned.authenticator demo_header (fr_payload DemoSigned.frame) = true /\
  decode_new_order (fr_payload DemoSigned.frame) <> Ok DemoSigned.order.
Proof. split; [by vm_compute|vm_compute; discriminate]. Qed.
