(* ===== verification/ExchangeRuns.v ===== *)
(** * Runs of the daemon as runs of the exchange

    From boot, the daemon is the exchange of [Exchange] fed with the frames it
    handles, and an exchange of one market. *)
From S2P Require Import Config.
From S2P Require Import Prelude Types Bytes OrderedMap Matcher MatcherSpec BookRefine MatcherRefine.
From S2P Require Import Risk RiskProps FundingLedger SpscRing SpscRingProps Sbe Ingest IngestProps.
From S2P Require Import Wal WalProps Snapshot SnapshotProps Api Daemon Handlers Exchange DaemonProps DaemonRuns.

Lemma publish_app c l l' feed : publish c (l ++ l') feed = publish c l' (publish c l feed).
Proof. apply foldl_app. Qed.

(** A daemon and the exchange it is. *)
Record is_exchange (d : Daemon) (x : Exchange) : Prop := {
  ie_engine : engine_rep (dm_matcher d) (ex_books x);
  ie_risk : dm_risk d = ex_risk x;
  ie_contexts : contexts_ok (dm_default_market d) (dm_resting_orders d) (ex_books x) }.

(** One frame: the daemon and the exchange move together. *)
Lemma handle_exchange k f d x :
  k <> kHeartbeat -> is_exchange d x -> unused (dm_default_market d) k f x = true ->
  let y := exchange_step (dm_default_market d) k (wt_next_sequence (dm_wal d)) f x in
  exists d', handle k f d = Some d' /\ logged f d d' /\ is_exchange d' y.1 /\
    trade_metadata (dm_api d') = publish (trade_metadata_capacity (dm_api d)) y.2 (trade_metadata (dm_api d)).
Proof.
  intros Hk [He Hr Hc] Hu. cbv zeta. destruct (handle_spec k f d (ex_books x) Hk He) as (d' & E & L & [H1 H2]).
  assert (Hx : beside d (ex_books x) = x) by (rewrite Hr; by destruct x). rewrite Hx in H1, H2.
  destruct H2 as (Hc' & Hr' & Ht & _); [exact Hc|by rewrite (fresh_unused _ _ _ _ He), Hx|].
  exists d'. split; [done|]. split; [done|]. split; [|done].
  split; [done|done|]. by rewrite (lg_market _ _ _ L).
Qed.

Lemma handle_all_exchange l : forall d x,
  Forall queued l -> is_exchange d x -> all_unused (dm_default_market d) (wt_next_sequence (dm_wal d)) l x = true ->
  let y := exchange_run (dm_default_market d) (wt_next_sequence (dm_wal d)) l x in
  exists d', handle_all l d = Some d' /\ is_exchange d' y.1 /\
    trade_metadata (dm_api d') = publish (trade_metadata_capacity (dm_api d)) y.2 (trade_metadata (dm_api d)).
Proof.
  induction l as [|[k f] l IH]; intros d x Hq Hx Hu; [by exists d|].
  apply Forall_cons in Hq as [Hk Hq]. cbn [all_unused exchange_run fst] in *. apply andb_true_iff in Hu as [Hu Hul].
  destruct (handle_exchange k f d x Hk Hx Hu) as (d1 & E & [_ L2 L3 _ _ L6] & Hx1 & Ht).
  destruct (exchange_step _ _ _ _ _) as [x1 trades]. cbn [fst snd] in *.
  specialize (IH d1 x1 Hq Hx1). rewrite L2, L3, append_next, L6, Ht in IH. destruct IH as (d' & E' & Hx' & Ht'); [done|].
  cbn [handle_all]. rewrite E. destruct (exchange_run _ _ _ _) as [x' rest].
  exists d'. split; [exact E'|]. split; [exact Hx'|]. cbn [fst snd]. by rewrite Ht', publish_app.
Qed.

Lemma publish_last n trades : forall sent feed, 0 <= n -> feed = last_n (Z.to_nat (n + 1)) sent ->
  publish (n + 1) trades feed = last_n (Z.to_nat (n + 1)) (sent ++ trades).
Proof.
  induction trades as [|t trades IH]; intros sent feed Hn E; [by rewrite app_nil_r|].
  unfold publish. cbn [foldl]. fold (publish (n + 1) trades (push_with_fifo_eviction (n + 1) t feed)).
  rewrite (IH (sent ++ [t])), <- app_assoc; [done|done|by apply push_last].
Qed.

Lemma boot_trades cfg v log dir chain d :
  boot cfg v log dir chain = Some (Ok d) ->
  trade_metadata (dm_api d) = [] /\ trade_metadata_capacity (dm_api d) = 4096.
Proof.
  unfold boot. destruct (boot_ingress cfg v); [|done]. destruct (foldl _ _ _) as [[matcher risk] funding].
  destruct (open_writer _ _) as [[wal|]|]; [|done..]. intros [= <-]. done.
Qed.

(** The exchange a daemon that has booted is, with any accounts. *)
Abbreviation opened cfg d := (mkExchange (opening_books (Config.markets cfg) ∅) (dm_risk d)).

Lemma booted_exchange cfg v log dir chain d credits l :
  Forall record_ok log -> boot cfg v (encode_log log) dir chain = Some (Ok d) -> Forall queued l ->
  let x := opened cfg (deposit credits d) in
  all_unused (dm_default_market d) (next_after log) l x = true ->
  exists d', handle_all l (deposit credits d) = Some d' /\
    let y := exchange_run (dm_default_market d) (next_after log) l x in
    is_exchange d' y.1 /\ trade_metadata (dm_api d') = last_n 4096 y.2.
Proof.
  intros Hlog Hb Hq. cbv zeta. intros Hu. destruct (boot_spec _ _ _ _ _ _ Hlog Hb) as [He _ Hw _ _].
  destruct (boot_trades _ _ _ _ _ _ Hb) as [Ht Hc]. pose proof (opening_empty cfg) as Hn. set (x := mkExchange _ _) in *.
  assert (Hx : is_exchange (deposit credits d) x) by (split; [exact He|done|by apply no_orders_contexts]).
  destruct (handle_all_exchange l (deposit credits d) x Hq Hx) as (d' & E & Hy & Htr).
  { cbn [deposit set_risk set_core dm_wal dm_default_market]. by rewrite Hw. }
  exists d'. split; [exact E|]. cbn [deposit set_risk set_core dm_wal dm_default_market dm_api] in *.
  rewrite Hw, Ht, Hc in *. split; [exact Hy|]. rewrite Htr. by apply (publish_last 4095 _ []).
Qed.

(** C3: the daemon is an exchange.  Boot, credit any collateral, and handle any
    frames, of which no new order reuses the identifier of one that rests: the
    daemon ends with the books of the exchange
    that handles these frames one after the other, with its accounts, in which every
    fill belongs to the taker and to the owner of the resting order, and the trade
    feed holds the exchange's last 4096 trades. *)
Theorem daemon_is_an_exchange cfg v log dir chain d credits l :
  Forall record_ok log -> boot cfg v (encode_log log) dir chain = Some (Ok d) -> Forall queued l ->
  let market := dm_default_market d in
  let x := mkExchange (opening_books (Config.markets cfg) ∅) (dm_risk (deposit credits d)) in
  all_unused market (next_after log) l x = true ->
  exists d', handle_all l (deposit credits d) = Some d' /\
    let '(y, trades) := exchange_run market (next_after log) l x in
    engine_rep (dm_matcher d') (ex_books y) /\ dm_risk d' = ex_risk y /\
    trade_metadata (dm_api d') = last_n 4096 trades.
Proof.
  intros Hlog Hb Hq. cbv zeta. intros Hu.
  destruct (booted_exchange _ _ _ _ _ _ credits l Hlog Hb Hq Hu) as (d' & E & [He Hr _] & Ht). exists d'.
  split; [exact E|]. by destruct (exchange_run _ _ _ _).
Qed.

Definition demo_exchange : Exchange :=
  mkExchange (opening_books (Config.markets DemoDaemon.cfg) ∅) (dm_risk (deposit DemoDaemon.rich DemoDaemon.start)).

Lemma daemon_is_an_exchange_witness :
  exists d', handle_all DemoDaemon.trading (deposit DemoDaemon.rich DemoDaemon.start) = Some d' /\
    let '(y, trades) := exchange_run 1 1 DemoDaemon.trading demo_exchange in
    engine_rep (dm_matcher d') (ex_books y) /\ dm_risk d' = ex_risk y /\ trade_metadata (dm_api d') = last_n 4096 trades.
Proof.
  refine (daemon_is_an_exchange DemoDaemon.cfg None [] (mkDisk None None) 1 DemoDaemon.start DemoDaemon.rich
    DemoDaemon.trading _ demo_boot _ _).
  - constructor.
  - repeat (apply Forall_cons; split; [discriminate|]). apply Forall_nil. exact I.
  - by vm_compute.
Defined.

(** The trades of that run: taker, price, quantity, record of the log. *)
Example demo_trades :
  map (fun t => (tm_account t, tm_price t, tm_quantity t, tm_wal_offset t))
    (exchange_run 1 1 DemoDaemon.trading demo_exchange).2 = [(2, 100, 4, 2); (3, 99, 2, 4)].
Proof. by vm_compute. Qed.

(** ** Only the first market is traded

    New orders name no market: the daemon enters them in the first one of the
    configuration.  Cancels and replaces name one in the id of the order, and find
    nothing in the others. *)
Definition idle_elsewhere (market : Z) (a : gmap Z Book) : Prop :=
  forall m b, m <> market -> a !! m = Some b -> all_orders b = [].

Lemma idle_insert market a b : idle_elsewhere market a -> idle_elsewhere market (<[market := b]> a).
Proof. intros H m b' Hm. rewrite lookup_insert_ne by done. by apply H. Qed.

(** An order that rests in a book is in the book of the market. *)
Lemma found_at_market market a m b k o :
  idle_elsewhere market a -> a !! m = Some b -> find_key k (all_orders b) = Some o -> m = market.
Proof.
  intros Hi Hb Hf. destruct (decide (m = market)) as [|Hm]; [done|]. by rewrite (Hi m b Hm Hb) in Hf.
Qed.

Lemma exchange_step_idle market k off f x :
  idle_elsewhere market (ex_books x) -> idle_elsewhere market (ex_books (exchange_step market k off f x).1).
Proof.
  intros Hi. destruct k; cbn [exchange_step]; [| | |done].
  - destruct (decode_new_order _) as [order|]; [|done]. unfold exchange_new_order.
    destruct (rk_decision _); [|done..]. unfold spec_submit. cbn [exchange_request req_id exchange_id id_market].
    destruct (_ <=? 0); [done|]. destruct (_ && _); [done|]. destruct (spec_place _ _) as [b res].
    destruct (or_accepted res); by apply idle_insert.
  - destruct (decode_cancel _) as [msg|]; [|done]. unfold exchange_cancel, spec_cancel. cbn [fst ex_books cancel_id].
    destruct (ex_books x !! _) as [b|] eqn:Hb; [|done]. destruct (find_key _ _) as [o|] eqn:Hf; [|done].
    cbn [fst]. rewrite (found_at_market _ _ _ _ _ _ Hi Hb Hf). by apply idle_insert.
  - destruct (decode_replace _) as [msg|]; [|done]. unfold exchange_replace, spec_replace. cbn [replace_request rep_id].
    destruct (ex_books x !! _) as [b|] eqn:Hb; [|by cbn].
    destruct (find_key _ (all_orders b)) as [o|] eqn:Hf; [|by destruct (find_key _ _)].
    destruct (spec_place _ _) as [b' res]. rewrite (found_at_market _ _ _ _ _ _ Hi Hb Hf).
    destruct (find_key _ _); [destruct (rr_accepted _)|]; by apply idle_insert.
Qed.

Lemma handle_all_idle l : forall d a,
  Forall queued l -> engine_rep (dm_matcher d) a -> idle_elsewhere (dm_default_market d) a ->
  exists d' a', handle_all l d = Some d' /\ engine_rep (dm_matcher d') a' /\ idle_elsewhere (dm_default_market d) a'.
Proof.
  induction l as [|[k f] l IH]; intros d a Hq He Hi; [by exists d, a|]. apply Forall_cons in Hq as [Hk Hq].
  destruct (handle_spec k f d a Hk He) as (d1 & E & [_ L2 _ _ _ _] & [H1 _]). cbn [handle_all]. rewrite E.
  rewrite <- L2. apply (IH d1 _ Hq H1). rewrite L2. by apply exchange_step_idle.
Qed.

(** From boot, whatever is handled, a market that is not the first of the
    configuration holds no order. *)
Theorem only_first_market_trades cfg v log dir chain d credits l m sh :
  Forall record_ok log -> boot cfg v (encode_log log) dir chain = Some (Ok d) -> Forall queued l ->
  exists d', handle_all l (deposit credits d) = Some d' /\
    (m <> dm_default_market d -> dm_matcher d' !! m = Some sh -> book_orders sh = ∅).
Proof.
  intros Hlog Hb Hq. destruct (boot_spec _ _ _ _ _ _ Hlog Hb) as [He _ _ _ _].
  destruct (handle_all_idle l (deposit credits d) _ Hq He) as (d' & a' & E & He' & Hi').
  { intros m' b _. apply opening_empty. }
  exists d'. split; [done|]. intros Hm Hs. specialize (He' m). rewrite Hs in He'.
  inversion He' as [? b Hrep Hx Hy|]. apply map_empty. intros k. apply eq_None_not_Some. intros Hk.
  apply (sr_dom _ _ Hrep) in Hk. rewrite (Hi' m b Hm) in Hk by done. by apply not_elem_of_nil in Hk.
Qed.

(** The two markets of the example configuration: an order of either account goes to
    the first. *)
Definition two_markets : Config.EngineConfig :=
  Config.mkEngineConfig Config.default_transport (Config.mkIngress 4 4 4 100 100) Config.default_matcher
    Config.default_persistence Config.default_telemetry
    [Config.default_market; Config.mkMarketConfig 2 "ETH-PERP" Config.default_market_risk Config.default_market_funding].

Lemma only_first_market_trades_witness :
  exists d d', boot two_markets None (encode_log []) (mkDisk None None) 1 = Some (Ok d) /\
    handle_all DemoDaemon.trading (deposit DemoDaemon.rich d) = Some d' /\
    (2 <> dm_default_market d -> dm_matcher d' !! 2 = Some new_shard -> book_orders new_shard = ∅).
Proof.
  destruct (boot two_markets None (encode_log []) (mkDisk None None) 1) as [[d|]|] eqn:Hb; [|by vm_compute in Hb..].
  destruct (only_first_market_trades two_markets None [] (mkDisk None None) 1 d DemoDaemon.rich DemoDaemon.trading 2
    new_shard) as (d' & E & H); [constructor|exact Hb|by repeat constructor|]. by exists d, d'.
Defined.
