(* ===== verification/Main.v ===== *)
(** * The process

    [main] of [apps/tradecored/src/main.cpp]: the choice of the configuration
    file, the start of the parts in the order of the code, the event loop under
    every interleaving of the main thread with the transport's thread and the
    signal handler, and the shutdown.  The environment is an argument: the command
    line, the files, the environment variables, libsodium, the sockets and the
    clock.

    A label of the transport's thread handles a whole datagram, and a step of the
    main thread takes and handles a whole frame.  The two share the rings, whose
    operations take effect at one point ([Linearize]), and counters that only
    the status line reads. *)
From S2P Require Import Config.
From S2P Require Import Prelude Types Bytes Matcher Risk FundingLedger SpscRing Sbe Ingest Transport.
From S2P Require Import Wal WalFile Snapshot Api Auth Daemon.
Open Scope string_scope.
Open Scope list_scope.
Open Scope Z_scope.

Record Environment := mkEnvironment {
  env_program : string;                       (* argv[0] *)
  env_args : list string;                     (* the arguments after it *)
  env_home : option string;
  env_chain_id : option string;               (* MONMOUTH_CHAIN_ID *)
  env_exists : string -> bool;
  env_wal : string -> bytes;                  (* a log by its path; nothing when new *)
  env_snapshots : string -> Disk;             (* a snapshot directory *)
  env_create_directories : string -> bool;    (* whether that succeeds *)
  env_wal_fopen : bool;                       (* whether the log can be opened, *)
  env_wal_fseek : Z;                          (* what seeking to its end returns, *)
  env_wal_read : bool;                        (* and whether it can be read *)
  env_sodium_init : Z;
  env_keypair : PublicKey * SecretKey;
  env_padding : bytes;                        (* of the frame headers in memory *)
  env_sockets : SocketAnswers;
  env_now : Z }.

(** ** The configuration file *)

(** [path / rest], for a relative [rest]. *)
Definition path_append (path rest : string) : string :=
  match rev (String.list_ascii_of_string path) with
  | [] => rest
  | c :: _ => if bool_decide (c = Ascii.ascii_of_nat 47) then path +:+ rest else path +:+ "/" +:+ rest
  end.

Definition default_paths (env : Environment) : list string :=
  ["./tradecore.toml"; "/etc/tradecore/tradecore.toml";
   path_append (default "" (env_home env)) ".config/tradecore/tradecore.toml"].

(** [find_config_path]; the empty path is none. *)
Definition find_config_path (env : Environment) : string :=
  match env_args env with
  | arg :: _ => arg
  | [] => default ""
      (List.find (fun path => negb (bool_decide (path = "")) && env_exists env path) (default_paths env))
  end.

(** A path as a stream shows it: quoted, with quotes and backslashes escaped. *)
Fixpoint escaped (s : string) : string :=
  match s with
  | EmptyString => EmptyString
  | String c s =>
      let n := Ascii.nat_of_ascii c in
      if (n =? 34)%nat || (n =? 92)%nat then String (Ascii.ascii_of_nat 92) (String c (escaped s))
      else String c (escaped s)
  end.

Definition print_usage (program : string) : list string :=
  ["Usage: " +:+ program +:+ " [config_file]";
   "  config_file: Path to TOML configuration file";
   "               If not specified, uses ./tradecore.toml or generates defaults"].

(** The lines for a file that does not load. *)
Definition load_error_lines (r : Config.LoadResult) : list string :=
  (if bool_decide (Config.raw_error r = "") then [] else ["Parse error: " +:+ Config.raw_error r]) ++
  map (fun e => "Validation error [" +:+ Config.err_field e +:+ "]: " +:+ Config.err_message e) (Config.errors r).

(** The lines written and the configuration, if there is one. *)
Definition load_configuration `{Config.TomlLibrary} (env : Environment)
    : list string * option Config.EngineConfig :=
  let config_path := find_config_path env in
  if bool_decide (config_path = "") then
    let result := Config.load_from_string Config.generate_default in
    if Config.success result then (["No config file found, using defaults"], Some (Config.lr_config result))
    else (["No config file found, using defaults"; "Failed to load default config: " +:+ Config.raw_error result], None)
  else
    let result := Config.load (env_exists env) config_path in
    let line := "Loading config from: " +:+ quoted (escaped config_path) in
    if Config.success result then ([line], Some (Config.lr_config result))
    else (line :: load_error_lines result, None).

Definition loaded_lines (cfg : Config.EngineConfig) : list string :=
  ["Config loaded successfully";
   "  Transport endpoint: " +:+ Config.endpoint (Config.transport cfg);
   "  Markets: " +:+ print 10 (Z.of_nat (length (Config.markets cfg)));
   "  WAL path: " +:+ quoted (escaped (Config.wal_path (Config.persistence cfg)))].

Definition market_line (m : Config.MarketConfig) : string :=
  "  Configuring market " +:+ print 10 (Config.mc_id m) +:+ " (" +:+ Config.mc_symbol m +:+ ")".

(** ** The disk *)
Definition is_slash (c : Ascii.ascii) : bool := bool_decide (c = Ascii.ascii_of_nat 47).

Fixpoint drop_while (p : Ascii.ascii -> bool) (l : list Ascii.ascii) : list Ascii.ascii :=
  match l with c :: rest => if p c then drop_while p rest else l | [] => [] end.

(** [path.parent_path()]: what is before the last component and the slashes that
    end it, except that the root stays. *)
Definition parent_path (path : string) : string :=
  let l := String.list_ascii_of_string path in
  match drop_while is_slash (drop_while (fun c => negb (is_slash c)) (rev l)), l with
  | [], c :: _ => if is_slash c then "/" else ""
  | dir, _ => String.string_of_list_ascii (rev dir)
  end.

(** The directories and the opening of the log, in the order of [main]. *)
Definition prepare_disk (env : Environment) (p : Config.PersistenceConfig) : result () :=
  if negb (env_create_directories env (Config.snapshot_dir p)) then Throw "filesystem error: cannot create directories"
  else if negb (env_create_directories env (parent_path (Config.wal_path p)))
  then Throw "filesystem error: cannot create directories"
  else open_checks (env_wal_fopen env) (env_wal_fseek env) (env_wal_read env).

(** ** The chain id *)
Definition is_space (c : Ascii.ascii) : bool :=
  let n := Ascii.nat_of_ascii c in (n =? 32)%nat || ((9 <=? n) && (n <=? 13))%nat.

Fixpoint skip_space (s : string) : string :=
  match s with String c rest => if is_space c then skip_space rest else s | EmptyString => s end.

(** The value of a digit or letter; 36 for anything else. *)
Definition digit_of (c : Ascii.ascii) : Z :=
  let n := Z.of_nat (Ascii.nat_of_ascii c) in
  if (48 <=? n) && (n <=? 57) then n - 48
  else if (97 <=? n) && (n <=? 122) then n - 87
  else if (65 <=? n) && (n <=? 90) then n - 55
  else 36.

(** The digits of [base] from the start: their value, and whether there are any. *)
Fixpoint scan_digits (base : Z) (s : string) (acc : Z) (seen : bool) : Z * bool :=
  match s with
  | String c rest => if digit_of c <? base then scan_digits base rest (acc * base + digit_of c) true else (acc, seen)
  | EmptyString => (acc, seen)
  end.

Definition is_char (n : nat) (c : Ascii.ascii) : bool := bool_decide (c = Ascii.ascii_of_nat n).

(** The base of a number and the text its digits start at: [0x] before a
    hexadecimal digit, else a leading zero for octal. *)
Definition detect_base (s : string) : Z * string :=
  match s with
  | String z (String x (String d _ as rest)) =>
      if is_char 48 z && (is_char 120 x || is_char 88 x) && (digit_of d <? 16) then (16, rest)
      else if is_char 48 z then (8, s) else (10, s)
  | String z _ => if is_char 48 z then (8, s) else (10, s)
  | EmptyString => (10, s)
  end.

Definition take_sign (s : string) : bool * string :=
  match s with
  | String c rest => if is_char 45 c then (true, rest) else if is_char 43 c then (false, rest) else (false, s)
  | EmptyString => (false, s)
  end.

(** [std::stoull(s, nullptr, 0)]: what follows the digits is ignored. *)
Definition stoull (s : string) : result Z :=
  let '(negative, s) := take_sign (skip_space s) in
  let '(base, s) := detect_base s in
  let '(v, seen) := scan_digits base s 0 false in
  if negb seen then Throw "stoull"
  else if v >? 2 ^ 64 - 1 then Throw "stoull"
  else Ok (if negative then u64 (- v) else v).

(** The chain id: 1, unless the variable gives one. *)
Definition chain_id_of (env : Environment) : result Z :=
  match env_chain_id env with None => Ok 1 | Some text => stoull text end.

(** ** The running process *)

(** The frames reach [IngressPipeline::submit], whose answer is dropped. *)
Definition submit_callback (frame : Frame) (ingress : IngressPipeline) : IngressPipeline :=
  (submit_frame frame ingress).1.

(** Where the main thread is: at the test of the loop; before the next call of
    [next_*] of a queue, with the frames counted so far in the turn; before the
    block count; before the status line; after the loop; at the end, with an exit
    code or the exception no one catches. *)
Inductive Phase :=
  | PHead
  | PQueue (k : MessageKind) (processed : Z)
  | PBlock (processed : Z)
  | PStatus
  | PLeaving
  | PExited (code : result Z).

Record Process := mkProcess {
  pr_daemon : Daemon;
  pr_transport : QuicTransport IngressPipeline;
  pr_fds : gset Z;
  pr_last_status : Z;
  pr_console : list string;
  pr_shutdown : bool;                         (* g_shutdown_requested *)
  pr_phase : Phase }.

Definition with_daemon (d : Daemon) (s : Process) : Process :=
  mkProcess d (pr_transport s) (pr_fds s) (pr_last_status s) (pr_console s) (pr_shutdown s) (pr_phase s).

Definition at_phase (p : Phase) (s : Process) : Process :=
  mkProcess (pr_daemon s) (pr_transport s) (pr_fds s) (pr_last_status s) (pr_console s) (pr_shutdown s) p.

Definition say (lines : list string) (s : Process) : Process :=
  mkProcess (pr_daemon s) (pr_transport s) (pr_fds s) (pr_last_status s) (pr_console s ++ lines)
    (pr_shutdown s) (pr_phase s).

(** The transport's thread: one return of [recvfrom]. *)
Definition receive (r : Received) (s : Process) : Process :=
  let '(q, ingress) := quic_receive r (pr_transport s) (dm_ingress (pr_daemon s)) in
  mkProcess (set_ingress ingress (pr_daemon s)) q (pr_fds s) (pr_last_status s) (pr_console s)
    (pr_shutdown s) (pr_phase s).

(** [handle_shutdown_signal]. *)
Definition handle_shutdown_signal (s : Process) : Process :=
  mkProcess (pr_daemon s) (pr_transport s) (pr_fds s) (pr_last_status s) (pr_console s) true (pr_phase s).

Definition kStatusInterval : Z := 1000000000.

Definition status_line (d : Daemon) (stats : TransportStats) : string :=
  "[status] block=" +:+ print 10 (dm_block_number d) +:+
  " ingress_accepted=" +:+ print 10 (accepted (Ingest.stats (dm_ingress d))) +:+
  " frames=" +:+ print 10 (ts_frames_received stats) +:+
  " peers=" +:+ print 10 (ts_connections_active stats) +:+
  " wal_next=" +:+ print 10 (wt_next_sequence (dm_wal d)).

(** The end of a turn: the status line, once a second. *)
Definition report_status (now : Z) (s : Process) : Process :=
  if now - pr_last_status s >=? kStatusInterval then
    let '(q, stats) := quic_stats now (pr_transport s) in
    mkProcess (pr_daemon s) q (pr_fds s) now (pr_console s ++ [status_line (pr_daemon s) stats])
      (pr_shutdown s) (pr_phase s)
  else s.

(** After the loop: the transport stops and the log is written out. *)
Definition stop_process (s : Process) : Process :=
  let '(q, fds) := quic_stop (pr_transport s) (pr_fds s) in
  mkProcess (shutdown (pr_daemon s)) q fds (pr_last_status s) (pr_console s) (pr_shutdown s) (pr_phase s).

(** The line for a frame that does not decode. *)
Definition decode_error {A} (what : string) (r : result A) : list string :=
  match r with Throw e => ["Failed to process " +:+ what +:+ ": " +:+ e] | Ok _ => [] end.

Definition frame_lines (k : MessageKind) (frame : Frame) : list string :=
  match k with
  | kNewOrder => decode_error "new order" (decode_new_order (fr_payload frame))
  | kCancel => decode_error "cancel" (decode_cancel (fr_payload frame))
  | kReplace => decode_error "replace" (decode_replace (fr_payload frame))
  | kHeartbeat => []
  end.

(** The queue after one that is empty, or the end of the sum. *)
Definition after_queue (k : MessageKind) (processed : Z) : Phase :=
  match k with
  | kNewOrder => PQueue kCancel processed
  | kCancel => PQueue kReplace processed
  | _ => PBlock processed
  end.

(** One step of the main thread; [now] is the clock, which only the status line
    reads.  The three counts of a turn are added up as they grow. *)
Definition loop_step (now : Z) (s : Process) : option Process :=
  match pr_phase s with
  | PHead =>
      Some (if pr_shutdown s
            then say ["Shutdown signal received, flushing state..."] (at_phase PLeaving s)
            else at_phase (PQueue kNewOrder 0) s)
  | PQueue k processed =>
      '(ingress, frame) ← next_frame k (dm_ingress (pr_daemon s));
      let d := set_ingress ingress (pr_daemon s) in
      match frame with
      | Some frame =>
          d ← handle k frame d;
          Some (at_phase (PQueue k (u64 (processed + 1))) (say (frame_lines k frame) (with_daemon d s)))
      | None => Some (at_phase (after_queue k processed) (with_daemon d s))
      end
  | PBlock processed =>
      if processed >? 0 then
        '(d, r) ← advance_block processed (pr_daemon s);
        Some (at_phase (match r with Ok _ => PStatus | Throw e => PExited (Throw e) end) (with_daemon d s))
      else Some (at_phase PStatus s)
  | PStatus => Some (at_phase PHead (report_status now s))
  | PLeaving => Some (at_phase (PExited (Ok 0)) (stop_process s))
  | PExited _ => Some s
  end.

(** ** Interleavings

    The process moves by a datagram that the transport's thread handles, by the
    signal, or by a step of the main thread, in any order. *)
Inductive Label :=
  | LReceive (r : Received)
  | LSignal
  | LStep (now : Z).

Definition exit_code (s : Process) : option (result Z) :=
  match pr_phase s with PExited code => Some code | _ => None end.

(** Nothing happens to a process that has exited. *)
Definition process_step (l : Label) (s : Process) : option Process :=
  match exit_code s with
  | Some _ => Some s
  | None =>
      match l with
      | LReceive r => Some (receive r s)
      | LSignal => Some (handle_shutdown_signal s)
      | LStep now => loop_step now s
      end
  end.

Fixpoint process_run (ls : list Label) (s : Process) : option Process :=
  match ls with
  | [] => Some s
  | l :: ls => s ← process_step l s; process_run ls s
  end.

(** The node state the router's provider shows. *)
Definition node_state (now : Z) (s : Process) : NodeStateProvider :=
  mkProvider (Some (dm_chain_id (pr_daemon s))) (Some (dm_block_number (pr_daemon s)))
    (Some (ts_connections_active (quic_stats now (pr_transport s)).2)) (Some (quic_is_running (pr_transport s))).

Definition rpc (now : Z) (method : string) (s : Process) : string :=
  rpc_result method (set_node_state_provider (node_state now s) (dm_api (pr_daemon s))).

(** ** [main] *)

(** What became of the process: the exit code, or the exception no one catches,
    once it ended; what it wrote; and its parts, when the event loop was reached. *)
Record Finished := mkFinished {
  fin_code : option (result Z);
  fin_console : list string;
  fin_process : option Process }.

(** An end before the event loop. *)
Definition finished (code : result Z) (console : list string) : option Finished :=
  Some (mkFinished (Some code) console None).

Section Main.
Context `{Config.TomlLibrary}.
Context (crypto_sign_verify_detached : Signature -> bytes -> PublicKey -> bool).

(** The authenticator with the test account, and its key pair. *)
Definition make_authenticator (env : Environment) : result Authenticator :=
  a ← construct_authenticator (env_sodium_init env);
  k ← generate_keypair (env_sodium_init env) (env_keypair env);
  Ok (register_account 1 k.1 a).

Definition frame_verifier (env : Environment) (a : Authenticator) : AuthVerifier :=
  Some (auth_verifier crypto_sign_verify_detached (env_padding env) a).

(** The lines before the event loop. *)
Definition enter_loop (env : Environment) (s : Process) : Process :=
  say ["  RPC eth_chainId: " +:+ rpc (env_now env) "eth_chainId" s;
       "  RPC eth_blockNumber: " +:+ rpc (env_now env) "eth_blockNumber" s;
       "tradecored bootstrapped successfully";
       "Entering event loop. Press Ctrl+C to shut down."] s.

(** From the event loop on, under an interleaving [ls]. *)
Definition run_process (ls : list Label) (s : Process) : option Finished :=
  s ← process_run ls s;
  Some (mkFinished (exit_code s) (pr_console s) (Some s)).

(** The parts after the transport.  What it receives before the loop is the start
    of the interleaving. *)
Definition boot_process (env : Environment) (cfg : Config.EngineConfig) (verifier : AuthVerifier)
    (ls : list Label) (q : QuicTransport IngressPipeline) (fds : gset Z) (console : list string)
    : option Finished :=
  let console := console ++ map market_line (Config.markets cfg) in
  let chain := chain_id_of env in
  match prepare_disk env (Config.persistence cfg) with
  | Throw e => finished (Throw e) console
  | Ok _ =>
      booted ← boot cfg verifier (env_wal env (Config.wal_path (Config.persistence cfg)))
        (env_snapshots env (Config.snapshot_dir (Config.persistence cfg)))
        match chain with Ok id => id | Throw _ => 1 end;
      match booted, chain with
      | Throw e, _ => finished (Throw e) console
      | Ok _, Throw _ =>
          finished (Ok 1) (console ++ ["Invalid MONMOUTH_CHAIN_ID value: " +:+ default "" (env_chain_id env)])
      | Ok d, Ok _ => run_process ls (enter_loop env (mkProcess d q fds (env_now env) console false PHead))
      end
  end.

(** The parts up to the transport. *)
Definition start_process (env : Environment) (cfg : Config.EngineConfig) (ls : list Label)
    (console : list string) : option Finished :=
  let console := console ++ loaded_lines cfg in
  match make_authenticator env with
  | Throw e => finished (Throw e) console
  | Ok a =>
      let console := console ++ ["  Auth: " +:+ print 10 (account_count a) +:+ " registered accounts"] in
      let verifier := frame_verifier env a in
      match boot_ingress cfg verifier with
      | Throw e => finished (Throw e) console
      | Ok _ =>
          let endpoint := Config.endpoint (Config.transport cfg) in
          '(q, fds, started) ← quic_start (env_sockets env) endpoint submit_callback new_quic ∅;
          match started with
          | Throw e => finished (Throw e) console
          | Ok false => finished (Ok 1) (console ++ ["Failed to start transport on " +:+ endpoint])
          | Ok true => boot_process env cfg verifier ls q fds console
          end
      end
  end.

Definition main (env : Environment) (ls : list Label) : option Finished :=
  if (1 <? length (env_args env))%nat then finished (Ok 1) (print_usage (env_program env))
  else match load_configuration env with
  | (console, None) => finished (Ok 1) console
  | (console, Some cfg) => start_process env cfg ls console
  end.
End Main.
