(* ===== verification/MainProps.v ===== *)
(** * What the process does as a whole

    Under every interleaving of the main thread, the transport's thread and the
    signal handler: the process never gets stuck, what it accepts was verified,
    each queue is emptied in order, and its log on disk holds exactly the frames
    it handled. *)
From S2P Require Import Config.
From S2P Require Import Prelude Types Bytes OrderedMap Matcher MatcherSpec BookRefine MatcherRefine.
From S2P Require Import Risk RiskProps FundingLedger SpscRing SpscRingProps Sbe Ingest IngestProps Transport.
From S2P Require Import Wal WalProps Snapshot SnapshotProps Api Auth Daemon Handlers Exchange DaemonProps DaemonRuns Main.
Open Scope string_scope.
Open Scope list_scope.
Open Scope Z_scope.

(** ** What an interleaving does *)
Definition is_kind (k : MessageKind) (f : Frame) : bool := bool_decide (fh_kind (fr_header f) = k).

(** The frame that a return of [recvfrom] puts into a queue: accepted, and not a
    heartbeat. *)
Definition admitted (r : Received) (p : IngressPipeline) : list Frame :=
  match r with
  | RDatagram data _ _ =>
      match parse_frame (datagram data) with
      | Some f => if (submit_frame f p).2 && negb (is_kind kHeartbeat f) then [f] else []
      | None => []
      end
  | RError => []
  end.

Definition accepted_at (l : Label) (s : Process) : list Frame :=
  match exit_code s, l with
  | None, LReceive r => if quic_is_running (pr_transport s) then admitted r (dm_ingress (pr_daemon s)) else []
  | _, _ => []
  end.

(** The frame that a step of the main thread handles. *)
Definition handled_at (l : Label) (s : Process) : list Work :=
  match l, pr_phase s with
  | LStep _, PQueue k _ =>
      match next_frame k (dm_ingress (pr_daemon s)) with
      | Some (_, Some f) => [(k, f)]
      | _ => []
      end
  | _, _ => []
  end.

(** The observations along a run. *)
Fixpoint collect {A} (at_label : Label -> Process -> list A) (ls : list Label) (s : Process) : list A :=
  match ls with
  | [] => []
  | l :: ls => at_label l s ++ match process_step l s with Some s => collect at_label ls s | None => [] end
  end.

Abbreviation accepted_in := (collect accepted_at).
Abbreviation handled_in := (collect handled_at).

(** The frames of one queue. *)
Definition work_of (k : MessageKind) (l : list Work) : list Frame :=
  map snd (List.filter (fun x : Work => bool_decide (x.1 = k)) l).

Lemma work_of_app k l l' : work_of k (l ++ l') = work_of k l ++ work_of k l'.
Proof. unfold work_of. by rewrite List.filter_app, map_app. Qed.

Lemma work_of_elem k f l : (k, f) ∈ l -> f ∈ work_of k l.
Proof.
  intros H. apply list_elem_of_fmap. exists (k, f). split; [done|].
  apply list_elem_of_In, filter_In. split; [by apply list_elem_of_In|]. by apply bool_decide_eq_true.
Qed.

(** Taking the first frame of a queue. *)
Lemma take_first k f rest q k' : q k = f :: rest -> q k' ++ [] = work_of k' [(k, f)] ++ dequeue k rest q k'.
Proof.
  intros Eq. rewrite app_nil_r. unfold work_of, dequeue. cbn [List.filter fst].
  destruct (bool_decide_reflect (k' = k)) as [->|Hne]; [by rewrite bool_decide_true, Eq|].
  by rewrite bool_decide_false by congruence.
Qed.

(** ** Submissions *)

(** An accepted frame joins the queue of its kind. *)
Lemma admitted_rep dep r p q :
  pipe_rep p dep q ->
  pipe_rep (spec_step (TReceive r) (Some submit_callback, p)).2 dep
    (fun k => q k ++ List.filter (is_kind k) (admitted r p)).
Proof.
  assert (Hnil : pipe_rep p dep q -> pipe_rep p dep (fun k => q k ++ [])).
  { apply pipe_rep_eq. intros k _. by rewrite app_nil_r. }
  intros Hp. destruct r as [|data peer now]; cbn [spec_step snd admitted]; [by apply Hnil|].
  destruct (parse_frame _) as [f|]; [|by apply Hnil].
  pose proof (submit_rep f p dep q Hp) as H1. cbv zeta in H1. unfold submit_callback.
  destruct (submit_frame f p) as [p1 ok]. cbn [fst snd] in *. eapply pipe_rep_eq; [|exact H1].
  intros k Hk. cbn [accepted_frame]. destruct ok; [|done]. fold (is_kind k f). f_equal. cbn [andb].
  destruct (is_kind kHeartbeat f) eqn:E; cbn [negb List.filter].
  - apply bool_decide_eq_true in E. unfold is_kind at 1. by rewrite bool_decide_false by congruence.
  - by destruct (is_kind k f).
Qed.

(** An accepted frame that is not a heartbeat passed the verifier, which stays. *)
Lemma submit_authentic f p :
  verifier (submit_frame f p).1 = verifier p /\
  ((submit_frame f p).2 && negb (is_kind kHeartbeat f) = true -> authentic p f = true).
Proof.
  unfold submit_frame. fold (is_kind kHeartbeat f). destruct (is_kind kHeartbeat f); [done|].
  destruct (authentic p f); cbn [negb]; [|done]. destruct (rate_limit _ _ _ _) as [w limited].
  destruct limited; [done|]. split; [|done].
  unfold enqueue. destruct (fh_kind _); try destruct (push _ _) as [q []]; done.
Qed.

(** An accepted frame passed the verifier, which stays. *)
Lemma admitted_authentic r p :
  verifier (spec_step (TReceive r) (Some submit_callback, p)).2 = verifier p /\
  Forall (fun f => authentic p f = true) (admitted r p).
Proof.
  destruct r as [|data peer now]; cbn [spec_step snd admitted]; [done|].
  destruct (parse_frame _) as [f|]; [|done]. unfold submit_callback.
  destruct (submit_authentic f p) as [Hv Ha]. split; [done|]. destruct (_ && _); [|done]. by constructor; [apply Ha|].
Qed.

Lemma next_frame_verifier k p p' o : next_frame k p = Some (p', o) -> verifier p' = verifier p.
Proof.
  intros E. destruct k; cbn in E; unfold next_new_order, next_cancel, next_replace in E;
    try (destruct (pop _) as [[? ?]|]; [|done]); by injection E as <- _.
Qed.

(** What is accepted fits its types. *)
Definition received_ok (r : Received) : Prop :=
  match r with RDatagram data _ _ => bytes_ok data | RError => True end.

Definition label_ok (l : Label) : Prop := match l with LReceive r => received_ok r | _ => True end.

Definition sound_frame (f : Frame) : Prop := frame_ok f /\ bytes_ok (fr_payload f).

Lemma admitted_ok r p : received_ok r -> Forall sound_frame (admitted r p).
Proof.
  destruct r as [|data peer now]; cbn; [done|]. intros Hr.
  destruct (parse_frame _) as [f|] eqn:Hf; [|done]. destruct (_ && _); [|done]. constructor; [|done].
  assert (Hb : bytes_ok (datagram data)) by by apply Forall_take.
  destruct (parse_frame_sound (datagram data) f Hb Hf) as [Hok (flags & extra & _ & E)].
  split; [done|]. rewrite E, !Forall_app in Hb. tauto.
Qed.

Lemma handle_keeps_ingress k f d d' : handle k f d = Some d' -> dm_ingress d' = dm_ingress d.
Proof. intros E%handle_outside. rewrite <- E. by destruct k. Qed.

Lemma advance_block_ingress n d d' r : advance_block n d = Some (d', r) -> dm_ingress d' = dm_ingress d.
Proof.
  unfold advance_block. destruct (_ >=? _); [|by intros [= <- _]].
  destruct (persist _ _ _) as [[s []]|]; [..|done]; by intros [= <- _].
Qed.

Lemma report_status_spec now s :
  pr_daemon (report_status now s) = pr_daemon s /\ pr_fds (report_status now s) = pr_fds s /\
  (forall cb, transport_rel (pr_transport s) (pr_fds s) cb -> transport_rel (pr_transport (report_status now s)) (pr_fds s) cb) /\
  pr_shutdown (report_status now s) = pr_shutdown s.
Proof.
  unfold report_status. destruct (_ >=? _); [|done].
  destruct (quic_stats now (pr_transport s)) as [q st] eqn:E. cbn. split; [done|]. split; [done|]. split; [|done].
  intros cb (t & Hq & H). unfold quic_stats in E. rewrite Hq in E. injection E as <- _.
  eexists. split; [done|]. by destruct cb.
Qed.

(** The end of a turn, whether or not it took anything. *)
Lemma turn_end d n snaps :
  holds (dm_snapshot d) snaps ->
  exists d', (if n >? 0 then advance_block n d else Some (d, Ok ())) = Some (d', Ok ()) /\
    dm_matcher d' = dm_matcher d /\ dm_wal d' = dm_wal d /\ dm_ingress d' = dm_ingress d /\
    exists snaps', holds (dm_snapshot d') snaps'.
Proof.
  intros Hs. destruct (n >? 0); [|by eauto 10].
  destruct (advance_block_spec n d snaps Hs) as (s & snaps' & last & -> & Hs' & _). eexists. split; [done|]. by eauto.
Qed.

Lemma set_ingress_same d : set_ingress (dm_ingress d) d = d.
Proof. by destruct d. Qed.

(** ** The invariant of the running process *)
Definition phase_ok (p : Phase) : Prop :=
  match p with
  | PQueue k _ => k <> kHeartbeat
  | PExited code => code = Ok 0
  | _ => True
  end.

(** The log a process has written to, as it is after what was appended to [w]. *)
Definition wal_is (w : Writer) (s : Process) : Prop :=
  dm_wal (pr_daemon s) = match exit_code s with Some _ => sync w | None => w end.

Section Running.
Context (dep : MessageKind -> Z) (v : AuthVerifier).

(** The queues hold [q]; the matcher is sound; the snapshot file can be read; the
    transport runs until the process exits. *)
Record live (q : MessageKind -> list Frame) (s : Process) : Prop := {
  lv_pipe : pipe_rep (dm_ingress (pr_daemon s)) dep q;
  lv_verifier : verifier (dm_ingress (pr_daemon s)) = v;
  lv_engine : exists a, engine_rep (dm_matcher (pr_daemon s)) a;
  lv_store : exists snaps, holds (dm_snapshot (pr_daemon s)) snaps;
  lv_transport : transport_rel (pr_transport s) (pr_fds s)
    match exit_code s with Some _ => None | None => Some submit_callback end;
  lv_phase : phase_ok (pr_phase s) }.

(** What one label does to the queues and the log. *)
Definition moves (l : Label) (q : MessageKind -> list Frame) (s : Process)
    (q' : MessageKind -> list Frame) (s' : Process) : Prop :=
  (forall k, k <> kHeartbeat ->
     q k ++ List.filter (is_kind k) (accepted_at l s) = work_of k (handled_at l s) ++ q' k) /\
  (forall w, wal_is w s -> wal_is (append_all (wal_entries (handled_at l s)) w) s') /\
  Forall queued (handled_at l s) /\
  Forall (fun f => authentic (dm_ingress (pr_daemon s)) f = true) (accepted_at l s).

(** A label that neither accepts nor handles a frame. *)
Lemma moves_nothing l q s s' :
  accepted_at l s = [] -> handled_at l s = [] -> (forall w, wal_is w s -> wal_is w s') -> moves l q s q s'.
Proof.
  intros E1 E2 Hw. unfold moves. rewrite E1, E2. split; [|split; [done|by split]].
  intros k _. by rewrite app_nil_r.
Qed.

Lemma receive_spec r q s :
  exit_code s = None -> pipe_rep (dm_ingress (pr_daemon s)) dep q ->
  transport_rel (pr_transport s) (pr_fds s) (Some submit_callback) ->
  exists t p, receive r s = mkProcess (set_ingress p (pr_daemon s)) t (pr_fds s) (pr_last_status s)
      (pr_console s) (pr_shutdown s) (pr_phase s) /\
    transport_rel t (pr_fds s) (Some submit_callback) /\ verifier p = verifier (dm_ingress (pr_daemon s)) /\
    pipe_rep p dep (fun k => q k ++ List.filter (is_kind k) (accepted_at (LReceive r) s)) /\
    Forall (fun f => authentic (dm_ingress (pr_daemon s)) f = true) (accepted_at (LReceive r) s).
Proof.
  intros Hc Hp Ht. destruct (receive_rel r _ _ _ (dm_ingress (pr_daemon s)) Ht) as (t & E & Ht').
  assert (Ea : accepted_at (LReceive r) s = admitted r (dm_ingress (pr_daemon s))).
  { unfold accepted_at. rewrite Hc. destruct Ht as (u & Hu & Hr & _). unfold quic_is_running, udp_is_running. by rewrite Hu, Hr. }
  destruct (admitted_authentic r (dm_ingress (pr_daemon s))) as [Hv Ha].
  exists t, (spec_step (TReceive r) (Some submit_callback, dm_ingress (pr_daemon s))).2. rewrite Ea.
  split; [unfold receive; by rewrite E|]. split; [done|]. split; [done|]. split; [by apply admitted_rep|done].
Qed.

Lemma receive_moves r q s :
  live q s -> exit_code s = None ->
  exists q', live q' (receive r s) /\ moves (LReceive r) q s q' (receive r s).
Proof.
  intros [Hp Hv He Hs Ht Hf] Hc. rewrite Hc in Ht.
  destruct (receive_spec r q s Hc Hp Ht) as (t & p & -> & Ht' & Hv' & Hp' & Ha). eexists. split.
  - split; [exact Hp'|by rewrite <- Hv, <- Hv'|done|done| |done]. cbn. unfold exit_code in *. cbn. by rewrite Hc.
  - unfold moves. change (handled_at (LReceive r) s) with (@nil Work). split; [done|]. split; [|by split].
    intros w. unfold wal_is, exit_code in *. cbn. done.
Qed.

(** A step of the main thread in a queue: the first frame is handled, or the
    queue is left. *)
Lemma queue_step_moves k processed now q s :
  live q s -> pr_phase s = PQueue k processed ->
  exists q' s', loop_step now s = Some s' /\ live q' s' /\ moves (LStep now) q s q' s' /\
    pr_shutdown s' = pr_shutdown s /\
    match q k with
    | [] => pr_phase s' = after_queue k processed /\ q' = q
    | f :: rest => pr_phase s' = PQueue k (u64 (processed + 1)) /\ q' = dequeue k rest q
    end.
Proof.
  intros [Hp Hv [a He] Hs Ht Hf] Hph. unfold loop_step. rewrite Hph in *. cbn in Hf.
  assert (Hc : exit_code s = None) by (unfold exit_code; by rewrite Hph). rewrite Hc in Ht.
  pose proof (next_spec k _ _ _ Hp Hf) as Hn. rewrite next_frame_of.
  destruct (q k) as [|f rest] eqn:Eq.
  - rewrite Hn. cbn [mbind option_bind]. rewrite set_ingress_same. exists q. eexists. split; [done|].
    assert (He' : exit_code (at_phase (after_queue k processed) (with_daemon (pr_daemon s) s)) = None) by by destruct k.
    split; [split; cbn; try done; [by exists a|by rewrite He'|by destruct k]|].
    split; [|by split]. apply moves_nothing.
    + by unfold accepted_at; rewrite Hc.
    + unfold handled_at. by rewrite Hph, next_frame_of, Hn.
    + intros w. unfold wal_is. by rewrite He', Hc.
  - destruct Hn as (p & En & Hp' & _). rewrite En. cbn [mbind option_bind]. rewrite handle_ingress.
    destruct (handle_spec k f (pr_daemon s) a Hf He) as (d & Eh & [_ _ Hlog _ _ _] & [He' _]).
    rewrite Eh. cbn [mbind option_bind fmap option_fmap option_map].
    pose proof (handle_outer _ _ _ _ Eh) as Eo. injection Eo as _ _ _ Es.
    exists (dequeue k rest q). eexists. split; [done|]. split; [|split; [|by split]].
    + split; cbn; [done| |by eexists| |done|done].
      * rewrite <- next_frame_of in En. by rewrite (next_frame_verifier _ _ _ _ En).
      * by rewrite Es.
    + assert (Eho : handled_at (LStep now) s = [(k, f)]) by (unfold handled_at; by rewrite Hph, next_frame_of, En).
      unfold moves. rewrite Eho. unfold accepted_at. rewrite Hc. split; [|split; [|by repeat constructor]].
      * intros k' _. by apply take_first.
      * intros w. unfold wal_is, exit_code. rewrite Hph. cbn. intros <-. exact Hlog.
Qed.

(** The main thread and the signal handler, abstractly. *)
Definition advances (l : Label) (q : MessageKind -> list Frame) (s : Process)
    (q' : MessageKind -> list Frame) (s' : Process) : Prop :=
  match l with
  | LReceive _ => pr_phase s' = pr_phase s /\ pr_shutdown s' = pr_shutdown s
  | LSignal => pr_phase s' = pr_phase s /\ pr_shutdown s' = true /\ q' = q
  | LStep _ =>
      pr_shutdown s' = pr_shutdown s /\
      match pr_phase s with
      | PHead => pr_phase s' = (if pr_shutdown s then PLeaving else PQueue kNewOrder 0) /\ q' = q
      | PQueue k processed =>
          match q k with
          | [] => pr_phase s' = after_queue k processed /\ q' = q
          | f :: rest => pr_phase s' = PQueue k (u64 (processed + 1)) /\ q' = dequeue k rest q
          end
      | PBlock _ => pr_phase s' = PStatus /\ q' = q
      | PStatus => pr_phase s' = PHead /\ q' = q
      | PLeaving => pr_phase s' = PExited (Ok 0) /\ q' = q
      | PExited _ => True
      end
  end.

Lemma loop_step_moves now q s :
  live q s -> exit_code s = None ->
  exists q' s', loop_step now s = Some s' /\ live q' s' /\ moves (LStep now) q s q' s' /\ advances (LStep now) q s q' s'.
Proof.
  intros Hl Hc. unfold advances.
  assert (Ha : accepted_at (LStep now) s = []) by (unfold accepted_at; by rewrite Hc).
  assert (Hh : match pr_phase s with PQueue _ _ => True | _ => handled_at (LStep now) s = [] end).
  { unfold handled_at. by destruct (pr_phase s). }
  destruct (pr_phase s) as [|k processed|processed| | |code] eqn:Hph.
  2: { destruct (queue_step_moves k processed now q s Hl Hph) as (q' & s' & E & H1 & H2 & H3 & H4). by exists q', s'. }
  5: { unfold exit_code in Hc. by rewrite Hph in Hc. }
  all: unfold loop_step; rewrite Hph; destruct Hl as [Hp Hv He [snaps Hs] Ht Hf]; rewrite Hc in Ht.
  - exists q. eexists. split; [done|].
    assert (Hw : forall w, wal_is w s -> wal_is w (if pr_shutdown s
      then say ["Shutdown signal received, flushing state..."] (at_phase PLeaving s) else at_phase (PQueue kNewOrder 0) s)).
    { intros w. unfold wal_is. rewrite Hc. by destruct (pr_shutdown s). }
    split; [|split; [by apply moves_nothing|by destruct (pr_shutdown s) eqn:Esd]].
    destruct (pr_shutdown s); split; cbn; by eauto.
  - destruct (turn_end (pr_daemon s) processed snaps Hs) as (d & E & Em & Ew & Ei & Hs').
    exists q, (at_phase PStatus (with_daemon d s)). split; [|split; [|split; [|done]]].
    + destruct (processed >? 0); [by rewrite E|]. injection E as <-. by destruct s.
    + split; cbn; [by rewrite Ei|by rewrite Ei|by rewrite Em|done|done|done].
    + apply moves_nothing; [done|done|]. intros w. unfold wal_is. rewrite Hc. cbn. by rewrite Ew.
  - destruct (report_status_spec now s) as (Rd & Rf & Rt & Rs).
    exists q. eexists. split; [done|]. split; [|split; [|by split]].
    + split; cbn; rewrite ?Rd, ?Rf; try done; [by exists snaps|by apply Rt].
    + apply moves_nothing; [done|done|]. intros w. unfold wal_is. rewrite Hc. cbn. by rewrite Rd.
  - destruct (stop_rel _ _ _ Ht) as (t & Et & Ht').
    assert (Es : stop_process s = mkProcess (shutdown (pr_daemon s)) t ∅ (pr_last_status s) (pr_console s)
      (pr_shutdown s) (pr_phase s)) by (unfold stop_process; by rewrite Et).
    exists q. eexists. split; [done|]. rewrite Es. split; [|split; [|by split]].
    + split; cbn; try done. by exists snaps.
    + apply moves_nothing; [done|done|]. intros w. unfold wal_is. rewrite Hc. cbn. by intros <-.
Qed.

Lemma process_step_moves l q s :
  live q s ->
  exists q' s', process_step l s = Some s' /\ live q' s' /\ moves l q s q' s' /\
    (exit_code s = None -> advances l q s q' s').
Proof.
  intros Hl. unfold process_step. destruct (exit_code s) as [code|] eqn:Hc.
  { exists q, s. split; [done|]. split; [done|]. split; [|done]. apply moves_nothing; [|  |done].
    - unfold accepted_at. by rewrite Hc.
    - unfold handled_at, exit_code in *. destruct l; [done..|]. by destruct (pr_phase s). }
  destruct l as [r| |now].
  - destruct (receive_moves r q s Hl Hc) as (q' & H1 & H2). exists q', (receive r s). split; [done|].
    split; [done|]. split; [done|]. intros _. unfold receive, advances. by destruct (quic_receive _ _ _).
  - exists q, (handle_shutdown_signal s). split; [done|]. split; [|split; [|done]].
    + destruct Hl; by split.
    + apply moves_nothing; [unfold accepted_at; by rewrite Hc|done|]. intros w. unfold wal_is, exit_code. done.
  - destruct (loop_step_moves now q s Hl Hc) as (q' & s' & H1 & H2 & H3 & H4). by exists q', s'.
Qed.

(** Along an interleaving: the process goes on, the queues connect what was
    accepted to what was handled, the log has what was handled. *)
Definition ran (ls : list Label) (q : MessageKind -> list Frame) (s : Process)
    (q' : MessageKind -> list Frame) (s' : Process) : Prop :=
  (forall k, k <> kHeartbeat ->
     q k ++ List.filter (is_kind k) (accepted_in ls s) = work_of k (handled_in ls s) ++ q' k) /\
  (forall w, wal_is w s -> wal_is (append_all (wal_entries (handled_in ls s)) w) s') /\
  Forall queued (handled_in ls s) /\
  (forall u, v = Some u -> Forall (fun f => u (fr_header f) (fr_payload f) = true) (accepted_in ls s)).

Lemma process_run_spec ls : forall q s,
  live q s -> exists q' s', process_run ls s = Some s' /\ live q' s' /\ ran ls q s q' s'.
Proof.
  induction ls as [|l ls IH]; intros q s Hl.
  { exists q, s. split; [done|]. split; [done|]. split; [|split; [done|by repeat constructor]]. intros k _. by rewrite app_nil_r. }
  destruct (process_step_moves l q s Hl) as (q1 & s1 & E & Hl1 & (M1 & M2 & M3 & M4) & _).
  destruct (IH q1 s1 Hl1) as (q' & s' & Er & Hl' & R1 & R2 & R3 & R4). exists q', s'.
  cbn [process_run]. rewrite E. split; [done|]. split; [done|]. unfold ran. cbn [collect]. rewrite E.
  split; [|split; [|split]].
  - intros k Hk. rewrite List.filter_app, app_assoc, M1, work_of_app, <- !app_assoc by done. f_equal. by apply R1.
  - intros w Hw. unfold append_all, wal_entries. rewrite map_app, foldl_app. by apply R2, M2.
  - by apply Forall_app.
  - intros u Hu. apply Forall_app. split; [|by apply R4]. eapply Forall_impl; [exact M4|].
    intros f. unfold authentic. by rewrite (lv_verifier _ _ Hl), Hu.
Qed.
End Running.

(** ** From the command line to the exit *)

(** What a launch needs: at most one argument, a configuration that loads,
    libsodium, queues of depths that are powers of two, an endpoint that can be
    bound, a log of whole records, a readable snapshot file (or none), and a chain
    id that is a number if it is given. *)
Record launchable `{Config.TomlLibrary} (verify : Signature -> bytes -> PublicKey -> bool) (env : Environment)
    (cfg : Config.EngineConfig) (a : Authenticator) (p : IngressPipeline) (log : list WalRecord) : Prop := {
  la_args : (length (env_args env) <= 1)%nat;
  la_config : exists console, load_configuration env = (console, Some cfg);
  la_auth : make_authenticator env = Ok a;
  la_depths : 0 <= Config.new_order_queue_depth (Config.ingress cfg) /\
              0 <= Config.cancel_queue_depth (Config.ingress cfg) /\
              0 <= Config.replace_queue_depth (Config.ingress cfg);
  la_ingress : boot_ingress cfg (frame_verifier verify env a) = Ok p;
  la_endpoint : starts (env_sockets env) (Config.endpoint (Config.transport cfg)) = true;
  la_log : Forall record_ok log /\ env_wal env (Config.wal_path (Config.persistence cfg)) = encode_log log;
  la_snapshots : exists snaps,
    holds (mkStore true (env_snapshots env (Config.snapshot_dir (Config.persistence cfg))) default_options) snaps;
  la_disk : prepare_disk env (Config.persistence cfg) = Ok ();
  la_chain : exists id, chain_id_of env = Ok id }.

Lemma boot_ingress_verifier cfg v p : boot_ingress cfg v = Ok p -> verifier p = v.
Proof.
  unfold boot_ingress. destruct new_pipeline as [p0|]; [|done]. cbn [mbind result_bind]. unfold configure.
  destruct (make_ring (new_order_queue_depth _)); [|done]. destruct (make_ring (cancel_queue_depth _)); [|done].
  destruct (make_ring (replace_queue_depth _)); [|done]. by intros [= <-].
Qed.

(** Starting a transport whose endpoint can be bound. *)
Lemma quic_starts os uri (cb : Frame -> IngressPipeline -> IngressPipeline) :
  starts os uri = true ->
  exists q fds, quic_start os uri cb new_quic ∅ = Some (q, fds, Ok true) /\ transport_rel q fds (Some cb).
Proof.
  intros Hs. destruct (start_rel os uri cb new_udp eq_refl eq_refl eq_refl) as (t & fds & r & E & Er & Hrel).
  rewrite Hs in Er, Hrel. exists (mkQuic (Some t) uri), fds. split; [|apply Hrel].
  unfold quic_start. cbn [quic_transport new_quic mbind option_bind]. rewrite E. cbn. by rewrite Er.
Qed.

Section Launched.
Context `{Config.TomlLibrary}.
Context (verify : Signature -> bytes -> PublicKey -> bool).

Abbreviation depths cfg := (depth_of (ingress_config (Config.ingress cfg))).

(** A process at the start of the event loop: nothing is queued, and nothing was
    appended to the log since the daemon was booted. *)
Definition entered (env : Environment) (cfg : Config.EngineConfig) (a : Authenticator) (log : list WalRecord)
    (s : Process) : Prop :=
  live (depths cfg) (frame_verifier verify env a) (fun _ => []) s /\
  pr_phase s = PHead /\ pr_shutdown s = false /\ writer_rep (dm_wal (pr_daemon s)) log [] (next_after log) /\
  exists id, chain_id_of env = Ok id /\
    boot cfg (frame_verifier verify env a) (encode_log log)
      (env_snapshots env (Config.snapshot_dir (Config.persistence cfg))) id = Some (Ok (pr_daemon s)).

(** A launch reaches the loop, whatever happens later. *)
Lemma main_enters_loop env cfg a p log :
  launchable verify env cfg a p log ->
  exists s, (forall ls, main verify env ls = run_process ls s) /\ entered env cfg a log s.
Proof.
  intros [Harg [console Hc] Ha (D1 & D2 & D3) Hp Hs [Hlog Hw] [snaps Hsn] Hdk [id Hid]].
  destruct (quic_starts _ _ submit_callback Hs) as (q & fds & Eq & Hq).
  destruct (boot_runs cfg (frame_verifier verify env a) log
    (env_snapshots env (Config.snapshot_dir (Config.persistence cfg))) id p Hlog Hp) as (d & Ed & Ei & Es).
  eexists. split.
  - intros ls. unfold main. destruct (Nat.ltb_spec 1 (length (env_args env))) as [|_]; [lia|]. rewrite Hc.
    unfold start_process. rewrite Ha, Hp, Eq. cbn [mbind option_bind].
    unfold boot_process. rewrite Hdk, Hid, Hw, Ed. cbn [mbind option_bind]. reflexivity.
  - destruct (boot_spec _ _ _ _ _ _ Hlog Ed) as [He _ Hwal _ _]. set (b := opening_books _ _) in *. unfold entered.
    split; [split|split; [done|split; [done|split; [|by eauto]]]]; cbn [pr_daemon pr_transport pr_fds enter_loop say].
    + rewrite Ei. unfold boot_ingress in Hp. destruct new_pipeline as [p0|] eqn:E0; [|done]. cbn [mbind result_bind] in Hp.
      by apply (configure_rep _ _ p0 p) in Hp as [Hp _].
    + rewrite Ei. by apply boot_ingress_verifier in Hp.
    + by exists b.
    + rewrite Es. by exists snaps.
    + exact Hq.
    + done.
    + by rewrite Hwal.
Qed.

(** The frames handled are sound. *)
Lemma accepted_at_ok l s : label_ok l -> Forall sound_frame (accepted_at l s).
Proof.
  intros Hl. unfold accepted_at. destruct (exit_code s); [done|]. destruct l; [|done..].
  destruct (quic_is_running _); [by apply admitted_ok|done].
Qed.

Lemma accepted_in_ok ls : forall s, Forall label_ok ls -> Forall sound_frame (accepted_in ls s).
Proof.
  induction ls as [|l ls IH]; intros s Hls; [constructor|]. apply Forall_cons in Hls as [Hl Hls]. cbn [collect].
  apply Forall_app. split; [by apply accepted_at_ok|]. by destruct (process_step l s); [apply IH|].
Qed.

Lemma handled_queued (acc : list Frame) (han : list Work) (waiting : MessageKind -> list Frame) :
  (forall k, k <> kHeartbeat -> List.filter (is_kind k) acc = work_of k han ++ waiting k) ->
  Forall queued han -> Forall sound_frame acc ->
  Forall (fun x : Work => is_kind x.1 x.2 = true /\ sound_frame x.2) han.
Proof.
  intros Hq Hk Hok. rewrite Forall_forall in Hk. rewrite Forall_forall in Hok. rewrite Forall_forall.
  intros [k f] Hx. pose proof (Hk _ Hx) as Hkf. cbn in Hkf.
  assert (Hf : f ∈ List.filter (is_kind k) acc).
  { rewrite Hq by done. apply elem_of_app. left. by apply work_of_elem. }
  apply list_elem_of_In, filter_In in Hf as [Hin Hf]. split; [done|]. by apply Hok, list_elem_of_In.
Qed.

Lemma handled_sound acc han (waiting : MessageKind -> list Frame) :
  (forall k, k <> kHeartbeat -> List.filter (is_kind k) acc = work_of k han ++ waiting k) ->
  Forall queued han -> Forall sound_frame acc -> Forall (fun x : Work => sound_frame x.2) han.
Proof. intros H1 H2 H3. eapply Forall_impl; [by eapply handled_queued|]. by intros x []. Qed.

Lemma handled_in_ok v ls s q' s' :
  Forall label_ok ls -> ran v ls (fun _ => []) s q' s' ->
  Forall (fun x : Work => sound_frame x.2) (handled_in ls s).
Proof. intros Hls (R1 & _ & R3 & _). eapply handled_sound; [exact R1|done|by apply accepted_in_ok]. Qed.

(** What a run from the start of the loop leaves: on the disk, the old log and
    records of the frames handled, all of them once the process has exited. *)
Lemma run_leaves env cfg a log ls s0 :
  entered env cfg a log s0 -> Forall record_ok log -> Forall label_ok ls ->
  exists q s new n, process_run ls s0 = Some s /\
    live (depths cfg) (frame_verifier verify env a) q s /\
    ran (frame_verifier verify env a) ls (fun _ => []) s0 q s /\
    map (fun r => wal_entry (wr_payload r)) new = map (fun x : Work => entry_of x.2) (handled_in ls s0) /\
    Forall record_ok (log ++ take n new) /\ wt_file (dm_wal (pr_daemon s)) = encode_log (log ++ take n new) /\
    (is_Some (exit_code s) -> (length new <= n)%nat).
Proof.
  intros (Hlive & Hph & _ & Hw & _) Hlog Hls. destruct (process_run_spec _ _ ls _ s0 Hlive) as (q & s & Er & Hs & Hran).
  pose proof (handled_in_ok _ ls s0 q s Hls Hran) as Hok. pose proof Hran as (_ & R2 & _ & _).
  destruct (log_reads_back (dm_wal (pr_daemon s0)) log (handled_in ls s0) Hlog Hw Hok) as (new & n & Hn & Hrec & Hf & Hsy).
  assert (Hwal : wal_is (append_all (wal_entries (handled_in ls s0)) (dm_wal (pr_daemon s0))) s).
  { apply R2. unfold wal_is, exit_code. by rewrite Hph. }
  exists q, s, new, (match exit_code s with Some _ => length new | None => n end).
  split; [done|]. split; [done|]. split; [done|]. split; [done|].
  split; [rewrite Forall_app in *; split; [by apply Hrec|by apply Forall_take, Hrec]|].
  unfold wal_is in Hwal. destruct (exit_code s); rewrite Hwal.
  - split; [by rewrite take_ge by done|]. intros _. lia.
  - split; [done|]. by intros [].
Qed.

(** C4: the process logs exactly what it handles, and stops cleanly.  Launched
    with a configuration that loads, under every interleaving of the transport's
    thread, the signal and the main thread: the process is never stuck and no
    exception ends it; every frame accepted was verified against the registered
    key; of each kind the frames handled are the first ones accepted, in order;
    the log file always reads as the old records followed by some of the frames
    handled, in the order they were; and once the process ends, which is with 0,
    by all of them, with the transport stopped and its socket closed. *)
Theorem process_logs_what_it_handles env cfg a p log :
  launchable verify env cfg a p log ->
  exists s0, pr_phase s0 = PHead /\ pr_shutdown s0 = false /\
    forall ls, Forall label_ok ls ->
    let accepted := accepted_in ls s0 in
    let handled := handled_in ls s0 in
    exists s new n, main verify env ls = Some (mkFinished (exit_code s) (pr_console s) (Some s)) /\
      Forall (fun f => auth_verifier verify (env_padding env) a (fr_header f) (fr_payload f) = true) accepted /\
      (forall k, k <> kHeartbeat -> exists waiting,
         List.filter (is_kind k) accepted = work_of k handled ++ waiting) /\
      map (fun r => wal_entry (wr_payload r)) new = map (fun x : Work => entry_of x.2) handled /\
      read_all (wt_file (dm_wal (pr_daemon s))) = Some (Ok (log ++ take n new)) /\
      match exit_code s with
      | None => quic_is_running (pr_transport s) = true
      | Some code => code = Ok 0 /\ (length new <= n)%nat /\
          quic_is_running (pr_transport s) = false /\ pr_fds s = ∅
      end.
Proof.
  intros Hl. destruct (main_enters_loop env cfg a p log Hl) as (s0 & Hm & Hent). pose proof Hent as (_ & Hph & Hsd & _).
  exists s0. split; [done|]. split; [done|]. intros ls Hls. cbv zeta.
  destruct (run_leaves env cfg a log ls s0 Hent) as (q & s & new & n & Er & Hs & (R1 & _ & _ & R4) & Hn & Hrec & Hf & Hx);
    [by destruct Hl as [_ _ _ _ _ _ [] _ _ _]|done|].
  exists s, new, n. rewrite Hm. unfold run_process. rewrite Er. split; [done|]. split; [by apply R4|].
  split; [intros k Hk; exists (q k); by apply R1|]. split; [done|]. split; [rewrite Hf; by apply read_all_whole|].
  destruct Hs as [_ _ _ _ Ht Hp']. unfold quic_is_running, udp_is_running. destruct (exit_code s) as [code|] eqn:Hc.
  - destruct Ht as (t & -> & Hr & _ & _ & Hfd). split; [|by eauto].
    unfold exit_code in Hc. destruct (pr_phase s); try done. cbn in Hp'. congruence.
  - destruct Ht as (t & -> & Hr & _). done.
Qed.
End Launched.

(** ** A launch, for the witnesses and the examples *)
Module DemoLaunch.
#[local] Existing Instance Config.Toml.library.

Definition env : Environment :=
  mkEnvironment "tradecored" [] (Some "/root") (Some "0x1b77") (fun _ => false) (fun _ => []) (fun _ => mkDisk None None) (fun _ => true) true 0 true
    0 ([7], [7]) [0; 0; 0; 0; 0; 0] willing 0.

Definition cfg : Config.EngineConfig := Config.lr_config (Config.load_from_string Config.generate_default).

Definition authenticator : Authenticator := register_account 1 [7] new_authenticator.

Definition no_pipeline : IngressPipeline :=
  mkPipeline default_config None no_stats ∅ (mkRing [] 0 0 0) (mkRing [] 0 0 0) (mkRing [] 0 0 0).

Definition pipeline : IngressPipeline :=
  match boot_ingress cfg (frame_verifier toy_verify env authenticator) with Ok p => p | Throw _ => no_pipeline end.

(** A signed frame of account 1, and one whose signature is wrong. *)
Definition header : FrameHeader := mkHeader 1 5 1000 0 kNewOrder.
Definition signed : Frame :=
  mkFrame header (sign_payload toy_sign [7] (frame_header_memory header (env_padding env))
                    (encode_new_order (mkNewOrder kBuy 10 100 0))).
Definition forged : Frame :=
  mkFrame header (sign_payload toy_sign [8] (frame_header_memory header (env_padding env)) [1]).

Definition datagram_of (f : Frame) : Received := RDatagram (wire_of 0 f ++ fr_payload f) 9 100.

(** Four returns of [recvfrom], of which one is a frame to accept. *)
Definition arrivals : list Label :=
  map LReceive [datagram_of signed; RError; datagram_of forged; RDatagram [1; 2; 3] 9 100].

(** [n] steps of the main thread, two seconds after the start. *)
Definition turns (n : nat) : list Label := replicate n (LStep 2000000000).

(** A turn that handles the frame, the signal, and the shutdown. *)
Definition labels : list Label := arrivals ++ turns 7 ++ LSignal :: turns 2.

Lemma bytes_by_check b : forallb (fun x => (0 <=? x) && (x <? 256)) b = true -> bytes_ok b.
Proof.
  rewrite forallb_forall, Forall_forall. intros H x Hx. apply list_elem_of_In, H in Hx.
  apply andb_true_iff in Hx as []. unfold in_u. lia.
Qed.

Definition label_check (l : Label) : bool :=
  match l with LReceive (RDatagram b _ _) => forallb (fun x => (0 <=? x) && (x <? 256)) b | _ => true end.

Lemma labels_by_check ls : forallb label_check ls = true -> Forall label_ok ls.
Proof.
  induction ls as [|l ls IH]; [done|]. cbn [forallb]. intros [Hl Hls]%andb_true_iff. constructor; [|by apply IH].
  destruct l as [[]| |]; [done|by apply bytes_by_check|done..].
Qed.

Lemma loads : load_configuration env = (["No config file found, using defaults"], Some cfg).
Proof.
  unfold load_configuration, cfg. replace (find_config_path env) with "" by by vm_compute.
  replace (Config.success _) with true by by vm_compute. done.
Qed.

Lemma queues_made : boot_ingress cfg (frame_verifier toy_verify env authenticator) = Ok pipeline.
Proof.
  unfold pipeline. destruct (boot_ingress _ _) as [|e] eqn:E; [done|].
  assert (H : throws (boot_ingress cfg (frame_verifier toy_verify env authenticator)) = false) by by vm_compute.
  by rewrite E in H.
Qed.

Lemma launch : launchable toy_verify env cfg authenticator pipeline [].
Proof.
  split; [cbn; lia|eexists; exact loads|done|by vm_compute|exact queues_made|by vm_compute| | |by vm_compute|].
  - by split; [constructor|vm_compute].
  - exists []. by split; [|split; [constructor|vm_compute]].
  - exists 7031. by vm_compute.
Qed.
End DemoLaunch.

Lemma process_logs_what_it_handles_witness :
  exists s n,
    main (H := Config.Toml.library) toy_verify DemoLaunch.env DemoLaunch.labels =
      Some (mkFinished (exit_code s) (pr_console s) (Some s)) /\
    read_all (wt_file (dm_wal (pr_daemon s))) = Some (Ok ([] ++ n)).
Proof.
  destruct (process_logs_what_it_handles (H := Config.Toml.library) toy_verify DemoLaunch.env DemoLaunch.cfg
    DemoLaunch.authenticator DemoLaunch.pipeline [] DemoLaunch.launch) as (s0 & _ & _ & Hr).
  destruct (Hr DemoLaunch.labels) as (s & new & n & Hm & _ & _ & _ & Hread & _).
  - apply DemoLaunch.labels_by_check. by vm_compute.
  - exists s, (take n new). split; [exact Hm|exact Hread].
Defined.

(** What the process writes, with a configuration, a status line and a stop; the
    log then holds the frame that was accepted. *)
Example launch_console :
  (fun f => (fin_code f, fin_console f)) <$> main (H := Config.Toml.library) toy_verify DemoLaunch.env DemoLaunch.labels =
  Some (Some (Ok 0),
       ["No config file found, using defaults";
        "Config loaded successfully";
        "  Transport endpoint: quic://127.0.0.1:9000";
        "  Markets: 1";
        "  WAL path: " +:+ quoted "/var/lib/tradecore/events.wal";
        "  Auth: 1 registered accounts";
        "  Configuring market 1 (BTC-PERP)";
        "  RPC eth_chainId: 0x1b77";
        "  RPC eth_blockNumber: 0x0";
        "tradecored bootstrapped successfully";
        "Entering event loop. Press Ctrl+C to shut down.";
        "[status] block=1 ingress_accepted=1 frames=2 peers=1 wal_next=2";
        "Shutdown signal received, flushing state..."]).
Proof. by vm_compute. Qed.

Example launch_log :
  (f ← main (H := Config.Toml.library) toy_verify DemoLaunch.env DemoLaunch.labels;
   s ← fin_process f; r ← read_all (wt_file (dm_wal (pr_daemon s)));
   match r with Ok l => Some (map (fun r => wal_entry (wr_payload r)) l) | Throw _ => None end) =
  Some [entry_of DemoLaunch.signed].
Proof. by vm_compute. Qed.

(** A frame accepted while the process shuts down is counted, and lost: it is
    neither handled nor logged. *)
Example shutdown_loses_accepted :
  (fun s => (exit_code s, accepted (Ingest.stats (dm_ingress (pr_daemon s))), dm_block_number (pr_daemon s),
             wt_file (dm_wal (pr_daemon s)))) <$>
    (f ← main (H := Config.Toml.library) toy_verify DemoLaunch.env
           (LSignal :: DemoLaunch.turns 1 ++ DemoLaunch.arrivals ++ DemoLaunch.turns 1);
     fin_process f) = Some (Some (Ok 0), 1, 0, []).
Proof. by vm_compute. Qed.

(** A port that does not fit an [int] passes validation and ends the process with
    an exception. *)
Example long_port_terminates :
  let cfg := Config.mkEngineConfig (Config.mkTransportConfig "quic://127.0.0.1:99999999999")
    (Config.ingress DemoLaunch.cfg) (Config.matcher DemoLaunch.cfg) (Config.persistence DemoLaunch.cfg)
    (Config.telemetry DemoLaunch.cfg) (Config.markets DemoLaunch.cfg) in
  Config.validate cfg = [] /\
  fin_code <$> start_process toy_verify DemoLaunch.env cfg [] [] = Some (Some (Throw "stoi")).
Proof. by vm_compute. Qed.

(** The chain id: what follows a number is ignored, a sign wraps around. *)
Example chain_id_texts :
  map stoull ["7031"; "0x1B77"; " 017"; "12abc"; "-1"; "0x"; ""; "abc"; "18446744073709551616"] =
    [Ok 7031; Ok 7031; Ok 15; Ok 12; Ok (2 ^ 64 - 1); Ok 0; Throw "stoull"; Throw "stoull"; Throw "stoull"].
Proof. by vm_compute. Qed.

(** More than one argument is refused; an empty one counts as none. *)
Example arguments :
  let env args := mkEnvironment "tradecored" args None None (fun p => bool_decide (p = ".config/tradecore/tradecore.toml"))
    (fun _ => []) (fun _ => mkDisk None None) (fun _ => true) true 0 true 0 ([7], [7]) [] willing 0 in
  fin_code <$> main (H := Config.Toml.library) toy_verify (env ["a"; "b"]) [] = Some (Some (Ok 1)) /\
  find_config_path (env []) = ".config/tradecore/tradecore.toml" /\ find_config_path (env [""]) = "" /\
  fin_code <$> main (H := Config.Toml.library) toy_verify (env [""]) [LSignal; LStep 0; LStep 0] = Some (Some (Ok 0)).
Proof. by vm_compute. Qed.

(** A log or a directory that cannot be made ends the process before the loop,
    with the transport's thread running. *)
Example unusable_disk :
  let env dirs fopen := mkEnvironment "tradecored" [] None None (fun _ => false) (fun _ => []) (fun _ => mkDisk None None)
    dirs fopen 0 true 0 ([7], [7]) [] willing 0 in
  let code env := fin_code <$> main (H := Config.Toml.library) toy_verify env [] in
  code (env (fun _ => true) false) = Some (Some (Throw "failed to open WAL file")) /\
  code (env (fun p => negb (bool_decide (p = "/var/lib/tradecore"))) true) =
    Some (Some (Throw "filesystem error: cannot create directories")) /\
  code (env (fun _ => true) true) = Some None.
Proof. by vm_compute. Qed.

(** A log named without a directory needs the directory with the empty name. *)
Example parent_paths :
  map parent_path ["/var/lib/tradecore/events.wal"; "events.wal"; "/events.wal"; "logs//events.wal"; "logs/"; "/"] =
  ["/var/lib/tradecore"; ""; "/"; "logs"; "logs"; "/"].
Proof. by vm_compute. Qed.
