(* ===== verification/MainLive.v ===== *)
(** * Progress of the process

    Under every interleaving: a frame that is accepted is handled after as many
    steps of the main thread as there are frames before it, and five more; a
    process that is told to stop ends after as many steps as frames are left, and
    seven more. *)
From S2P Require Import Config.
From S2P Require Import Prelude Types Bytes Matcher Risk SpscRing Ingest IngestProps Transport Wal WalProps.
From S2P Require Import Snapshot Api Auth Daemon Handlers DaemonProps DaemonRuns Main MainProps.
Open Scope string_scope.
Open Scope list_scope.
Open Scope nat_scope.

(** The steps of the main thread in an interleaving. *)
Definition is_step (l : Label) : bool := match l with LStep _ => true | _ => false end.

Definition steps (ls : list Label) : nat := length (List.filter is_step ls).

Definition no_signal (ls : list Label) : Prop := Forall (fun l => l <> LSignal) ls.

(** The frames that wait. *)
Definition total (q : MessageKind -> list Frame) : nat :=
  length (q kNewOrder) + length (q kCancel) + length (q kReplace).

Lemma total_kind q k : k <> kHeartbeat -> length (q k) <= total q.
Proof. unfold total. destruct k; [lia..|done]. Qed.

Lemma total_dequeue q k f rest : k <> kHeartbeat -> q k = f :: rest -> total q = S (total (dequeue k rest q)).
Proof.
  intros Hk Hq. unfold total, dequeue. destruct k; [| | |done];
    repeat (first [rewrite bool_decide_true by done|rewrite bool_decide_false by done]);
    rewrite Hq; cbn [length]; lia.
Qed.

Lemma total_filter l : Forall (fun f => is_kind kHeartbeat f = false) l ->
  total (fun k => List.filter (is_kind k) l) = length l.
Proof.
  unfold total. induction 1 as [|f l Hf H IH]; [done|]. cbn [List.filter].
  assert (Hk : forall k, is_kind k f = bool_decide (fh_kind (fr_header f) = k)) by done. rewrite !Hk in *.
  destruct (fh_kind (fr_header f));
    repeat first [rewrite bool_decide_true in * by done|rewrite bool_decide_false in * by done]; cbn [length]; lia || done.
Qed.

Lemma total_work l : Forall queued l -> total (fun k => work_of k l) = length l.
Proof.
  unfold total, work_of. rewrite !length_map. induction 1 as [|[k f] l Hk H IH]; [done|]. cbn [List.filter fst] in *.
  destruct k; [| | |done];
    repeat first [rewrite bool_decide_true by done|rewrite bool_decide_false by done]; cbn [length]; lia.
Qed.

Lemma total_app q q' : total (fun k => q k ++ q' k) = total q + total q'.
Proof. unfold total. rewrite !length_app. lia. Qed.

Lemma total_ext q q' : (forall k, k <> kHeartbeat -> q k = q' k) -> total q = total q'.
Proof. intros E. unfold total. by rewrite !E. Qed.

Lemma admitted_kinds r p : Forall (fun f => is_kind kHeartbeat f = false) (admitted r p).
Proof.
  destruct r as [|data peer now]; cbn; [done|]. destruct (parse_frame _) as [f|]; [|done].
  destruct (is_kind kHeartbeat f) eqn:E; [by rewrite andb_false_r|]. destruct (_ && _); by repeat constructor.
Qed.

Lemma accepted_at_kinds l s : Forall (fun f => is_kind kHeartbeat f = false) (accepted_at l s).
Proof.
  unfold accepted_at. destruct (exit_code s); [done|]. destruct l; [|done..].
  destruct (quic_is_running _); [apply admitted_kinds|done].
Qed.

Lemma accepted_in_kinds ls : forall s, Forall (fun f => is_kind kHeartbeat f = false) (accepted_in ls s).
Proof.
  induction ls as [|l ls IH]; intros s; cbn [collect]; [done|]. apply Forall_app. split; [apply accepted_at_kinds|].
  by destruct (process_step l s).
Qed.

Lemma collect_app {A} (obs : Label -> Process -> list A) ls ls' : forall s s1, process_run ls s = Some s1 ->
  collect obs (ls ++ ls') s = collect obs ls s ++ collect obs ls' s1.
Proof.
  induction ls as [|l ls IH]; intros s s1 E; [by injection E as ->|]. cbn [collect app process_run] in *.
  destruct (process_step l s) as [s2|]; [|done]. cbn [mbind option_bind] in E. by rewrite (IH s2 s1 E), app_assoc.
Qed.

Lemma process_run_app ls ls' s : process_run (ls ++ ls') s = s1 ← process_run ls s; process_run ls' s1.
Proof. revert s. induction ls as [|l ls IH]; intros s; [done|]. cbn. destruct (process_step l s); [apply IH|done]. Qed.

Lemma process_run_exited ls s c : exit_code s = Some c -> process_run ls s = Some s.
Proof.
  intros Hc. induction ls as [|l ls IH]; [done|]. cbn [process_run]. unfold process_step. by rewrite Hc.
Qed.

Lemma prefix_length_eq_app {A} (l k m n : list A) : l ++ k = m ++ n -> length l <= length m -> l `prefix_of` m.
Proof.
  intros E Hlen. exists (drop (length l) m).
  rewrite <- (take_drop (length l) m) at 1. f_equal.
  pose proof (f_equal (take (length l)) E) as Et. rewrite take_app_length, take_app_le in Et by done. done.
Qed.

Section Progress.
Context (dep : MessageKind -> Z) (v : AuthVerifier).

Lemma moves_total l q s q' s' : moves l q s q' s' ->
  total q' + length (handled_at l s) = total q + length (accepted_at l s).
Proof.
  intros (M1 & _ & M3 & _). pose proof (total_ext _ _ M1) as E. rewrite !total_app in E.
  rewrite total_filter in E by apply accepted_at_kinds. rewrite total_work in E by done. lia.
Qed.

Lemma ran_total ls q s q' s' : ran v ls q s q' s' ->
  total q' + length (handled_in ls s) = total q + length (accepted_in ls s).
Proof.
  intros (R1 & _ & R3 & _). pose proof (total_ext _ _ R1) as E. rewrite !total_app in E.
  rewrite total_filter in E by apply accepted_in_kinds. rewrite total_work in E by done. lia.
Qed.

Lemma live_code q s c : live dep v q s -> exit_code s = Some c -> c = Ok 0%Z.
Proof. intros Hl. pose proof (lv_phase _ _ _ _ Hl) as Hp. unfold exit_code. by destruct (pr_phase s); intros [= ->]. Qed.

(** ** The end *)

(** The steps from a phase to the exit, when the queues are empty and the signal
    has arrived. *)
Definition steps_to_exit (p : Phase) : nat :=
  match p with
  | PQueue kNewOrder _ => 7
  | PQueue kCancel _ => 6
  | PQueue _ _ => 5
  | PBlock _ => 4
  | PStatus => 3
  | PHead => 2
  | PLeaving => 1
  | PExited _ => 0
  end.

Lemma run_exits ls : forall q s,
  live dep v q s -> pr_shutdown s = true ->
  total q + steps_to_exit (pr_phase s) + length (accepted_in ls s) <= steps ls ->
  exists s', process_run ls s = Some s' /\ exit_code s' = Some (Ok 0%Z).
Proof.
  induction ls as [|l ls IH]; intros q s Hl Hsd Hn.
  - exists s. split; [done|]. destruct (exit_code s) as [c|] eqn:Hc; [by rewrite (live_code _ _ _ Hl Hc)|].
    unfold exit_code in Hc. cbn in Hn. destruct (pr_phase s) as [|[]| | | |]; cbn in Hn; lia || done.
  - destruct (exit_code s) as [c|] eqn:Hc.
    { exists s. split; [by eapply process_run_exited|]. by rewrite Hc, (live_code _ _ _ Hl Hc). }
    destruct (process_step_moves dep v l q s Hl) as (q1 & s1 & E & Hl1 & Hm & Ha).
    pose proof (moves_total _ _ _ _ _ Hm) as Ht. cbn [process_run collect] in *. rewrite E in *. cbn [mbind option_bind] in *.
    rewrite length_app in Hn.
    specialize (Ha Hc). unfold steps in *. cbn [List.filter] in Hn.
    destruct l as [r| |now]; cbn [is_step length] in Hn; cbn [advances] in Ha.
    + destruct Ha as [Hp Hs]. change (handled_at (LReceive r) s) with (@nil Work) in Ht. cbn [length] in Ht.
      apply (IH q1 s1 Hl1); [congruence|]. rewrite Hp. lia.
    + destruct Ha as (Hp & Hs & ->). apply (IH q s1 Hl1 Hs). rewrite Hp. lia.
    + destruct Ha as [Hs Ha]. rewrite Hsd in *. change (accepted_at (LStep now) s) with (accepted_at (LStep now) s) in Hn.
      assert (Hacc : accepted_at (LStep now) s = []) by (unfold accepted_at; by rewrite Hc). rewrite Hacc in *. cbn [length] in *.
      apply (IH q1 s1 Hl1 Hs).
      destruct (pr_phase s) as [|k n|n| | |c] eqn:Hph; [..|by unfold exit_code in Hc; rewrite Hph in Hc];
        try (destruct Ha as [-> ->]; cbn [steps_to_exit] in *; lia).
      pose proof (lv_phase _ _ _ _ Hl) as Hk. rewrite Hph in Hk. cbn in Hk.
      destruct (q k) as [|f rest] eqn:Eq; destruct Ha as [-> ->].
      * destruct k; cbn [after_queue steps_to_exit] in *; lia || done.
      * pose proof (total_dequeue q k f rest Hk Eq). destruct k; cbn [steps_to_exit] in *; lia || done.
Qed.

(** ** A frame that waits *)
Definition index (k : MessageKind) : nat :=
  match k with kNewOrder => 0 | kCancel => 1 | kReplace => 2 | kHeartbeat => 3 end.

(** The place of a phase in a turn, and the steps from there to a queue when the
    queues before it are empty. *)
Definition place (p : Phase) : nat :=
  match p with PQueue k _ => index k | PBlock _ => 3 | PStatus => 4 | _ => 5 end.

Definition steps_to (k : MessageKind) (p : Phase) : nat :=
  if place p <=? index k then index k - place p else index k + 6 - place p.

(** The main thread is in the loop and will stay there. *)
Definition looping (s : Process) : Prop :=
  pr_shutdown s = false /\ match pr_phase s with PLeaving | PExited _ => False | _ => True end.

Lemma run_handles k ls : k <> kHeartbeat -> forall q s t,
  live dep v q s -> looping s -> no_signal ls -> t <= length (q k) ->
  total q + steps_to k (pr_phase s) + length (accepted_in ls s) <= steps ls ->
  t <= length (work_of k (handled_in ls s)).
Proof.
  intros Hk. induction ls as [|l ls IH]; intros q s t Hl [Hsd Hph] Hns Ht Hn.
  { pose proof (total_kind q k Hk). cbn in Hn. lia. }
  apply Forall_cons in Hns as [Hl1 Hns]. destruct (decide (t = 0)) as [->|Ht0]; [lia|].
  assert (Hc : exit_code s = None) by (unfold exit_code; by destruct (pr_phase s)).
  destruct (process_step_moves dep v l q s Hl) as (q1 & s1 & E & Hlive & Hm & Ha). specialize (Ha Hc).
  pose proof (moves_total _ _ _ _ _ Hm) as Htot. destruct Hm as (M1 & _).
  specialize (M1 k Hk). apply (f_equal length) in M1. rewrite !length_app in M1.
  cbn [collect] in *. rewrite E in *. rewrite work_of_app, length_app in *. rewrite ?length_app in Hn.
  enough (t - length (work_of k (handled_at l s)) <= length (work_of k (handled_in ls s1))) by lia.
  unfold steps in *. cbn [List.filter] in Hn.
  destruct l as [r| |now]; cbn [is_step length] in Hn; cbn [advances] in Ha; [|done|].
  - destruct Ha as [Hp Hs]. change (handled_at (LReceive r) s) with (@nil Work) in *. cbn [length work_of List.filter map] in *.
    apply (IH q1 s1); [done|split; by rewrite ?Hp, ?Hs|done|lia|rewrite Hp; lia].
  - destruct Ha as [Hs Ha]. rewrite Hsd in *.
    assert (Hacc : accepted_at (LStep now) s = []) by (unfold accepted_at; by rewrite Hc). rewrite Hacc in *. cbn [length List.filter] in *.
    enough (looping s1 /\ total q1 + steps_to k (pr_phase s1) < total q + steps_to k (pr_phase s)) as [Hloop Hlt]
      by (apply (IH q1 s1); [done|done|done|lia|lia]).
    unfold looping. rewrite Hs. unfold steps_to in *.
    destruct (pr_phase s) as [|j n|n| | |c] eqn:Hp; try done;
      try (destruct Ha as [-> ->]; split; [done|]; cbn [place]; destruct k; cbn; lia || done).
    pose proof (lv_phase _ _ _ _ Hl) as Hj. rewrite Hp in Hj. cbn in Hj.
    destruct (q j) as [|f rest] eqn:Eq; destruct Ha as [-> ->].
    + split; [by destruct j|]. assert (j <> k) by (intros ->; rewrite Eq in Ht; cbn in Ht; lia).
      destruct j, k; cbn; lia || done.
    + split; [done|]. pose proof (total_dequeue q j f rest Hj Eq). cbn [place] in *. lia.
Qed.
End Progress.

Lemma run_loops dep v ls : forall q s s',
  live dep v q s -> looping s -> no_signal ls -> process_run ls s = Some s' -> looping s'.
Proof.
  induction ls as [|l ls IH]; intros q s s' Hl Hs Hns E; [by injection E as <-|].
  apply Forall_cons in Hns as [Hl1 Hns]. cbn [process_run] in E.
  destruct (process_step_moves dep v l q s Hl) as (q1 & s1 & E1 & Hlive & _ & Ha). rewrite E1 in E.
  apply (IH q1 s1); [done| |done|done]. destruct Hs as [Hsd Hph].
  assert (Hc : exit_code s = None) by (unfold exit_code; by destruct (pr_phase s)). specialize (Ha Hc).
  destruct l as [r| |now]; cbn [advances] in Ha; [|done|].
  - destruct Ha as [Hp Hsd']. split; by rewrite ?Hp, ?Hsd'.
  - destruct Ha as [Hsd' Ha]. split; [by rewrite Hsd'|]. rewrite Hsd in Ha.
    destruct (pr_phase s) as [|k n|n| | |]; try done; try (by destruct Ha as [-> _]).
    destruct (q k); destruct Ha as [-> _]; [by destruct k|done].
Qed.

(** ** From the command line *)
Section Launched.
Context `{Config.TomlLibrary}.
Context (verify : Signature -> bytes -> PublicKey -> bool).

(** C5: no accepted frame is starved.  Launched with a configuration that loads
    and not told to stop, under every interleaving: every frame accepted in the
    first part of a run is handled in the second part, however it is interleaved
    with further arrivals, once the main thread has taken a step for every frame
    that waited, for every frame that arrived since, and five more. *)
Theorem accepted_frames_are_handled env cfg a p log :
  launchable verify env cfg a p log ->
  exists s0, (forall ls, main verify env ls = run_process ls s0) /\
    forall ls ls', no_signal (ls ++ ls') ->
    length (accepted_in (ls ++ ls') s0) - length (handled_in ls s0) + 5 <= steps ls' ->
    forall k, k <> kHeartbeat ->
    List.filter (is_kind k) (accepted_in ls s0) `prefix_of` work_of k (handled_in (ls ++ ls') s0).
Proof.
  intros Hla. destruct (main_enters_loop verify env cfg a p log Hla) as (s0 & Hm & Hlive & Hph & Hsd & _).
  exists s0. split; [done|]. intros ls ls' Hns Hn k Hk.
  destruct (process_run_spec _ _ ls _ s0 Hlive) as (q & s & Er & Hs & Hran).
  apply Forall_app in Hns as [Hns Hns'].
  rewrite !(collect_app _ ls ls' s0 s Er) in *.
  destruct (process_run_spec _ _ ls' _ s Hs) as (q' & s' & Er' & Hs' & Hran').
  assert (Hl0 : looping s0) by (split; [done|by rewrite Hph]).
  assert (Hloop : looping s) by exact (run_loops _ _ ls _ _ _ Hlive Hl0 Hns Er).
  pose proof (ran_total _ _ _ _ _ _ Hran) as Ht. change (total (fun _ => [])) with 0 in Ht. rewrite length_app in Hn.
  assert (Hst : steps_to k (pr_phase s) <= 5) by (unfold steps_to; destruct k, (pr_phase s) as [|[]| | | |]; cbn; lia || done).
  pose proof (run_handles _ _ k ls' Hk q s (length (q k)) Hs Hloop Hns' ltac:(lia) ltac:(lia)) as Hlen.
  destruct Hran as (R1 & _). destruct Hran' as (R1' & _). specialize (R1 k Hk). specialize (R1' k Hk). cbn [app] in R1.
  rewrite R1, work_of_app. apply prefix_app.
  eapply prefix_length_eq_app; [exact R1'|exact Hlen].
Qed.

(** C6: the process stops when it is told to.  After the signal, whatever arrives
    and however it is interleaved, it exits with 0 once the main thread has taken
    a step for every frame that waits or still arrives, and seven more. *)
Theorem signal_stops_process env cfg a p log :
  launchable verify env cfg a p log ->
  exists s0, (forall ls, main verify env ls = run_process ls s0) /\
    forall ls ls',
    length (accepted_in (ls ++ LSignal :: ls') s0) - length (handled_in ls s0) + 7 <= steps ls' ->
    fin_code <$> main verify env (ls ++ LSignal :: ls') = Some (Some (Ok 0%Z)).
Proof.
  intros Hla. destruct (main_enters_loop verify env cfg a p log Hla) as (s0 & Hm & Hlive & _).
  exists s0. split; [done|]. intros ls ls' Hn.
  destruct (process_run_spec _ _ ls _ s0 Hlive) as (q & s & Er & Hs & Hran).
  rewrite (collect_app _ ls _ s0 s Er), length_app in Hn.
  pose proof (ran_total _ _ _ _ _ _ Hran) as Ht. change (total (fun _ => [])) with 0 in Ht.
  destruct (process_step_moves _ _ LSignal q s Hs) as (q1 & s1 & E1 & Hs1 & Hm1 & Ha).
  pose proof (moves_total _ _ _ _ _ Hm1) as Ht1.
  assert (Hx : exists s', process_run ls' s1 = Some s' /\ exit_code s' = Some (Ok 0%Z)).
  { destruct (exit_code s) as [c|] eqn:Hc.
    - unfold process_step in E1. rewrite Hc in E1. injection E1 as <-. exists s.
      split; [by eapply process_run_exited|]. by rewrite Hc, (live_code _ _ _ _ _ Hs Hc).
    - destruct (Ha eq_refl) as (Hp & Hsd & ->). eapply (run_exits _ _ ls' q s1 Hs1 Hsd).
      cbn [collect] in Hn. rewrite E1 in Hn. rewrite length_app in Hn.
      assert (steps_to_exit (pr_phase s1) <= 7) by (destruct (pr_phase s1) as [|[]| | | |]; cbn; lia).
      lia. }
  destruct Hx as (s' & Er' & Hx). rewrite Hm. unfold run_process. rewrite process_run_app, Er. cbn [mbind option_bind process_run].
  rewrite E1. cbn [mbind option_bind]. rewrite Er'. cbn. by rewrite Hx.
Qed.
End Launched.

Lemma accepted_frames_are_handled_witness :
  exists s0,
    (forall ls, main (H := Config.Toml.library) toy_verify DemoLaunch.env ls = run_process ls s0) /\
    (forall ls', no_signal ls' -> length (accepted_in (DemoLaunch.arrivals ++ ls') s0) + 5 <= steps ls' ->
     List.filter (is_kind kNewOrder) (accepted_in DemoLaunch.arrivals s0) `prefix_of`
       work_of kNewOrder (handled_in (DemoLaunch.arrivals ++ ls') s0)).
Proof.
  destruct (accepted_frames_are_handled (H := Config.Toml.library) toy_verify DemoLaunch.env DemoLaunch.cfg
    DemoLaunch.authenticator DemoLaunch.pipeline [] DemoLaunch.launch) as (s0 & Hm & Hr).
  exists s0. split; [exact Hm|]. intros ls' Hns Hn. apply Hr; [|lia|done].
  apply Forall_app. split; [|exact Hns]. by repeat constructor.
Defined.

Lemma signal_stops_process_witness :
  exists s0,
    (forall ls, main (H := Config.Toml.library) toy_verify DemoLaunch.env ls = run_process ls s0) /\
    fin_code <$> main (H := Config.Toml.library) toy_verify DemoLaunch.env (LSignal :: DemoLaunch.turns 8) =
      Some (Some (Ok 0%Z)).
Proof.
  destruct (signal_stops_process (H := Config.Toml.library) toy_verify DemoLaunch.env DemoLaunch.cfg
    DemoLaunch.authenticator DemoLaunch.pipeline [] DemoLaunch.launch) as (s0 & Hm & Hr).
  exists s0. split; [exact Hm|]. apply (Hr [] (DemoLaunch.turns 8)).
  assert (Hn : forall ls s, Forall (fun l => is_step l = true \/ l = LSignal) ls -> accepted_in ls s = []).
  { induction ls as [|l ls IH]; intros s Hls; [done|]. apply Forall_cons in Hls as [Hl Hls]. cbn [collect].
    assert (accepted_at l s = []) as -> by (unfold accepted_at; destruct (exit_code s); [done|destruct l; by destruct Hl]).
    destruct (process_step l s); [by apply IH|done]. }
  cbn [app]. rewrite Hn by (constructor; [by right|]; by repeat (constructor; [by left|])). cbn. lia.
Defined.

(** The bound of steps is met: an order accepted in the middle of a turn is
    handled in the next one. *)
Example late_order_next_turn :
  (fun n => f ← main (H := Config.Toml.library) toy_verify DemoLaunch.env
                  (DemoLaunch.turns 2 ++ DemoLaunch.arrivals ++ DemoLaunch.turns n);
            s ← fin_process f; Some (wt_next_sequence (dm_wal (pr_daemon s)))) <$> [5%nat; 6%nat] =
  [Some 1%Z; Some 2%Z].
Proof. by vm_compute. Qed.

(** The flag is read between turns only, and a queue is emptied before the next
    one is looked at: while new orders arrive as fast as they are handled, the
    process neither handles a cancel nor stops. *)
Example busy_queue_delays_shutdown :
  let busy := LReceive (DemoLaunch.datagram_of DemoLaunch.signed) in
  (f ← main (H := Config.Toml.library) toy_verify DemoLaunch.env
         (busy :: DemoLaunch.turns 1 ++ LSignal :: concat (replicate 20 (busy :: DemoLaunch.turns 1)));
   s ← fin_process f; Some (pr_shutdown s, pr_phase s)) = Some (true, PQueue kNewOrder 20%Z).
Proof. by vm_compute. Qed.

(** ** A turn of the loop

    When nothing arrives while the queues are emptied, the steps of the main
    thread are [Daemon.turn]. *)
Lemma process_queue_shift k n : forall d c d' m, in_u 64 c -> in_u 64 m ->
  process_queue n k d m = Some (d', c) ->
  forall c0, in_u 64 c0 -> process_queue n k d (u64 (c0 + m)) = Some (d', u64 (c0 + c)).
Proof.
  induction n as [|n IH]; intros d c d' m Hc Hm E c0 Hc0; cbn [process_queue] in *; [done|].
  destruct (next_frame k (dm_ingress d)) as [[p o]|]; [|done]. cbn [mbind option_bind] in *.
  destruct o as [f|]; [|by injection E as <- <-].
  destruct (handle k f (set_ingress p d)) as [d1|]; [|done]. cbn [mbind option_bind] in *.
  rewrite <- (IH d1 c d' (u64 (m + 1)) Hc (wrapu_range 64 _ ltac:(lia)) E c0 Hc0). f_equal.
  unfold wrapu. rewrite Zplus_mod_idemp_l, Zplus_mod_idemp_r. f_equal. lia.
Qed.

Lemma process_queue_range k n : forall d c d' m, in_u 64 m -> process_queue n k d m = Some (d', c) -> in_u 64 c.
Proof.
  induction n as [|n IH]; intros d c d' m Hm E; cbn [process_queue] in *; [done|].
  destruct (next_frame k (dm_ingress d)) as [[p o]|]; [|done]. cbn [mbind option_bind] in *.
  destruct o as [f|]; [|by injection E as <- <-].
  destruct (handle k f (set_ingress p d)) as [d1|]; [|done]. cbn [mbind option_bind] in *.
  eapply IH; [|exact E]. by apply wrapu_range.
Qed.

(** Steps of the main thread alone. *)
Definition reaches (now : Z) (s s' : Process) : Prop := exists m, process_run (replicate m (LStep now)) s = Some s'.

Lemma reaches_step now s s' : exit_code s = None -> loop_step now s = Some s' -> reaches now s s'.
Proof. intros Hc E. exists 1. cbn. unfold process_step. by rewrite Hc, E. Qed.

Lemma reaches_trans now s1 s2 s3 : reaches now s1 s2 -> reaches now s2 s3 -> reaches now s1 s3.
Proof.
  intros [m E] [m' E']. exists (m + m'). by rewrite replicate_add, process_run_app, E.
Qed.

Lemma say_nil s : say [] s = s.
Proof. destruct s. unfold say. cbn. by rewrite app_nil_r. Qed.

Lemma queue_is_steps now k n : forall d c d' c' s,
  process_queue n k d c = Some (d', c') -> pr_daemon s = d -> pr_phase s = PQueue k c ->
  exists lines, reaches now s (at_phase (after_queue k c') (say lines (with_daemon d' s))).
Proof.
  induction n as [|n IH]; intros d c d' c' s E Hd Hp; cbn [process_queue] in E; [done|].
  assert (Hs : forall s', loop_step now s = Some s' -> reaches now s s').
  { intros s'. apply reaches_step. unfold exit_code. by rewrite Hp. }
  unfold loop_step in Hs. rewrite Hp, Hd in Hs.
  destruct (next_frame k (dm_ingress d)) as [[p o]|]; [|done]. cbn [mbind option_bind] in E, Hs.
  destruct o as [f|]; [|injection E as <- <-; exists []; rewrite say_nil; by apply Hs].
  destruct (handle k f (set_ingress p d)) as [d1|]; [|done]. cbn [mbind option_bind] in E, Hs.
  destruct (IH d1 _ d' c' (at_phase (PQueue k (u64 (c + 1))) (say (frame_lines k f) (with_daemon d1 s))) E eq_refl eq_refl)
    as [lines Hr]. exists (frame_lines k f ++ lines). eapply reaches_trans; [by apply Hs|].
  unfold say, with_daemon, at_phase in *. cbn in *. by rewrite app_assoc.
Qed.

Lemma turn_is_steps now d d' s :
  turn d = Some (d', Ok ()) -> pr_daemon s = d -> pr_phase s = PHead -> pr_shutdown s = false ->
  exists s', reaches now s s' /\ pr_daemon s' = d' /\ pr_phase s' = PHead /\ pr_shutdown s' = false.
Proof.
  unfold turn, process. intros E Hd Hp Hsd.
  assert (H0 : in_u 64 0%Z) by by vm_compute.
  destruct (process_queue _ kNewOrder d 0) as [[d1 c1]|] eqn:E1; [|done]. cbn [mbind option_bind] in E.
  destruct (process_queue _ kCancel d1 0) as [[d2 c2]|] eqn:E2; [|done]. cbn [mbind option_bind] in E.
  destruct (process_queue _ kReplace d2 0) as [[d3 c3]|] eqn:E3; [|done]. cbn [mbind option_bind] in E.
  pose proof (process_queue_range _ _ _ _ _ _ H0 E1) as R1. pose proof (process_queue_range _ _ _ _ _ _ H0 E2) as R2.
  pose proof (process_queue_range _ _ _ _ _ _ H0 E3) as R3.
  apply (process_queue_shift _ _ _ _ _ _ R2 H0) with (c0 := c1) in E2; [|done].
  pose proof (process_queue_range _ _ _ _ _ _ (wrapu_range 64 _ ltac:(lia)) E2) as R12.
  apply (process_queue_shift _ _ _ _ _ _ R3 H0) with (c0 := u64 (c1 + c2)) in E3; [|done].
  rewrite Z.add_0_r, wrapu_small in E2, E3 by done.
  set (s1 := at_phase (PQueue kNewOrder 0) s).
  assert (S1 : reaches now s s1).
  { apply reaches_step; unfold exit_code, loop_step; by rewrite ?Hp, ?Hsd. }
  destruct (queue_is_steps now _ _ _ _ _ _ s1 E1 Hd eq_refl) as [l1 S2]. set (s2 := at_phase _ _) in S2.
  destruct (queue_is_steps now _ _ _ _ _ _ s2 E2 eq_refl eq_refl) as [l2 S3]. set (s3 := at_phase _ _) in S3.
  destruct (queue_is_steps now _ _ _ _ _ _ s3 E3 eq_refl eq_refl) as [l3 S4]. set (s4 := at_phase _ _) in S4.
  set (s5 := at_phase PStatus (with_daemon d' s4)).
  assert (S5 : reaches now s4 s5).
  { apply reaches_step; [done|]. unfold loop_step, s5. cbn [pr_phase s4 at_phase after_queue pr_daemon with_daemon say].
    destruct (_ >? 0)%Z; [by rewrite E|]. injection E as <-. done. }
  destruct (report_status_spec now s5) as (Rd & _ & _ & Rs).
  exists (at_phase PHead (report_status now s5)). split; [|cbn; by rewrite Rd, Rs].
  repeat (eapply reaches_trans; [eassumption|]). by apply reaches_step.
Qed.
