(* ===== verification/DiskProcess.v ===== *)
(** * The process on a disk that fails

    The process of [Main] with the file writer of [WalFile] and the snapshot store
    of [SnapshotFile]: every disk call of the event loop and of the shutdown may
    fail.  Neither [append] nor [persist] is called inside a [try] of [main], and
    [main] has no handler of its own: an exception of the disk ends the process
    where it stands, without the destructors.  On a disk that answers well this is
    the process of [Main]. *)
From S2P Require Import Config.
From S2P Require Import Prelude Types Bytes Matcher MatcherSpec MatcherRefine Risk SpscRing Sbe Ingest IngestProps Transport.
From S2P Require Import Wal WalProps Snapshot SnapshotProps Api Auth Daemon Handlers Exchange DaemonProps DaemonRuns Main MainProps.
From S2P Require Import Output WalFile SnapshotFile.
Open Scope string_scope.
Open Scope list_scope.
Open Scope Z_scope.

(** How the disk answers during one step of the main thread: the writer's call,
    the snapshot, and how much the [fclose] of the writer passes on. *)
Record StepAnswers := mkStepAnswers {
  sa_log : DiskAnswers;
  sa_persist : PersistAnswers;
  sa_close : option nat }.

(** The process and its file writer; the daemon's [dm_wal] shows what can be seen
    of the writer: the file, what is not in it yet, and the next sequence. *)
Record DiskProcess := mkDiskProcess { dp_process : Process; dp_log : FileWriter }.

Definition shown (w : FileWriter) : Writer :=
  mkWriter (disk_of w) (unwritten w) (fw_flush_threshold w) (fw_next_sequence w).

Definition set_wal (w : Writer) (d : Daemon) : Daemon :=
  set_core (dm_matcher d) (dm_risk d) w (dm_api d) (dm_resting_orders d) d.

(** [journal]: the append may throw, before the express feed. *)
Definition journal_to (io : DiskAnswers) (frame : Frame) (d : Daemon) (w : FileWriter)
    : Daemon * FileWriter * result Z :=
  let wal_offset := fw_next_sequence w in
  match file_append io 0 (build_wal_payload frame) w with
  | (w, Throw e) => (set_wal (shown w) d, w, Throw e)
  | (w, Ok _) =>
      let api := push_express_feed_frame (mkExpressFrame wal_offset (fr_payload frame)) (dm_api d) in
      (set_core (dm_matcher d) (dm_risk d) (shown w) api (dm_resting_orders d) d, w, Ok wal_offset)
  end.

Definition handle_to (io : DiskAnswers) (k : MessageKind) (frame : Frame) (d : Daemon) (w : FileWriter)
    : option (Daemon * FileWriter * result ()) :=
  match journal_to io frame d w with
  | (d, w, Throw e) => Some (d, w, Throw e)
  | (d, w, Ok wal_offset) => d ← execute_frame k wal_offset frame d; Some (d, w, Ok ())
  end.

(** [advance_block] with [persist_to]. *)
Definition advance_block_to (io : PersistAnswers) (processed : Z) (d : Daemon) : option (Daemon * result ()) :=
  let new_block := u64 (dm_block_number d + processed) in
  if u64 (new_block - dm_last_snapshot_block d) >=? kSnapshotInterval then
    let seq := u32 (Z.min new_block (2 ^ 32 - 1)) in
    '(s, r) ← persist_to io seq (snapshot_payload (dm_chain_id d) new_block) (dm_snapshot d);
    Some (match r with
          | Ok _ => (set_block new_block new_block s d, Ok ())
          | Throw e => (set_block new_block (dm_last_snapshot_block d) s d, Throw e)
          end)
  else Some (set_block new_block (dm_last_snapshot_block d) (dm_snapshot d) d, Ok ()).

(** The end of [main]: after a sync that returns the buffer is empty, and the
    destructor only closes the stream. *)
Definition close_log (closed : option nat) (w : FileWriter) : FileWriter :=
  mkFileWriter (drain closed <$> fw_file w) (fw_buffer w) (fw_flush_threshold w) (fw_next_sequence w).

Definition stop_to (io : StepAnswers) (s : DiskProcess) : DiskProcess :=
  let p := dp_process s in
  let '(q, fds) := quic_stop (pr_transport p) (pr_fds p) in
  let '(w, r) := match file_sync (sa_log io) (dp_log s) with
                 | (w, Ok _) => (close_log (sa_close io) w, Ok 0)
                 | (w, Throw e) => (w, Throw e)
                 end in
  mkDiskProcess
    (mkProcess (set_wal (shown w) (pr_daemon p)) q fds (pr_last_status p) (pr_console p) (pr_shutdown p) (PExited r)) w.

Definition disk_loop_step (io : StepAnswers) (now : Z) (s : DiskProcess) : option DiskProcess :=
  let p := dp_process s in
  match pr_phase p with
  | PQueue k processed =>
      '(ingress, frame) ← next_frame k (dm_ingress (pr_daemon p));
      let d := set_ingress ingress (pr_daemon p) in
      match frame with
      | Some frame =>
          '(d, w, r) ← handle_to (sa_log io) k frame d (dp_log s);
          let phase := match r with Ok _ => PQueue k (u64 (processed + 1)) | Throw e => PExited (Throw e) end in
          let lines := match r with Ok _ => frame_lines k frame | Throw _ => [] end in
          Some (mkDiskProcess (at_phase phase (say lines (with_daemon d p))) w)
      | None => Some (mkDiskProcess (at_phase (after_queue k processed) (with_daemon d p)) (dp_log s))
      end
  | PBlock processed =>
      if processed >? 0 then
        '(d, r) ← advance_block_to (sa_persist io) processed (pr_daemon p);
        let phase := match r with Ok _ => PStatus | Throw e => PExited (Throw e) end in
        Some (mkDiskProcess (at_phase phase (with_daemon d p)) (dp_log s))
      else Some (mkDiskProcess (at_phase PStatus p) (dp_log s))
  | PLeaving => Some (stop_to io s)
  | _ => p ← loop_step now p; Some (mkDiskProcess p (dp_log s))
  end.

(** A label, and the answers of the disk if it is a step of the main thread. *)
Abbreviation DiskLabel := (Label * StepAnswers)%type.

Definition disk_step (l : DiskLabel) (s : DiskProcess) : option DiskProcess :=
  match exit_code (dp_process s), l.1 with
  | None, LStep now => disk_loop_step l.2 now s
  | _, _ => p ← process_step l.1 (dp_process s); Some (mkDiskProcess p (dp_log s))
  end.

Fixpoint disk_run (ls : list DiskLabel) (s : DiskProcess) : option DiskProcess :=
  match ls with
  | [] => Some s
  | l :: ls => s ← disk_step l s; disk_run ls s
  end.

(** Nothing happens after the end. *)
Lemma disk_step_exited l s : is_Some (exit_code (dp_process s)) -> disk_step l s = Some s.
Proof. intros [code Hc]. unfold disk_step, process_step. rewrite Hc. destruct s, (l.1); done. Qed.

Lemma disk_run_exited ls s : is_Some (exit_code (dp_process s)) -> disk_run ls s = Some s.
Proof.
  intros Hc. induction ls as [|l ls IH]; [done|]. cbn [disk_run]. by rewrite disk_step_exited.
Qed.

(** A process of [Main], with its log in a file. *)
Definition file_writer (w : Writer) : FileWriter :=
  mkFileWriter (Some (mkStream (wt_file w) [])) (wt_buffer w) (wt_flush_threshold w) (wt_next_sequence w).

Definition on_disk (p : Process) : DiskProcess := mkDiskProcess p (file_writer (dm_wal (pr_daemon p))).

Lemma set_wal_inside w d : set_wal w d = inside (set_wal w d) d.
Proof. by destruct d. Qed.

Lemma execute_wal k off f w d : execute_frame k off f (set_wal w d) = set_wal w <$> execute_frame k off f d.
Proof.
  rewrite set_wal_inside, execute_inside. destruct (execute_frame k off f d) as [d'|] eqn:E; [|done].
  cbn. by rewrite <- (execute_outside _ _ _ _ _ E).
Qed.

Lemma execute_keeps_wal k off f d d' : execute_frame k off f d = Some d' -> dm_wal d' = dm_wal d.
Proof. intros E. by rewrite <- (execute_outside _ _ _ _ _ E). Qed.

(** The disk call of the main thread's next step throws [e]: the append of the
    frame it takes, the snapshot that is due, or the sync of the shutdown. *)
Definition disk_call_throws (io : StepAnswers) (s : DiskProcess) (e : string) : Prop :=
  let d := pr_daemon (dp_process s) in
  match pr_phase (dp_process s) with
  | PQueue k _ => exists ingress frame, next_frame k (dm_ingress d) = Some (ingress, Some frame) /\
      (file_append (sa_log io) 0 (build_wal_payload frame) (dp_log s)).2 = Throw e
  | PBlock processed =>
      let block := u64 (dm_block_number d + processed) in
      exists store, persist_to (sa_persist io) (u32 (Z.min block (2 ^ 32 - 1)))
        (snapshot_payload (dm_chain_id d) block) (dm_snapshot d) = Some (store, Throw e)
  | PLeaving => (file_sync (sa_log io) (dp_log s)).2 = Throw e
  | _ => False
  end.

(** Nothing else ends the process by an exception. *)
Lemma disk_step_throws l s s' e :
  exit_code (dp_process s) = None -> disk_step l s = Some s' -> exit_code (dp_process s') = Some (Throw e) ->
  exists now, l.1 = LStep now /\ disk_call_throws l.2 s e.
Proof.
  destruct l as [l io]. unfold disk_step. cbn [fst snd]. intros Hc. rewrite Hc. destruct l as [r| |now].
  - unfold process_step. rewrite Hc. intros [= <-]. cbn. unfold receive, exit_code in *.
    destruct (quic_receive _ _ _). cbn. by destruct (pr_phase _).
  - unfold process_step. rewrite Hc. intros [= <-]. cbn. unfold exit_code in *. cbn. by destruct (pr_phase _).
  - intros E Ht. exists now. split; [done|]. unfold disk_call_throws, disk_loop_step in *.
    destruct (pr_phase (dp_process s)) as [|k n|n| | |code] eqn:Hph.
    + unfold loop_step in E. rewrite Hph in E. injection E as <-. cbn in Ht. by destruct (pr_shutdown _).
    + destruct (next_frame _ _) as [[ingress [f|]]|] eqn:En; cbn [mbind option_bind] in E; [|injection E as <-; by destruct k|done].
      exists ingress, f. split; [done|]. unfold handle_to, journal_to in E.
      destruct (file_append _ _ _ _) as [w [[]|e']]; [destruct (execute_frame _ _ _ _); [|done]|];
        injection E as <-; [done|]. by injection Ht as ->.
    + destruct (n >? 0); [|by injection E as <-]. unfold advance_block_to in E. destruct (_ >=? _); [|by injection E as <-].
      destruct (persist_to _ _ _ _) as [[st [[]|e']]|]; [by injection E as <-| |done].
      injection E as <-. injection Ht as ->. by exists st.
    + unfold loop_step in E. rewrite Hph in E. injection E as <-. done.
    + injection E as <-. unfold stop_to in Ht. destruct (quic_stop _ _). destruct (file_sync _ _) as [w [[]|e']]; [done|].
      by injection Ht as ->.
    + unfold exit_code in Hc. by rewrite Hph in Hc.
Qed.

Lemma disk_run_throws ls : forall s s' e,
  exit_code (dp_process s) = None -> disk_run ls s = Some s' -> exit_code (dp_process s') = Some (Throw e) ->
  exists ls1 now io ls2 s1, ls = ls1 ++ (LStep now, io) :: ls2 /\ disk_run ls1 s = Some s1 /\
    exit_code (dp_process s1) = None /\ disk_call_throws io s1 e.
Proof.
  induction ls as [|l ls IH]; intros s s' e Hc E Ht; cbn [disk_run] in E; [injection E as <-; by rewrite Hc in Ht|].
  destruct (disk_step l s) as [s1|] eqn:E1; [|done]. cbn [mbind option_bind] in E.
  destruct (exit_code (dp_process s1)) as [code|] eqn:Hc1.
  - rewrite (disk_run_exited ls s1) in E by by rewrite Hc1. injection E as <-.
    destruct (disk_step_throws l s s1 e Hc E1 Ht) as (now & El & Hd). destruct l as [l io]. cbn in El. subst l.
    by exists [], now, io, ls, s.
  - destruct (IH s1 s' e Hc1 E Ht) as (ls1 & now & io & ls2 & s2 & -> & Er & H).
    exists (l :: ls1), now, io, ls2, s2. split; [done|]. cbn [disk_run]. by rewrite E1.
Qed.

(** ** A disk that answers well *)
Definition fine_step : StepAnswers := mkStepAnswers healthy persist_fine None.

Lemma shown_file w : shown (file_writer w) = w.
Proof. by destruct w. Qed.

Lemma shown_implements w v : implements w v -> shown w = v /\ w = file_writer v.
Proof. intros ->. by destruct v. Qed.

Lemma journal_fine f d :
  journal_to healthy f d (file_writer (dm_wal d)) =
    ((journal f d).1, file_writer (dm_wal (journal f d).1), Ok (wt_next_sequence (dm_wal d))).
Proof.
  unfold journal_to. destruct (healthy_calls [CAppend healthy 0 (build_wal_payload f)] (file_writer (dm_wal d)) (dm_wal d))
    as (w & E & Hw); [by constructor|done|]. cbn [run_calls call foldl wal_call] in *.
  destruct (file_append _ _ _ _) as [w1 [[]|e]]; [|done]. injection E as ->.
  apply shown_implements in Hw as [-> ->]. done.
Qed.

Lemma handle_fine k f d :
  k <> kHeartbeat ->
  handle_to healthy k f d (file_writer (dm_wal d)) =
    (fun d' => (d', file_writer (dm_wal d'), Ok ())) <$> handle k f d.
Proof.
  intros Hk. rewrite handle_executes by done. unfold handle_to. rewrite journal_fine.
  destruct (execute_frame _ _ _ _) as [d'|] eqn:E; [|done]. cbn [mbind option_bind fmap option_fmap option_map].
  by rewrite (execute_keeps_wal _ _ _ _ _ E).
Qed.

Lemma advance_block_fine n d : advance_block_to persist_fine n d = advance_block n d.
Proof. unfold advance_block_to. by rewrite healthy_persist. Qed.

Lemma close_fine v : close_log None (file_writer v) = file_writer v.
Proof. unfold close_log. cbn. by rewrite drain_nothing. Qed.

Lemma stop_fine p : stop_to fine_step (on_disk p) = on_disk (at_phase (PExited (Ok 0)) (stop_process p)).
Proof.
  unfold stop_to, stop_process. cbn [on_disk dp_process dp_log fine_step sa_log sa_close].
  destruct (quic_stop _ _) as [q fds].
  destruct (healthy_calls [CSync healthy] (file_writer (dm_wal (pr_daemon p))) (dm_wal (pr_daemon p)))
    as (w & E & Hw); [by constructor|done|]. cbn [run_calls call foldl wal_call] in *.
  destruct (file_sync _ _) as [w1 [[]|e]]; [|done]. injection E as ->. apply shown_implements in Hw as [Hw ->].
  rewrite close_fine, shown_file. done.
Qed.

Lemma advance_block_wal n d d' r : advance_block n d = Some (d', r) -> dm_wal d' = dm_wal d.
Proof.
  unfold advance_block. destruct (_ >=? _); [|by intros [= <- _]].
  destruct (persist _ _ _) as [[s []]|]; [..|done]; by intros [= <- _].
Qed.

Lemma report_status_daemon now p : pr_daemon (report_status now p) = pr_daemon p.
Proof. apply report_status_spec. Qed.

Lemma on_disk_wal p w : w = dm_wal (pr_daemon p) -> mkDiskProcess p (file_writer w) = on_disk p.
Proof. by intros ->. Qed.

Lemma disk_loop_step_fine now p : disk_loop_step fine_step now (on_disk p) = on_disk <$> loop_step now p.
Proof.
  unfold disk_loop_step. cbn [on_disk dp_process dp_log fine_step sa_log sa_persist].
  destruct (pr_phase p) as [|k processed|processed| | |code] eqn:Hph.
  5: { rewrite stop_fine. unfold loop_step. by rewrite Hph. }
  - unfold loop_step. rewrite Hph. cbn. by destruct (pr_shutdown p).
  - unfold loop_step. rewrite Hph. destruct (next_frame k _) as [[ingress [f|]]|] eqn:En; [|done..].
    assert (Hk : k <> kHeartbeat) by (intros ->; done). cbn [mbind option_bind].
    pose proof (handle_fine k f (set_ingress ingress (pr_daemon p)) Hk) as E.
    cbn [set_ingress dm_wal] in E. rewrite E. by destruct (handle k f _).
  - unfold loop_step. rewrite Hph. destruct (processed >? 0); [|done]. rewrite advance_block_fine.
    destruct (advance_block _ _) as [[d r]|] eqn:E; [|done]. cbn [mbind option_bind fmap option_fmap option_map].
    f_equal. apply on_disk_wal. cbn [at_phase with_daemon pr_daemon]. by rewrite (advance_block_wal _ _ _ _ E).
  - unfold loop_step. rewrite Hph. cbn [mbind option_bind fmap option_fmap option_map]. f_equal. apply on_disk_wal.
    cbn [at_phase pr_daemon]. by rewrite report_status_daemon.
  - unfold loop_step. by rewrite Hph.
Qed.

Lemma receive_wal r p : dm_wal (pr_daemon (receive r p)) = dm_wal (pr_daemon p).
Proof. unfold receive. by destruct (quic_receive _ _ _). Qed.

Lemma disk_step_fine l p : disk_step (l, fine_step) (on_disk p) = on_disk <$> process_step l p.
Proof.
  unfold disk_step. cbn [fst snd on_disk dp_process dp_log]. unfold process_step.
  destruct (exit_code p) eqn:Hc; [by destruct l|]. destruct l as [r| |now].
  - cbn [mbind option_bind fmap option_fmap option_map]. f_equal. apply on_disk_wal. by rewrite receive_wal.
  - done.
  - apply disk_loop_step_fine.
Qed.

(** On such a disk, this is the process of [Main]. *)
Lemma disk_run_fine ls : forall p,
  disk_run (map (fun l => (l, fine_step)) ls) (on_disk p) = on_disk <$> process_run ls p.
Proof.
  induction ls as [|l ls IH]; intros p; [done|]. cbn [map disk_run process_run]. rewrite disk_step_fine.
  destruct (process_step l p); [|done]. apply IH.
Qed.

(** ** A disk that fails *)

(** Handling a frame is handling it on a disk that answers well, if the append
    returns. *)
Lemma handle_to_spec io k f d w :
  k <> kHeartbeat -> dm_wal d = shown w ->
  handle_to io k f d w =
    match file_append io 0 (build_wal_payload f) w with
    | (w', Ok _) => (fun d' => (set_wal (shown w') d', w', Ok ())) <$> handle k f d
    | (w', Throw e) => Some (set_wal (shown w') d, w', Throw e)
    end.
Proof.
  intros Hk Hw. unfold handle_to, journal_to. destruct (file_append _ _ _ w) as [w' [[]|e]]; [|done].
  rewrite handle_executes, Hw by done. cbn [shown wt_next_sequence].
  pose proof (execute_wal k (fw_next_sequence w) f (shown w') (journal f d).1) as E.
  assert (Ej : set_wal (shown w') (journal f d).1 =
    set_core (dm_matcher d) (dm_risk d) (shown w')
      (push_express_feed_frame (mkExpressFrame (fw_next_sequence w) (fr_payload f)) (dm_api d)) (dm_resting_orders d) d)
    by (unfold journal, append_ingress_wal_record; by rewrite Hw).
  rewrite Ej in E. rewrite E. by destruct (execute_frame _ _ _ (journal f d).1).
Qed.

(** The end of a turn. *)
Lemma advance_block_to_spec io n d :
  exists s block last r, advance_block_to io n d = Some (set_block block last s d, r) /\
    (ca_flush (pa_compact io) = None -> r = Ok () ->
     (exists snaps, holds (dm_snapshot d) snaps) -> exists snaps, holds s snaps).
Proof.
  unfold advance_block_to. set (block := u64 (dm_block_number d + n)). destruct (_ >=? _).
  2: { by eexists _, _, _, _. }
  set (payload := snapshot_payload _ _). set (seq := u32 (Z.min block (2 ^ 32 - 1))).
  destruct (persist_to_total io seq payload (dm_snapshot d)) as (s & r & E). rewrite E. cbn [mbind option_bind].
  assert (Hst : ca_flush (pa_compact io) = None -> r = Ok () ->
    (exists snaps, holds (dm_snapshot d) snaps) -> exists snaps, holds s snaps).
  { intros Hf -> [snaps Hs].
    destruct (persist_to_spec io seq payload (dm_snapshot d) snaps Hs) as (s1 & r1 & E1 & _ & _ & H1).
    - by apply wrapu_range.
    - unfold payload, snapshot_payload, append_primitive. rewrite !length_app, !length_to_le. cbn. lia.
    - rewrite E in E1. injection E1 as <- <-. destruct (H1 Hf eq_refl) as (rs & Hrs & _). by exists rs. }
  destruct r as [[]|e]; by eexists s, block, _, _.
Qed.

(** Nothing is left in the stream after a step. *)
Definition lossless (l : DiskLabel) : Prop :=
  da_flushed (sa_log l.2) = None /\ ca_flush (pa_compact (sa_persist l.2)) = None.

(** What the log is, given the records of the frames handled: all of it between
    the file, the stream and the buffer, until an exception. *)
Definition logging (rs : list WalRecord) (s : DiskProcess) : Prop :=
  match exit_code (dp_process s) with
  | Some (Throw _) => disk_of (dp_log s) `prefix_of` encode_log rs
  | _ => holds_log (dp_log s) rs
  end.

(** When no step left anything: the snapshots can be read while the process runs,
    and the log is written when it exits. *)
Definition tidy (s : DiskProcess) : Prop :=
  match exit_code (dp_process s) with
  | None => nothing_pending (dp_log s) /\ exists snaps, holds (dm_snapshot (pr_daemon (dp_process s))) snaps
  | Some (Ok _) => unwritten (dp_log s) = []
  | Some (Throw _) => True
  end.

Section Running.
Context (dep : MessageKind -> Z) (v : AuthVerifier).

Record disk_live (q : MessageKind -> list Frame) (s : DiskProcess) : Prop := {
  dl_pipe : pipe_rep (dm_ingress (pr_daemon (dp_process s))) dep q;
  dl_verifier : verifier (dm_ingress (pr_daemon (dp_process s))) = v;
  dl_engine : exists a, engine_rep (dm_matcher (pr_daemon (dp_process s))) a;
  dl_shown : dm_wal (pr_daemon (dp_process s)) = shown (dp_log s);
  dl_transport :
    match exit_code (dp_process s) with
    | None => transport_rel (pr_transport (dp_process s)) (pr_fds (dp_process s)) (Some submit_callback)
    | Some (Ok _) => transport_rel (pr_transport (dp_process s)) (pr_fds (dp_process s)) None
    | Some (Throw _) => True
    end;
  dl_phase : match pr_phase (dp_process s) with
             | PQueue k _ => k <> kHeartbeat
             | PExited (Ok code) => code = 0
             | _ => True
             end }.

Record disk_moves (l : DiskLabel) (q : MessageKind -> list Frame) (s : DiskProcess)
    (q' : MessageKind -> list Frame) (s' : DiskProcess) : Prop := {
  dv_queues : forall k, k <> kHeartbeat ->
    q k ++ List.filter (is_kind k) (accepted_at l.1 (dp_process s)) = work_of k (handled_at l.1 (dp_process s)) ++ q' k;
  dv_log : forall rs, logging rs s ->
    logging (rs ++ new_records (next_after rs) (wal_entries (handled_at l.1 (dp_process s)))) s';
  dv_grows : forall rs, logging rs s -> disk_of (dp_log s) `prefix_of` disk_of (dp_log s');
  dv_tidy : forall rs, logging rs s -> lossless l -> tidy s -> tidy s';
  dv_queued : Forall queued (handled_at l.1 (dp_process s));
  dv_authentic : Forall (fun f => authentic (dm_ingress (pr_daemon (dp_process s))) f = true) (accepted_at l.1 (dp_process s)) }.

(** A label that handles nothing and leaves the log and the code alone. *)
Lemma disk_moves_nothing l q s s' :
  accepted_at l.1 (dp_process s) = [] -> handled_at l.1 (dp_process s) = [] -> dp_log s' = dp_log s ->
  (forall rs, logging rs s -> logging rs s') -> (lossless l -> tidy s -> tidy s') -> disk_moves l q s q s'.
Proof.
  intros E1 E2 E3 Hl Ht. split; rewrite ?E1, ?E2, ?E3; try done.
  - intros k _. by rewrite app_nil_r.
  - intros rs H. cbn [new_records wal_entries map]. rewrite app_nil_r. by apply Hl.
Qed.

Lemma disk_receive_moves r io q s :
  disk_live q s -> exit_code (dp_process s) = None ->
  exists q' s', disk_step (LReceive r, io) s = Some s' /\ disk_live q' s' /\ disk_moves (LReceive r, io) q s q' s'.
Proof.
  intros [Hp Hv He Hw Ht Hf] Hc. rewrite Hc in Ht.
  destruct (receive_spec dep r q _ Hc Hp Ht) as (t & p & E & Ht' & Hv' & Hp' & Ha).
  unfold disk_step. cbn [fst snd]. rewrite Hc. unfold process_step. rewrite Hc. cbn [mbind option_bind]. rewrite E.
  set (pr := mkProcess _ _ _ _ _ _ _). assert (Hc' : exit_code pr = None) by done.
  eexists _, _. split; [done|]. split.
  - split; cbn [dp_process dp_log pr_daemon]; [exact Hp'|by rewrite <- Hv, <- Hv'|done|done|by rewrite Hc'|done].
  - split; cbn [fst dp_process dp_log]; change (handled_at (LReceive r) (dp_process s)) with (@nil Work); try done.
    + intros rs. cbn [new_records wal_entries map]. rewrite app_nil_r. unfold logging. cbn [dp_process dp_log]. by rewrite Hc, Hc'.
Qed.

(** An append, for a frame that is taken. *)
Lemma append_spec io f w rs :
  holds_log w rs ->
  let rs' := rs ++ new_records (next_after rs) (wal_entries [(kNewOrder, f)]) in
  let '(w', r) := file_append io 0 (build_wal_payload f) w in
  disk_of w `prefix_of` disk_of w' /\ disk_of w' `prefix_of` encode_log rs' /\ (r = Ok () -> holds_log w' rs').
Proof. exact (call_spec (CAppend io 0 (build_wal_payload f)) w rs). Qed.

Lemma append_pending io f w w' :
  da_flushed io = None -> file_append io 0 (build_wal_payload f) w = (w', Ok ()) -> nothing_pending w -> nothing_pending w'.
Proof.
  intros Hio E Hn. pose proof (calls_leave_nothing [CAppend io 0 (build_wal_payload f)] w) as H.
  cbn [run_calls call] in H. rewrite E in H. apply H; [by constructor|done|done].
Qed.

Lemma disk_queue_moves k processed now io q s :
  disk_live q s -> pr_phase (dp_process s) = PQueue k processed ->
  exists q' s', disk_loop_step io now s = Some s' /\ disk_live q' s' /\ disk_moves (LStep now, io) q s q' s'.
Proof.
  intros [Hp Hv [a He] Hw Ht Hf] Hph. unfold disk_loop_step. rewrite Hph in *. 
  assert (Hc : exit_code (dp_process s) = None) by (unfold exit_code; by rewrite Hph). rewrite Hc in Ht.
  assert (Hacc : accepted_at (LStep now) (dp_process s) = []) by (unfold accepted_at; by rewrite Hc).
  pose proof (next_spec k _ _ _ Hp Hf) as Hn. rewrite next_frame_of. destruct (q k) as [|f rest] eqn:Eq.
  - rewrite Hn. cbn [mbind option_bind]. rewrite set_ingress_same. exists q. eexists. split; [done|].
    assert (Hc' : exit_code (at_phase (after_queue k processed) (with_daemon (pr_daemon (dp_process s)) (dp_process s))) = None)
      by by destruct k.
    split; [split; cbn [dp_process dp_log]; rewrite ?Hc'; [done|done|by exists a|done|done|by destruct k]|].
    apply disk_moves_nothing; cbn [fst snd dp_process dp_log]; [done| |done|..].
    + unfold handled_at. by rewrite Hph, next_frame_of, Hn.
    + intros rs. unfold logging. cbn [dp_process dp_log]. by rewrite Hc, Hc'.
    + intros _. unfold tidy. cbn [dp_process dp_log]. by rewrite Hc, Hc'.
  - destruct Hn as (p & En & Hp' & _). rewrite En. cbn [mbind option_bind].
    assert (Eho : handled_at (LStep now) (dp_process s) = [(k, f)]) by (unfold handled_at; by rewrite Hph, next_frame_of, En).
    pose proof (next_frame_verifier k _ _ _ ltac:(rewrite next_frame_of; exact En)) as Hvp.
    rewrite handle_to_spec by done. set (io' := sa_log io).
    assert (Hlog : forall rs, logging rs s -> holds_log (dp_log s) rs) by (intros rs; unfold logging; by rewrite Hc).
    assert (Htid : tidy s -> nothing_pending (dp_log s) /\ exists snaps, holds (dm_snapshot (pr_daemon (dp_process s))) snaps)
      by (unfold tidy; by rewrite Hc).
    pose proof (fun rs H => append_spec io' f (dp_log s) rs (Hlog rs H)) as Happ. cbv zeta in Happ.
    destruct (file_append _ _ _ _) as [w' [[]|e]] eqn:Ea.
    + rewrite handle_ingress. destruct (handle_spec k f _ a Hf He) as (d & Eh & _ & [He' _]).
      rewrite Eh. pose proof (handle_outer _ _ _ _ Eh) as Eo. injection Eo as _ _ _ Es.
      exists (dequeue k rest q). eexists. split; [done|].
      split; [split; cbn; [done|by rewrite <- Hv|by eexists|done|done|done]|].
      split; cbn [fst dp_process dp_log]; rewrite ?Hacc, ?Eho; [intros k' _; by apply take_first| | | |by repeat constructor|done].
      * intros rs H. by apply (Happ rs H).
      * intros rs H. by apply (Happ rs H).
      * intros rs _ [Hio _] [Hn Hs]%Htid. split; [by apply (append_pending io' f (dp_log s))|]. cbn. by rewrite Es.
    + exists (dequeue k rest q). eexists. split; [done|].
      split; [split; cbn; [done|by rewrite <- Hv|by exists a|done|done|done]|].
      split; cbn [fst dp_process dp_log]; rewrite ?Hacc, ?Eho; [intros k' _; by apply take_first| | |done|by repeat constructor|done].
      * intros rs H. by apply (Happ rs H).
      * intros rs H. by apply (Happ rs H).
Qed.

Lemma disk_block_moves processed now io q s :
  disk_live q s -> pr_phase (dp_process s) = PBlock processed ->
  exists s', disk_loop_step io now s = Some s' /\ disk_live q s' /\ disk_moves (LStep now, io) q s q s'.
Proof.
  intros [Hp Hv [a He] Hw Ht Hf] Hph. unfold disk_loop_step. rewrite Hph in *.
  assert (Hc : exit_code (dp_process s) = None) by (unfold exit_code; by rewrite Hph). rewrite Hc in Ht.
  assert (Hacc : accepted_at (LStep now) (dp_process s) = []) by (unfold accepted_at; by rewrite Hc).
  assert (Hhan : handled_at (LStep now) (dp_process s) = []) by (unfold handled_at; by rewrite Hph).
  destruct (processed >? 0).
  - destruct (advance_block_to_spec (sa_persist io) processed (pr_daemon (dp_process s))) as (st & block & last & r & E & Hst).
    rewrite E. cbn [mbind option_bind]. eexists. split; [done|].
    split; [destruct r; split; cbn; try done; by exists a|].
    apply disk_moves_nothing; cbn [fst snd dp_process dp_log]; [done..| |].
    + intros rs. unfold logging. rewrite Hc. destruct r as [[]|e]; [done|]. cbn. intros (_ & Eb & _). rewrite <- Eb.
      by apply prefix_app_r.
    + intros [_ Hio]. unfold tidy. rewrite Hc. destruct r as [[]|e]; [|done]. cbn. intros [Hn Hs]. split; [done|].
      by apply Hst.
  - eexists. split; [done|]. split; [split; cbn; try done; by exists a|].
    apply disk_moves_nothing; cbn [fst snd dp_process dp_log]; [done..| |]; unfold logging, tidy; by rewrite Hc.
Qed.

Lemma close_log_spec n w rs :
  holds_log w rs -> holds_log (close_log n w) rs /\ disk_of w `prefix_of` disk_of (close_log n w) /\
  (unwritten w = [] -> unwritten (close_log n w) = []).
Proof.
  intros (Hf & He & Hs). unfold holds_log, disk_of, unwritten, close_log in *. cbn [fw_file fw_buffer fw_next_sequence].
  destruct (fw_file w) as [s|]; [|done]. cbn [fmap option_fmap option_map]. split; [|split; [apply drain_file|]].
  - split; [done|]. split; [|done]. by rewrite app_assoc, drain_whole, <- app_assoc.
  - intros [E1 E2]%app_eq_nil. rewrite E2, app_nil_r. cbn [drain sm_held]. by rewrite E1, drop_nil.
Qed.

Lemma disk_stop_moves now io q s :
  disk_live q s -> pr_phase (dp_process s) = PLeaving ->
  disk_live q (stop_to io s) /\ disk_moves (LStep now, io) q s q (stop_to io s).
Proof.
  intros [Hp Hv He Hw Ht Hf] Hph.
  assert (Hc : exit_code (dp_process s) = None) by (unfold exit_code; by rewrite Hph). rewrite Hc in Ht.
  assert (Hacc : accepted_at (LStep now) (dp_process s) = []) by (unfold accepted_at; by rewrite Hc).
  assert (Hhan : handled_at (LStep now) (dp_process s) = []) by (unfold handled_at; by rewrite Hph).
  destruct (stop_rel _ _ _ Ht) as (t & Et & Ht'). unfold stop_to. rewrite Et.
  pose proof (call_spec (CSync (sa_log io)) (dp_log s)) as Hsync. cbn [call entry_of_call new_records] in Hsync.
  pose proof (calls_leave_nothing [CSync (sa_log io)] (dp_log s)) as Hpend. cbn [run_calls call] in Hpend.
  pose proof (file_sync_empties (sa_log io) (dp_log s)) as Hempty.
  destruct (file_sync (sa_log io) (dp_log s)) as [w [[]|e]].
  - cbn [fst snd] in *. split; [by split|].
    assert (Hlog : forall rs, logging rs s -> holds_log w rs /\ disk_of (dp_log s) `prefix_of` disk_of w).
    { intros rs H. unfold logging in H. rewrite Hc in H. destruct (Hsync rs H) as (A & _ & B). rewrite app_nil_r in B. auto. }
    split; cbn [fst dp_process dp_log]; rewrite ?Hacc, ?Hhan; [intros k _; by rewrite app_nil_r| | | |done|done].
    + intros rs H. cbn [wal_entries map new_records]. rewrite app_nil_r.
      destruct (Hlog rs H) as [Hh _]. by apply close_log_spec.
    + intros rs H. destruct (Hlog rs H) as [Hh Hpre]. etrans; [exact Hpre|]. by apply (close_log_spec _ _ rs).
    + intros rs H [Hio _]. destruct (Hlog rs H) as [Hh _]. unfold tidy at 1. rewrite Hc. intros [Hn _].
      apply (close_log_spec _ _ rs Hh). destruct Hh as (Hopen & _).
      specialize (Hpend ltac:(by constructor) Hn eq_refl). specialize (Hempty eq_refl Hopen).
      unfold unwritten, nothing_pending in *. destruct (fw_file w) as [st|]; [|done]. by rewrite Hempty, (Hpend st).
  - split; [by split|].
    split; cbn [fst dp_process dp_log]; rewrite ?Hacc, ?Hhan; [intros k _; by rewrite app_nil_r| | |done|done|done];
      intros rs H; unfold logging in H; rewrite Hc in H; destruct (Hsync rs H) as (A & B & _).
    + cbn [wal_entries map new_records]. exact B.
    + exact A.
Qed.
(** A step that touches neither the daemon nor the log. *)
Lemma disk_idle_moves l q s p :
  disk_live q s -> accepted_at l.1 (dp_process s) = [] -> handled_at l.1 (dp_process s) = [] ->
  exit_code (dp_process s) = None -> exit_code p = None -> pr_daemon p = pr_daemon (dp_process s) ->
  (forall cb, transport_rel (pr_transport (dp_process s)) (pr_fds (dp_process s)) cb ->
     transport_rel (pr_transport p) (pr_fds p) cb) ->
  match pr_phase p with PQueue k _ => k <> kHeartbeat | PExited _ => False | _ => True end ->
  disk_live q (mkDiskProcess p (dp_log s)) /\ disk_moves l q s q (mkDiskProcess p (dp_log s)).
Proof.
  intros [Hp Hv He Hw Ht Hf] Ha Hh Hc Hc' Hd Hrel Hph. rewrite Hc in Ht. split.
  - split; cbn [dp_process dp_log]; rewrite ?Hd, ?Hc'; [done..|by apply Hrel|]. by destruct (pr_phase p).
  - apply disk_moves_nothing; [done..| |].
    + intros rs. unfold logging. cbn [dp_process dp_log]. by rewrite Hc, Hc'.
    + intros _. unfold tidy. cbn [dp_process dp_log]. by rewrite Hc, Hc', Hd.
Qed.

Lemma disk_step_moves l q s :
  disk_live q s ->
  exists q' s', disk_step l s = Some s' /\ disk_live q' s' /\ disk_moves l q s q' s'.
Proof.
  intros Hl. destruct l as [l io]. destruct (exit_code (dp_process s)) as [code|] eqn:Hc.
  { exists q, s. unfold disk_step, process_step. cbn [fst]. rewrite Hc.
    split; [destruct l, s; done|]. split; [done|]. apply disk_moves_nothing; cbn [fst]; [| |done..].
    - unfold accepted_at. by rewrite Hc.
    - unfold handled_at, exit_code in *. destruct l; [done..|]. by destruct (pr_phase _). }
  destruct l as [r| |now]; [by apply disk_receive_moves| |].
  - exists q. unfold disk_step, process_step. cbn [fst]. rewrite Hc. eexists. split; [done|].
    apply disk_idle_moves; try done; [unfold accepted_at; by rewrite Hc|]. cbn. pose proof (dl_phase _ _ Hl).
    unfold exit_code in Hc. by destruct (pr_phase _).
  - unfold disk_step. cbn [fst snd]. rewrite Hc.
    assert (Ha : accepted_at (LStep now) (dp_process s) = []) by (unfold accepted_at; by rewrite Hc).
    destruct (pr_phase (dp_process s)) as [|k n|n| | |code] eqn:Hph.
    + exists q. unfold disk_loop_step, loop_step. rewrite Hph. eexists. split; [done|].
      apply disk_idle_moves; try done; [unfold handled_at; by rewrite Hph|..]; by destruct (pr_shutdown _).
    + by eapply disk_queue_moves.
    + exists q. by eapply disk_block_moves.
    + exists q. unfold disk_loop_step, loop_step. rewrite Hph. eexists. split; [done|].
      destruct (report_status_spec now (dp_process s)) as (Rd & Rf & Rt & Rs).
      apply disk_idle_moves; try done; [unfold handled_at; by rewrite Hph|]. cbn. rewrite Rf. exact Rt.
    + exists q. eexists. unfold disk_loop_step. rewrite Hph. split; [done|]. by apply disk_stop_moves.
    + unfold exit_code in Hc. by rewrite Hph in Hc.
Qed.

(** ** Runs *)
Lemma logging_prefix rs s : logging rs s -> disk_of (dp_log s) `prefix_of` encode_log rs.
Proof.
  unfold logging. destruct (exit_code _) as [[]|]; [|done|]; intros (_ & E & _); rewrite <- E; by apply prefix_app_r.
Qed.

(** A process that returns leaves its whole log, if nothing is left in the stream. *)
Lemma logging_whole rs s code :
  exit_code (dp_process s) = Some (Ok code) -> logging rs s -> tidy s -> disk_of (dp_log s) = encode_log rs.
Proof. unfold logging, tidy. intros ->. intros (_ & E & _) Hu. by rewrite Hu, app_nil_r in E. Qed.

Fixpoint disk_collect {A} (at_label : Label -> Process -> list A) (ls : list DiskLabel) (s : DiskProcess) : list A :=
  match ls with
  | [] => []
  | l :: ls => at_label l.1 (dp_process s) ++
      match disk_step l s with Some s => disk_collect at_label ls s | None => [] end
  end.

Lemma continued_records l1 : forall rs l2,
  rs ++ new_records (next_after rs) (l1 ++ l2) =
  (rs ++ new_records (next_after rs) l1) ++ new_records (next_after (rs ++ new_records (next_after rs) l1)) l2.
Proof.
  induction l1 as [|e l1 IH]; intros rs l2; cbn [app].
  - cbn [new_records]. by rewrite app_nil_r.
  - by rewrite new_records_cons, IH, <- new_records_cons.
Qed.

Record disk_ran (ls : list DiskLabel) (q : MessageKind -> list Frame) (s : DiskProcess)
    (q' : MessageKind -> list Frame) (s' : DiskProcess) : Prop := {
  dr_queues : forall k, k <> kHeartbeat ->
    q k ++ List.filter (is_kind k) (disk_collect accepted_at ls s) = work_of k (disk_collect handled_at ls s) ++ q' k;
  dr_log : forall rs, logging rs s ->
    logging (rs ++ new_records (next_after rs) (wal_entries (disk_collect handled_at ls s))) s' /\
    disk_of (dp_log s) `prefix_of` disk_of (dp_log s') /\
    (Forall lossless ls -> tidy s -> tidy s');
  dr_queued : Forall queued (disk_collect handled_at ls s);
  dr_authentic : forall u, v = Some u ->
    Forall (fun f => u (fr_header f) (fr_payload f) = true) (disk_collect accepted_at ls s);
  dr_sound : Forall (fun l => label_ok l.1) ls -> Forall sound_frame (disk_collect accepted_at ls s) }.

Lemma disk_run_spec ls : forall q s,
  disk_live q s -> exists q' s', disk_run ls s = Some s' /\ disk_live q' s' /\ disk_ran ls q s q' s'.
Proof.
  induction ls as [|l ls IH]; intros q s Hl.
  { exists q, s. split; [done|]. split; [done|]. split; cbn [disk_collect]; try done.
    - intros k _. by rewrite app_nil_r.
    - intros rs H. cbn. by rewrite app_nil_r. }
  destruct (disk_step_moves l q s Hl) as (q1 & s1 & E & Hl1 & [M1 M2 M3 M4 M5 M6]).
  destruct (IH q1 s1 Hl1) as (q' & s' & Er & Hl' & [R1 R2 R3 R4 R5]). exists q', s'.
  cbn [disk_run]. rewrite E. split; [done|]. split; [done|]. split; cbn [disk_collect]; rewrite E.
  - intros k Hk. rewrite List.filter_app, app_assoc, M1, work_of_app, <- !app_assoc by done. f_equal. by apply R1.
  - intros rs H. destruct (R2 _ (M2 rs H)) as (A & B & C). unfold wal_entries in *. rewrite map_app, continued_records.
    split; [exact A|]. split; [etrans; [by apply (M3 rs)|exact B]|].
    intros [Hlos Hrest]%Forall_cons Ht. apply C; [done|]. by apply (M4 rs).
  - by apply Forall_app.
  - intros u Hu. apply Forall_app. split; [|by apply R4]. eapply Forall_impl; [exact M6|].
    intros f. unfold authentic. by rewrite (dl_verifier _ _ Hl), Hu.
  - intros [Ha Hls]%Forall_cons. apply Forall_app. split; [by apply accepted_at_ok|by apply R5].
Qed.
End Running.

Section Launched.
Context `{Config.TomlLibrary}.
Context (verify : Signature -> bytes -> PublicKey -> bool).

Abbreviation depths cfg := (depth_of (ingress_config (Config.ingress cfg))).

Lemma entered_on_disk env cfg a log s :
  entered verify env cfg a log s ->
  disk_live (depths cfg) (frame_verifier verify env a) (fun _ => []) (on_disk s) /\
  logging log (on_disk s) /\ tidy (on_disk s) /\ disk_of (dp_log (on_disk s)) = encode_log log.
Proof.
  intros ([Hp Hv He Hs Ht Hf] & Hph & _ & [Hw Hb Hn] & _).
  assert (Hc : exit_code s = None) by (unfold exit_code; by rewrite Hph). rewrite Hc in Ht. split; [|split; [|split; [|done]]].
  - split; cbn [on_disk dp_process dp_log]; [done..|by rewrite shown_file|by rewrite Hc|by rewrite Hph].
  - unfold logging. cbn [on_disk dp_process dp_log]. rewrite Hc. split; [done|]. cbn. split; [|done].
    by rewrite Hw, Hb, app_nil_r.
  - unfold tidy. cbn [on_disk dp_process dp_log]. rewrite Hc. split; [|done]. by intros st [= <-].
Qed.

(** A run on any disk, and how the log it leaves is read. *)
Lemma disk_run_reads env cfg a log s0 ls :
  entered verify env cfg a log s0 -> Forall record_ok log -> Forall (fun l : DiskLabel => label_ok l.1) ls ->
  let taken := disk_collect handled_at ls (on_disk s0) in
  let new := new_records (next_after log) (wal_entries taken) in
  exists q s, disk_run ls (on_disk s0) = Some s /\
    disk_live (depths cfg) (frame_verifier verify env a) q s /\
    disk_ran (frame_verifier verify env a) ls (fun _ => []) (on_disk s0) q s /\
    map (fun r => wal_entry (wr_payload r)) new = map (fun x : Work => entry_of x.2) taken /\
    Forall record_ok (log ++ new) /\ logging (log ++ new) s /\ (Forall lossless ls -> tidy s) /\
    exists j t, (length log <= j)%nat /\ disk_of (dp_log s) = encode_log (take j (log ++ new)) ++ t /\
      torn (log ++ new) j t /\
      read_all (disk_of (dp_log s)) =
        Some (if (length t <? kHeaderSize)%nat then Ok (take j (log ++ new)) else Throw "truncated WAL record").
Proof.
  intros Hent Hlog Hls. cbv zeta. destruct (entered_on_disk env cfg a log s0 Hent) as (Hlive & Hlg & Htidy & Hdisk).
  destruct (disk_run_spec _ _ ls _ _ Hlive) as (q & s & Er & Hs & Hran). pose proof Hran as [R1 R2 R3 R4 R5]. cbn [app] in R1.
  pose proof (handled_sound _ _ _ R1 R3 (R5 Hls)) as Hok.
  destruct (new_records_work (next_after log) _ (next_after_range log) Hok) as [Hn Hrec].
  destruct (R2 log Hlg) as (A & B & C). rewrite Hdisk in B. set (new := new_records _ _) in *.
  assert (Hall : Forall record_ok (log ++ new)) by by apply Forall_app.
  exists q, s. do 6 (split; [done|]). split; [auto|].
  destruct (logging_prefix _ _ A) as [u Hu].
  assert (Hk : (length (disk_of (dp_log s)) <= length (encode_log (log ++ new)))%nat) by (rewrite Hu, length_app; lia).
  destruct (read_prefix log (log ++ new) _ Hall ltac:(by eexists) Hk) as (j & t & Hj & E & Ht & Hr);
    [by apply prefix_length|]. rewrite Hu, take_app_length in E, Hr. by exists j, t.
Qed.

(** When the disk answers every call well, no exception ends the process. *)
Lemma fine_run_returns env cfg a log ls s0 s e :
  entered verify env cfg a log s0 -> Forall record_ok log -> Forall (fun l : DiskLabel => label_ok l.1) ls ->
  disk_run ls (on_disk s0) = Some s -> Forall (fun l : DiskLabel => l.2 = fine_step) ls ->
  exit_code (dp_process s) <> Some (Throw e).
Proof.
  intros Hent Hlog Hls Er Hfine.
  assert (El : ls = map (fun l => (l, fine_step)) (map fst ls)).
  { clear -Hfine. induction Hfine as [|[l io] ls E _ IH]; [done|]. cbn in *. by rewrite E, <- IH. }
  rewrite El, disk_run_fine in Er.
  destruct (run_leaves verify env cfg a log (map fst ls) s0 Hent Hlog) as (q & p & _ & _ & Ep & Hp & _);
    [by apply Forall_map|]. rewrite Ep in Er. injection Er as <-. cbn [on_disk dp_process]. unfold exit_code.
  pose proof (lv_phase _ _ _ _ Hp) as Hp4. destruct (pr_phase p); [done..|]. by intros [= ->].
Qed.

(** C9: a disk that fails costs the process its last frames and nothing else.
    Launched as in C4, under every interleaving and whatever the disk answers to
    every call of the event loop and of the shutdown: the process is never stuck;
    what it accepts was verified, and of each kind the frames it takes are the
    first ones accepted, in order; the log on the disk is the old records, then
    whole records of frames taken, in order, then a part of the next of these
    records, or nothing, which a reader takes for the end or stops at; and what is
    on the disk stays.  It ends with 0, and the transport stopped, or by an
    exception, which is then what the append of a frame taken, a snapshot that was
    due or the sync of the shutdown has thrown, on a disk that did not answer every
    call well.  If every flush passed
    its bytes on, the snapshots can be read for as long as the process runs, and
    when it ends with 0 the log has every frame it took.  A disk that answers well
    gives the process of [Main]. *)
Theorem process_survives_disk_failures env cfg a p log :
  launchable verify env cfg a p log ->
  exists s0 console, main verify env [] = Some (mkFinished None console (Some s0)) /\
    (forall ls, disk_run (map (fun l => (l, fine_step)) ls) (on_disk s0) = on_disk <$> process_run ls s0) /\
    forall ls, Forall (fun l : DiskLabel => label_ok l.1) ls ->
    let accepted := disk_collect accepted_at ls (on_disk s0) in
    let taken := disk_collect handled_at ls (on_disk s0) in
    exists s new, disk_run ls (on_disk s0) = Some s /\
      Forall (fun f => auth_verifier verify (env_padding env) a (fr_header f) (fr_payload f) = true) accepted /\
      (forall k, k <> kHeartbeat -> exists waiting,
         List.filter (is_kind k) accepted = work_of k taken ++ waiting) /\
      map (fun r => wal_entry (wr_payload r)) new = map (fun x : Work => entry_of x.2) taken /\
      (exists j t, (length log <= j)%nat /\ disk_of (dp_log s) = encode_log (take j (log ++ new)) ++ t /\
         torn (log ++ new) j t /\
         read_all (disk_of (dp_log s)) =
           Some (if (length t <? kHeaderSize)%nat then Ok (take j (log ++ new)) else Throw "truncated WAL record")) /\
      (forall l s', disk_step l s = Some s' -> disk_of (dp_log s) `prefix_of` disk_of (dp_log s')) /\
      match exit_code (dp_process s) with
      | None => quic_is_running (pr_transport (dp_process s)) = true /\
          (Forall lossless ls -> exists snaps, holds (dm_snapshot (pr_daemon (dp_process s))) snaps)
      | Some (Ok code) => code = 0 /\ quic_is_running (pr_transport (dp_process s)) = false /\
          (Forall lossless ls -> read_all (disk_of (dp_log s)) = Some (Ok (log ++ new)))
      | Some (Throw e) =>
          (exists ls1 now io ls2 s1, ls = ls1 ++ (LStep now, io) :: ls2 /\ disk_run ls1 (on_disk s0) = Some s1 /\
             exit_code (dp_process s1) = None /\ disk_call_throws io s1 e) /\
          ~ Forall (fun l : DiskLabel => l.2 = fine_step) ls
      end.
Proof.
  intros Hla. destruct (main_enters_loop verify env cfg a p log Hla) as (s0 & Hm & Hent).
  assert (Hc0 : exit_code s0 = None) by (destruct Hent as (_ & Hph & _); unfold exit_code; by rewrite Hph).
  assert (Hlog : Forall record_ok log) by by destruct Hla as [_ _ _ _ _ _ [] _ _ _].
  exists s0, (pr_console s0). split; [rewrite Hm; unfold run_process; cbn; by rewrite Hc0|].
  split; [intros ls; apply disk_run_fine|]. intros ls Hls. cbv zeta.
  destruct (disk_run_reads env cfg a log s0 ls Hent Hlog Hls) as (q & s & Er & Hs & [R1 _ _ R4 _] & Hn & Hall & A & C & Hread).
  cbn [app] in R1. set (new := new_records _ _) in *.
  exists s, new. split; [exact Er|]. split; [by apply R4|]. split; [intros k Hk; exists (q k); by apply R1|].
  split; [exact Hn|]. split; [exact Hread|]. split.
  - intros l s' E. destruct (disk_step_moves _ _ l q s Hs) as (q' & s1 & E1 & _ & M). rewrite E in E1.
    injection E1 as <-. by apply (dv_grows _ _ _ _ _ M _ A).
  - pose proof (fun e => disk_run_throws ls (on_disk s0) s e Hc0 Er) as Hthrow.
    destruct Hs as [_ _ _ _ Ht Hf]. unfold quic_is_running, udp_is_running. unfold logging in A. unfold tidy in C.
    destruct (exit_code (dp_process s)) as [[code|e]|] eqn:Hc; [|split; [by apply Hthrow|]|].
    + destruct Ht as (t & -> & Hr & _). split; [|split; [done|]].
      * unfold exit_code in Hc. destruct (pr_phase _); try done. by injection Hc as ->.
      * intros Hlos. destruct A as (_ & E & _). rewrite (C Hlos), app_nil_r in E. rewrite E. by apply read_all_whole.
    + intros Hfine. by apply (fine_run_returns env cfg a log ls s0 s e Hent Hlog Hls).
    + destruct Ht as (t & -> & Hr & _). split; [done|]. intros Hlos. by apply C.
Qed.
End Launched.

(** ** A disk that fills up, for the witness and the examples *)
Module DemoDiskProcess.
(** The disk takes 40 bytes more. *)
Definition full_step : StepAnswers := mkStepAnswers DemoDisk.full persist_fine None.

Definition labels : list DiskLabel := map (fun l => (l, full_step)) DemoLaunch.labels.

Lemma labels_sound : Forall (fun l : DiskLabel => label_ok l.1) labels.
Proof. apply Forall_map. apply DemoLaunch.labels_by_check. by vm_compute. Qed.

(** How a launch ends: the exit code, what of the log can be read, and how many
    bytes it has. *)
Definition ending (ls : list DiskLabel) : option (option (result Z) * option (result (list WalRecord)) * nat) :=
  f ← main (H := Config.Toml.library) toy_verify DemoLaunch.env [];
  p ← fin_process f; s ← disk_run ls (on_disk p);
  Some (exit_code (dp_process s), read_all (disk_of (dp_log s)), length (disk_of (dp_log s))).
End DemoDiskProcess.

Lemma process_survives_disk_failures_witness :
  exists s0 s, disk_run DemoDiskProcess.labels (on_disk s0) = Some s /\
    exists new j t, disk_of (dp_log s) = encode_log (take j ([] ++ new)) ++ t.
Proof.
  destruct (process_survives_disk_failures (H := Config.Toml.library) toy_verify DemoLaunch.env DemoLaunch.cfg
    DemoLaunch.authenticator DemoLaunch.pipeline [] DemoLaunch.launch) as (s0 & _ & _ & _ & Hr).
  destruct (Hr DemoDiskProcess.labels DemoDiskProcess.labels_sound) as (s & new & E & _ & _ & _ & (j & t & _ & Et & _ & _) & _).
  exists s0, s. split; [exact E|]. exists new, j, t. exact Et.
Defined.

(** The log is written at the shutdown, when nothing can be done about a failure:
    the process ends by the exception, with a part of a record on the disk. *)
Example full_disk_at_shutdown :
  DemoDiskProcess.ending DemoDiskProcess.labels =
    Some (Some (Throw "failed to write WAL buffer"), Some (Throw "truncated WAL record"), 40%nat).
Proof. by vm_compute. Qed.

(** An [fsync] that fails ends the process too, with the whole log in the file. *)
Example fsync_fails_at_shutdown :
  (fun x => (x.1.1, x.2)) <$> DemoDiskProcess.ending
    (map (fun l => (l, mkStepAnswers (mkDiskAnswers None None None (-1)) persist_fine None)) DemoLaunch.labels) =
    Some (Some (Throw "fsync failed"), 132%nat).
Proof. vm_compute. reflexivity. Qed.

(** A [fflush] that leaves everything behind is not noticed: the process ends with
    0, and what [fclose] cannot write is lost. *)
Example lost_at_close :
  DemoDiskProcess.ending
    (map (fun l => (l, mkStepAnswers DemoDisk.stalled persist_fine (Some 0%nat))) DemoLaunch.labels) =
    Some (Some (Ok 0), Some (Ok []), 0%nat).
Proof. by vm_compute. Qed.
