(* ===== verification/Recovery.v ===== *)
(** * The log is enough

    The daemon never replays its log.  If it did, with the driver of [libs/replay]
    and the handlers of the event loop, it would get its books, accounts, contexts
    and feeds back: a handler reads nothing that is not in the record of its
    frame. *)
From S2P Require Import Config.
From S2P Require Import Prelude Types Bytes Matcher MatcherSpec MatcherRefine Risk SpscRing Sbe Ingest IngestProps Transport.
From S2P Require Import Wal WalProps Snapshot SnapshotProps Replay Api Auth Daemon Handlers Exchange DaemonProps DaemonRuns ExchangeRuns.
From S2P Require Import Main MainProps Output WalFile SnapshotFile DiskProcess.
Open Scope string_scope.
Open Scope list_scope.
Open Scope Z_scope.

(** ** A record and its frame *)

(** The frame of a record; its priority is not in the log. *)
Definition logged_work (b : bytes) : Work :=
  let '(kind, account, nonce, time, payload) := wal_entry b in
  (MessageKind_of_u8 kind, mkFrame (mkHeader account nonce time 0 (MessageKind_of_u8 kind)) payload).

(** A frame in the queue of its kind. *)
Definition well_queued (x : Work) : Prop := queued x /\ is_kind x.1 x.2 = true /\ frame_ok x.2.

(** Handlers do not look at the priority. *)
Lemma handle_logged x d :
  well_queued x -> handle (logged_work (build_wal_payload x.2)).1 (logged_work (build_wal_payload x.2)).2 d = handle x.1 x.2 d.
Proof.
  destruct x as [k f]. intros (_ & Hk & Hf). cbn [fst snd] in *. apply bool_decide_eq_true in Hk.
  unfold logged_work. rewrite wal_entry_roundtrip by done. unfold entry_of. rewrite kind_roundtrip, Hk. cbn [fst snd].
  destruct f as [[a n t p k'] payload]. cbn in Hk. subst k'. by destruct k.
Qed.

(** The event handler, on a daemon or nothing (after undefined behaviour). *)
Definition rebuild_event (r : WalRecord) (s : option Daemon) : option Daemon * result () :=
  (d ← s; handle (logged_work (wr_payload r)).1 (logged_work (wr_payload r)).2 d, Ok ()).

(** The driver, on the snapshots of a directory and on a log. *)
Definition rebuilder (directory : Disk) (wal : bytes) : Driver (option Daemon) :=
  configure directory (Some wal) (set_event_handler rebuild_event new_driver).

Lemma execute_rebuilder directory snaps file s :
  Forall snap_ok snaps -> default [] (dk_snapshot directory) = encode_snaps snaps ->
  execute (rebuilder directory file) s = replay_log rebuild_event (resume_after snaps) (Some file) s.
Proof.
  intros Hok E. unfold execute. cbn [rebuilder configure set_event_handler event_handler snapshot_handler wal_path].
  rewrite (latest_holds _ snaps) by by split. unfold resume_after. by destruct (last snaps).
Qed.

Lemma rebuild_none rs : foldl (fun s r => (rebuild_event r s).1) None rs = None.
Proof. by induction rs. Qed.

Lemma rebuild_records l : forall sequence d,
  Forall well_queued l ->
  foldl (fun s r => (rebuild_event r s).1) (Some d) (new_records sequence (wal_entries l)) = handle_all l d.
Proof.
  induction l as [|[k f] l IH]; intros sequence d Hl; [done|]. apply Forall_cons in Hl as [Hx Hl].
  cbn [wal_entries map new_records foldl handle_all]. unfold rebuild_event at 2. cbn [fst wr_payload mbind option_bind].
  rewrite (handle_logged (k, f)) by done. cbn [fst snd].
  destruct (handle k f d) as [d1|]; [by apply IH|]. apply rebuild_none.
Qed.

(** The records of a log whose numbers are below the next one. *)
Definition numbered_below (log : list WalRecord) : Prop :=
  Forall (fun r => rh_sequence (wr_header r) < next_after log) log.

(** What is replayed of such a log and of records after it, from a number behind it. *)
Lemma from_sequence_continued log l k :
  numbered_below log -> next_after log + Z.of_nat (length l) < 2 ^ 63 -> next_after log + Z.of_nat k < 2 ^ 63 ->
  from_sequence (next_after log + Z.of_nat k) (log ++ new_records (next_after log) l) =
    new_records (next_after log + Z.of_nat k) (drop k l).
Proof.
  intros Hlog Hl Hk. pose proof (next_after_range log) as [H0 _]. unfold numbered_below in Hlog. set (s := next_after log) in *.
  rewrite from_sequence_app. replace (from_sequence _ log) with (@nil WalRecord).
  2: { unfold from_sequence. symmetry. clear -Hlog. revert Hlog. generalize s. clear. intros s Hlog.
       induction Hlog as [|r log Hr _ IH]; [done|]. cbn [List.filter]. destruct (Z.ltb_spec (rh_sequence (wr_header r)) (s + Z.of_nat k)); [exact IH|lia]. }
  cbn [app]. destruct (Nat.le_gt_cases k (length l)) as [Hle|Hgt].
  - rewrite <- (take_drop k l) at 1. rewrite new_records_split, from_sequence_app, from_sequence_below;
      rewrite ?length_take, ?Nat.min_l by done; try lia.
    apply from_sequence_above; rewrite ?length_drop; lia.
  - rewrite drop_ge by lia. apply from_sequence_below; lia.
Qed.

Lemma new_records_take l : forall n s, take n (new_records s l) = new_records s (take n l).
Proof.
  induction l as [|[r p] l IH]; intros [|n] s; cbn [take new_records]; [done..|]. by rewrite IH.
Qed.

(** The driver on a log, then the first of the frames [l], then a part of the next
    record; it starts on the daemon of the frames behind which it resumes. *)
Lemma rebuild_log directory snaps log l k m t d start :
  Forall snap_ok snaps -> default [] (dk_snapshot directory) = encode_snaps snaps -> numbered_below log ->
  resume_after snaps = next_after log + Z.of_nat k -> next_after log + Z.of_nat (length l) < 2 ^ 63 ->
  let new := new_records (next_after log) (wal_entries l) in
  Forall record_ok (log ++ new) -> Forall well_queued l -> torn (log ++ new) (length log + m) t ->
  (k <= length l)%nat -> handle_all (take k l) d = Some start ->
  execute (rebuilder directory (encode_log (take (length log + m) (log ++ new)) ++ t)) (Some start) =
    Some (handle_all (take (k `max` m) l) d, if (length t <? kHeaderSize)%nat then Ok () else Throw "truncated WAL record").
Proof.
  intros Hs Ed Hlog Hr Hl. cbv zeta. intros Hok Hq Ht Hk Hd.
  pose proof (torn_ends _ _ _ Hok Ht) as He. pose proof (Forall_take _ (length log + m) _ Hok) as Hrec.
  rewrite (execute_rebuilder _ snaps), (replay_log_fold rebuild_event _ t _ _ _ (fun _ _ => eq_refl) Hrec He) by done.
  rewrite Hr, take_app_add, new_records_take. unfold wal_entries. rewrite firstn_map, from_sequence_continued;
    [|done|rewrite length_map, length_take; lia|lia].
  rewrite skipn_map, (rebuild_records _ _ start) by (by apply Forall_drop, Forall_take). do 2 f_equal.
  rewrite <- (take_drop k (take (k `max` m) l)), handle_all_app, take_take, Nat.min_l, Hd by lia. cbn [mbind option_bind].
  destruct (Nat.le_gt_cases k m); [by rewrite Nat.max_r by lia|]. rewrite Nat.max_l by lia.
  rewrite !drop_ge; [done|rewrite length_take; lia..].
Qed.

(** ** The daemon along a run *)
Lemma handle_all_proper l : Proper (same_inside ==> option_Forall2 same_inside) (handle_all l).
Proof.
  induction l as [|[k f] l IH]; intros d1 d2 Hd; [by constructor|]. cbn [handle_all].
  destruct (handle_proper k f d1 d2 Hd) as [e1 e2 He|]; [by apply IH|constructor].
Qed.

Lemma file_flush_next io w : fw_next_sequence (file_flush io w).1 = fw_next_sequence w.
Proof.
  unfold file_flush. destruct (fw_file w); [|done]. destruct (fw_buffer w); [done|]. destruct (fwrite _ _ _). by destruct (negb _).
Qed.

Lemma file_append_next io r p w w' :
  file_append io r p w = (w', Ok ()) -> fw_next_sequence w' = u64 (fw_next_sequence w + 1).
Proof.
  unfold file_append. destruct (fw_file w) as [s|]; [|done]. destruct (_ >=? _); [|by intros [= <-]].
  intros E. match type of E with file_flush io ?w0 = _ => pose proof (file_flush_next io w0) as H end.
  by rewrite E in H.
Qed.

Lemma file_sync_next io w : fw_next_sequence (file_sync io w).1 = fw_next_sequence w.
Proof. unfold file_sync. pose proof (file_flush_next io w) as H. by destruct (file_flush io w) as [w' []]. Qed.

(** An exception ended the process. *)
Definition thrown (s : DiskProcess) : Prop :=
  match exit_code (dp_process s) with Some (Throw _) => True | _ => False end.

#[export] Instance thrown_dec s : Decision (thrown s).
Proof. unfold thrown. destruct (exit_code _) as [[]|]; apply _. Defined.

(** The handlers, on what is taken, give the inside of the daemon. *)
Definition follows (l : list Work) (s s' : DiskProcess) : Prop :=
  exists d, handle_all l (pr_daemon (dp_process s)) = Some d /\
    (~ thrown s' -> same_inside d (pr_daemon (dp_process s'))).

Lemma follows_nothing s s' :
  (~ thrown s' -> same_inside (pr_daemon (dp_process s)) (pr_daemon (dp_process s'))) -> follows [] s s'.
Proof. intros H. by exists (pr_daemon (dp_process s)). Qed.

Lemma same_ingress p d : same_inside d (set_ingress p d).
Proof. split; [by destruct d|done]. Qed.

Section Running.
Context (dep : MessageKind -> Z) (v : AuthVerifier).

Lemma disk_queue_follows k processed now io q s s' :
  disk_live dep v q s -> pr_phase (dp_process s) = PQueue k processed -> disk_loop_step io now s = Some s' ->
  follows (handled_at (LStep now) (dp_process s)) s s'.
Proof.
  intros [Hp _ [a He] Hw _ Hf] Hph. unfold disk_loop_step, handled_at. rewrite Hph in *. rewrite next_frame_of.
  pose proof (next_spec k _ _ _ Hp Hf) as Hn. destruct (q k) as [|f rest].
  - rewrite Hn. cbn [mbind option_bind]. intros [= <-]. apply follows_nothing. intros _. by apply same_ingress.
  - destruct Hn as (p & En & _ & _). rewrite En. cbn [mbind option_bind]. rewrite handle_to_spec by done.
    destruct (handle_spec k f _ a Hf He) as (d & Eh & _).
    destruct (file_append _ _ _ _) as [w' [[]|e]] eqn:Ea; intros E; exists d; cbn [handle_all]; rewrite Eh; (split; [done|]).
    + rewrite handle_ingress, Eh in E. injection E as <-. intros _. split; [by destruct d|].
      apply handle_outside in Eh. rewrite <- Eh. cbn. rewrite (file_append_next _ _ _ _ _ Ea).
      destruct k; [| | |done]; cbn; by rewrite append_next, Hw.
    + injection E as <-. intros []. done.
Qed.

Lemma stop_same q io s : disk_live dep v q s -> same_inside (pr_daemon (dp_process s)) (pr_daemon (dp_process (stop_to io s))).
Proof.
  intros Hl. pose proof (dl_shown _ _ _ _ Hl) as Hw. unfold stop_to. destruct (quic_stop _ _) as [t fds].
  pose proof (file_sync_next (sa_log io) (dp_log s)) as Hn.
  destruct (file_sync _ _) as [w [[]|e]]; (split; [by destruct (pr_daemon _)|]); cbn; rewrite Hw; by cbn in *.
Qed.

Lemma disk_step_follows l q s s' :
  disk_live dep v q s -> disk_step l s = Some s' -> follows (handled_at l.1 (dp_process s)) s s'.
Proof.
  intros Hl. destruct l as [l io]. unfold disk_step. cbn [fst snd]. destruct (exit_code (dp_process s)) as [code|] eqn:Hc.
  { unfold process_step. rewrite Hc. intros E. assert (Hh : handled_at l (dp_process s) = []).
    { unfold handled_at, exit_code in *. destruct l; [done..|]. by destruct (pr_phase _). }
    rewrite Hh. destruct l; injection E as <-; by apply follows_nothing. }
  destruct l as [r| |now].
  - unfold process_step. rewrite Hc. intros [= <-]. apply follows_nothing. intros _. cbn. unfold receive.
    destruct (quic_receive _ _ _). by apply same_ingress.
  - unfold process_step. rewrite Hc. intros [= <-]. by apply follows_nothing.
  - destruct (pr_phase (dp_process s)) as [|k n|n| | |code] eqn:Hph; [|intros E; by eapply disk_queue_follows|..];
      (replace (handled_at (LStep now) (dp_process s)) with (@nil Work) by (unfold handled_at; by rewrite Hph));
      unfold disk_loop_step; rewrite Hph; unfold loop_step; rewrite ?Hph.
    + intros [= <-]. apply follows_nothing. intros _. cbn. by destruct (pr_shutdown _).
    + destruct (n >? 0); [|intros [= <-]; by apply follows_nothing].
      destruct (advance_block_to_spec (sa_persist io) n (pr_daemon (dp_process s))) as (st & block & last & r & E & _).
      rewrite E. intros [= <-]. apply follows_nothing. intros _. cbn. split; [by destruct (pr_daemon _)|done].
    + intros [= <-]. apply follows_nothing. intros _. cbn. by rewrite report_status_daemon.
    + intros [= <-]. apply follows_nothing. intros _. by eapply stop_same.
    + unfold exit_code in Hc. by rewrite Hph in Hc.
Qed.

Lemma disk_collect_exited ls s : is_Some (exit_code (dp_process s)) -> disk_collect handled_at ls s = [].
Proof.
  intros Hc. induction ls as [|l ls IH]; [done|]. cbn [disk_collect]. rewrite disk_step_exited, IH, app_nil_r by done.
  destruct Hc as [code Hc]. unfold handled_at, exit_code in *. destruct l.1; [done..|]. by destruct (pr_phase _).
Qed.

Lemma disk_run_follows ls : forall q s s',
  disk_live dep v q s -> disk_run ls s = Some s' -> follows (disk_collect handled_at ls s) s s'.
Proof.
  induction ls as [|l ls IH]; intros q s s' Hl E; [injection E as <-; by apply follows_nothing|].
  destruct (disk_step_moves dep v l q s Hl) as (q1 & s1 & E1 & Hl1 & _). cbn [disk_run disk_collect] in *.
  rewrite E1 in E |- *. cbn [mbind option_bind] in E. destruct (disk_step_follows l q s s1 Hl E1) as (d1 & Hd1 & Hs1).
  unfold follows. rewrite handle_all_app, Hd1. cbn [mbind option_bind]. destruct (decide (thrown s1)) as [Ht|Ht].
  - assert (Hc : is_Some (exit_code (dp_process s1))) by (unfold thrown in Ht; destruct (exit_code _); [done|by destruct Ht]).
    rewrite disk_run_exited in E by done. injection E as <-. rewrite disk_collect_exited by done. exists d1. split; [done|]. by intros [].
  - destruct (IH q1 s1 s' Hl1 E) as (d2 & Hd2 & Hs2).
    pose proof (handle_all_proper (disk_collect handled_at ls s1) _ _ (Hs1 Ht)) as H. rewrite Hd2 in H.
    inversion H as [e1 e2 He Hx Hy|]. exists e1. split; [done|]. intros Ht'. etrans; [exact He|by apply Hs2].
Qed.
End Running.

(** ** The log on the disk *)
Lemma handled_length ls : forall s, (length (disk_collect handled_at ls s) <= length ls)%nat.
Proof.
  induction ls as [|l ls IH]; intros s; [done|]. cbn [disk_collect length]. rewrite length_app.
  assert (H : (length (handled_at l.1 (dp_process s)) <= 1)%nat).
  { unfold handled_at. destruct l.1; cbn; [lia..|]. destruct (pr_phase _); cbn; try lia.
    destruct (next_frame _ _) as [[? []]|]; cbn; lia. }
  destruct (disk_step l s) as [s1|]; cbn; [specialize (IH s1)|]; lia.
Qed.

Lemma taken_well_queued acc l (waiting : MessageKind -> list Frame) :
  (forall k, k <> kHeartbeat -> List.filter (is_kind k) acc = work_of k l ++ waiting k) ->
  Forall queued l -> Forall sound_frame acc -> Forall well_queued l.
Proof.
  intros H1 H2 H3. pose proof (handled_queued _ _ _ H1 H2 H3) as H. rewrite Forall_forall in H, H2 |- *.
  intros x Hx. destruct (H x Hx) as (Hk & Hf & _). split; [by apply H2|by split].
Qed.

Lemma handle_all_take n l d d' : handle_all l d = Some d' -> exists dn, handle_all (take n l) d = Some dn.
Proof.
  rewrite <- (take_drop n l) at 1. rewrite handle_all_app. destruct (handle_all (take n l) d) as [dn|]; [by exists dn|done].
Qed.

Lemma length_new_records l : forall s, length (new_records s l) = length l.
Proof. induction l as [|[r p] l IH]; intros s; [done|]. cbn. by rewrite IH. Qed.

(** C7: the log is enough to rebuild the daemon.  Launched on a log of whole records
    whose numbers are below the next one, under every interleaving and on a disk that
    may fail: give the replay driver the log the process leaves and snapshots behind
    whose last number [k] of the frames taken follow the old log ([k] is 0 for an
    empty log and no snapshots, and for a snapshot numbered as the last old record);
    start it, with a handler that calls the loop's handler for the frame of each
    record, on the daemon as these [k] frames make it.  It rebuilds the daemon as the
    frames make it whose whole records are on the disk (the first [m] frames taken),
    and stops at the end of the log or at the part of a record it ends in.  Unless an
    exception has ended it, the process is what all the frames taken make it, in its
    books, accounts, contexts, feeds and next sequence number; when it ends with 0 and
    every flush passed its bytes on, that is what the driver rebuilds. *)
Theorem log_rebuilds_daemon `{Config.TomlLibrary} verify env cfg a p log directory snaps :
  launchable verify env cfg a p log -> numbered_below log ->
  Forall snap_ok snaps -> default [] (dk_snapshot directory) = encode_snaps snaps ->
  exists s0 console, main verify env [] = Some (mkFinished None console (Some s0)) /\
    forall ls k, Forall (fun l : DiskLabel => label_ok l.1) ls -> next_after log + Z.of_nat (length ls) < 2 ^ 63 ->
    let taken := disk_collect handled_at ls (on_disk s0) in
    (k <= length taken)%nat -> resume_after snaps = next_after log + Z.of_nat k ->
    exists s start d d' m t, disk_run ls (on_disk s0) = Some s /\
      disk_of (dp_log s) = encode_log (log ++ new_records (next_after log) (wal_entries (take m taken))) ++ t /\
      handle_all (take k taken) (pr_daemon s0) = Some start /\
      execute (rebuilder directory (disk_of (dp_log s))) (Some start) =
        Some (Some d, if (length t <? kHeaderSize)%nat then Ok () else Throw "truncated WAL record") /\
      handle_all (take (k `max` m) taken) (pr_daemon s0) = Some d /\
      handle_all taken (pr_daemon s0) = Some d' /\
      match exit_code (dp_process s) with
      | None => same_inside d' (pr_daemon (dp_process s))
      | Some (Ok _) => same_inside d' (pr_daemon (dp_process s)) /\
          (Forall lossless ls -> t = [] /\ same_inside d (pr_daemon (dp_process s)))
      | Some (Throw _) => True
      end.
Proof.
  intros Hla Hnum Hsn Hdir. destruct (main_enters_loop verify env cfg a p log Hla) as (s0 & Hm & Hent).
  assert (Hc0 : exit_code s0 = None) by (destruct Hent as (_ & Hph & _); unfold exit_code; by rewrite Hph).
  assert (Hlog : Forall record_ok log) by by destruct Hla as [_ _ _ _ _ _ [] _ _ _].
  exists s0, (pr_console s0). split; [rewrite Hm; unfold run_process; cbn; by rewrite Hc0|].
  intros ls k Hls Hn. cbv zeta. set (taken := disk_collect handled_at ls (on_disk s0)). intros Hk Hr.
  destruct (disk_run_reads verify env cfg a log s0 ls Hent Hlog Hls)
    as (q & s & Er & Hs & [R1 _ R3 _ R5] & _ & Hok & A & C & j & t & Hj & Ed & Ht & _). fold taken in A, Hok, Ed, Ht.
  destruct (entered_on_disk verify env cfg a log s0 Hent) as (Hlive & _).
  pose proof (taken_well_queued _ _ _ R1 R3 (R5 Hls)) as Hwq. fold taken in Hwq.
  assert (Hlen : next_after log + Z.of_nat (length taken) < 2 ^ 63) by (pose proof (handled_length ls (on_disk s0)); unfold taken; lia).
  destruct (disk_run_follows _ _ ls _ _ _ Hlive Er) as (d' & Hd' & Hsame). fold taken in Hd'. cbn [on_disk dp_process] in Hd'.
  destruct (handle_all_take k _ _ _ Hd') as [start Hstart]. set (m := (j - length log)%nat).
  replace j with (length log + m)%nat in Ed, Ht by (unfold m; lia).
  destruct (handle_all_take (k `max` m) _ _ _ Hd') as [d Hd]. exists s, start, d, d', m, t.
  rewrite Ed, (rebuild_log directory snaps log taken k m t _ start Hsn Hdir Hnum Hr Hlen Hok Hwq Ht Hk Hstart), Hd.
  rewrite take_app_add, new_records_take. unfold wal_entries. rewrite firstn_map. do 6 (split; [done|]).
  unfold thrown in Hsame. destruct (exit_code (dp_process s)) as [[code|e]|] eqn:Hc; [|done|apply Hsame; by intros []].
  assert (Hsm : same_inside d' (pr_daemon (dp_process s))) by (apply Hsame; by intros []). split; [exact Hsm|].
  intros Hlos. pose proof (logging_whole _ s code Hc A (C Hlos)) as E.
  destruct (torn_nothing _ _ _ Ht ltac:(by rewrite <- Ed, E)) as [-> Hm']. split; [done|].
  rewrite take_ge, Hd' in Hd; [by injection Hd as ->|].
  rewrite length_app, length_new_records in Hm'. unfold wal_entries in Hm'. rewrite length_map in Hm'. lia.
Qed.

(** With the snapshot the daemon writes after [length l] frames in the directory,
    the driver starts behind it, and what those frames did is in neither: the
    snapshot holds the chain and the block number only. *)
Lemma snapshot_hides_log l l' chain d :
  Forall well_queued (l ++ l') -> Forall (fun x : Work => bytes_ok (fr_payload x.2)) (l ++ l') ->
  Z.of_nat (length l) < 2 ^ 32 - 1 -> Z.of_nat (length (l ++ l')) < 2 ^ 63 ->
  let n := Z.of_nat (length l) in
  let directory := mkDisk (Some (encode_snaps [current n (snapshot_payload chain n)])) None in
  let log := encode_log (new_records 1 (wal_entries (l ++ l'))) in
  execute (rebuilder directory log) (Some d) = Some (handle_all l' d, Ok ()).
Proof.
  intros Hl Hb Hn Hlen. cbv zeta. set (n := Z.of_nat (length l)).
  assert (Hok : Forall snap_ok [current n (snapshot_payload chain n)]).
  { constructor; [|constructor]. apply current_ok; [unfold in_u; lia|].
    unfold snapshot_payload, append_primitive. rewrite !length_app, !length_to_le. cbn. lia. }
  rewrite (execute_rebuilder _ [current n (snapshot_payload chain n)]) by done.
  unfold resume_after. cbn [last er_header current sh_sequence].
  rewrite <- (app_nil_r (encode_log _)), (replay_log_fold rebuild_event _ [] (Ok ())); [|done| |exact ends_nil].
  - unfold wal_entries, n. rewrite map_app. rewrite <- (length_map (fun x : Work => (0, build_wal_payload x.2)) l).
    rewrite resume_splits_log by (rewrite ?length_app, ?length_map in *; lia). rewrite rebuild_records; [done|].
    by apply Forall_app in Hl as [].
  - apply new_records_work; [by vm_compute|]. rewrite Forall_forall in Hl, Hb |- *. intros x Hx. split; [apply (Hl x Hx)|by apply Hb].
Qed.

(** The same environment on another log. *)
Definition with_log (wal : bytes) (e : Environment) : Environment :=
  mkEnvironment (env_program e) (env_args e) (env_home e) (env_chain_id e) (env_exists e) (fun _ => wal)
    (env_snapshots e) (env_create_directories e) (env_wal_fopen e) (env_wal_fseek e) (env_wal_read e)
    (env_sodium_init e) (env_keypair e) (env_padding e) (env_sockets e) (env_now e).

Lemma launchable_with_log `{Config.TomlLibrary} verify env cfg a p log log' :
  launchable verify env cfg a p log -> Forall record_ok log' ->
  launchable verify (with_log (encode_log log') env) cfg a p log'.
Proof. intros [] Hlog. by split. Qed.

(** A launch on a log of two records, and a snapshot numbered as the second. *)
Module DemoRelaunch.
Definition snaps : list EncodedRecord := [current 2 [9]].
End DemoRelaunch.

Lemma log_rebuilds_daemon_witness :
  exists s0 s d m (t : bytes), disk_run DemoDiskProcess.labels (on_disk s0) = Some s /\
    execute (rebuilder (mkDisk (Some (encode_snaps DemoRelaunch.snaps)) None) (disk_of (dp_log s))) (Some (pr_daemon s0)) =
      Some (Some d, if (length t <? kHeaderSize)%nat then Ok () else Throw "truncated WAL record") /\
    handle_all (take m (disk_collect handled_at DemoDiskProcess.labels (on_disk s0))) (pr_daemon s0) = Some d.
Proof.
  destruct (log_rebuilds_daemon (H := Config.Toml.library) toy_verify (with_log (encode_log demo_log) DemoLaunch.env) DemoLaunch.cfg
    DemoLaunch.authenticator DemoLaunch.pipeline demo_log (mkDisk (Some (encode_snaps DemoRelaunch.snaps)) None)
    DemoRelaunch.snaps) as (s0 & _ & _ & Hr).
  - exact (launchable_with_log (H := Config.Toml.library) _ _ _ _ _ _ _ DemoLaunch.launch demo_log_ok).
  - repeat constructor; by vm_compute.
  - repeat constructor; vm_compute; congruence.
  - done.
  - destruct (Hr DemoDiskProcess.labels 0%nat DemoDiskProcess.labels_sound ltac:(by vm_compute) ltac:(lia) ltac:(by vm_compute))
      as (s & start & d & _ & m & t & E & _ & [= <-] & Ex & Eh & _).
    exists s0, s, d, m, t. split; [exact E|]. split; [exact Ex|exact Eh].
Defined.

(** ** The process is an exchange *)

(** Launched on a log of whole records, under every interleaving and on a disk that
    may fail, the process is the exchange fed with the frames it takes, until an
    exception of the disk ends it. *)
Theorem process_is_an_exchange `{Config.TomlLibrary} verify env cfg a p log :
  launchable verify env cfg a p log ->
  exists s0 console, main verify env [] = Some (mkFinished None console (Some s0)) /\
    forall ls, let taken := disk_collect handled_at ls (on_disk s0) in
    let market := dm_default_market (pr_daemon s0) in
    let x := opened cfg (pr_daemon s0) in
    all_unused market (next_after log) taken x = true ->
    exists s, disk_run ls (on_disk s0) = Some s /\
      (~ thrown s ->
       let '(y, trades) := exchange_run market (next_after log) taken x in
       let d := pr_daemon (dp_process s) in
       engine_rep (dm_matcher d) (ex_books y) /\ dm_risk d = ex_risk y /\ trade_metadata (dm_api d) = last_n 4096 trades).
Proof.
  intros Hla. destruct (main_enters_loop verify env cfg a p log Hla) as (s0 & Hm & Hent).
  assert (Hlog : Forall record_ok log) by by destruct Hla as [_ _ _ _ _ _ [] _ _ _].
  assert (Hc0 : exit_code s0 = None) by (destruct Hent as (_ & Hph & _); unfold exit_code; by rewrite Hph).
  destruct (entered_on_disk verify env cfg a log s0 Hent) as (Hlive & _).
  destruct Hent as (_ & _ & _ & _ & id & _ & Hb).
  exists s0, (pr_console s0). split; [rewrite Hm; unfold run_process; cbn; by rewrite Hc0|].
  intros ls. cbv zeta. intros Hu. destruct (disk_run_spec _ _ ls _ _ Hlive) as (q & s & Er & _ & [_ _ R3 _ _]).
  exists s. split; [exact Er|]. intros Ht.
  destruct (disk_run_follows _ _ ls _ _ _ Hlive Er) as (d' & Hd' & Hsame). specialize (Hsame Ht).
  assert (E0 : deposit [] (pr_daemon s0) = pr_daemon s0) by by destruct (pr_daemon s0).
  destruct (booted_exchange cfg _ log _ _ _ [] _ Hlog Hb R3) as (d1 & E1 & [He Hr _] & Htr); [by rewrite E0|].
  rewrite E0 in E1, He, Hr, Htr. cbn [on_disk dp_process] in Hd'. rewrite Hd' in E1. injection E1 as <-.
  destruct Hsame as [Hin _]. destruct (exchange_run _ _ _ _) as [y trades]. cbn [fst snd] in *.
  rewrite <- Hin in He, Hr, Htr. done.
Qed.
