(* ===== verification/Feed.v ===== *)
(** * Readers of the feeds

    The execution extensions read the express feed and the trade feed by log
    offset: a reader asks for the entries from the number after the last one it has
    ([get_express_feed_frames], [get_trade_metadata]).  The mutex of the router is
    held for one push or one query, so a poll can fall between any two pushes of the
    main thread, those of one frame included.  Under every such interleaving, what
    each poll gives. *)
From Stdlib Require Import Sorting.Sorted.
From S2P Require Import Config Transport Auth.
From S2P Require Import Prelude Types Bytes OrderedMap Matcher MatcherSpec BookRefine MatcherRefine.
From S2P Require Import Risk RiskProps FundingLedger SpscRing SpscRingProps Sbe Ingest IngestProps.
From S2P Require Import Wal WalProps Snapshot SnapshotProps Api Daemon Handlers Exchange DaemonProps DaemonRuns ExchangeRuns.
From S2P Require Import Main MainProps WalFile SnapshotFile DiskProcess Recovery.

(** ** One feed *)
Section Polling.
Context {T : Type} (offset : T -> Z).
Implicit Types l sent new : list T.

Definition from_offset (c : Z) l : list T := List.filter (fun x => offset x >=? c) l.

(** The number to ask from after a batch. *)
Definition next_from (c : Z) (batch : list T) : Z :=
  match last batch with Some x => offset x + 1 | None => c end.

(** Entries in the order of their offsets, which are from [lo] and before [hi]. *)
Record numbered (lo hi : Z) l : Prop := {
  nu_sorted : StronglySorted (fun x y => offset x <= offset y) l;
  nu_range : Forall (fun x => lo <= offset x < hi) l;
  nu_bounds : lo <= hi }.

Lemma numbered_same n l : Forall (fun x => offset x = n) l -> numbered n (n + 1) l.
Proof.
  intros H. split; [|eapply Forall_impl; [exact H|]; cbn; lia|lia].
  induction H as [|x l Hx Hl IH]; constructor; [done|]. eapply Forall_impl; [exact Hl|]. cbn. lia.
Qed.

Lemma numbered_app lo mid hi l1 l2 : numbered lo mid l1 -> numbered mid hi l2 -> numbered lo hi (l1 ++ l2).
Proof.
  intros [S1 R1 B1] [S2 R2 B2]. split; [|apply Forall_app; split; (eapply Forall_impl; [eassumption|]); cbn; lia|lia].
  induction S1 as [|x l S IH Hx]; [done|]. apply Forall_cons in R1 as [Hr R1]. cbn. constructor; [by apply IH|].
  apply Forall_app. split; [done|]. eapply Forall_impl; [exact R2|]. cbn. lia.
Qed.

Lemma from_offset_seen c l : Forall (fun x => offset x < c) l -> from_offset c l = [].
Proof.
  unfold from_offset. induction 1 as [|x l Hx Hl IH]; [done|]. cbn [List.filter].
  destruct (Z.geb_spec (offset x) c); [lia|done].
Qed.

Lemma from_offset_new c l : Forall (fun x => c <= offset x) l -> from_offset c l = l.
Proof.
  unfold from_offset. induction 1 as [|x l Hx Hl IH]; [done|]. cbn [List.filter].
  destruct (Z.geb_spec (offset x) c); [by rewrite IH|lia].
Qed.

Lemma last_n_app n sent new : exists k, last_n n (sent ++ new) = drop k sent ++ last_n n new.
Proof.
  unfold last_n. rewrite length_app, skipn_app. eexists. do 2 f_equal. lia.
Qed.

Lemma last_last_n n l : last (last_n (S n) l) = last l.
Proof.
  unfold last_n. destruct (last l) as [x|] eqn:E.
  - apply last_Some in E as [l' ->]. rewrite length_app. cbn. rewrite drop_app_le by lia. by rewrite last_snoc.
  - apply last_None in E as ->. done.
Qed.

(** A sorted list ends with its largest offset. *)
Lemma last_largest lo hi l x : numbered lo hi l -> last l = Some x -> Forall (fun y => offset y <= offset x) l.
Proof.
  intros [Hs _ _]. induction Hs as [|y l Hs IH Hy]; [done|]. destruct l as [|z l].
  - intros [= ->]. by repeat constructor.
  - rewrite last_cons_cons. intros E. specialize (IH E). constructor; [|done].
    apply Forall_cons in Hy as [Hy _], IH as [Hz _]. lia.
Qed.

(** Of sorted entries, those from [c] on are the end. *)
Lemma from_offset_split c lo hi l :
  numbered lo hi l -> exists pre, l = pre ++ from_offset c l /\ Forall (fun x => offset x < c) pre.
Proof.
  intros [Hs _ _]. induction Hs as [|x l Hs IH Hx]; [by exists []|]. unfold from_offset in *. cbn [List.filter].
  destruct (Z.geb_spec (offset x) c) as [H|H].
  - exists []. split; [|constructor]. cbn. f_equal. symmetry. apply from_offset_new.
    eapply Forall_impl; [exact Hx|]. cbn. lia.
  - destruct IH as (pre & E & Hp). exists (x :: pre). cbn. rewrite <- E. split; [done|by constructor].
Qed.

Lemma from_offset_above c l : Forall (fun x => c <= offset x) (from_offset c l).
Proof.
  unfold from_offset. induction l as [|x l IH]; [constructor|]. cbn [List.filter].
  destruct (Z.geb_spec (offset x) c); [constructor; [lia|done]|done].
Qed.

(** A poll from behind what the reader has, when [new] was sent since the previous
    one: the last [S n] of what is not numbered as something the reader has. *)
Lemma poll_gives n c lo hi sent new :
  Forall (fun x => offset x < c) sent -> numbered lo hi new ->
  from_offset c (last_n (S n) (sent ++ new)) = last_n (S n) (from_offset c new).
Proof.
  intros Hs Hn. destruct (from_offset_split c lo hi new Hn) as (pre & E & Hp).
  rewrite E at 1. rewrite app_assoc. destruct (last_n_app (S n) (sent ++ pre) (from_offset c new)) as [k ->].
  unfold from_offset at 1. rewrite List.filter_app. fold (from_offset c (drop k (sent ++ pre))).
  rewrite from_offset_seen by by apply Forall_drop, Forall_app. apply from_offset_new, Forall_drop, from_offset_above.
Qed.

(** After it, everything sent is numbered below what the reader asks for. *)
Lemma next_from_above c lo hi sent new :
  Forall (fun x => offset x < c) sent -> numbered lo hi new -> c <= hi ->
  Forall (fun x => offset x < next_from c (from_offset c new)) (sent ++ new) /\ next_from c (from_offset c new) <= hi.
Proof.
  intros Hs Hn Hc. pose proof Hn as [_ Hr Hb]. destruct (from_offset_split c lo hi new Hn) as (pre & E & Hp). unfold next_from.
  destruct (last (from_offset c new)) as [x|] eqn:El.
  - assert (Hlast : last new = Some x) by (by rewrite E, last_app, El).
    assert (Hx : lo <= offset x < hi) by (rewrite Forall_forall in Hr; by apply Hr, last_Some_elem_of).
    assert (Hcx : c <= offset x) by (pose proof (from_offset_above c new) as Ha; rewrite Forall_forall in Ha; by apply Ha, last_Some_elem_of).
    split; [|lia]. apply Forall_app. split; [eapply Forall_impl; [exact Hs|]; cbn; lia|].
    eapply Forall_impl; [by eapply last_largest|]. cbn. lia.
  - apply last_None in El. rewrite El, app_nil_r in E. split; [|done]. apply Forall_app. by rewrite E.
Qed.
End Polling.

(** ** The calls of the main thread *)

(** The trades a frame makes, for the [try] block at the number [off]. *)
Definition trades_made (k : MessageKind) (off : Z) (frame : Frame) (d : Daemon) : list TradeMetadata :=
  match k with
  | kNewOrder =>
      match decode_new_order (fr_payload frame) with
      | Throw _ => []
      | Ok order =>
          match rk_decision (evaluate_order (dm_risk d) (order_intent d frame order)) with
          | kAccepted =>
              match submit (new_order_request d frame order) (dm_matcher d) with
              | Some (_, result) =>
                  if or_accepted result
                  then map (trade_of (mkContext (fh_account (fr_header frame)) (dm_default_market d) (no_side order)) off
                              (fh_received_time_ns (fr_header frame))) (or_fills result)
                  else []
              | None => []
              end
          | _ => []
          end
      end
  | kReplace =>
      match decode_replace (fr_payload frame) with
      | Throw _ => []
      | Ok msg =>
          match Matcher.replace (replace_request msg) (dm_matcher d) with
          | Some (_, result) =>
              if rr_accepted result
              then map (trade_of (replace_taker frame (decode_order_id (rp_order_id msg)) d) off
                          (fh_received_time_ns (fr_header frame))) (rr_fills result)
              else []
          | None => []
          end
      end
  | _ => []
  end.

Lemma trades_made_offset k off f d : Forall (fun t => tm_wal_offset t = off) (trades_made k off f d).
Proof.
  assert (H : forall taker time fills, Forall (fun t => tm_wal_offset t = off) (map (trade_of taker off time) fills)).
  { intros taker time fills. by induction fills; constructor. }
  destruct k; cbn [trades_made]; [|by constructor| |by constructor].
  - destruct (decode_new_order _); [|by constructor]. destruct (rk_decision _); [|by constructor..].
    destruct (submit _ _) as [[e r]|]; [|by constructor]. destruct (or_accepted r); [apply H|by constructor].
  - destruct (decode_replace _); [|by constructor]. destruct (Matcher.replace _ _) as [[e r]|]; [|by constructor].
    destruct (rr_accepted r); [apply H|by constructor].
Qed.

Lemma process_fills_api taker off time fills : forall d,
  dm_api (process_fills fills taker off time d) = api_run (map ATrade (map (trade_of taker off time) fills)) (dm_api d).
Proof.
  unfold process_fills. induction fills as [|f fills IH]; intros d; [done|]. cbn [foldl map]. rewrite IH. done.
Qed.

Lemma set_resting_api r d : dm_api (set_resting r d) = dm_api d.
Proof. done. Qed.

Lemma some_api a (d d' : Daemon) : dm_api d = a -> Some d = Some d' -> dm_api d' = a.
Proof. by intros <- E%(inj Some); rewrite <- E. Qed.

(** They are what the [try] block pushes. *)
Lemma execute_api k off f d d' :
  execute_frame k off f d = Some d' -> dm_api d' = api_run (map ATrade (trades_made k off f d)) (dm_api d).
Proof.
  destruct k; cbn [execute_frame trades_made]; [| | |by apply some_api].
  - unfold execute_new_order. destruct (decode_new_order _) as [m|]; [|by apply some_api].
    destruct (rk_decision _); [|by apply some_api..]. destruct (submit _ _) as [[e res]|]; [|done]. cbn [mbind option_bind].
    destruct (or_accepted res); cbn [negb]; apply some_api; [by rewrite set_resting_api, process_fills_api|done].
  - unfold execute_cancel. destruct (decode_cancel _); [|by apply some_api].
    destruct (cancel _ _) as [[e r]|]; [|done]. cbn [mbind option_bind]. apply some_api. destruct (cr_cancelled r); [|done].
    by rewrite set_resting_api.
  - unfold execute_replace. destruct (decode_replace _) as [m|]; [|by apply some_api].
    destruct (Matcher.replace _ _) as [[e r]|]; [|done]. cbn [mbind option_bind]. apply some_api.
    destruct (rr_accepted r); cbn [andb negb]; [|done].
    destruct (rr_resting r); cbn [negb]; by rewrite set_resting_api, process_fills_api.
Qed.

(** The calls of a step: those of the frame it handles, if its append returns. *)
Definition step_calls (l : DiskLabel) (s : DiskProcess) : list ApiOp :=
  let off := fw_next_sequence (dp_log s) in
  match handled_at l.1 (dp_process s) with
  | (k, f) :: _ =>
      match (file_append (sa_log l.2) 0 (build_wal_payload f) (dp_log s)).2 with
      | Ok _ => AFrame (mkExpressFrame off (fr_payload f)) :: map ATrade (trades_made k off f (pr_daemon (dp_process s)))
      | Throw _ => []
      end
  | [] => []
  end.

Fixpoint api_calls (ls : list DiskLabel) (s : DiskProcess) : list ApiOp :=
  match ls with
  | [] => []
  | l :: ls => step_calls l s ++ match disk_step l s with Some s => api_calls ls s | None => [] end
  end.

Lemma api_run_app ops1 ops2 a : api_run (ops1 ++ ops2) a = api_run ops2 (api_run ops1 a).
Proof. apply foldl_app. Qed.

(** What one step does to the feeds, and to the next number. *)
Inductive calls_made (han : list Work) (s s' : DiskProcess) : list ApiOp -> Prop :=
  | calls_frame k f trades :
      han = [(k, f)] -> Forall (fun t => tm_wal_offset t = fw_next_sequence (dp_log s)) trades ->
      fw_next_sequence (dp_log s') = u64 (fw_next_sequence (dp_log s) + 1) ->
      calls_made han s s' (AFrame (mkExpressFrame (fw_next_sequence (dp_log s)) (fr_payload f)) :: map ATrade trades)
  | calls_none : han = [] -> (~ thrown s' -> fw_next_sequence (dp_log s') = fw_next_sequence (dp_log s)) -> calls_made han s s' []
  | calls_thrown x : han = [x] -> thrown s' -> calls_made han s s' [].

Lemma disk_queue_calls k processed now io s s' :
  k <> kHeartbeat -> pr_phase (dp_process s) = PQueue k processed -> disk_loop_step io now s = Some s' ->
  dm_api (pr_daemon (dp_process s')) = api_run (step_calls (LStep now, io) s) (dm_api (pr_daemon (dp_process s))) /\
  calls_made (handled_at (LStep now) (dp_process s)) s s' (step_calls (LStep now, io) s).
Proof.
  intros Hk Hph. unfold disk_loop_step, step_calls, handled_at. cbn [fst snd]. rewrite Hph.
  destruct (next_frame k _) as [[ingress [f|]]|]; [| |done]; cbn [mbind option_bind].
  2: { intros [= <-]. split; [done|]. by apply calls_none. }
  unfold handle_to, journal_to. pose proof (file_append_next (sa_log io) 0 (build_wal_payload f) (dp_log s)) as Hnext.
  destruct (file_append _ _ _ _) as [w [[]|e]]; cbn [snd].
  - destruct (execute_frame _ _ _ _) as [d|] eqn:E; [|done]. intros [= <-]. apply execute_api in E. split; [exact E|].
    eapply calls_frame; [done|apply trades_made_offset|by apply Hnext].
  - intros [= <-]. split; [done|]. by eapply calls_thrown.
Qed.

Lemma disk_step_calls l s s' :
  match pr_phase (dp_process s) with PQueue k _ => k <> kHeartbeat | _ => True end -> disk_step l s = Some s' ->
  dm_api (pr_daemon (dp_process s')) = api_run (step_calls l s) (dm_api (pr_daemon (dp_process s))) /\
  calls_made (handled_at l.1 (dp_process s)) s s' (step_calls l s).
Proof.
  intros Hk E. destruct (handled_at l.1 (dp_process s)) as [|x han] eqn:Hh.
  2: { destruct l as [l io]. rewrite <- Hh. cbn [fst] in Hh |- *. unfold handled_at in Hh. destruct l as [| |now]; [done..|].
       destruct (pr_phase (dp_process s)) as [|k n| | | |] eqn:Hph; try done.
       unfold disk_step, exit_code in E. cbn [fst snd] in E. rewrite Hph in E. by eapply disk_queue_calls. }
  assert (Ec : step_calls l s = []) by (unfold step_calls; by rewrite Hh). rewrite Ec.
  enough (H : dm_api (pr_daemon (dp_process s')) = dm_api (pr_daemon (dp_process s)) /\
              fw_next_sequence (dp_log s') = fw_next_sequence (dp_log s)) 
    by (destruct H; split; [done|by apply calls_none]).
  destruct l as [l io]. unfold disk_step in E. cbn [fst snd] in *. destruct (exit_code (dp_process s)) as [code|] eqn:Hc.
  { unfold process_step in E. rewrite Hc in E. by destruct l; injection E as <-. }
  destruct l as [r| |now].
  - unfold process_step in E. rewrite Hc in E. injection E as <-. cbn [dp_process dp_log]. unfold receive. by destruct (quic_receive _ _ _).
  - unfold process_step in E. rewrite Hc in E. by injection E as <-.
  - unfold disk_loop_step, handled_at in *. destruct (pr_phase (dp_process s)) as [|k n|n| | |code] eqn:Hph.
    + unfold loop_step in E. rewrite Hph in E. injection E as <-. cbn. by destruct (pr_shutdown _).
    + destruct (next_frame _ _) as [[ingress [f|]]|]; [done| |done]. by injection E as <-.
    + destruct (n >? 0); [|by injection E as <-].
      destruct (advance_block_to_spec (sa_persist io) n (pr_daemon (dp_process s))) as (st & block & last & r & Ea & _).
      rewrite Ea in E. by injection E as <-.
    + unfold loop_step in E. rewrite Hph in E. injection E as <-. cbn. by rewrite report_status_daemon.
    + injection E as <-. unfold stop_to. destruct (quic_stop _ _). pose proof (file_sync_next (sa_log io) (dp_log s)) as Hn.
      destruct (file_sync _ _) as [w [[]|e]]; by split.
    + unfold exit_code in Hc. by rewrite Hph in Hc.
Qed.

(** ** Calls in order *)

(** Frames numbered on from [n], each followed by its trades; trades at the start
    belong to the frame before. *)
Fixpoint in_order (n : Z) (calls : list ApiOp) : Prop :=
  match calls with
  | [] => True
  | AFrame f :: rest => ef_wal_offset f = n /\ in_order (n + 1) rest
  | ATrade t :: rest => tm_wal_offset t = n - 1 /\ in_order n rest
  | _ :: _ => False
  end.

Abbreviation after n calls := (n + Z.of_nat (length (frames_of calls))).

Lemma frames_of_app l1 l2 : frames_of (l1 ++ l2) = frames_of l1 ++ frames_of l2.
Proof. apply omap_app. Qed.

Lemma trades_of_app l1 l2 : trades_of (l1 ++ l2) = trades_of l1 ++ trades_of l2.
Proof. apply omap_app. Qed.

Lemma after_app n l1 l2 : after n (l1 ++ l2) = after (after n l1) l2.
Proof. rewrite frames_of_app, length_app. lia. Qed.

Lemma in_order_app l1 l2 : forall n, in_order n (l1 ++ l2) <-> in_order n l1 /\ in_order (after n l1) l2.
Proof.
  induction l1 as [|op l1 IH]; intros n; [cbn; rewrite Z.add_0_r; tauto|].
  destruct op as [| |f|t]; cbn [app in_order]; [tauto..| |]; rewrite IH; [|tauto].
  change (frames_of (AFrame f :: l1)) with (f :: frames_of l1). cbn [length].
  replace (n + Z.of_nat (S (length (frames_of l1)))) with (after (n + 1) l1) by lia. tauto.
Qed.

Lemma in_order_trades n trades rest :
  Forall (fun t => tm_wal_offset t = n - 1) trades -> in_order n rest -> in_order n (map ATrade trades ++ rest).
Proof. induction 1; [done|]. cbn. auto. Qed.

Lemma in_order_numbers l : forall n, in_order n l ->
  numbered ef_wal_offset n (after n l) (frames_of l) /\ numbered tm_wal_offset (n - 1) (after n l) (trades_of l).
Proof.
  induction l as [|op l IH]; intros n; [intros _; split; (split; [constructor|constructor|cbn; lia])|].
  destruct op as [| |f|t]; [done..| |]; cbn [in_order]; intros [E Hl]; destruct (IH _ Hl) as [Hf Ht].
  - change (frames_of (AFrame f :: l)) with ([f] ++ frames_of l). change (trades_of (AFrame f :: l)) with (trades_of l).
    rewrite length_app. cbn [length]. replace (n + Z.of_nat (1 + _)) with (after (n + 1) l) by lia. split.
    + apply (numbered_app _ _ (n + 1)); [apply numbered_same; by constructor|done].
    + destruct Ht as [Hs Hr Hb]. split; [done|eapply Forall_impl; [exact Hr|]; cbn; lia|lia].
  - change (frames_of (ATrade t :: l)) with (frames_of l). change (trades_of (ATrade t :: l)) with ([t] ++ trades_of l).
    split; [done|]. destruct Ht as [Hs Hr Hb]. cbn. split; [|by constructor; [lia|]|lia]. constructor; [done|].
    eapply Forall_impl; [exact Hr|]. cbn. lia.
Qed.

(** Calls that do not start in the middle of a frame. *)
Definition starts_frame (calls : list ApiOp) : Prop := match calls with ATrade _ :: _ => False | _ => True end.

Lemma starts_frame_numbers n l : in_order n l -> starts_frame l -> Forall (fun t => n <= tm_wal_offset t) (trades_of l).
Proof.
  destruct l as [|[| |f|t] l]; try done. cbn [in_order]. intros [_ Hl] _.
  destruct (in_order_numbers _ _ Hl) as [_ [_ Hr _]]. change (trades_of (AFrame f :: l)) with (trades_of l).
  eapply Forall_impl; [exact Hr|]. cbn. lia.
Qed.

(** The calls of a run, on any disk: the feeds are what they make of them, the
    frames are those taken whose append returned, and the numbers are in order. *)
Lemma api_calls_exited ls s : is_Some (exit_code (dp_process s)) -> api_calls ls s = [].
Proof.
  intros Hc. induction ls as [|l ls IH]; [done|]. cbn [api_calls]. rewrite disk_step_exited, IH, app_nil_r by done.
  destruct Hc as [code Hc]. unfold step_calls, handled_at, exit_code in *. destruct l.1; [done..|]. by destruct (pr_phase _).
Qed.

Lemma thrown_exited s : thrown s -> is_Some (exit_code (dp_process s)).
Proof. unfold thrown. by destruct (exit_code _). Qed.

Lemma frames_of_trades trades : frames_of (map ATrade trades) = [].
Proof. by induction trades. Qed.

Lemma api_calls_spec dep v ls : forall q s s',
  disk_live dep v q s -> disk_run ls s = Some s' ->
  let n := fw_next_sequence (dp_log s) in
  let taken := disk_collect handled_at ls s in
  dm_api (pr_daemon (dp_process s')) = api_run (api_calls ls s) (dm_api (pr_daemon (dp_process s))) /\
  (exists l, frames_of (api_calls ls s) = express_of n l /\ (taken = l \/ thrown s' /\ exists x, taken = l ++ [x])) /\
  (0 <= n -> n + Z.of_nat (length taken) < 2 ^ 64 -> in_order n (api_calls ls s)).
Proof.
  induction ls as [|l ls IH]; intros q s s' Hl E; cbv zeta.
  { injection E as <-. split; [done|]. split; [|done]. exists []. by split; [|left]. }
  destruct (disk_step_moves dep v l q s Hl) as (q1 & s1 & E1 & Hl1 & _). cbn [disk_run disk_collect api_calls] in *.
  rewrite E1 in E |- *. cbn [mbind option_bind] in E.
  destruct (disk_step_calls l s s1) as [Ha M]; [pose proof (dl_phase _ _ _ _ Hl); by destruct (pr_phase _)|done|].
  rewrite api_run_app, <- Ha. destruct (decide (thrown s1)) as [Ht|Ht].
  - pose proof (thrown_exited _ Ht) as Hc. rewrite disk_run_exited in E by done. injection E as <-.
    rewrite api_calls_exited, disk_collect_exited, !app_nil_r by done. split; [done|].
    destruct M as [k f trades -> Hoff _| -> _|x -> _].
    + change (frames_of (?x :: ?y)) with (frames_of ([x] ++ y)). rewrite frames_of_app, frames_of_trades. split; [exists [(k, f)]; by split; [|left]|].
      intros _ _. cbn [in_order]. split; [done|]. rewrite <- (app_nil_r (map _ _)). apply in_order_trades; [|done].
      eapply Forall_impl; [exact Hoff|]. cbn. lia.
    + split; [|done]. exists []. by split; [|left].
    + split; [|done]. exists []. split; [done|]. right. split; [done|]. by exists x.
  - destruct (IH q1 s1 s' Hl1 E) as (Ha' & (l' & Hf & Hl') & Ho). split; [done|].
    destruct M as [k f trades -> Hoff Hn| -> Hn|x -> Ht']; [| |by destruct Ht].
    + rewrite Hn in Hf, Ho. split.
      * exists ((k, f) :: l'). rewrite frames_of_app, Hf. change (frames_of (?x :: ?y)) with (frames_of ([x] ++ y)).
        rewrite frames_of_app, frames_of_trades. split; [done|]. destruct Hl' as [-> |(Ht' & x & ->)]; [by left|right; split; [done|by exists x]].
      * cbn [app length in_order]. intros H0 Hlen. split; [done|].
        rewrite wrapu_small in Ho by (unfold in_u; lia). apply in_order_trades; [|apply Ho; lia].
        eapply Forall_impl; [exact Hoff|]. cbn. lia.
    + cbn [app]. rewrite <- (Hn Ht). split; [|done]. by exists l'.
Qed.

(** ** A reader of both feeds *)
Record FeedReader := mkFeedReader {
  fd_frames_from : Z;
  fd_trades_from : Z;
  fd_polls : list (list ExpressFeedFrame * list TradeMetadata) }.

Definition new_reader : FeedReader := mkFeedReader 0 0 [].

Definition poll (a : ApiRouter) (r : FeedReader) : FeedReader :=
  let frames := get_express_feed_frames (fd_frames_from r) a in
  let trades := get_trade_metadata (fd_trades_from r) a in
  mkFeedReader (next_from ef_wal_offset (fd_frames_from r) frames) (next_from tm_wal_offset (fd_trades_from r) trades)
    (fd_polls r ++ [(frames, trades)]).

(** Interleavings of the calls of the main thread and the polls of a reader. *)
Inductive WatchLabel := WCall (op : ApiOp) | WPoll.

Fixpoint watch (ws : list WatchLabel) (a : ApiRouter) (r : FeedReader) : ApiRouter * FeedReader :=
  match ws with
  | [] => (a, r)
  | WCall op :: ws => watch ws (api_step a op) r
  | WPoll :: ws => watch ws a (poll a r)
  end.

Definition calls_of (ws : list WatchLabel) : list ApiOp :=
  omap (fun w => match w with WCall op => Some op | WPoll => None end) ws.

(** The calls between one poll and the next, [since] being those since the last. *)
Fixpoint between_polls (ws : list WatchLabel) (since : list ApiOp) : list (list ApiOp) :=
  match ws with
  | [] => []
  | WCall op :: ws => between_polls ws (since ++ [op])
  | WPoll :: ws => since :: between_polls ws []
  end.

(** What the polls give: the frames since the previous poll, and the trades since
    then that do not belong to a frame of which the reader has a trade; the last 4096
    of each. *)
Fixpoint given (c : Z) (parts : list (list ApiOp)) : list (list ExpressFeedFrame * list TradeMetadata) :=
  match parts with
  | [] => []
  | l :: rest =>
      let trades := from_offset tm_wal_offset c (trades_of l) in
      (last_n 4096 (frames_of l), last_n 4096 trades) :: given (next_from tm_wal_offset c trades) rest
  end.

(** The reader asks for nothing it has, and for everything later. *)
Record has_seen (first : Z) (sent : list ApiOp) (r : FeedReader) : Prop := {
  hs_frames : Forall (fun f => ef_wal_offset f < fd_frames_from r) (frames_of sent);
  hs_frames_from : fd_frames_from r <= after first sent;
  hs_trades : Forall (fun t => tm_wal_offset t < fd_trades_from r) (trades_of sent);
  hs_trades_from : fd_trades_from r <= after first sent }.

Lemma next_from_last {T} (offset : T -> Z) c l : next_from offset c (last_n 4096 l) = next_from offset c l.
Proof. unfold next_from. by rewrite (last_last_n 4095). Qed.

Lemma poll_sees first names sent since r :
  in_order first (sent ++ since) -> has_seen first sent r ->
  let a := api_run (map ARegister names ++ sent ++ since) (new_router kDefaultBufferCapacity kDefaultBufferCapacity) in
  let trades := from_offset tm_wal_offset (fd_trades_from r) (trades_of since) in
  fd_polls (poll a r) = fd_polls r ++ [(last_n 4096 (frames_of since), last_n 4096 trades)] /\
  fd_trades_from (poll a r) = next_from tm_wal_offset (fd_trades_from r) trades /\
  has_seen first (sent ++ since) (poll a r).
Proof.
  intros [_ Ho]%in_order_app [H1 H2 H3 H4]. cbv zeta. unfold poll.
  destruct (api_feeds_keep_latest kDefaultBufferCapacity kDefaultBufferCapacity (map ARegister names ++ sent ++ since)
    (fd_frames_from r) ""%string) as [-> _].
  destruct (api_feeds_keep_latest kDefaultBufferCapacity kDefaultBufferCapacity (map ARegister names ++ sent ++ since)
    (fd_trades_from r) ""%string) as (_ & -> & _).
  assert (Hn : frames_of (map ARegister names) = [] /\ trades_of (map ARegister names) = []) by (by induction names).
  destruct Hn as [Hnf Hnt]. rewrite !(frames_of_app (map _ _)), !(trades_of_app (map _ _)), Hnf, Hnt, !app_nil_l, frames_of_app, trades_of_app.
  change (Z.to_nat (Z.max 1 kDefaultBufferCapacity)) with 4096%nat. destruct (in_order_numbers _ _ Ho) as [Nf Nt].
  pose proof (poll_gives ef_wal_offset 4095 _ _ _ _ _ H1 Nf) as Gf. pose proof (poll_gives tm_wal_offset 4095 _ _ _ _ _ H3 Nt) as Gt.
  destruct (next_from_above ef_wal_offset _ _ _ _ _ H1 Nf) as [Af Bf]; [lia|].
  destruct (next_from_above tm_wal_offset _ _ _ _ _ H3 Nt) as [At Bt]; [lia|].
  assert (Enew : from_offset ef_wal_offset (fd_frames_from r) (frames_of since) = frames_of since).
  { apply from_offset_new. eapply Forall_impl; [apply Nf|]. cbn. lia. }
  rewrite Enew in *. unfold from_offset in Gf, Gt |- *. rewrite Gf, Gt. unfold from_offset in *. cbn [fd_polls fd_trades_from].
  rewrite !next_from_last. split; [done|]. split; [done|].
  split; cbn [fd_frames_from fd_trades_from]; rewrite ?after_app, ?frames_of_app, ?trades_of_app; done.
Qed.

Lemma watch_gives first names ws : forall sent since r,
  in_order first (sent ++ since ++ calls_of ws) -> has_seen first sent r ->
  fd_polls (watch ws (api_run (map ARegister names ++ sent ++ since) (new_router kDefaultBufferCapacity kDefaultBufferCapacity)) r).2 =
    fd_polls r ++ given (fd_trades_from r) (between_polls ws since).
Proof.
  induction ws as [|[op|] ws IH]; intros sent since r Ho Hs; cbn [watch between_polls given].
  - by rewrite app_nil_r.
  - change (api_step ?a op) with (api_run [op] a). rewrite <- api_run_app, <- !app_assoc. apply IH; [|done].
    by rewrite <- app_assoc.
  - change (calls_of (WPoll :: ws)) with (calls_of ws) in Ho. rewrite app_assoc in Ho.
    destruct (poll_sees first names sent since r) as (Ep & Ec & Hs'); [by apply in_order_app in Ho as []|done|]. cbv zeta in *.
    specialize (IH (sent ++ since) [] _ Ho Hs'). rewrite app_nil_r in IH. rewrite IH, Ep, Ec, <- app_assoc. done.
Qed.

(** ** What is lost *)
Lemma last_n_all {T} (l : list T) : (length l <= 4096)%nat -> last_n 4096 l = l.
Proof. intros H. unfold last_n. by replace (length l - 4096)%nat with 0%nat by lia. Qed.

(** No frame, if the capacity suffices. *)
Lemma given_frames parts : forall c, Forall (fun l => length (frames_of l) <= 4096)%nat parts ->
  concat (map fst (given c parts)) = frames_of (concat parts).
Proof.
  induction parts as [|l rest IH]; intros c; [done|]. intros [Hl Hr]%Forall_cons. cbn [given map concat fst].
  by rewrite last_n_all, IH, frames_of_app.
Qed.

(** No trade, if in addition no poll falls between two pushes of one frame. *)
Lemma given_trades parts : forall n c, in_order n (concat parts) -> c <= n ->
  Forall (fun l => length (trades_of l) <= 4096 /\ starts_frame l)%nat parts ->
  concat (map snd (given c parts)) = trades_of (concat parts).
Proof.
  induction parts as [|l rest IH]; intros n c; [done|]. cbn [concat given map snd].
  intros [Hl Hr]%in_order_app Hc [[Hlen Hst] Hrest]%Forall_cons.
  rewrite from_offset_new; [|eapply Forall_impl; [by apply (starts_frame_numbers n)|]; cbn; lia].
  destruct (in_order_numbers _ _ Hl) as [_ [_ Hb Hb']].
  rewrite last_n_all, trades_of_app, (IH (after n l)); [done|done| |done|done].
  unfold next_from. destruct (last (trades_of l)) as [t|] eqn:E; [|lia]. apply last_Some_elem_of in E.
  rewrite Forall_forall in Hb. specialize (Hb t E). lia.
Qed.

Lemma between_polls_prefix ws : forall since, exists rest, since ++ calls_of ws = concat (between_polls ws since) ++ rest.
Proof.
  induction ws as [|[op|] ws IH]; intros since; cbn [between_polls concat].
  - exists since. by rewrite app_nil_r.
  - destruct (IH (since ++ [op])) as [rest E]. exists rest. rewrite <- E, <- app_assoc. done.
  - destruct (IH []) as [rest E]. exists rest. rewrite <- app_assoc, <- E. done.
Qed.

Lemma boot_api cfg v log dir chain d :
  boot cfg v log dir chain = Some (Ok d) ->
  exists names, dm_api d = api_run (map ARegister names) (new_router kDefaultBufferCapacity kDefaultBufferCapacity).
Proof.
  unfold boot. destruct (boot_ingress cfg v) as [ingress|]; [|done]. destruct (foldl _ _ _) as [[matcher risk] funding].
  destruct (open_writer _ _) as [[w|]|]; [|done..]. intros [= <-].
  by exists ["/orders"; "/express-feed"; "/trade-metadata"; "/state-root"]%string.
Qed.

(** C21: what a reader of the feeds is given.  Launched on a log of whole records,
    under every interleaving of datagrams, signal and main thread and on a disk that
    may fail, and for every interleaving of the pushes of the main thread, one by one,
    with the polls of a reader that asks each feed from the number after the last it
    was given: each poll returns the last 4096 of the frames pushed since the previous
    poll, and the last 4096 of the trades pushed since then, without those of a frame
    of which the reader already has a trade.  So no frame is missed as long as no more
    than 4096 fall between two polls, and no trade as long as in addition no poll falls
    between two trades of one frame.  The frames pushed are those taken, under their
    log numbers, except one whose append threw.  (Numbers stay below 2^64.) *)
Theorem feed_readers_see_all `{Config.TomlLibrary} verify env cfg a p log :
  launchable verify env cfg a p log ->
  exists s0 console, main verify env [] = Some (mkFinished None console (Some s0)) /\
    forall ls, exists s, disk_run ls (on_disk s0) = Some s /\
    let taken := disk_collect handled_at ls (on_disk s0) in
    let calls := api_calls ls (on_disk s0) in
    dm_api (pr_daemon (dp_process s)) = api_run calls (dm_api (pr_daemon s0)) /\
    (exists l, frames_of calls = express_of (next_after log) l /\ (taken = l \/ thrown s /\ exists x, taken = l ++ [x])) /\
    forall ws, calls_of ws = calls -> next_after log + Z.of_nat (length taken) < 2 ^ 64 ->
      let polls := fd_polls (watch ws (dm_api (pr_daemon s0)) new_reader).2 in
      let parts := between_polls ws [] in
      polls = given 0 parts /\
      (Forall (fun l => length (frames_of l) <= 4096)%nat parts -> concat (map fst polls) = frames_of (concat parts)) /\
      (Forall (fun l => length (trades_of l) <= 4096 /\ starts_frame l)%nat parts ->
         concat (map snd polls) = trades_of (concat parts)).
Proof.
  intros Hla. destruct (main_enters_loop verify env cfg a p log Hla) as (s0 & Hm & Hent).
  assert (Hc0 : exit_code s0 = None) by (destruct Hent as (_ & Hph & _); unfold exit_code; by rewrite Hph).
  destruct (entered_on_disk verify env cfg a log s0 Hent) as (Hlive & _).
  destruct Hent as (_ & _ & _ & [_ _ Hnext] & id & _ & Hb). destruct (boot_api _ _ _ _ _ _ Hb) as [names Ha0].
  exists s0, (pr_console s0). split; [rewrite Hm; unfold run_process; cbn; by rewrite Hc0|]. intros ls.
  destruct (disk_run_spec _ _ ls _ _ Hlive) as (q & s & E & _). exists s. split; [exact E|]. cbv zeta.
  destruct (api_calls_spec _ _ ls _ _ _ Hlive E) as (Ha & Hl & Ho). cbn [on_disk dp_process dp_log file_writer fw_next_sequence] in Ha, Hl, Ho.
  rewrite Hnext in Hl, Ho. split; [exact Ha|]. split; [exact Hl|]. intros ws Hws Hn.
  pose proof (next_after_range log) as [H0 _]. specialize (Ho H0 Hn). rewrite <- Hws in Ho.
  assert (Eg : fd_polls (watch ws (dm_api (pr_daemon s0)) new_reader).2 = given 0 (between_polls ws [])).
  { pose proof (watch_gives (next_after log) names ws [] [] new_reader Ho) as Hw. rewrite !app_nil_r, <- Ha0 in Hw.
    apply Hw. split; [constructor|cbn; lia|constructor|cbn; lia]. }
  rewrite Eg. split; [done|]. split; [apply given_frames|]. intros Hparts.
  apply (given_trades _ (next_after log)); [|done|done].
  destruct (between_polls_prefix ws []) as [rest Er]. cbn [app] in Er. rewrite Er in Ho. by apply in_order_app in Ho as [].
Qed.

(** ** Concrete readers *)
Module DemoFeed.
(** A reader that polls before the first call and after each. *)
Definition eager (calls : list ApiOp) : list WatchLabel := WPoll :: concat (map (fun op => [WCall op; WPoll]) calls).

Lemma eager_calls calls : calls_of (eager calls) = calls.
Proof. change (calls_of (concat (map (fun op => [WCall op; WPoll]) calls)) = calls). induction calls as [|op calls IH]; [done|]. cbn. by f_equal. Qed.

Definition labels : list DiskLabel := map (fun l => (l, fine_step)) DemoLaunch.labels.

(** What is computed from the process at the start of the loop. *)
Definition at_start {A} (f : Process -> A) : option A :=
  f <$> (main (H := Config.Toml.library) toy_verify DemoLaunch.env [] ≫= fin_process).

Lemma from_start {A} (f : Process -> A) console s0 v :
  main (H := Config.Toml.library) toy_verify DemoLaunch.env [] = Some (mkFinished None console (Some s0)) ->
  at_start f = Some v -> f s0 = v.
Proof. unfold at_start. intros ->. cbn. by intros [=]. Qed.
End DemoFeed.

Lemma feed_readers_see_all_witness :
  exists s0, let ws := DemoFeed.eager (api_calls DemoFeed.labels (on_disk s0)) in
    fd_polls (watch ws (dm_api (pr_daemon s0)) new_reader).2 = given 0 (between_polls ws []).
Proof.
  destruct (feed_readers_see_all (H := Config.Toml.library) toy_verify DemoLaunch.env DemoLaunch.cfg
    DemoLaunch.authenticator DemoLaunch.pipeline [] DemoLaunch.launch) as (s0 & console & Hm & Hr).
  destruct (Hr DemoFeed.labels) as (s & _ & _ & _ & Hp). exists s0.
  destruct (Hp (DemoFeed.eager (api_calls DemoFeed.labels (on_disk s0)))) as [E _].
  - apply DemoFeed.eager_calls.
  - apply (DemoFeed.from_start (fun s0 => next_after [] +
      Z.of_nat (length (disk_collect handled_at DemoFeed.labels (on_disk s0))) <? 2 ^ 64) console s0 true) in Hm;
      [by apply Z.ltb_lt|by vm_compute].
  - exact E.
Defined.

(** That process pushes the one frame it takes; the reader gets it, then nothing. *)
Example demo_polls :
  DemoFeed.at_start (fun s0 =>
      let ws := DemoFeed.eager (api_calls DemoFeed.labels (on_disk s0)) in
      map (fun b : list ExpressFeedFrame * list TradeMetadata => (map ef_wal_offset b.1, length b.2))
        (fd_polls (watch ws (dm_api (pr_daemon s0)) new_reader).2)) =
    Some [([], 0%nat); ([1], 0%nat)].
Proof. by vm_compute. Qed.

(** An order that trades with two resting orders makes two trades with one offset.  A
    poll between the two finds the first, and no later poll the second, although
    nothing was dropped: offsets do not tell the trades of a frame apart. *)
Example poll_between_fills :
  let resting := DemoDaemon.run [DemoDaemon.order 2 1 kSell 5 100; DemoDaemon.order 3 1 kSell 5 100] Surprises.funded in
  let d := DemoDaemon.run [DemoDaemon.order 1 1 kBuy 10 100] resting in
  match trade_metadata (dm_api d) with
  | [t1; t2] =>
      let '(a, r) := watch [WCall (ATrade t1); WPoll; WCall (ATrade t2); WPoll] (dm_api resting) new_reader in
      trade_metadata a = trade_metadata (dm_api d) /\ map snd (fd_polls r) = [[t1]; []]
  | _ => False
  end.
Proof. vm_compute. by split. Qed.

(** The express feed shows a frame before it is checked: an order that is refused, and
    one that does not decode, are on it. *)
Example feed_before_checks :
  let refused := DemoDaemon.order 9 1 kBuy 10 100 in
  let garbled : Work := (kNewOrder, mkFrame (mkHeader 1 1 1000 0 kNewOrder) [1; 2; 3]) in
  let d := DemoDaemon.run [refused; garbled] Surprises.funded in
  map ef_payload (express_feed_frames (dm_api d)) = [fr_payload refused.2; [1; 2; 3]] /\
  Surprises.resting_in d = [] /\ trade_metadata (dm_api d) = [].
Proof. by vm_compute. Qed.
