(* ===== verification/Sessions.v ===== *)
(** * One process after another

    What a process leaves on the disk, whenever it is stopped or killed between two
    of its steps, is what the next one starts from: the log grows by the frames that
    each handled, and replay reads it. *)
From S2P Require Import Config.
From S2P Require Import Prelude Types Bytes Matcher Risk SpscRing Ingest IngestProps Transport Wal WalProps.
From S2P Require Import Snapshot SnapshotProps Replay Api Auth Daemon Handlers DaemonProps DaemonRuns Main MainProps.
Open Scope string_scope.
Open Scope list_scope.
Open Scope Z_scope.

(** The environment of the next process: the files as this one leaves them. *)
Definition left_by (cfg : Config.EngineConfig) (s : Process) (env : Environment) : Environment :=
  let p := Config.persistence cfg in
  mkEnvironment (env_program env) (env_args env) (env_home env) (env_chain_id env) (env_exists env)
    (fun path => if bool_decide (path = Config.wal_path p) then wt_file (dm_wal (pr_daemon s)) else env_wal env path)
    (fun path => if bool_decide (path = Config.snapshot_dir p) then st_disk (dm_snapshot (pr_daemon s))
                 else env_snapshots env path)
    (env_create_directories env) (env_wal_fopen env) (env_wal_fseek env) (env_wal_read env)
    (env_sodium_init env) (env_keypair env) (env_padding env) (env_sockets env) (env_now env).

Section Sessions.
Context `{Config.TomlLibrary}.
Context (verify : Signature -> bytes -> PublicKey -> bool) (cfg : Config.EngineConfig).

(** A session: what it handled, how it ended ([None]: it was killed), and the
    environment after it. *)
Definition session (ls : list Label) (env : Environment)
    : option (list Work * option (result Z) * Environment) :=
  f0 ← main verify env []; s0 ← fin_process f0;
  f ← main verify env ls; s ← fin_process f;
  Some (handled_in ls s0, fin_code f, left_by cfg s env).

Fixpoint sessions (lss : list (list Label)) (env : Environment)
    : option (list (list Work * option (result Z)) * Environment) :=
  match lss with
  | [] => Some ([], env)
  | ls :: lss =>
      '(handled, code, env) ← session ls env;
      '(rest, env) ← sessions lss env;
      Some ((handled, code) :: rest, env)
  end.

(** The records a session added to the log. *)
Definition logged (o : list Work * option (result Z)) (new : list WalRecord) : Prop :=
  exists n, map (fun r => wal_entry (wr_payload r)) new = map (fun x : Work => entry_of x.2) (take n o.1) /\
    (is_Some o.2 -> o.2 = Some (Ok 0) /\ (length o.1 <= n)%nat).

(** What a process leaves can be launched again. *)
Lemma left_launchable env a p log s log' snaps :
  launchable verify env cfg a p log ->
  Forall record_ok log' -> wt_file (dm_wal (pr_daemon s)) = encode_log log' ->
  holds (dm_snapshot (pr_daemon s)) snaps ->
  launchable verify (left_by cfg s env) cfg a p log'.
Proof.
  intros [] Hlog' Hf (_ & Hs & Hd). split; try done.
  - cbn. by rewrite bool_decide_true by done.
  - exists snaps. cbn. rewrite bool_decide_true by done. by split.
Qed.

Lemma session_spec env a p log ls :
  launchable verify env cfg a p log -> Forall label_ok ls ->
  exists o new env', session ls env = Some (o, env') /\ logged o new /\ launchable verify env' cfg a p (log ++ new).
Proof.
  intros Hl Hls. destruct (main_enters_loop verify env cfg a p log Hl) as (s0 & Hm & Hent).
  destruct (run_leaves verify env cfg a log ls s0 Hent) as (q & s & new & n & Er & Hs & _ & Hn & Hrec & Hf & Hx);
    [by destruct Hl as [_ _ _ _ _ _ [] _ _ _]|done|].
  exists (handled_in ls s0, exit_code s), (take n new), (left_by cfg s env).
  unfold session. rewrite !Hm. unfold run_process. cbn [process_run mbind option_bind]. rewrite Er. cbn [mbind option_bind fin_process fin_code].
  split; [done|]. destruct (lv_store _ _ _ _ Hs) as [snaps Hsn]. split; [|by apply (left_launchable env a p log s _ snaps)].
  exists n. cbn [fst snd]. rewrite <- !firstn_map. split; [by f_equal|]. intros Hi.
  assert (El : length new = length (handled_in ls s0)) by (apply (f_equal length) in Hn; by rewrite !length_map in Hn).
  rewrite <- El. split; [|by apply Hx]. destruct Hi as [c Hc]. pose proof (lv_phase _ _ _ _ Hs) as Hp.
  unfold exit_code in *. destruct (pr_phase s); try done. cbn in Hp. by rewrite Hp in *.
Qed.

Lemma sessions_spec a p lss : forall env log,
  launchable verify env cfg a p log -> Forall (Forall label_ok) lss ->
  exists out parts env', sessions lss env = Some (out, env') /\ Forall2 logged out parts /\
    launchable verify env' cfg a p (log ++ concat parts).
Proof.
  induction lss as [|ls lss IH]; intros env log Hl Hlss; cbn [sessions].
  { exists [], [], env. rewrite app_nil_r. split; [done|]. by split; [constructor|]. }
  apply Forall_cons in Hlss as [Hls Hlss].
  destruct (session_spec env a p log ls Hl Hls) as ([h c] & new & env1 & -> & Hlog & Hl1). cbn [mbind option_bind].
  destruct (IH env1 _ Hl1 Hlss) as (out & parts & env' & -> & Hout & Hl'). cbn [mbind option_bind].
  exists ((h, c) :: out), (new :: parts), env'. split; [done|]. split; [by constructor|].
  cbn [concat]. by rewrite app_assoc.
Qed.

(** C8: restarts lose nothing that was flushed and repeat nothing.  Over any
    sequence of processes, each started on what the one before it left and stopped
    by the signal or killed between any two of its steps: every one is launched
    again; the log on the disk is the old log followed, process by process, by the
    records of the frames it handled, in order, all of them if it was stopped and
    the first ones if it was killed; and replaying that disk delivers the last of the
    snapshots that its snapshot file holds, if any, and then the records of its log
    that come after it. *)
Theorem restarts_keep_the_log env a p log lss :
  launchable verify env cfg a p log -> Forall (Forall label_ok) lss ->
  exists out parts env' snaps, sessions lss env = Some (out, env') /\ Forall2 logged out parts /\
    launchable verify env' cfg a p (log ++ concat parts) /\
    Forall snap_ok snaps /\
    default [] (dk_snapshot (env_snapshots env' (Config.snapshot_dir (Config.persistence cfg)))) = encode_snaps snaps /\
    execute (recorder (env_snapshots env' (Config.snapshot_dir (Config.persistence cfg)))
               (Some (env_wal env' (Config.wal_path (Config.persistence cfg))))) [] =
      Some (deliver_snapshot snaps ++ map DRecord (from_sequence (resume_after snaps) (log ++ concat parts)), Ok ()).
Proof.
  intros Hl Hlss. destruct (sessions_spec a p lss env log Hl Hlss) as (out & parts & env' & E & Ho & Hl').
  pose proof (la_snapshots _ _ _ _ _ _ Hl') as (snaps & _ & Hs & Hd). destruct (la_log _ _ _ _ _ _ Hl') as [Hlog Hw].
  exists out, parts, env', snaps. do 5 (split; [done|]).
  rewrite (execute_recorder _ _ snaps) by done. rewrite Hw, <- (app_nil_r (encode_log _)).
  by rewrite replay_log_whole with (out := Ok ()); [|done|apply ends_nil].
Qed.
End Sessions.

(** A process that is killed after it handled a frame, and one that is stopped. *)
Definition demo_sessions : list (list Label) := [DemoLaunch.arrivals ++ DemoLaunch.turns 3; DemoLaunch.labels].

Lemma restarts_keep_the_log_witness :
  exists out parts env' snaps, sessions (H := Config.Toml.library) toy_verify DemoLaunch.cfg demo_sessions DemoLaunch.env =
    Some (out, env') /\ Forall2 logged out parts /\
    default [] (dk_snapshot (env_snapshots env' (Config.snapshot_dir (Config.persistence DemoLaunch.cfg)))) = encode_snaps snaps.
Proof.
  destruct (restarts_keep_the_log (H := Config.Toml.library) toy_verify DemoLaunch.cfg DemoLaunch.env
    DemoLaunch.authenticator DemoLaunch.pipeline [] demo_sessions DemoLaunch.launch)
    as (out & parts & env' & snaps & E & Ho & _ & _ & Hd & _).
  - constructor; [|constructor; [|constructor]]; apply DemoLaunch.labels_by_check; by vm_compute.
  - exists out, parts, env', snaps. split; [exact E|]. split; [exact Ho|exact Hd].
Defined.

(** The default threshold writes a record out at once only if it has 128 bytes:
    the frame of the first process reached the file, so the second numbers on. *)
Example restart_numbers_on :
  ('(_, env) ← sessions (H := Config.Toml.library) toy_verify DemoLaunch.cfg demo_sessions DemoLaunch.env;
   r ← read_all (env_wal env "/var/lib/tradecore/events.wal");
   match r with Ok l => Some (map (fun r => rh_sequence (wr_header r)) l) | Throw _ => None end) = Some [1; 2].
Proof. by vm_compute. Qed.
