(* ===== verification/Relaunch.v ===== *)
(** * The launch after a failure

    What a process on a failing disk leaves is what the next one starts from.  Its
    writer reads the log to find the next number: a part of a header at the end is
    taken for the end, a part of a payload makes the constructor throw, outside of
    every [try]. *)
From S2P Require Import Config.
From S2P Require Import Prelude Types Bytes Matcher MatcherSpec MatcherRefine Risk SpscRing Sbe Ingest IngestProps Transport.
From S2P Require Import Wal WalProps Snapshot SnapshotProps Replay Api Auth Daemon Handlers DaemonProps DaemonRuns.
From S2P Require Import Main MainProps Output WalFile SnapshotFile DiskProcess Sessions.
Open Scope string_scope.
Open Scope list_scope.
Open Scope Z_scope.

(** The boot on any log, once the queues can be made. *)
Lemma boot_reads cfg v file dir chain p :
  boot_ingress cfg v = Ok p ->
  exists d, boot cfg v file dir chain =
      (r ← read_all file; Some (match r with Throw e => Throw e | Ok recs => Ok (d (next_after recs)) end)) /\
    forall n, dm_wal (d n) = mkWriter file [] (Config.wal_flush_threshold (Config.persistence cfg)) n.
Proof.
  intros Hp. unfold boot. rewrite Hp. destruct (foldl _ _ _) as [[matcher risk] funding].
  eexists (fun n => mkDaemon _ _ _ _ (mkWriter file [] _ n) _ _ _ _ _ _ _ _). split; [|done].
  unfold open_writer. destruct (read_all file) as [[recs|e]|]; reflexivity.
Qed.

Section Relaunched.
Context `{Config.TomlLibrary}.
Context (verify : Signature -> bytes -> PublicKey -> bool) (cfg : Config.EngineConfig).

(** A launch on what a process left, up to the loop, depends on its log alone. *)
Lemma left_main env a p log s :
  launchable verify env cfg a p log ->
  exists console start, forall ls, main verify (left_by cfg s env) ls =
    (r ← read_all (wt_file (dm_wal (pr_daemon s)));
     match r with
     | Throw e => finished (Throw e) console
     | Ok recs => run_process ls (start (next_after recs))
     end) /\
    forall n, exit_code (start n) = None /\ dm_wal (pr_daemon (start n)) =
      mkWriter (wt_file (dm_wal (pr_daemon s))) [] (Config.wal_flush_threshold (Config.persistence cfg)) n.
Proof.
  intros [Harg [console Hc] Ha _ Hp Hs _ _ Hdk [id Hid]]. set (file := wt_file _).
  destruct (quic_starts _ _ submit_callback Hs) as (q & fds & Eq & Hq).
  destruct (boot_reads cfg (frame_verifier verify env a) file (st_disk (dm_snapshot (pr_daemon s))) id p Hp)
    as (d & Ed & Hd).
  eexists _, (fun n => enter_loop env (mkProcess (d n) q fds (env_now env) _ false PHead)). intros ls. split; [|by intros n; split; [|apply Hd]].
  unfold main. destruct (Nat.ltb_spec 1 (length (env_args (left_by cfg s env)))) as [Hl|_]; [cbn in Hl; lia|].
  change (load_configuration (left_by cfg s env)) with (load_configuration env). rewrite Hc.
  unfold start_process. change (make_authenticator (left_by cfg s env)) with (make_authenticator env). rewrite Ha.
  change (frame_verifier verify (left_by cfg s env) a) with (frame_verifier verify env a). rewrite Hp.
  change (env_sockets (left_by cfg s env)) with (env_sockets env). rewrite Eq. cbn [mbind option_bind].
  unfold boot_process. change (prepare_disk (left_by cfg s env)) with (prepare_disk env). rewrite Hdk.
  change (chain_id_of (left_by cfg s env)) with (chain_id_of env). rewrite Hid.
  cbn [left_by env_wal env_snapshots]. rewrite !bool_decide_true by done. fold file. rewrite Ed.
  destruct (read_all file) as [[recs|e]|]; reflexivity.
Qed.

(** C10: what a failing disk costs the next launch.  Launched on a log of whole
    records, under every interleaving and whatever the disk answers, a process leaves
    whole records and a part of the next one.  If that part is shorter than a header,
    or nothing, the next launch enters its loop, numbers on from the whole records,
    and appends behind the part; if it is longer, that launch ends with an exception
    before the loop, on every interleaving. *)
Theorem next_launch_after_failure env a p log :
  launchable verify env cfg a p log ->
  exists s0 console0, main verify env [] = Some (mkFinished None console0 (Some s0)) /\
    forall ls, Forall (fun l : DiskLabel => label_ok l.1) ls ->
    exists s new j t, disk_run ls (on_disk s0) = Some s /\
      map (fun r => wal_entry (wr_payload r)) new =
        map (fun x : Work => entry_of x.2) (disk_collect handled_at ls (on_disk s0)) /\
      (length log <= j)%nat /\ disk_of (dp_log s) = encode_log (take j (log ++ new)) ++ t /\
      exists console,
      if (length t <? kHeaderSize)%nat
      then exists s1, main verify (left_by cfg (dp_process s) env) [] = Some (mkFinished None console (Some s1)) /\
        dm_wal (pr_daemon s1) = mkWriter (disk_of (dp_log s)) [] (Config.wal_flush_threshold (Config.persistence cfg))
                                  (next_after (take j (log ++ new)))
      else forall ls', main verify (left_by cfg (dp_process s) env) ls' =
        Some (mkFinished (Some (Throw "truncated WAL record")) console None).
Proof.
  intros Hla. destruct (main_enters_loop verify env cfg a p log Hla) as (s0 & Hm & Hent).
  assert (Hc0 : exit_code s0 = None) by (destruct Hent as (_ & Hph & _); unfold exit_code; by rewrite Hph).
  assert (Hlog : Forall record_ok log) by by destruct Hla as [_ _ _ _ _ _ [] _ _ _].
  exists s0, (pr_console s0). split; [rewrite Hm; unfold run_process; cbn; by rewrite Hc0|]. intros ls Hls.
  destruct (disk_run_reads verify env cfg a log s0 ls Hent Hlog Hls)
    as (q & s & Er & Hs & _ & Hn & _ & _ & _ & j & t & Hj & Ed & _ & Hread).
  eexists s, _, j, t. split; [exact Er|]. split; [exact Hn|]. split; [exact Hj|]. split; [exact Ed|].
  destruct (left_main env a p log (dp_process s) Hla) as (console & start & Hmain).
  assert (Hw : wt_file (dm_wal (pr_daemon (dp_process s))) = disk_of (dp_log s)) by (by rewrite (dl_shown _ _ _ _ Hs)).
  rewrite Hw, Hread in Hmain. destruct (length t <? kHeaderSize)%nat; cbn [mbind option_bind] in Hmain.
  - destruct (Hmain []) as [E Hd]. destruct (Hd (next_after (take j (log ++ new_records (next_after log)
      (wal_entries (disk_collect handled_at ls (on_disk s0))))))) as [Hc Hd'].
    eexists _, (start _). rewrite E. unfold run_process. cbn [process_run mbind option_bind]. rewrite Hc. by split.
  - exists console. intros ls'. apply Hmain.
Qed.
End Relaunched.

(** The disk of [DemoDiskProcess] is full after 40 bytes: a header and a part of the
    payload, and the daemon does not start again. *)
Lemma next_launch_after_failure_witness :
  exists s0 s new j t, disk_run DemoDiskProcess.labels (on_disk s0) = Some s /\
    disk_of (dp_log s) = encode_log (take j ([] ++ new)) ++ t.
Proof.
  destruct (next_launch_after_failure (H := Config.Toml.library) toy_verify DemoLaunch.cfg DemoLaunch.env
    DemoLaunch.authenticator DemoLaunch.pipeline [] DemoLaunch.launch) as (s0 & _ & _ & Hr).
  destruct (Hr DemoDiskProcess.labels DemoDiskProcess.labels_sound) as (s & new & j & t & E & _ & _ & Ed & _).
  exists s0, s, new, j, t. split; [exact E|exact Ed].
Defined.

Example full_disk_stops_next_launch :
  (f ← main (H := Config.Toml.library) toy_verify DemoLaunch.env [];
   p ← fin_process f; s ← disk_run DemoDiskProcess.labels (on_disk p);
   f ← main (H := Config.Toml.library) toy_verify (left_by DemoLaunch.cfg (dp_process s) DemoLaunch.env) [];
   fin_code f) = Some (Throw "truncated WAL record").
Proof. by vm_compute. Qed.
