(* ===== verification/Isolation.v ===== *)
(** * Datagrams without a signature change nothing

    Datagrams that do not parse, that are not signed by a registered account, and
    heartbeats: leaving them out of any interleaving gives the same process, up to
    counters, the table of peers of the transport, and the lines that show them. *)
From S2P Require Import Config.
From S2P Require Import Prelude Types Bytes Matcher Risk SpscRing Ingest IngestProps Transport Wal WalProps.
From S2P Require Import Snapshot SnapshotProps Api Auth Daemon Handlers DaemonProps DaemonRuns Main MainProps.
Open Scope string_scope.
Open Scope list_scope.
Open Scope Z_scope.

(** ** Equal up to the counters of the pipeline *)
Definition pipe_alike (p1 p2 : IngressPipeline) : Prop := set_stats no_stats p1 = set_stats no_stats p2.

#[export] Instance pipe_alike_equiv : Equivalence pipe_alike.
Proof. unfold pipe_alike. split; red; congruence. Qed.

Definition alike (d1 d2 : Daemon) : Prop :=
  pipe_alike (dm_ingress d1) (dm_ingress d2) /\ set_ingress (dm_ingress d1) d2 = d1.

Lemma alike_split p d1 d2 : alike d1 d2 <-> pipe_alike (dm_ingress d1) (dm_ingress d2) /\ set_ingress p d1 = set_ingress p d2.
Proof.
  split; intros [H1 H2]; (split; [done|]).
  - rewrite <- H2. by destruct d2.
  - destruct d1, d2. cbn in *. injection H2. by intros; subst.
Qed.

Lemma alike_refl d : alike d d.
Proof. split; [done|]. by destruct d. Qed.

#[export] Instance alike_equiv : Equivalence alike.
Proof.
  split; [exact alike_refl|..].
  - intros d1 d2 H. pose proof (proj1 (alike_split (dm_ingress d1) _ _) H) as [H1 H2].
    apply (alike_split (dm_ingress d1)). by split.
  - intros d1 d2 d3 H H'. pose proof (proj1 (alike_split (dm_ingress d1) _ _) H) as [H1 H2].
    pose proof (proj1 (alike_split (dm_ingress d1) _ _) H') as [H1' H2']. apply (alike_split (dm_ingress d1)).
    split; [by etrans|congruence].
Qed.

Lemma alike_ingress p1 p2 d1 d2 : pipe_alike p1 p2 -> alike d1 d2 -> alike (set_ingress p1 d1) (set_ingress p2 d2).
Proof.
  intros Hp Hd. apply (alike_split p1) in Hd as [_ E]. apply (alike_split p1). split; [done|].
  by destruct d1, d2.
Qed.

(** Two pipelines that are alike differ in [stats] only. *)
Lemma pipe_alike_stats p1 p2 : pipe_alike p1 p2 -> p2 = set_stats (stats p2) p1.
Proof. unfold pipe_alike, set_stats. destruct p1, p2. cbn. by intros [= -> -> -> -> -> ->]. Qed.

Lemma alike_set_stats s1 s2 p : pipe_alike (set_stats s1 p) (set_stats s2 p).
Proof. done. Qed.

Lemma submit_alike f p1 p2 : pipe_alike p1 p2 -> pipe_alike (submit_frame f p1).1 (submit_frame f p2).1.
Proof.
  intros H. rewrite (pipe_alike_stats p1 p2 H). unfold submit_frame. change (authentic (set_stats _ p1) f) with (authentic p1 f).
  destruct (bool_decide _); [done|]. destruct (negb _); [done|]. cbn [set_stats config rate_windows].
  destruct (rate_limit _ _ _ _) as [w []]; [done|]. unfold enqueue. cbn.
  destruct (fh_kind _); [destruct (push _ _) as [q []]; done..|done].
Qed.

Lemma next_alike k p1 p2 : pipe_alike p1 p2 ->
  match next_frame k p1, next_frame k p2 with
  | Some (q1, o1), Some (q2, o2) => pipe_alike q1 q2 /\ o1 = o2
  | None, None => True
  | _, _ => False
  end.
Proof.
  intros H. rewrite (pipe_alike_stats p1 p2 H).
  destruct k; cbn; unfold next_new_order, next_cancel, next_replace; cbn; try done; by destruct (pop _) as [[]|].
Qed.

(** Everything but the pipeline is a function of the rest of the daemon. *)
Lemma advance_block_outside n p d :
  advance_block n (set_ingress p d) = (fun x => (set_ingress p x.1, x.2)) <$> advance_block n d.
Proof.
  unfold advance_block. cbn. destruct (_ >=? _); [|done]. by destruct (persist _ _ _) as [[s []]|].
Qed.

(** ** Equal up to the counters and the peers of the transport *)
Definition without_counters {W} (t : UdpTransport W) : UdpTransport W :=
  mkUdp (udp_callback t) (udp_running t) (udp_receive_thread t) (udp_socket_fd t) new_transport.

Definition link_alike {W} (q1 q2 : QuicTransport W) : Prop :=
  without_counters <$> quic_transport q1 = without_counters <$> quic_transport q2 /\ quic_endpoint q1 = quic_endpoint q2.

#[export] Instance link_alike_equiv {W} : Equivalence (@link_alike W).
Proof.
  split; [by split|by intros q1 q2 []|]. intros q1 q2 q3 [H1 H2] [H3 H4]. split; congruence.
Qed.

Lemma quic_receive_link {W} r (q : QuicTransport W) w : link_alike (quic_receive r q w).1 q.
Proof.
  unfold quic_receive, receive_turn. destruct (quic_transport q) as [t|] eqn:E; [|done].
  destruct (negb (udp_running t)); [split; [by rewrite E|done]|]. destruct r as [|data peer now]; [split; [by rewrite E|done]|].
  destruct (receive_datagram _ _ _ _) as [c f]. split; [by rewrite E|done].
Qed.

Lemma quic_stats_link {W} now (q : QuicTransport W) : link_alike (quic_stats now q).1 q.
Proof.
  unfold quic_stats, udp_stats. destruct (quic_transport q) as [t|] eqn:E; [|done].
  destruct (transport_stats _ _) as [c st]. split; [by rewrite E|done].
Qed.

Lemma quic_stop_link {W} (q1 q2 : QuicTransport W) fds : link_alike q1 q2 ->
  link_alike (quic_stop q1 fds).1 (quic_stop q2 fds).1 /\ (quic_stop q1 fds).2 = (quic_stop q2 fds).2.
Proof.
  intros [H _]. unfold quic_stop. destruct (quic_transport q1) as [t1|], (quic_transport q2) as [t2|]; cbn in H; [|done..].
  apply (inj Some) in H. unfold without_counters in H. injection H as H1 H2 H3 H4. unfold udp_stop. rewrite H4.
  destruct (_ >=? _); cbn; rewrite H4; done.
Qed.

(** What is written, except for the status lines. *)
Definition is_status (line : string) : bool := String.prefix "[status]" line.

Definition reported (s : Process) : list string := List.filter (fun line => negb (is_status line)) (pr_console s).

Lemma reported_say lines s : reported (say lines s) = reported s ++ List.filter (fun line => negb (is_status line)) lines.
Proof. apply List.filter_app. Qed.

Section Alike.
Context (dep : MessageKind -> Z) (v : AuthVerifier).

(** The same process, up to the counters of the pipeline, the counters and the
    peers of the transport, and the status lines. *)
Record in_step (s1 s2 : Process) : Prop := {
  is_daemon : alike (pr_daemon s1) (pr_daemon s2);
  is_phase : pr_phase s1 = pr_phase s2;
  is_shutdown : pr_shutdown s1 = pr_shutdown s2;
  is_fds : pr_fds s1 = pr_fds s2;
  is_last_status : pr_last_status s1 = pr_last_status s2;
  is_transport : link_alike (pr_transport s1) (pr_transport s2);
  is_reported : reported s1 = reported s2 }.

Lemma in_step_refl s : in_step s s.
Proof. by split; try apply alike_refl. Qed.

Lemma in_step_trans s1 s2 s3 : in_step s1 s2 -> in_step s2 s3 -> in_step s1 s3.
Proof. intros [] []. split; by etrans. Qed.

Lemma in_step_code s1 s2 : in_step s1 s2 -> exit_code s1 = exit_code s2.
Proof. intros H. unfold exit_code. by rewrite (is_phase _ _ H). Qed.

Lemma in_step_at phase s1 s2 : in_step s1 s2 -> in_step (at_phase phase s1) (at_phase phase s2).
Proof. intros []. by split. Qed.

Lemma in_step_say lines s1 s2 : in_step s1 s2 -> in_step (say lines s1) (say lines s2).
Proof. intros []. split; try done. rewrite !reported_say. congruence. Qed.

Lemma in_step_with d1 d2 s1 s2 : alike d1 d2 -> in_step s1 s2 -> in_step (with_daemon d1 s1) (with_daemon d2 s2).
Proof. intros Hd []. by split. Qed.

Lemma receive_daemon r q s :
  live dep v q s -> exit_code s = None ->
  pr_daemon (receive r s) = set_ingress (spec_step (TReceive r) (Some submit_callback, dm_ingress (pr_daemon s))).2 (pr_daemon s).
Proof.
  intros Hl Hc. pose proof (lv_transport _ _ _ _ Hl) as Ht. rewrite Hc in Ht.
  destruct (receive_rel r _ _ _ (dm_ingress (pr_daemon s)) Ht) as (t & E & _). unfold receive. by rewrite E.
Qed.

(** A datagram changes the pipeline and the counters. *)
Lemma receive_in_step r s1 s2 :
  in_step s1 s2 -> alike (pr_daemon (receive r s1)) (pr_daemon (receive r s2)) -> in_step (receive r s1) (receive r s2).
Proof.
  intros [] Hd. pose proof (quic_receive_link r (pr_transport s1) (dm_ingress (pr_daemon s1))) as H1.
  pose proof (quic_receive_link r (pr_transport s2) (dm_ingress (pr_daemon s2))) as H2. unfold receive in *.
  destruct (quic_receive r (pr_transport s1) _), (quic_receive r (pr_transport s2) _). split; try done. cbn in *.
  etrans; [exact H1|]. etrans; [done|by symmetry].
Qed.

Lemma receive_beside r s : alike (pr_daemon (receive r s)) (pr_daemon s) -> in_step (receive r s) s.
Proof.
  intros Hd. pose proof (quic_receive_link r (pr_transport s) (dm_ingress (pr_daemon s))) as H. unfold receive in *.
  destruct (quic_receive r _ _). by split.
Qed.

Lemma report_in_step now s1 s2 : in_step s1 s2 -> in_step (report_status now s1) (report_status now s2).
Proof.
  intros H. unfold report_status. rewrite (is_last_status _ _ H). destruct (_ >=? _); [|done].
  pose proof (quic_stats_link now (pr_transport s1)) as H1. pose proof (quic_stats_link now (pr_transport s2)) as H2.
  destruct H, (quic_stats now (pr_transport s1)), (quic_stats now (pr_transport s2)). cbn in *. split; try done.
  - etrans; [exact H1|]. etrans; [done|by symmetry].
  - unfold reported in *. cbn [pr_console]. rewrite !List.filter_app. cbn [List.filter].
    change (is_status (status_line ?d ?t)) with true. cbn [negb]. by rewrite is_reported0.
Qed.

Lemma stop_in_step s1 s2 : in_step s1 s2 -> in_step (stop_process s1) (stop_process s2).
Proof.
  intros []. destruct (quic_stop_link _ _ (pr_fds s1) is_transport0) as [Hq Hf]. unfold stop_process. rewrite <- is_fds0.
  destruct (quic_stop (pr_transport s1) _), (quic_stop (pr_transport s2) _). split; try done. cbn.
  apply (alike_split (dm_ingress (pr_daemon s1))) in is_daemon0 as [Hpa E].
  apply (alike_split (dm_ingress (pr_daemon s1))). split; [done|].
  change (shutdown (set_ingress (dm_ingress (pr_daemon s1)) (pr_daemon s1)) =
          shutdown (set_ingress (dm_ingress (pr_daemon s1)) (pr_daemon s2))). by rewrite E.
Qed.

Lemma spec_step_alike r p1 p2 : pipe_alike p1 p2 ->
  pipe_alike (spec_step (TReceive r) (Some submit_callback, p1)).2 (spec_step (TReceive r) (Some submit_callback, p2)).2.
Proof.
  intros H. destruct r as [|data peer now]; cbn [spec_step snd]; [done|]. destruct (parse_frame _); [|done].
  by apply submit_alike.
Qed.

Lemma loop_step_alike now s1 s2 s1' s2' :
  in_step s1 s2 -> loop_step now s1 = Some s1' -> loop_step now s2 = Some s2' -> in_step s1' s2'.
Proof.
  intros H E1 E2. pose proof (is_daemon _ _ H) as Hd. unfold loop_step in *. rewrite <- (is_phase _ _ H) in E2.
  destruct (pr_phase s1) as [|k n|n| | |code].
  - rewrite <- (is_shutdown _ _ H) in E2. injection E1 as <-. injection E2 as <-.
    destruct (pr_shutdown s1); [apply in_step_say|]; by apply in_step_at.
  - pose proof (next_alike k _ _ (proj1 Hd)) as Hn.
    destruct (next_frame k (dm_ingress (pr_daemon s1))) as [[p1 o1]|]; [|done].
    destruct (next_frame k (dm_ingress (pr_daemon s2))) as [[p2 o2]|]; [|done]. destruct Hn as [Hn <-].
    cbn [mbind option_bind] in E1, E2. destruct o1 as [f|].
    + pose proof (proj1 (alike_split p1 _ _) Hd) as [_ E]. rewrite handle_ingress in E1, E2.
      pose proof (handle_ingress k f p1 (pr_daemon s1)) as H1. pose proof (handle_ingress k f p1 (pr_daemon s2)) as H2.
      rewrite <- E, H1 in H2.
      destruct (handle k f (pr_daemon s1)) as [d1|]; [|done]. destruct (handle k f (pr_daemon s2)) as [d2|]; [|done].
      cbn in E1, E2, H2. apply (inj Some) in H2. injection E1 as <-. injection E2 as <-.
      apply in_step_at, in_step_say, in_step_with; [|done].
      apply (alike_split p1). split; [done|]. by destruct d1, d2.
    + injection E1 as <-. injection E2 as <-. apply in_step_at, in_step_with; [by apply alike_ingress|done].
  - destruct (n >? 0); [|injection E1 as <-; injection E2 as <-; by apply in_step_at].
    pose proof (proj1 (alike_split (dm_ingress (pr_daemon s1)) _ _) Hd) as [Hpa E].
    pose proof (advance_block_outside n (dm_ingress (pr_daemon s1)) (pr_daemon s1)) as H1.
    pose proof (advance_block_outside n (dm_ingress (pr_daemon s1)) (pr_daemon s2)) as H2. rewrite <- E, H1 in H2.
    destruct (advance_block n (pr_daemon s1)) as [[d1 r1]|] eqn:A1; [|done].
    destruct (advance_block n (pr_daemon s2)) as [[d2 r2]|] eqn:A2; [|done].
    cbn in E1, E2, H2. apply (inj Some), pair_equal_spec in H2 as [H2 <-]. injection E1 as <-. injection E2 as <-.
    apply in_step_at, in_step_with; [|done].
    apply advance_block_ingress in A1, A2. apply (alike_split (dm_ingress (pr_daemon s1))). rewrite A1, A2. by split.
  - injection E1 as <-. injection E2 as <-. by apply in_step_at, report_in_step.
  - injection E1 as <-. injection E2 as <-. by apply in_step_at, stop_in_step.
  - injection E1 as <-. by injection E2 as <-.
Qed.

Lemma process_step_alike l q1 q2 s1 s2 s1' s2' :
  live dep v q1 s1 -> live dep v q2 s2 -> in_step s1 s2 ->
  process_step l s1 = Some s1' -> process_step l s2 = Some s2' -> in_step s1' s2'.
Proof.
  intros L1 L2 Hin E1 E2. pose proof (in_step_code _ _ Hin) as Ec. unfold process_step in *. rewrite <- Ec in E2.
  destruct (exit_code s1) eqn:Hc; [injection E1 as <-; by injection E2 as <-|].
  destruct l as [r| |now]; [..|by eapply loop_step_alike].
  - injection E1 as <-. injection E2 as <-. apply receive_in_step; [done|].
    rewrite (receive_daemon r q1 s1 L1 Hc), (receive_daemon r q2 s2 L2) by done.
    apply alike_ingress; [|by apply is_daemon]. apply spec_step_alike. by apply is_daemon in Hin as [].
  - injection E1 as <-. injection E2 as <-. by destruct Hin.
Qed.

(** ** What carries no signature *)

Lemma set_stats_alike st p : pipe_alike (set_stats st p) p.
Proof. reflexivity. Qed.

(** A frame that the verifier refuses, or a heartbeat. *)
Definition unsigned (f : Frame) : bool :=
  is_kind kHeartbeat f || match v with Some u => negb (u (fr_header f) (fr_payload f)) | None => false end.

Lemma unsigned_submission f p : verifier p = v -> unsigned f = true -> pipe_alike (submit_frame f p).1 p.
Proof.
  unfold unsigned, submit_frame. intros Hv Hj. fold (is_kind kHeartbeat f).
  destruct (is_kind kHeartbeat f); [apply set_stats_alike|]. cbn [orb] in Hj.
  assert (Ha : authentic p f = false).
  { unfold authentic. rewrite Hv. destruct v; [|done]. by apply negb_true_iff. }
  rewrite Ha. apply set_stats_alike.
Qed.

(** A return of [recvfrom] that carries no signed frame. *)
Definition junk (l : Label) : bool :=
  match l with
  | LReceive RError => true
  | LReceive (RDatagram data _ _) => match parse_frame (datagram data) with None => true | Some f => unsigned f end
  | _ => false
  end.

Lemma junk_submission r p :
  verifier p = v -> junk (LReceive r) = true -> pipe_alike (spec_step (TReceive r) (Some submit_callback, p)).2 p.
Proof.
  intros Hv. destruct r as [|data peer now]; cbn [junk spec_step snd]; [reflexivity|].
  destruct (parse_frame _) as [f|]; [|reflexivity]. by apply unsigned_submission.
Qed.

Lemma junk_step l q s s' : live dep v q s -> junk l = true -> process_step l s = Some s' -> in_step s' s.
Proof.
  intros Hl Hj E. unfold process_step in E. destruct (exit_code s) eqn:Hc; [injection E as <-; apply in_step_refl|].
  destruct l as [r| |]; [|done..]. injection E as <-. apply receive_beside. rewrite (receive_daemon r q s Hl Hc).
  transitivity (set_ingress (dm_ingress (pr_daemon s)) (pr_daemon s)).
  - apply alike_ingress; [|apply alike_refl]. apply junk_submission; [|exact Hj]. apply (lv_verifier _ _ _ _ Hl).
  - rewrite set_ingress_same. apply alike_refl.
Qed.

Lemma run_without_junk ls : forall q1 q2 s1 s2,
  live dep v q1 s1 -> live dep v q2 s2 -> in_step s1 s2 ->
  exists s1' s2', process_run ls s1 = Some s1' /\ process_run (List.filter (fun l => negb (junk l)) ls) s2 = Some s2' /\
    in_step s1' s2'.
Proof.
  induction ls as [|l ls IH]; intros q1 q2 s1 s2 L1 L2 Hin; [by exists s1, s2|]. cbn [process_run List.filter].
  destruct (process_step_moves dep v l q1 s1 L1) as (q1' & s1' & E1 & L1' & _). rewrite E1. cbn [mbind option_bind].
  destruct (junk l) eqn:Hj; cbn [negb].
  - apply (IH q1' q2); [done|done|]. eapply in_step_trans; [|exact Hin]. by eapply junk_step.
  - destruct (process_step_moves dep v l q2 s2 L2) as (q2' & s2' & E2 & L2' & _). cbn [process_run]. rewrite E2.
    cbn [mbind option_bind]. apply (IH q1' q2'); [done|done|]. exact (process_step_alike l _ _ _ _ _ _ L1 L2 Hin E1 E2).
Qed.
End Alike.

(** C11: datagrams without a signature change nothing but statistics.  Launched with
    a configuration that loads: take out of any interleaving the datagrams that do
    not parse, those that a registered key did not sign, and the heartbeats.  The
    process is at the same place, with the same queues, rate windows, books, accounts,
    positions, feeds, log, snapshots, block count and descriptors, has written the
    same lines except for those that start with [[status]], has taken the signal or
    not, and has exited or not alike.  What may differ is the counters of the
    pipeline, and the counters and the table of peers of the transport: the sender of
    any datagram that is not empty becomes a peer, which the status lines and the
    node status count. *)
Theorem unsigned_datagrams_change_nothing `{Config.TomlLibrary} verify env cfg a p log :
  launchable verify env cfg a p log ->
  exists s0, (forall ls, main verify env ls = run_process ls s0) /\
    forall ls, exists s s', process_run ls s0 = Some s /\
      process_run (List.filter (fun l => negb (junk (frame_verifier verify env a) l)) ls) s0 = Some s' /\
      in_step s s' /\ exit_code s = exit_code s'.
Proof.
  intros Hl. destruct (main_enters_loop verify env cfg a p log Hl) as (s0 & Hm & Hlive & _).
  exists s0. split; [done|]. intros ls.
  destruct (run_without_junk _ _ ls _ _ s0 s0 Hlive Hlive (in_step_refl s0)) as (s & s' & E & E' & Hin).
  exists s, s'. split; [done|]. split; [done|]. split; [done|]. by apply in_step_code.
Qed.

Lemma unsigned_datagrams_change_nothing_witness :
  exists s s', fin_process <$> main (H := Config.Toml.library) toy_verify DemoLaunch.env DemoLaunch.labels = Some (Some s) /\
    in_step s s' /\ exit_code s = exit_code s'.
Proof.
  destruct (unsigned_datagrams_change_nothing (H := Config.Toml.library) toy_verify DemoLaunch.env DemoLaunch.cfg
    DemoLaunch.authenticator DemoLaunch.pipeline [] DemoLaunch.launch) as (s0 & Hm & Hr).
  destruct (Hr DemoLaunch.labels) as (s & s' & E & _ & Ha & Hc). exists s, s'.
  split; [rewrite Hm; unfold run_process; by rewrite E|]. split; [exact Ha|exact Hc].
Defined.

(** Three of the four arrivals of the demonstration are such datagrams. *)
Example demo_junk :
  map (junk (frame_verifier toy_verify DemoLaunch.env DemoLaunch.authenticator)) DemoLaunch.arrivals =
    [false; true; true; true].
Proof. by vm_compute. Qed.

(** One datagram that is not even a frame makes its sender a peer. *)
Example junk_counts_as_peer :
  (f ← main (H := Config.Toml.library) toy_verify DemoLaunch.env [];
   s ← fin_process f;
   Some (map (fun ls => (fun s => ts_connections_active (quic_stats 5 (pr_transport s)).2) <$> process_run ls s)
           [[]; [LReceive (RDatagram [1] 77 5)]])) = Some [Some 0; Some 1].
Proof. by vm_compute. Qed.
