(* ===== verification/Typed.v ===== *)
(** * Values stay within their C++ types

    A component is typed when every integer it stores is in the range of the type
    the source declares for it.  The class states it per data type; each operation
    of the matcher, the risk engine, the funding engine and the ledger preserves
    it, whatever its operands, so no conversion is missing from the model. *)
From S2P Require Import Prelude Types Bytes OrderedMap Sbe Matcher Risk FundingLedger.

Class Typed (A : Type) := typed : A -> Prop.
#[global] Hint Mode Typed ! : typeclass_instances.

#[export] Instance typed_list {A} `{Typed A} : Typed (list A) := Forall typed.

(** A map whose keys are unsigned integers of [w] bits. *)
Definition keyed {A} `{Typed A} (w : Z) (m : gmap Z A) : Prop := map_Forall (fun k x => in_u w k /\ typed x) m.

(** ** Ranges *)
Create HintDb typed.

Lemma u16_range z : in_u 16 (u16 z).
Proof. by apply wrapu_range. Qed.
Lemma u32_range z : in_u 32 (u32 z).
Proof. by apply wrapu_range. Qed.
Lemma u64_range z : in_u 64 (u64 z).
Proof. by apply wrapu_range. Qed.

Lemma i32_range z : in_i32 (i32 z).
Proof. unfold in_i32, wraps. change (32 - 1) with 31. pose proof (Z.mod_pos_bound (z + 2 ^ 31) (2 ^ 32) eq_refl). lia. Qed.

Lemma min_i64 a b : in_i64 a -> in_i64 b -> in_i64 (Z.min a b).
Proof. intros. range. Qed.

Lemma max_i64 a b : in_i64 a -> in_i64 b -> in_i64 (Z.max a b).
Proof. intros. range. Qed.

Lemma i32_i64 a : in_i32 a -> in_i64 a.
Proof. intros. range. Qed.

Lemma llabs_i64 a : in_i64 (llabs a).
Proof. apply i64_range. Qed.

#[export] Hint Resolve i64_range i32_range u16_range u32_range u64_range min_i64 max_i64 llabs_i64 : typed.
#[export] Hint Extern 2 (in_u _ ?k) => (is_const k; by vm_compute) : typed.
#[export] Hint Extern 5 (in_u _ _) => (range) : typed.
#[export] Hint Extern 5 (in_i64 _) => (range) : typed.
#[export] Hint Extern 5 (in_i32 _) => (range) : typed.

Section Keyed.
Context {A : Type} `{Typed A} (w : Z).
Implicit Types m : gmap Z A.

Lemma keyed_empty : keyed w (∅ : gmap Z A).
Proof. apply map_Forall_empty. Qed.

Lemma keyed_lookup m k x : keyed w m -> m !! k = Some x -> typed x.
Proof. intros Hm Hx. by destruct (Hm k x Hx). Qed.

Lemma keyed_key m k x : keyed w m -> m !! k = Some x -> in_u w k.
Proof. intros Hm Hx. by destruct (Hm k x Hx). Qed.

Lemma keyed_insert m k x : keyed w m -> in_u w k -> typed x -> keyed w (<[k := x]> m).
Proof. intros Hm Hk Hx. by apply map_Forall_insert_2. Qed.

Lemma keyed_delete m k : keyed w m -> keyed w (base.delete k m).
Proof. intros Hm. by apply map_Forall_delete. Qed.

Lemma keyed_default m k x : keyed w m -> typed x -> typed (default x (m !! k)).
Proof. intros Hm Hx. destruct (m !! k) as [y|] eqn:E; [by apply (keyed_lookup m k)|done]. Qed.
End Keyed.
#[export] Hint Resolve keyed_empty keyed_insert keyed_delete keyed_default keyed_lookup keyed_key : typed.

(** ** The matching engine *)
#[export] Instance typed_order_id : Typed OrderId := OrderId_wf.
#[export] Instance typed_side : Typed Side := side_ok.

#[export] Instance typed_fill : Typed FillEvent := fun f =>
  typed (fill_maker_order f) /\ typed (fill_taker_order f) /\ in_i64 (fill_quantity f) /\ in_i64 (fill_price f).

#[export] Instance typed_request : Typed OrderRequest := fun r =>
  typed (req_id r) /\ in_u 64 (req_account r) /\ typed (req_side r) /\ in_i64 (req_quantity r) /\
  in_i64 (req_price r) /\ in_i64 (req_display_quantity r) /\ in_u 16 (req_flags r).

#[export] Instance typed_cancel : Typed CancelRequest := fun r => typed (cancel_id r).

#[export] Instance typed_replace : Typed ReplaceRequest := fun r =>
  typed (rep_id r) /\ in_i64 (rep_new_quantity r) /\ in_i64 (rep_new_price r) /\
  in_i64 (rep_new_display_quantity r) /\ in_u 16 (rep_new_flags r).

#[export] Instance typed_order_result : Typed OrderResult := fun r => in_u 16 (or_reject_code r) /\ typed (or_fills r).
#[export] Instance typed_cancel_result : Typed CancelResult := fun r => in_u 16 (cr_reject_code r).
#[export] Instance typed_replace_result : Typed ReplaceResult := fun r => in_u 16 (rr_reject_code r) /\ typed (rr_fills r).

#[export] Instance typed_record : Typed OrderRecord := fun r =>
  typed (rec_request r) /\ in_i64 (rec_remaining r) /\ in_i64 (rec_display_remaining r) /\
  in_i64 (rec_display_size r) /\ in_u 64 (rec_fifo_seq r).

#[export] Instance typed_level : Typed PriceLevel := fun l => in_i64 (lvl_total_qty l) /\ in_i64 (lvl_visible_qty l).

#[export] Instance typed_entry : Typed (Z * PriceLevel) := fun x => in_i64 x.1 /\ typed x.2.

#[export] Instance typed_shard : Typed MarketShard := fun sh =>
  keyed 64 (book_orders sh) /\ typed (bids sh) /\ typed (asks sh) /\ in_u 64 (next_sequence sh).

Abbreviation typed_engine := (keyed (A := MarketShard) 16).

(** Open up records, and close what is a range or a hypothesis. *)
Ltac ty_open := repeat match goal with
  | H : typed _ |- _ => progress cbv [typed typed_fill typed_request typed_cancel typed_replace typed_order_result
      typed_cancel_result typed_replace_result typed_record typed_level typed_entry typed_shard] in H
  | H : _ /\ _ |- _ => destruct H
  end.
Ltac ty_goal := cbv [typed typed_fill typed_request typed_cancel typed_replace typed_order_result
      typed_cancel_result typed_replace_result typed_record typed_level typed_entry typed_shard]; cbn.
Ltac ty := ty_open; ty_goal; repeat match goal with |- _ /\ _ => split end; eauto with typed.

Lemma refresh_display_typed r : typed r -> typed (refresh_display r).
Proof. unfold refresh_display, set_display_remaining. intros H. destruct (is_hidden r); [|destruct (_ && _)]; ty. Qed.

Lemma store_typed k f h h' :
  store k f h = Some h' -> keyed 64 h -> (forall r, typed r -> typed (f r)) -> keyed 64 h'.
Proof. unfold store. intros E Hh Hf. simplify_option_eq. eauto with typed. Qed.

Lemma store_opt_typed k f h h' :
  store_opt k f h = Some h' -> keyed 64 h -> (forall r, typed r -> typed (f r)) -> keyed 64 h'.
Proof. destruct k; cbn; [apply store_typed|by intros [= <-]]. Qed.

Lemma set_prev_typed p r : typed r -> typed (set_prev p r).
Proof. done. Qed.
Lemma set_next_typed p r : typed r -> typed (set_next p r).
Proof. done. Qed.
Lemma set_level_typed l r : typed r -> typed (set_level l r).
Proof. done. Qed.
Lemma set_remaining_typed q r : in_i64 q -> typed r -> typed (set_remaining q r).
Proof. intros. ty. Qed.
#[export] Hint Resolve refresh_display_typed set_prev_typed set_next_typed set_level_typed set_remaining_typed : typed.

Lemma push_back_typed self lvl k h lvl' h' :
  push_back self lvl k h = Some (lvl', h') -> keyed 64 h -> typed lvl' /\ keyed 64 h'.
Proof.
  unfold push_back. intros E Hh. simplify_option_eq. split; [ty|].
  eapply store_typed; [eassumption| |eauto with typed]. eapply store_opt_typed; [eassumption| |eauto with typed].
  eapply store_typed; eauto with typed.
Qed.

Lemma remove_typed lvl k h lvl' h' : remove lvl k h = Some (lvl', h') -> keyed 64 h -> typed lvl' /\ keyed 64 h'.
Proof.
  unfold remove. intros E Hh. simplify_option_eq. split; [ty|].
  eapply store_typed; [eassumption| |eauto with typed]. eapply store_opt_typed; [eassumption| |eauto with typed].
  eapply store_opt_typed; eauto with typed.
Qed.

Lemma update_after_fill_typed lvl k q h lvl' h' :
  update_after_fill lvl k q h = Some (lvl', h') -> keyed 64 h -> typed lvl' /\ keyed 64 h'.
Proof. unfold update_after_fill. intros E Hh. simplify_option_eq. split; [ty|eauto with typed]. Qed.

Lemma om_set_typed k lvl (b : BookMap) : typed b -> in_i64 k -> typed lvl -> typed (om_set k lvl b).
Proof.
  intros Hb Hk Hl. induction Hb as [|[k' l'] b Hx Hb IH]; cbn; [constructor|].
  destruct (_ =? _); constructor; done.
Qed.

Lemma om_erase_typed k (b : BookMap) : typed b -> typed (om_erase k b).
Proof.
  intros Hb. induction Hb as [|[k' l'] b Hx Hb IH]; cbn; [constructor|]. destruct (_ =? _); [done|]. by constructor.
Qed.

Lemma om_find_typed k (b : BookMap) lvl : typed b -> om_find k b = Some lvl -> typed lvl /\ in_i64 k.
Proof.
  intros Hb. induction Hb as [|[k' l'] b Hx Hb IH]; cbn; [done|].
  destruct (Z.eqb_spec k k') as [->|]; [|done]. intros [= <-]. split; apply Hx.
Qed.

Lemma om_try_emplace_typed cmp k (b : BookMap) : typed b -> in_i64 k -> typed (om_try_emplace cmp k empty_level b).1.
Proof.
  intros Hb Hk. assert (He : typed (k, empty_level)) by ty.
  induction Hb as [|[k' l'] b Hx Hb IH]; cbn; [constructor; [exact He|constructor]|].
  destruct (_ =? _); [by constructor|]. destruct (cmp k k'); [constructor; [exact He|by constructor]|].
  destruct (om_try_emplace cmp k empty_level b). by constructor.
Qed.

Lemma book_of_typed buy sh : typed sh -> typed (book_of buy sh).
Proof. intros (_ & ? & ? & _). by destruct buy. Qed.

Lemma set_book_typed buy b sh : typed sh -> typed b -> typed (set_book buy b sh).
Proof. intros (? & ? & ? & ?) Hb. by destruct buy. Qed.

Lemma set_orders_typed h sh : typed sh -> keyed 64 h -> typed (set_orders h sh).
Proof. intros (? & ? & ? & ?) Hb. done. Qed.

Lemma orders_typed sh : typed sh -> keyed 64 (book_orders sh).
Proof. by intros (? & _). Qed.
#[export] Hint Resolve om_set_typed om_erase_typed om_try_emplace_typed book_of_typed set_book_typed
  set_orders_typed orders_typed : typed.

Lemma consume_level_typed n price : forall maker lvl taker fills h lvl' taker' fills' h',
  consume_level n price maker lvl taker fills h = Some (lvl', taker', fills', h') ->
  in_i64 price -> typed lvl -> typed taker -> typed fills -> keyed 64 h ->
  typed lvl' /\ typed taker' /\ typed fills' /\ keyed 64 h'.
Proof.
  induction n as [|n IH]; intros [m|] lvl taker fills h lvl' taker' fills' h' E Hp Hl Ht Hf Hh; cbn [consume_level] in E;
    try (by injection E as <- <- <- <-); destruct (negb _); try done; try (by injection E as <- <- <- <-).
  destruct (h !! m) as [r|] eqn:Em; [|done]. cbn [mbind option_bind] in E.
  pose proof (keyed_lookup _ _ _ _ Hh Em) as Hr. set (traded := Z.min _ _) in E.
  assert (Htr : in_i64 traded) by (unfold traded; ty).
  destruct (store _ _ h) as [h1|] eqn:E1; [|done]. cbn [mbind option_bind] in E.
  assert (Hh1 : keyed 64 h1) by (eapply store_typed; [eassumption|done|]; intros; ty).
  destruct (update_after_fill _ _ _ h1) as [[l2 h2]|] eqn:E2; [|done]. cbn [mbind option_bind] in E.
  destruct (update_after_fill_typed _ _ _ _ _ _ E2 Hh1) as [Hl2 Hh2].
  destruct (h2 !! m) as [r2|] eqn:Em2; [|done]. cbn [mbind option_bind] in E.
  assert (Ht1 : typed (set_remaining (i64 (rec_remaining taker - traded)) taker)) by ty.
  assert (Hf1 : typed (fills ++ [mkFill (req_id (rec_request r))
    (req_id (rec_request (set_remaining (i64 (rec_remaining taker - traded)) taker))) traded price])).
  { apply Forall_app. split; [done|]. constructor; [ty|constructor]. }
  destruct (_ =? 0); [|by eapply IH].
  destruct (remove _ _ h2) as [[l3 h3]|] eqn:E3; [|done]. cbn [mbind option_bind] in E.
  destruct (remove_typed _ _ _ _ _ E3 Hh2) as [Hl3 Hh3]. eapply IH; eauto with typed.
Qed.

Lemma consume_book_typed b : forall taker fills h b' taker' fills' h',
  consume_book b taker fills h = Some (b', taker', fills', h') ->
  typed b -> typed taker -> typed fills -> keyed 64 h ->
  typed b' /\ typed taker' /\ typed fills' /\ keyed 64 h'.
Proof.
  induction b as [|[p lvl] b IH]; intros taker fills h b' taker' fills' h' E Hb Ht Hf Hh; cbn [consume_book] in E.
  { by injection E as <- <- <- <-. }
  destruct (negb _); [by injection E as <- <- <- <-|]. destruct (negb _); [by injection E as <- <- <- <-|].
  apply Forall_cons in Hb as [[Hp Hl] Hb]. cbn [fst snd] in Hp, Hl.
  destruct (consume_level _ _ _ _ _ _ _) as [[[[l1 t1] f1] h1]|] eqn:E1; [|done]. cbn [mbind option_bind] in E.
  apply consume_level_typed in E1 as (Hl1 & Ht1 & Hf1 & Hh1); [|done..].
  destruct (consume_book b t1 f1 h1) as [[[[b2 t2] f2] h2]|] eqn:E2; [|done]. cbn [mbind option_bind] in E.
  apply IH in E2 as (Hb2 & ? & ? & ?); [|done..]. injection E as <- <- <- <-.
  split; [|done]. destruct (level_empty l1); [done|]. by constructor.
Qed.

Lemma match_order_typed sh taker sh' taker' fills :
  match_order sh taker = Some (sh', taker', fills) -> typed sh -> typed taker ->
  typed sh' /\ typed taker' /\ typed fills.
Proof.
  unfold match_order. intros E Hs Ht. destruct (consume_book _ _ _ _) as [[[[b t] f] h]|] eqn:E1; [|done].
  apply consume_book_typed in E1 as (Hb & ? & ? & Hh); [|eauto with typed; by constructor..].
  cbn [mbind option_bind] in E. injection E as <- <- <-. eauto with typed.
Qed.

Lemma rest_order_typed sh k sh' : rest_order sh k = Some sh' -> typed sh -> typed sh'.
Proof.
  unfold rest_order. intros E Hs. destruct (book_orders sh !! k) as [r|] eqn:Er; [|done]. cbn [mbind option_bind] in E.
  assert (Hr : typed r) by eauto with typed. assert (Hp : in_i64 (req_price (rec_request r))) by ty.
  pose proof (om_try_emplace_typed (before (is_buy (req_side (rec_request r)))) _ _ (book_of_typed (is_buy (req_side (rec_request r))) _ Hs) Hp) as Hb.
  destruct (om_try_emplace _ _ _ _) as [b ins]. destruct (om_find _ b) as [lvl|]; [|done]. cbn [mbind option_bind fst] in *.
  destruct (push_back _ _ _ _) as [[lvl' h]|] eqn:Ep; [|done]. cbn [mbind option_bind] in E. injection E as <-.
  apply push_back_typed in Ep as [? ?]; eauto with typed.
Qed.

Lemma remove_order_typed sh k sh' : remove_order_from_book sh k = Some sh' -> typed sh -> typed sh'.
Proof.
  unfold remove_order_from_book. intros E Hs. destruct (book_orders sh !! k) as [r|]; [|done]. cbn [mbind option_bind] in E.
  destruct (rec_level r); [|by injection E as <-]. destruct (om_find _ _) as [lvl|] eqn:Ef; [|by injection E as <-].
  apply om_find_typed in Ef as [_ Hp]; [|by apply book_of_typed].
  destruct (remove lvl k _) as [[lvl' h]|] eqn:Er; [|done]. cbn [mbind option_bind] in E. injection E as <-.
  apply remove_typed in Er as [? ?]; [|eauto with typed]. destruct (level_empty lvl'); eauto 6 with typed.
Qed.

Lemma make_taker_typed order n : typed order -> in_u 64 n -> typed (make_taker order n).
Proof. intros Ho Hn. unfold make_taker. destruct (HasFlag _ kHidden); [|destruct (HasFlag _ kIceberg)]; ty. Qed.

Lemma no_fills_typed : typed ([] : list FillEvent).
Proof. constructor. Qed.
#[export] Hint Resolve no_fills_typed make_taker_typed : typed.
#[export] Hint Extern 3 (typed_list []) => (constructor) : typed.

Lemma place_order_typed sh order sh' r :
  place_order sh order = Some (sh', r) -> typed sh -> typed order -> typed sh' /\ typed r.
Proof.
  unfold place_order. intros E Hs Ho.
  destruct (_ && _); [injection E as <- <-; split; [done|ty]|].
  destruct (_ && _); [injection E as <- <-; split; [done|ty]|].
  set (sh1 := mkShard _ _ _ _) in E. assert (Hs1 : typed sh1) by (destruct Hs as (? & ? & ? & ?); ty).
  destruct (match_order sh1 _) as [[[sh2 taker] fills]|] eqn:Em; [|done]. cbn [mbind option_bind] in E.
  apply match_order_typed in Em as (Hs2 & Ht & Hf); [|done|apply make_taker_typed; [done|apply Hs]].
  destruct (_ >? 0); [|injection E as <- <-; split; [done|ty]].
  destruct (_ || _); [injection E as <- <-; split; [done|ty]|].
  destruct (book_orders sh2 !! _); [injection E as <- <-; split; [done|ty]|].
  destruct (rest_order _ _) as [sh3|] eqn:Er; [|done]. cbn [mbind option_bind] in E. injection E as <- <-.
  split; [|ty]. eapply rest_order_typed; [exact Er|]. apply set_orders_typed; [done|].
  apply keyed_insert; [by apply orders_typed| |by apply refresh_display_typed].
  apply value_range. apply Ho.
Qed.

Lemma new_shard_typed : typed new_shard.
Proof. ty; constructor. Qed.
#[export] Hint Resolve new_shard_typed : typed.

Lemma add_market_typed m e : in_u 16 m -> typed_engine e -> typed_engine (add_market m e).
Proof. intros. unfold add_market. destruct (e !! m); eauto with typed. Qed.

Lemma clear_market_typed m e : in_u 16 m -> typed_engine e -> typed_engine (clear_market m e).
Proof. intros. unfold clear_market. eauto with typed. Qed.

Lemma submit_typed r e e' res : submit r e = Some (e', res) -> typed_engine e -> typed r -> typed_engine e' /\ typed res.
Proof.
  unfold submit. intros E He Hr. destruct (_ <=? 0); [injection E as <- <-; split; [done|ty]|].
  destruct (_ && _); [injection E as <- <-; split; [done|ty]|].
  assert (Hm : in_u 16 (id_market (req_id r))) by apply Hr.
  assert (H : typed (ensure_market (id_market (req_id r)) e).1 /\ typed_engine (ensure_market (id_market (req_id r)) e).2).
  { unfold ensure_market. destruct (e !! _) eqn:Ee; cbn; eauto with typed. }
  destruct (ensure_market _ e) as [sh e1]. destruct H as [Hs He1]. cbn [fst snd] in *.
  destruct (place_order sh r) as [[sh' res']|] eqn:Ep; [|done]. cbn [mbind option_bind] in E. injection E as <- <-.
  apply place_order_typed in Ep as [? ?]; [|done..]. eauto with typed.
Qed.

Lemma cancel_typed r e e' res : cancel r e = Some (e', res) -> typed_engine e -> typed r -> typed_engine e' /\ typed res.
Proof.
  unfold cancel. intros E He Hr. assert (Hm : in_u 16 (id_market (cancel_id r))) by apply Hr.
  destruct (e !! _) as [sh|] eqn:Ee; [|injection E as <- <-; split; [done|ty]].
  destruct (book_orders sh !! _); [|injection E as <- <-; split; [done|ty]].
  destruct (remove_order_from_book _ _) as [sh'|] eqn:Er; [|done]. cbn [mbind option_bind] in E. injection E as <- <-.
  apply remove_order_typed in Er; [|eauto with typed]. split; [|ty]. apply keyed_insert; [done|done|]. eauto with typed.
Qed.

Lemma replace_typed r e e' res : Matcher.replace r e = Some (e', res) -> typed_engine e -> typed r -> typed_engine e' /\ typed res.
Proof.
  unfold Matcher.replace. intros E He Hr. assert (Hm : in_u 16 (id_market (rep_id r))) by apply Hr.
  destruct (e !! _) as [sh|] eqn:Ee; [|injection E as <- <-; split; [done|ty]].
  destruct (book_orders sh !! _) as [old|] eqn:Eo; [|injection E as <- <-; split; [done|ty]].
  assert (Hs : typed sh) by eauto with typed. assert (Hold : typed old) by eauto with typed.
  destruct (remove_order_from_book _ _) as [sh1|] eqn:Er; [|done]. cbn [mbind option_bind] in E.
  apply remove_order_typed in Er; [|done].
  destruct (place_order _ _) as [[sh2 res']|] eqn:Ep; [|done]. cbn [mbind option_bind] in E. injection E as <- <-.
  apply place_order_typed in Ep as [? Hres]; [|eauto with typed|destruct Hold as (Ho & _); ty].
  split; [by apply keyed_insert|]. ty.
Qed.

(** ** The risk engine *)
#[export] Instance typed_position : Typed PositionState := fun p => in_i64 (pos_quantity p) /\ in_i64 (pos_entry_price p).

#[export] Instance typed_account : Typed AccountState := fun a =>
  in_i64 (collateral a) /\ in_i64 (realized_pnl a) /\ keyed 16 (positions a).

#[export] Instance typed_risk_config : Typed MarketRiskConfig := fun c =>
  in_i64 (contract_size c) /\ in_i32 (initial_margin_basis_points c) /\ in_i32 (maintenance_margin_basis_points c).

#[export] Instance typed_market : Typed MarketState := fun m => typed (ms_config m) /\ in_i64 (ms_mark_price m).

#[export] Instance typed_risk : Typed RiskEngine := fun e => keyed 64 (accounts e) /\ keyed 16 (markets e).

#[export] Instance typed_fill_context : Typed FillContext := fun c =>
  in_u 64 (fc_account c) /\ in_u 16 (fc_market c) /\ typed (fc_side c) /\ in_i64 (fc_quantity c) /\ in_i64 (fc_price c).

#[export] Instance typed_intent : Typed OrderIntent := fun i =>
  in_u 64 (in_account i) /\ in_u 16 (in_market i) /\ typed (in_side i) /\ in_i64 (in_quantity i) /\ in_i64 (in_limit_price i).

#[export] Instance typed_summary : Typed MarginSummary := fun s =>
  in_i64 (equity s) /\ in_i64 (initial_margin s) /\ in_i64 (maintenance_margin s).

#[export] Instance typed_risk_result : Typed RiskResult := fun r =>
  in_u 16 (rk_reject_code r) /\ in_i64 (rk_equity r) /\ in_i64 (rk_initial_margin_required r) /\
  in_i64 (rk_maintenance_margin_required r).

#[export] Instance typed_liq_result : Typed LiqResult := fun r =>
  in_i64 (lq_equity r) /\ in_i64 (lq_initial_margin r) /\ in_i64 (lq_maintenance_margin r) /\ in_i64 (lq_deficit r).

Lemma new_account_typed : typed new_account.
Proof. split; [|split]; cbn; eauto with typed. Qed.

Lemma default_risk_config_typed : typed default_risk_config.
Proof. repeat split; by vm_compute. Qed.

Lemma new_market_typed : typed new_market.
Proof. split; [apply default_risk_config_typed|by vm_compute]. Qed.

Lemma ensure_account_typed e a : typed e -> typed (ensure_account e a).
Proof. intros [Ha _]. apply (keyed_default 64); [exact Ha|exact new_account_typed]. Qed.

Lemma ensure_market_state_typed e m : typed e -> typed (ensure_market_state e m).
Proof. intros [_ Hm]. apply (keyed_default 16); [exact Hm|exact new_market_typed]. Qed.

Lemma set_account_typed a s e : typed e -> in_u 64 a -> typed s -> typed (set_account a s e).
Proof. intros [] **. split; cbn; eauto with typed. Qed.

Lemma set_market_typed m s e : typed e -> in_u 16 m -> typed s -> typed (set_market m s e).
Proof. intros [] **. split; cbn; eauto with typed. Qed.

Lemma configure_market_typed m c e : typed e -> in_u 16 m -> typed c -> typed (configure_market m c e).
Proof.
  intros He Hm Hc. unfold configure_market. destruct (markets e !! m) as [s|] eqn:Es; apply set_market_typed; try done.
  - split; [done|]. cbn. by apply (keyed_lookup 16 _ _ _ (proj2 He) Es).
Qed.

Lemma set_mark_price_typed m mark e : typed e -> in_u 16 m -> in_i64 mark -> typed (set_mark_price m mark e).
Proof. intros He Hm Hc. apply set_market_typed; [done|done|]. split; [|done]. by apply (ensure_market_state_typed e m). Qed.

Lemma move_collateral_typed a amount e :
  typed e -> in_u 64 a -> typed (credit_collateral a amount e) /\ typed (debit_collateral a amount e).
Proof.
  intros He Ha. destruct (ensure_account_typed e a He) as (_ & Hr & Hp).
  split; apply set_account_typed; try done; (split; [apply i64_range|by split]).
Qed.

Lemma extend_position_typed p signed price : typed (extend_position p signed price).
Proof. split; cbn; [apply i64_range|]. destruct (negb _); [destruct (_ =? 0)|]; eauto with typed. Qed.

Lemma reduce_position_typed p signed price : typed p -> in_i64 price -> typed (reduce_position p signed price).
Proof. intros [] Hp. split; cbn; [apply i64_range|]. destruct (_ =? 0); [|destruct (_ || _)]; eauto with typed. Qed.

Lemma apply_fill_typed f e : typed e -> typed f -> typed (apply_fill f e).
Proof.
  intros He (Ha & Hm & _ & _ & Hp). unfold apply_fill.
  pose proof (ensure_market_state_typed e (fc_market f) He) as Hms.
  destruct (ensure_account_typed e (fc_account f) He) as (Hc & Hr & Hpos).
  pose proof (set_market_typed _ _ _ He Hm Hms) as He1.
  set (p := default _ _). assert (Hpt : typed p) by (apply (keyed_default 16); [exact Hpos|split; by vm_compute]).
  destruct (same_direction _ _); apply set_account_typed; try done.
  - split; [done|]. split; [done|]. apply keyed_insert; [done|done|apply extend_position_typed].
  - split; [apply i64_range|]. split; [apply i64_range|]. apply keyed_insert; [done|done|by apply reduce_position_typed].
Qed.

Lemma account_summary_typed e a delta : typed (account_summary_with_delta e a delta).
Proof.
  unfold account_summary_with_delta, summary_over. generalize (exposures_with delta (position_table (find_account e a))). intros l.
  assert (Hb : typed (base_summary (find_account e a))).
  { destruct (find_account e a); repeat split; cbn; try apply i64_range; by vm_compute. }
  revert Hb. generalize (base_summary (find_account e a)). induction l as [|x l IH]; intros s Hs; [done|].
  cbn [foldl]. apply IH. unfold add_exposure. destruct (_ =? 0); [done|]. destruct (find_market e _); [|done].
  destruct Hs as (? & ? & ?). split; [|split; apply i64_range]. cbn. destruct (_ && _); [apply i64_range|done].
Qed.

Lemma evaluate_order_typed e i : typed (evaluate_order e i).
Proof.
  unfold evaluate_order. destruct (find_market e _); [|repeat split; by vm_compute].
  destruct (_ && _); [repeat split; by vm_compute|].
  pose proof (account_summary_typed e (in_account i) (Some (delta_of i))) as (? & ? & ?).
  destruct (_ >? _); (split; [by vm_compute|by split]).
Qed.

Lemma evaluate_typed e a : typed (evaluate e a).
Proof.
  unfold evaluate, classify. pose proof (account_summary_typed e a None) as (? & ? & ?).
  destruct (_ =? 0); [|destruct (_ <? _); [|destruct (_ <? _)]]; (split; [done|]; split; [done|]; split; [done|]);
    cbn; eauto with typed.
Qed.

(** ** The funding engine and the ledger *)
#[export] Instance typed_funding_config : Typed Funding.MarketFundingConfig := fun c =>
  in_i32 (Funding.clamp_basis_points c) /\ in_i64 (Funding.max_rate_basis_points c).

#[export] Instance typed_funding_market : Typed Funding.FundingMarket := fun s =>
  typed (Funding.fm_config s) /\ in_i64 (Funding.fm_mark_price s) /\ in_i64 (Funding.fm_index_price s) /\
  in_i64 (Funding.fm_premium_rate s) /\ in_i64 (Funding.fm_funding_accumulator s).

#[export] Instance typed_funding_snapshot : Typed Funding.FundingSnapshot := fun s =>
  in_i64 (Funding.fs_mark_price s) /\ in_i64 (Funding.fs_index_price s) /\
  in_i64 (Funding.fs_premium_rate s) /\ in_i64 (Funding.fs_funding_rate s).

Lemma new_funding_typed c : typed c -> typed (Funding.new_funding_market c).
Proof. intros. split; [done|]. repeat split; by vm_compute. Qed.

Lemma configure_funding_typed m c (e : Funding.FundingEngine) :
  keyed 16 e -> in_u 16 m -> typed c -> keyed 16 (Funding.configure_funding m c e).
Proof.
  intros He Hm Hc. unfold Funding.configure_funding. destruct (e !! m) as [s|] eqn:Es; apply keyed_insert; try done.
  - split; [done|]. by destruct (keyed_lookup 16 _ _ _ He Es) as [_ ?].
Qed.

Lemma clamp_typed v lo hi : in_i64 v -> in_i64 lo -> in_i64 hi -> in_i64 (Funding.clamp v lo hi).
Proof. unfold Funding.clamp. eauto with typed. Qed.

Lemma update_market_typed m index mid seconds (e : Funding.FundingEngine) :
  keyed 16 e -> in_u 16 m -> in_i64 index -> in_i64 mid ->
  keyed 16 (Funding.update_market m index mid seconds e).1 /\ typed (Funding.update_market m index mid seconds e).2.
Proof.
  intros He Hm Hi Hp. unfold Funding.update_market. set (s := default _ _).
  assert (Hs : typed s) by (apply (keyed_default 16); [done|]; apply new_funding_typed; split; by vm_compute).
  destruct Hs as ((Hc1 & Hc2) & _ & _ & _ & Ha). pose proof (i32_i64 _ Hc1).
  assert (Hpr : in_i64 (Funding.premium_of (Funding.fm_config s) index mid)).
  { unfold Funding.premium_of. destruct (_ >? 0); apply clamp_typed; eauto using i32_i64 with typed. }
  assert (Hmk : in_i64 (Funding.clamp mid (i64 (index - Funding.band_of (Funding.fm_config s) index))
    (i64 (index + Funding.band_of (Funding.fm_config s) index)))) by (apply clamp_typed; eauto with typed).
  split; cbn.
  - apply keyed_insert; [done|done|]. split; [by split|]. split; [done|]. split; [done|]. split; [done|apply i64_range].
  - split; [done|]. split; [done|]. split; [done|]. unfold Funding.rate_of. apply clamp_typed; eauto with typed.
Qed.

#[export] Instance typed_ledger : Typed Ledger.LedgerAccount := fun a =>
  in_i64 (Ledger.collateral_available a) /\ in_i64 (Ledger.collateral_locked a).

Lemma ledger_step_typed (l : Ledger.LedgerState) op :
  keyed 16 l -> (match op with Ledger.Credit s _ | Ledger.Debit s _ => in_u 16 s end) -> keyed 16 (Ledger.ledger_step l op).
Proof.
  intros Hl Hs. destruct op as [s amount|s amount]; cbn; apply keyed_insert; try done.
  - split; [apply i64_range|]. refine (proj2 (_ : typed (Ledger.get s l))).
    apply (keyed_default 16); [done|split; by vm_compute].
  - split; apply i64_range.
Qed.
