(* ===== verification/TypedProcess.v ===== *)
(** * The process stays within its C++ types

    The same for the queues, the log, the snapshots, the feeds and the daemon, and
    for the whole process from the command line on. *)
From S2P Require Import Telemetry Config.
From S2P Require Import Prelude Types Bytes OrderedMap Matcher Risk FundingLedger SpscRing Sbe Ingest IngestProps Transport.
From S2P Require Import Wal WalProps Snapshot SnapshotProps Api Auth Daemon Handlers DaemonProps DaemonRuns Main MainProps Typed.
Open Scope string_scope.
Open Scope list_scope.
Open Scope Z_scope.

#[export] Instance typed_option {A} `{Typed A} : Typed (option A) := fun o => match o with Some x => typed x | None => True end.

(** ** Bytes *)
Lemma bytes_app a b : bytes_ok a -> bytes_ok b -> bytes_ok (a ++ b).
Proof. intros. by apply Forall_app. Qed.

Lemma bytes_sub b o n : bytes_ok b -> bytes_ok (sub b o n).
Proof. intros. by apply Forall_take, Forall_drop. Qed.

Lemma bytes_nil : bytes_ok [].
Proof. constructor. Qed.
#[export] Hint Resolve bytes_app bytes_sub bytes_nil to_le_ok : typed.

(** ** Frames and queues *)
#[export] Instance typed_frame : Typed Frame := sound_frame.

#[export] Instance typed_ring : Typed (SpscRing Frame) := fun r =>
  typed (buffer r) /\ in_u 64 (mask r) /\ in_u 64 (head r) /\ in_u 64 (tail r).

#[export] Instance typed_window : Typed AccountWindow := fun w =>
  in_i64 (window_start w) /\ in_u 32 (win_new_orders w) /\ in_u 32 (win_cancels w) /\ in_u 32 (win_replaces w).

#[export] Instance typed_stats : Typed Stats := fun s =>
  in_u 64 (accepted s) /\ in_u 64 (rejected_auth s) /\ in_u 64 (rejected_rate_limit s) /\
  in_u 64 (rejected_queue_full s) /\ in_u 64 (dropped_heartbeats s).

#[export] Instance typed_pipeline : Typed IngressPipeline := fun p =>
  typed (stats p) /\ keyed 64 (rate_windows p) /\ typed (new_orders p) /\ typed (cancels p) /\ typed (replaces p).

Lemma land_mask i m : 0 <= m -> 0 <= Z.land i m <= m.
Proof.
  intros Hm. split; [apply Z.land_nonneg; by right|].
  enough (0 <= m - Z.land i m) by lia. rewrite Z.sub_nocarry_ldiff.
  - apply Z.ldiff_nonneg. by left.
  - apply Z.bits_inj'. intros n Hn. rewrite Z.ldiff_spec, Z.land_spec, Z.bits_0. by destruct (Z.testbit i n), (Z.testbit m n).
Qed.

Lemma push_typed f r : typed r -> typed f -> typed (push f r).1.
Proof.
  intros (Hb & Hm & Hh & Ht) Hf. unfold push. destruct (_ =? _); [done|].
  split; [by apply Forall_insert|]. split; [done|]. split; [|done]. cbn.
  pose proof (land_mask (head r + 1) (mask r) ltac:(apply Hm)). unfold next_index. range.
Qed.

Lemma pop_typed r r' o : pop r = Some (r', o) -> typed r -> typed r' /\ typed o.
Proof.
  intros E (Hb & Hm & Hh & Ht). unfold pop in E. destruct (_ =? _); [by injection E as <- <-|].
  destruct (buffer r !! _) as [[v|]|] eqn:Ev; [|done..]. injection E as <- <-.
  split; [|by apply (Forall_lookup_1 _ _ _ _ Hb Ev)]. split; [by apply Forall_insert|]. split; [done|]. split; [done|]. cbn.
  pose proof (land_mask (tail r + 1) (mask r) ltac:(apply Hm)). unfold next_index. range.
Qed.

Lemma make_ring_typed n r : in_u 64 n -> make_ring n = Ok r -> typed r.
Proof.
  intros Hn. unfold make_ring. destruct (Z.eqb_spec n 0); [done|]. destruct (negb _); [done|]. cbn [orb].
  intros [= <-]. split; [by apply Forall_replicate|]. repeat split; cbn; range.
Qed.

Lemma rate_limit_typed c w k ts : typed w -> in_i64 ts -> typed (rate_limit c w k ts).1.
Proof.
  intros Hw Ht. unfold rate_limit. set (w1 := if (_ >=? _) then mkWindow _ _ _ _ else w).
  assert (H1 : typed w1) by (unfold w1; destruct (_ >=? _); [repeat split; cbn; range|done]).
  clearbody w1. destruct H1 as (? & ? & ? & ?).
  destruct k; try destruct (_ >=? _); (split; [done|]); cbn; eauto with typed.
Qed.

Lemma enqueue_typed f p : typed p -> typed f -> typed (enqueue f p).1.
Proof.
  intros (Hs & Hw & Hn & Hc & Hr) Hf. unfold enqueue. destruct (fh_kind _); [| | |by split].
  - pose proof (push_typed f _ Hn Hf). by destruct (push _ _).
  - pose proof (push_typed f _ Hc Hf). by destruct (push _ _).
  - pose proof (push_typed f _ Hr Hf). by destruct (push _ _).
Qed.

Lemma set_stats_typed s p : typed p -> typed s -> typed (set_stats s p).
Proof. by intros (_ & H) Hs. Qed.

Lemma counts_typed s : typed s ->
  typed (count_heartbeat s) /\ typed (count_auth s) /\ typed (count_rate s) /\ typed (count_full s) /\ typed (count_accepted s).
Proof.
  intros (? & ? & ? & ? & ?). unfold typed, typed_stats. cbn.
  repeat match goal with |- _ /\ _ => split end; eauto with typed.
Qed.

Lemma submit_frame_typed f p : typed p -> typed f -> typed (submit_frame f p).1.
Proof.
  intros Hp Hf. unfold submit_frame. pose proof (counts_typed _ (proj1 Hp)) as (? & ? & _).
  destruct (bool_decide _); [by apply set_stats_typed|]. destruct (negb _); [by apply set_stats_typed|].
  assert (Hh : in_u 64 (fh_account (fr_header f)) /\ in_i64 (fh_received_time_ns (fr_header f))) by (destruct Hf as [[] _]; done).
  destruct Hh as [Ha Ht]. pose proof Hp as (Hs & Hw & Hq).
  set (w := default _ _). assert (Hwt : typed w) by (apply (keyed_default 64); [done|]; repeat split; cbn; range).
  pose proof (rate_limit_typed (config p) w (fh_kind (fr_header f)) _ Hwt Ht) as H1.
  destruct (rate_limit _ _ _ _) as [w1 limited]. cbn [fst] in H1.
  assert (Hp1 : typed (set_windows (<[fh_account (fr_header f) := w1]> (rate_windows p)) p)).
  { split; [done|]. split; [|done]. by apply keyed_insert. }
  destruct limited; [apply set_stats_typed; [done|]; by apply counts_typed|].
  pose proof (enqueue_typed f _ Hp1 Hf) as Hp2. destruct (enqueue _ _) as [p2 pushed]. cbn [fst] in Hp2.
  destruct (negb _); (apply set_stats_typed; [done|]); apply counts_typed, Hp2.
Qed.

Lemma next_frame_typed k p p' o : next_frame k p = Some (p', o) -> typed p -> typed p' /\ typed o.
Proof.
  intros E (Hs & Hw & Hn & Hc & Hr). destruct k; cbn in E; unfold next_new_order, next_cancel, next_replace in E;
    [..|by injection E as <- <-];
    (destruct (pop _) as [[q f]|] eqn:Ep; [|done]); injection E as <- <-;
    (apply pop_typed in Ep as [? ?]; [|done]); done.
Qed.

Lemma receive_typed r p : typed p -> received_ok r -> typed (spec_step (TReceive r) (Some submit_callback, p)).2.
Proof.
  intros Hp Hr. destruct r as [|data peer now]; cbn [spec_step snd]; [done|].
  destruct (parse_frame (datagram data)) as [f|] eqn:Ef; [|done]. apply submit_frame_typed; [done|].
  assert (Hb : bytes_ok (datagram data)) by by apply Forall_take.
  destruct (parse_frame_sound (datagram data) f Hb Ef) as [Hok (flags & extra & _ & E)].
  split; [done|]. rewrite E, !Forall_app in Hb. tauto.
Qed.

(** ** The log and the snapshots *)
#[export] Instance typed_writer : Typed Writer := fun w =>
  bytes_ok (wt_file w) /\ bytes_ok (wt_buffer w) /\ in_u 64 (wt_flush_threshold w) /\ in_u 64 (wt_next_sequence w).

(** The file and the temporary file are bytes. *)
Definition disk_typed (d : Disk) : Prop := bytes_ok (default [] (dk_snapshot d)) /\ bytes_ok (default [] (dk_tmp d)).

#[export] Instance typed_store : Typed Store := fun s =>
  disk_typed (st_disk s) /\ in_u 64 (max_records (st_options s)) /\ in_u 64 (max_file_bytes (st_options s)).

Lemma header_bytes_ok h : bytes_ok (header_bytes h).
Proof. unfold header_bytes. eauto 10 with typed. Qed.

Lemma flush_typed w : typed w -> typed (flush w).
Proof.
  intros (Hf & Hb & Ht & Hs). unfold flush. destruct (wt_buffer w) as [|x b] eqn:E; [split; [done|]; by rewrite E|].
  split; [by apply bytes_app|]. split; [constructor|done].
Qed.

Lemma append_typed r p w : typed w -> bytes_ok p -> typed (append r p w).
Proof.
  intros (Hf & Hb & Ht & Hs) Hp. unfold append. set (w1 := mkWriter _ _ _ _).
  assert (H1 : typed w1).
  { split; [done|]. split; [|split; [done|apply u64_range]]. cbn. eauto using header_bytes_ok with typed. }
  destruct (_ >=? _); [by apply flush_typed|done].
Qed.

Lemma write_record_typed q p : bytes_ok p -> bytes_ok (write_record q p).
Proof. intros. unfold write_record, snap_header_bytes. eauto 12 with typed. Qed.

Lemma read_next_record_typed b r rest :
  read_next_record b = Ok (Some (r, rest)) -> bytes_ok b -> bytes_ok (er_payload r) /\ bytes_ok rest.
Proof.
  unfold read_next_record. intros E Hb.
  repeat match type of E with context [if ?c then _ else _] => destruct c; try done end;
    injection E as <- <-; cbn; split; by repeat first [apply Forall_take|apply Forall_drop].
Qed.

Lemma load_loop_typed n : forall b rs, load_loop n b = Some (Ok rs) -> bytes_ok b -> Forall (fun r => bytes_ok (er_payload r)) rs.
Proof.
  induction n as [|n IH]; intros b rs E Hb; cbn [load_loop] in E; [done|].
  destruct (read_next_record b) as [[[r rest]|]|] eqn:Er; [|by injection E as <-|done].
  apply read_next_record_typed in Er as [Hr Hrest]; [|done].
  destruct (load_loop n rest) as [[rs'|]|] eqn:El; [|done..]. injection E as <-. constructor; [done|by eapply IH].
Qed.

Lemma compacted_typed o rs :
  Forall (fun r => bytes_ok (er_payload r)) rs -> bytes_ok (rewrite_records (compacted o rs)).
Proof.
  intros Hrs. destruct (decide (rs = [])) as [->|Hne].
  { unfold compacted. cbn. destruct (_ && _), (_ >? 0); rewrite ?drop_nil; constructor. }
  destruct (compacted_spec o rs Hne) as (k & -> & _). unfold rewrite_records.
  apply (Forall_drop _ k) in Hrs. induction Hrs as [|r rs' Hr Hrs IH]; [constructor|].
  cbn [map concat]. apply bytes_app; [by apply write_record_typed|done].
Qed.

Lemma persist_typed q p s s' r : persist q p s = Some (s', r) -> typed s -> bytes_ok p -> typed s'.
Proof.
  unfold persist. intros E [[Hf Ht] Ho] Hp. destruct (negb _); [by injection E as <- <-|].
  set (s1 := set_disk _ s) in E.
  assert (H1 : typed s1).
  { split; [|done]. split; cbn; [|done]. apply bytes_app; [done|by apply write_record_typed]. }
  clearbody s1. unfold compact_if_needed in E. destruct (snapshot_file s1) as [file|] eqn:Ef; [|by injection E as <- <-].
  destruct (_ && _); [by injection E as <- <-|]. destruct (load_records (Some file)) as [[rs|]|] eqn:El; [|by injection E as <- <-|done].
  destruct (_ || bool_decide _); [by injection E as <- <-|]. injection E as <- <-.
  assert (Hb : bytes_ok file).
  { unfold snapshot_file in Ef. destruct H1 as [[H1 _] _]. destruct (st_prepared s1); [|done]. by rewrite Ef in H1. }
  destruct H1 as [_ H1]. split; [|done]. split; cbn; [|constructor]. apply compacted_typed. by eapply load_loop_typed.
Qed.

(** ** The feeds and the daemon *)
#[export] Instance typed_express : Typed ExpressFeedFrame := fun f => in_u 64 (ef_wal_offset f) /\ bytes_ok (ef_payload f).

#[export] Instance typed_trade : Typed TradeMetadata := fun t =>
  in_u 64 (tm_wal_offset t) /\ typed (tm_order_id t) /\ in_u 64 (tm_account t) /\ in_u 16 (tm_market t) /\
  in_i64 (tm_price t) /\ in_i64 (tm_quantity t) /\ in_i64 (tm_timestamp_ns t).

#[export] Instance typed_router : Typed ApiRouter := fun a =>
  typed (express_feed_frames a) /\ typed (trade_metadata a) /\
  in_u 64 (express_feed_capacity a) /\ in_u 64 (trade_metadata_capacity a).

#[export] Instance typed_context : Typed RestingOrderContext := fun c =>
  in_u 64 (rc_account c) /\ in_u 16 (rc_market c) /\ typed (rc_side c).

#[export] Instance typed_sample : Typed Sample := fun s => in_u 64 (smp_id s) /\ in_i64 (smp_value s).

#[export] Instance typed_histogram : Typed StreamingHistogram := fun h =>
  Forall (in_u 64) (hg_buckets h) /\ in_u 64 (hg_count h) /\ in_i64 (hg_sum h) /\ in_i64 (hg_min h) /\ in_i64 (hg_max h).

#[export] Instance typed_sink : Typed TelemetrySink := fun t => typed (sk_buffer t) /\ typed (sk_histograms t).

Lemma boot_telemetry_typed c : typed (boot_telemetry c).
Proof.
  assert (Hh : typed (sk_histograms new_sink)).
  { apply Forall_replicate. split; [apply Forall_replicate|]; by vm_compute. }
  unfold boot_telemetry. destruct (Config.tel_enabled c); (split; [|exact Hh]); repeat constructor; by vm_compute.
Qed.

#[export] Instance typed_daemon : Typed Daemon := fun d =>
  typed (dm_ingress d) /\ typed_engine (dm_matcher d) /\ typed (dm_risk d) /\ keyed 16 (dm_funding d) /\
  typed (dm_wal d) /\ typed (dm_snapshot d) /\ typed (dm_api d) /\ keyed 64 (dm_resting_orders d) /\
  in_u 16 (dm_default_market d) /\ in_u 64 (dm_chain_id d) /\ in_u 64 (dm_block_number d) /\
  in_u 64 (dm_last_snapshot_block d) /\ typed (dm_telemetry d).

Lemma evict_typed {T} `{Typed T} n (b : list T) : typed b -> typed (evict n b).
Proof. induction 1 as [|x b Hx Hb IH]; cbn; [constructor|]. destruct (_ >=? _); [done|by constructor]. Qed.

Lemma feed_typed {T} `{Typed T} n x (b : list T) : typed b -> typed x -> typed (push_with_fifo_eviction n x b).
Proof.
  intros. unfold push_with_fifo_eviction. destruct (_ =? 0); [done|]. apply Forall_app. split; [by apply evict_typed|].
  by constructor.
Qed.

Lemma set_core_typed e r w a rest d :
  typed d -> typed_engine e -> typed r -> typed w -> typed a -> keyed 64 rest -> typed (set_core e r w a rest d).
Proof. intros (? & _ & _ & ? & _ & ? & _ & _ & ?) **. by repeat match goal with |- _ /\ _ => split end. Qed.

Lemma set_ingress_typed p d : typed d -> typed p -> typed (set_ingress p d).
Proof. by intros (_ & ?) Hp. Qed.

Lemma set_matcher_typed e d : typed d -> typed_engine e -> typed (set_matcher e d).
Proof. intros Hd He. pose proof Hd as (? & ? & ? & ? & ? & ? & ? & ? & _). by apply set_core_typed. Qed.

Lemma set_resting_typed r d : typed d -> keyed 64 r -> typed (set_resting r d).
Proof. intros Hd He. pose proof Hd as (? & ? & ? & ? & ? & ? & ? & ? & _). by apply set_core_typed. Qed.

Lemma journal_typed f d : typed d -> typed f -> typed (journal f d).1 /\ in_u 64 (journal f d).2.
Proof.
  intros Hd Hf. pose proof Hd as (? & ? & ? & ? & Hw & ? & (Ha1 & Ha2 & Ha3) & ? & _).
  assert (Hp : bytes_ok (build_wal_payload f)).
  { unfold build_wal_payload, append_primitive. destruct Hf. eauto 10 with typed. }
  split; [|apply Hw]. apply set_core_typed; try done.
  - by apply append_typed.
  - split; [|done]. apply feed_typed; [done|]. split; [apply Hw|apply Hf].
Qed.

Lemma process_fill_typed taker off ts d fill :
  typed d -> typed taker -> in_u 64 off -> in_i64 ts -> typed fill -> typed (process_fill taker off ts d fill).
Proof.
  intros Hd (Hta & Htm & Hts) Ho Ht (Hf1 & Hf2 & Hf3 & Hf4).
  pose proof Hd as (? & ? & Hr & ? & ? & ? & (Ha1 & Ha2 & Ha3) & Hrest & _).
  unfold process_fill. apply set_core_typed; try done.
  - assert (Htf : typed (apply_fill (fill_context taker fill) (dm_risk d))) by (apply apply_fill_typed; [done|by repeat match goal with |- _ /\ _ => split end]).
    destruct (dm_resting_orders d !! _) as [maker|] eqn:Em; [|done]. apply apply_fill_typed; [done|].
    destruct (keyed_lookup 64 _ _ _ Hrest Em) as (? & ? & ?). by repeat match goal with |- _ /\ _ => split end.
  - split; [done|]. split; [|done]. apply feed_typed; [done|]. by repeat match goal with |- _ /\ _ => split end.
Qed.

Lemma process_fills_typed fills taker off ts : forall d,
  typed d -> typed fills -> typed taker -> in_u 64 off -> in_i64 ts -> typed (process_fills fills taker off ts d).
Proof.
  induction fills as [|f fills IH]; intros d Hd Hf Ht Ho Hts; [done|]. apply Forall_cons in Hf as [Hf Hfs].
  cbn. apply IH; try done. by apply process_fill_typed.
Qed.

(** ** The handlers *)
Lemma read_primitive_range n data o v o' :
  read_primitive n data o = Ok (v, o') -> bytes_ok data -> in_u (8 * Z.of_nat n) v.
Proof.
  unfold read_primitive. destruct (Nat.ltb_spec (length data) (o + n)) as [|Hl]; [done|]. intros [= <- _] Hd.
  assert (length (sub data o n) = n) as En by (unfold sub; rewrite length_take, length_drop; lia).
  rewrite <- En at 1. apply of_le_range. by apply bytes_sub.
Qed.

Lemma Side_of_u8_typed b : in_u 8 b -> side_ok (Side_of_u8 b).
Proof.
  intros H. unfold Side_of_u8. destruct (Z.eqb_spec b 0); [done|]. destruct (Z.eqb_spec b 1); [done|]. split; [done|range].
Qed.

Ltac decoded H Hd := repeat (match type of H with
  | context [read_primitive ?n ?d ?o] =>
      let E := fresh "E" in destruct (read_primitive n d o) as [[? ?]|] eqn:E; [|done]; cbn [mbind result_bind] in H;
      apply read_primitive_range in E; [|exact Hd]
  | context [require_size ?d ?n ?m] => destruct (require_size d n m); [|done]; cbn [mbind result_bind] in H
  end).

Lemma decode_new_order_typed data m : decode_new_order data = Ok m -> bytes_ok data -> new_order_ok m.
Proof.
  unfold decode_new_order. intros H Hd. decoded H Hd. injection H as <-.
  split; [by apply Side_of_u8_typed|]. split; [apply i64_range|]. split; [apply i64_range|done].
Qed.

Lemma decode_cancel_typed data m : decode_cancel data = Ok m -> bytes_ok data -> in_u 64 (cn_order_id m).
Proof. unfold decode_cancel. intros H Hd. decoded H Hd. by injection H as <-. Qed.

Lemma decode_replace_typed data m : decode_replace data = Ok m -> bytes_ok data -> replace_ok m.
Proof.
  unfold decode_replace. intros H Hd. decoded H Hd. injection H as <-.
  split; [done|]. split; [apply i64_range|]. split; [apply i64_range|done].
Qed.

Lemma handle_new_order_typed f d d' : handle_new_order f d = Some d' -> typed d -> typed f -> typed d'.
Proof.
  unfold handle_new_order, execute_new_order. intros E Hd Hf. destruct (journal_typed f d Hd Hf) as [Hj Ho].
  destruct (journal f d) as [d1 off]. cbn [fst snd] in *. pose proof Hf as [[Ha Hn Ht _ _] Hb].
  destruct (decode_new_order _) as [o|] eqn:Eo; [|by injection E as <-].
  apply decode_new_order_typed in Eo as (Hs & Hq & Hp & Hfl); [|done].
  pose proof Hj as (_ & Hm & _ & _ & _ & _ & _ & _ & Hdm & _).
  assert (Hid : typed (new_order_id d1 f)) by (split; [done|split; cbn; [apply u16_range|apply u32_range]]).
  destruct (rk_decision _); try (by injection E as <-).
  destruct (submit _ _) as [[e res]|] eqn:Es; [|done]. cbn [mbind option_bind] in E.
  apply submit_typed in Es as [He [_ Hfills]]; [|done|repeat (split; [done|]); done].
  assert (Hd2 : typed (set_matcher e d1)) by by apply set_matcher_typed.
  destruct (negb _); [by injection E as <-|]. injection E as <-.
  set (taker := mkContext _ _ _). assert (Hta : typed taker) by by split.
  set (d3 := process_fills _ _ _ _ _). assert (H3 : typed d3) by by apply process_fills_typed.
  clearbody d3. pose proof H3 as (_ & _ & _ & _ & _ & _ & _ & Hr & _).
  apply set_resting_typed; [done|]. destruct (or_resting res); [|by apply keyed_delete].
  apply keyed_insert; [done|by apply value_range|done].
Qed.

Lemma handle_cancel_typed f d d' : handle_cancel f d = Some d' -> typed d -> typed f -> typed d'.
Proof.
  unfold handle_cancel, execute_cancel. intros E Hd Hf. destruct (journal_typed f d Hd Hf) as [Hj Ho].
  destruct (journal f d) as [d1 off]. cbn [fst snd] in *.
  destruct (decode_cancel _) as [m|]; [|by injection E as <-].
  destruct (cancel _ _) as [[e res]|] eqn:Ec; [|done]. cbn [mbind option_bind] in E.
  pose proof Hj as (_ & Hm & _ & _ & _ & _ & _ & Hr & _).
  apply cancel_typed in Ec as [He _]; [|done|exact (decode_wf (cn_order_id m))].
  cbv zeta in E. apply (inj Some) in E as <-.
  assert (typed (set_matcher e d1)) by by apply set_matcher_typed.
  destruct (cr_cancelled res); [|done]. apply set_resting_typed; [done|by apply keyed_delete].
Qed.

Lemma handle_replace_typed f d d' : handle_replace f d = Some d' -> typed d -> typed f -> typed d'.
Proof.
  unfold handle_replace, execute_replace. intros E Hd Hf. destruct (journal_typed f d Hd Hf) as [Hj Ho].
  destruct (journal f d) as [d1 off]. cbn [fst snd] in *. pose proof Hf as [[Ha Hn Ht _ _] Hb].
  destruct (decode_replace _) as [m|] eqn:Em; [|by injection E as <-].
  apply decode_replace_typed in Em as (_ & Hq & Hp & Hfl); [|done].
  pose proof Hj as (_ & Hm & _ & _ & _ & _ & _ & Hr & _).
  set (taker := replace_taker _ _ _) in E.
  assert (Hta : typed taker).
  { apply (keyed_default 64); [exact Hr|]. split; [done|]. split; [exact (proj1 (decode_wf (rp_order_id m)))|done]. }
  destruct (Matcher.replace _ _) as [[e res]|] eqn:Er; [|done]. cbn [mbind option_bind] in E.
  apply replace_typed in Er as [He [_ Hfills]]; [|done|exact (conj (decode_wf (rp_order_id m)) (conj Hq (conj Hp (conj (i64_range 0) Hfl))))].
  assert (Hd2 : typed (set_matcher e d1)) by by apply set_matcher_typed.
  cbv zeta in E. apply (inj Some) in E as <-.
  set (d3 := if rr_accepted res then process_fills _ _ _ _ _ else _).
  assert (H3 : typed d3) by (unfold d3; destruct (rr_accepted res); [by apply process_fills_typed|done]).
  clearbody d3. pose proof H3 as (_ & _ & _ & _ & _ & _ & _ & Hr3 & _).
  destruct (_ && rr_resting res); [|destruct (_ && negb _); [|done]]; (apply set_resting_typed; [done|]);
    [apply keyed_insert; [done|exact (value_range _ (decode_wf (rp_order_id m)))|done]|by apply keyed_delete].
Qed.

Lemma handle_typed k f d d' : handle k f d = Some d' -> typed d -> typed f -> typed d'.
Proof.
  destruct k; [apply handle_new_order_typed|apply handle_cancel_typed|apply handle_replace_typed|by intros [= <-]].
Qed.

Lemma advance_block_typed n d d' r : advance_block n d = Some (d', r) -> typed d -> typed d'.
Proof.
  intros E Hd. unfold advance_block in E.
  assert (Hset : forall b l s, in_u 64 b -> in_u 64 l -> typed s -> typed (set_block b l s d)).
  { intros b l s ? ? ?. destruct Hd as (? & ? & ? & ? & ? & _ & ? & ? & ? & ? & _ & _ & ?).
    by repeat match goal with |- _ /\ _ => split end. }
  pose proof Hd as (_ & _ & _ & _ & _ & Hs & _ & _ & _ & _ & _ & Hl & _).
  destruct (_ >=? _); [|injection E as <- <-; apply Hset; [apply u64_range|done|done]].
  destruct (persist _ _ _) as [[s r']|] eqn:Ep; [|done]. cbn [mbind option_bind] in E.
  apply persist_typed in Ep; [|done|unfold snapshot_payload, append_primitive; eauto 8 with typed].
  destruct r'; injection E as <- <-; apply Hset; try done; apply u64_range.
Qed.

Lemma shutdown_typed d : typed d -> typed (shutdown d).
Proof.
  intros Hd. pose proof Hd as (? & ? & ? & ? & ? & ? & ? & ? & _). apply set_core_typed; try done. by apply flush_typed.
Qed.

(** ** The process *)
#[export] Instance typed_market_config : Typed Config.MarketConfig := fun m =>
  in_i64 (Config.contract_size (Config.mc_risk m)) /\
  in_i32 (Config.initial_margin_basis_points (Config.mc_risk m)) /\
  in_i32 (Config.maintenance_margin_basis_points (Config.mc_risk m)) /\
  in_i64 (Config.initial_mark_price (Config.mc_risk m)) /\
  in_i32 (Config.clamp_basis_points (Config.mc_funding m)) /\
  in_i64 (Config.max_rate_basis_points (Config.mc_funding m)).

#[export] Instance typed_config : Typed Config.EngineConfig := fun c =>
  typed (Config.markets c) /\ in_u 64 (Config.wal_flush_threshold (Config.persistence c)) /\
  in_u 64 (Config.new_order_queue_depth (Config.ingress c)) /\
  in_u 64 (Config.cancel_queue_depth (Config.ingress c)) /\
  in_u 64 (Config.replace_queue_depth (Config.ingress c)).

Lemma boot_ingress_typed cfg v p : boot_ingress cfg v = Ok p -> typed cfg -> typed p.
Proof.
  intros E (_ & _ & H1 & H2 & H3). unfold boot_ingress in E. destruct new_pipeline as [p0|]; [|done].
  cbn [mbind result_bind] in E. unfold configure in E.
  destruct (make_ring (new_order_queue_depth _)) as [n|] eqn:En; [|done]. cbn [mbind result_bind] in E.
  destruct (make_ring (cancel_queue_depth _)) as [c|] eqn:Ec; [|done]. cbn [mbind result_bind] in E.
  destruct (make_ring (replace_queue_depth _)) as [r|] eqn:Er; [|done]. injection E as <-.
  split; [repeat split; cbn; range|]. split; [apply keyed_empty|].
  split; [exact (make_ring_typed _ _ H1 En)|].
  split; [exact (make_ring_typed _ _ H2 Ec)|exact (make_ring_typed _ _ H3 Er)].
Qed.

Lemma boot_markets_typed ms : forall (s : Engine * RiskEngine * Funding.FundingEngine),
  typed ms -> typed_engine s.1.1 -> typed s.1.2 -> keyed 16 s.2 ->
  let s' := foldl (fun s m => boot_market m s) s ms in typed_engine s'.1.1 /\ typed s'.1.2 /\ keyed 16 s'.2.
Proof.
  induction ms as [|m ms IH]; intros [[e r] f] Hms He Hr Hf; cbn [fst snd] in *; [done|].
  apply Forall_cons in Hms as [(H1 & H2 & H3 & H4 & H5 & H6) Hms]. cbn [foldl]. apply IH; [done|..]; cbn [boot_market fst snd].
  - apply add_market_typed; [apply u16_range|done].
  - apply set_mark_price_typed; [|apply u16_range|done]. by apply configure_market_typed; [|apply u16_range|].
  - by apply configure_funding_typed; [|apply u16_range|].
Qed.

Lemma boot_typed cfg v file dir chain d :
  boot cfg v file dir chain = Some (Ok d) -> typed cfg -> bytes_ok file -> disk_typed dir -> in_u 64 chain -> typed d.
Proof.
  intros E Hc Hf Hd Hch. unfold boot in E. destruct (boot_ingress cfg v) as [p|] eqn:Ep; [|done].
  apply boot_ingress_typed in Ep; [|done]. pose proof Hc as (Hms & Hthr & _).
  pose proof (boot_markets_typed (Config.markets cfg) (∅, new_risk, ∅) Hms (keyed_empty 16)
    (conj (keyed_empty 64) (keyed_empty 16)) (keyed_empty 16)) as Hb. cbv zeta in Hb.
  destruct (foldl _ _ _) as [[e r] f]. cbn [fst snd] in Hb. destruct Hb as (He & Hr & Hfu).
  unfold open_writer in E. destruct (read_all file) as [[recs|]|]; [|done..]. injection E as <-.
  split; [done|]. split; [done|]. split; [done|]. split; [done|]. split.
  { split; [done|]. split; [constructor|]. split; [done|]. exact (next_after_range recs). }
  split; [split; [done|by vm_compute]|]. split; [split; [constructor|split; [constructor|by vm_compute]]|].
  split; [apply keyed_empty|].
  split; [|split; [done|split; [by vm_compute|split; [by vm_compute|apply boot_telemetry_typed]]]].
  unfold default_market_of. destruct (Config.markets cfg); [by vm_compute|apply u16_range].
Qed.

Lemma digit_of_nonneg c : 0 <= digit_of c.
Proof.
  unfold digit_of. set (n := Z.of_nat _). destruct (Z.leb_spec 48 n), (Z.leb_spec n 57), (Z.leb_spec 97 n), (Z.leb_spec n 122),
    (Z.leb_spec 65 n), (Z.leb_spec n 90); cbn [andb]; lia.
Qed.

Lemma scan_digits_nonneg base s : forall acc seen, 0 <= base -> 0 <= acc -> 0 <= (scan_digits base s acc seen).1.
Proof.
  induction s as [|c s IH]; intros acc seen Hb Ha; cbn; [done|]. destruct (_ <? _); [|done].
  apply IH; [done|]. pose proof (digit_of_nonneg c). nia.
Qed.

Lemma detect_base_nonneg s : 0 <= (detect_base s).1.
Proof.
  unfold detect_base. destruct s as [|z s]; [done|]. destruct s as [|x s]; [by destruct (is_char 48 z)|].
  destruct s as [|d s]; [by destruct (is_char 48 z)|]. destruct (_ && _); [done|]. by destruct (is_char 48 z).
Qed.

Lemma stoull_range s v : stoull s = Ok v -> in_u 64 v.
Proof.
  unfold stoull. destruct (take_sign _) as [negative s1]. pose proof (detect_base_nonneg s1) as Hb.
  destruct (detect_base s1) as [base s2]. pose proof (scan_digits_nonneg base s2 0 false Hb ltac:(lia)) as Hs.
  destruct (scan_digits base s2 0 false) as [n seen]. cbn [fst] in *. destruct (negb seen); [done|].
  destruct (Z.gtb_spec n (2 ^ 64 - 1)); [done|]. destruct negative; intros [= <-]; [apply u64_range|range].
Qed.

Lemma loop_step_typed now s s' : loop_step now s = Some s' -> typed (pr_daemon s) -> typed (pr_daemon s').
Proof.
  unfold loop_step. intros E Hd. destruct (pr_phase s) as [|k n|n| | |code].
  - apply (inj Some) in E as <-. by destruct (pr_shutdown s).
  - destruct (next_frame k _) as [[p o]|] eqn:En; [|done]. cbn [mbind option_bind] in E.
    apply next_frame_typed in En as [Hp Ho]; [|apply Hd]. pose proof (set_ingress_typed p _ Hd Hp) as Hd1.
    destruct o as [f|]; [|by apply (inj Some) in E as <-].
    destruct (handle k f _) as [d|] eqn:Eh; [|done]. cbn [mbind option_bind] in E. apply (inj Some) in E as <-.
    by apply handle_typed in Eh.
  - destruct (_ >? 0); [|by apply (inj Some) in E as <-].
    destruct (advance_block n _) as [[d r]|] eqn:Ea; [|done]. cbn [mbind option_bind] in E. apply (inj Some) in E as <-.
    by apply advance_block_typed in Ea.
  - apply (inj Some) in E as <-. change (typed (pr_daemon (report_status now s))). by rewrite (proj1 (report_status_spec now s)).
  - apply (inj Some) in E as <-. unfold stop_process. destruct (quic_stop _ _) as [q fds]. by apply shutdown_typed.
  - by apply (inj Some) in E as <-.
Qed.

Lemma process_run_typed dep v ls : forall q s s',
  live dep v q s -> typed (pr_daemon s) -> Forall label_ok ls -> process_run ls s = Some s' -> typed (pr_daemon s').
Proof.
  induction ls as [|l ls IH]; intros q s s' Hl Hd Hls E; [by injection E as <-|]. apply Forall_cons in Hls as [Hlo Hls].
  cbn [process_run] in E. destruct (process_step_moves dep v l q s Hl) as (q1 & s1 & E1 & Hl1 & _). rewrite E1 in E.
  apply (IH q1 s1); [done| |done|done]. unfold process_step in E1. destruct (exit_code s) eqn:Hc; [by injection E1 as <-|].
  destruct l as [r| |now]; [..|by eapply loop_step_typed].
  - injection E1 as <-. unfold receive. pose proof (lv_transport _ _ _ _ Hl) as Ht. rewrite Hc in Ht.
    destruct (receive_rel r _ _ _ (dm_ingress (pr_daemon s)) Ht) as (t & -> & _). cbn [pr_daemon].
    apply set_ingress_typed; [done|]. apply receive_typed; [apply Hd|done].
  - by injection E1 as <-.
Qed.

Lemma encode_log_bytes log : Forall record_ok log -> bytes_ok (encode_log log).
Proof.
  unfold encode_log. induction 1 as [|r log Hr Hlog IH]; [constructor|]. cbn [map concat].
  apply bytes_app; [|done]. apply bytes_app; [apply header_bytes_ok|apply Hr].
Qed.

(** No value leaves its type: a check of the translation, whose definitions write
    every conversion out.  Launched with a configuration whose fields
    fit their types, on files that hold bytes: under every interleaving, every
    integer the daemon keeps, in its queues, rate windows, books, orders, accounts,
    positions, funding state, log, snapshots, feeds and counters, is in the range of
    the type that the source declares for it. *)
Theorem values_stay_typed `{Config.TomlLibrary} verify env cfg a p log ls :
  launchable verify env cfg a p log -> typed cfg ->
  disk_typed (env_snapshots env (Config.snapshot_dir (Config.persistence cfg))) -> Forall label_ok ls ->
  exists s, main verify env ls = Some (mkFinished (exit_code s) (pr_console s) (Some s)) /\ typed (pr_daemon s).
Proof.
  intros Hl Hc Hd Hls.
  destruct (main_enters_loop verify env cfg a p log Hl) as (s0 & Hm & Hlive & _ & _ & _ & id & Hid & Hb).
  destruct (process_run_spec _ _ ls _ s0 Hlive) as (q & s & Er & _).
  exists s. rewrite Hm. unfold run_process. rewrite Er. split; [done|].
  refine (process_run_typed _ _ ls _ _ _ Hlive _ Hls Er). apply boot_typed in Hb; [exact Hb|exact Hc| |exact Hd|].
  - destruct Hl as [_ _ _ _ _ _ [Hlog _] _ _ _]. by apply encode_log_bytes.
  - unfold chain_id_of in Hid. destruct (env_chain_id env) as [text|]; [by apply stoull_range in Hid|by injection Hid as <-].
Qed.

Lemma demo_config_typed : typed DemoLaunch.cfg.
Proof.
  unfold typed, typed_config. split_and!; [|by vm_compute..].
  replace (Config.markets DemoLaunch.cfg) with [Config.mkMarketConfig 1 "BTC-PERP"
    (Config.mkMarketRisk 1 500 300 100000) (Config.mkMarketFunding 50 100)] by by vm_compute.
  constructor; [|constructor]. unfold typed, typed_market_config. cbn. split_and!; by vm_compute.
Qed.

Lemma values_stay_typed_witness :
  exists s, main (H := Config.Toml.library) toy_verify DemoLaunch.env DemoLaunch.labels =
    Some (mkFinished (exit_code s) (pr_console s) (Some s)) /\ typed (pr_daemon s).
Proof.
  apply (values_stay_typed (H := Config.Toml.library) toy_verify DemoLaunch.env DemoLaunch.cfg
    DemoLaunch.authenticator DemoLaunch.pipeline [] DemoLaunch.labels DemoLaunch.launch).
  - exact demo_config_typed.
  - by split.
  - apply DemoLaunch.labels_by_check. by vm_compute.
Defined.
