(* ===== verification/UnitTests.v ===== *)
(** * The unit tests, run on the model

    [tests/unit]: every test function of the repository as a computation on the
    definitions of this library, one [&&] per [assert].  [None] is a call that is
    undefined, runs out of turns or throws where the test does not catch it.  The
    tests of the program are tests of the translation: a definition that departs
    from the code on their inputs fails here. *)
From S2P Require Import Telemetry.
From S2P Require Import Prelude Types Bytes Matcher Risk FundingLedger SpscRing Sbe Ingest Wal Snapshot Replay Api.

(** A result that is not caught. *)
Definition uncaught {A} (r : result A) : option A := match r with Ok x => Some x | Throw _ => None end.

(** [catch (const std::runtime_error&)]. *)
Definition threw {A} (r : result A) : bool := match r with Throw _ => true | Ok _ => false end.

(** ** test_api.cpp *)
Definition found (needle : string) (text : string) : bool :=
  match String.index 0 needle text with Some _ => true | None => false end.

Definition test_provider (block : Z) : NodeStateProvider :=
  mkProvider (Some 8453) (Some block) (Some 3) (Some true).

Definition test_api_router : bool :=
  let router := register_endpoint "/orders" (register_endpoint "/orders" (new_router 4096 4096)) in
  let at_42 := set_node_state_provider (test_provider 42) router in
  let node_status := rpc_result "monmouth_nodeStatus" at_42 in
  let at_255 := set_node_state_provider (test_provider 255) router in
  let bounded := foldl (fun a n => push_express_feed_frame (mkExpressFrame n []) a) (new_router 2 2) [1; 2; 3] in
  let bounded := foldl (fun a n => push_trade_metadata (mkTradeMetadata n (mkOrderId 0 0 0) 0 0 0 0 0) a)
                   bounded [7; 8; 9] in
  has_endpoint "/orders" router && (endpoint_count router =? 1) &&
  bool_decide (rpc_result "eth_chainId" at_42 = "0x2105"%string) &&
  bool_decide (rpc_result "eth_blockNumber" at_42 = "0x2a"%string) &&
  found (quoted "chainId" +:+ ":" +:+ quoted "0x2105") node_status &&
  found (quoted "blockNumber" +:+ ":" +:+ quoted "0x2a") node_status &&
  found (quoted "peerConnections" +:+ ":3") node_status &&
  bool_decide (rpc_result "eth_blockNumber" at_255 = "0xff"%string) &&
  found "method not found" (rpc_result "unknown_method" at_255) &&
  bool_decide (map ef_wal_offset (get_express_feed_frames 0 bounded) = [2; 3]) &&
  (trade_metadata_count bounded =? 2) &&
  bool_decide (map tm_wal_offset (get_trade_metadata 8 bounded) = [8; 9]).

(** ** test_ledger.cpp *)
Definition test_ledger_credit_debit : bool :=
  let account := Ledger.get 7 (Ledger.debit 7 10 (Ledger.credit 7 100 ∅)) in
  (Ledger.collateral_available account =? 90) && (Ledger.collateral_locked account =? 10).

(** ** test_risk.cpp *)
Definition test_risk : RiskEngine :=
  credit_collateral 1001 30000 (set_mark_price 1 1000 (configure_market 1 (mkRiskConfig 1 500 300) new_risk)).

Definition test_fill : FillContext := mkFillContext 1001 1 kBuy 400 1000.

Definition test_risk_engine : bool :=
  let open_eval := evaluate_order test_risk (mkIntent 1001 1 kBuy 400 1000 false) in
  let risk := set_mark_price 1 960 (apply_fill test_fill test_risk) in
  let reduce_eval := evaluate_order risk (mkIntent 1001 1 kBuy 10 950 true) in
  bool_decide (rk_decision open_eval = kAccepted) && bool_decide (rk_decision reduce_eval = kRejectedReduceOnly).

Definition test_liquidation : bool :=
  let risk := apply_fill test_fill test_risk in
  bool_decide (lq_status (evaluate (set_mark_price 1 960 risk) 1001) = kNeedsPartial) &&
  bool_decide (lq_status (evaluate (set_mark_price 1 900 risk) 1001) = kNeedsFull).

(** ** test_telemetry.cpp *)
Definition test_telemetry_sink : bool :=
  let sink := record_latency 1 200 (record_latency 1 100 (Telemetry.increment 1 2 (Telemetry.push (mkSample 1 99) new_sink))) in
  let '(sink, samples) := drain sink in
  let '(sink, latency) := drain_latency sink in
  (Z.of_nat (length samples) =? 2) && match latency with [] => false | l :: _ => sm_count l =? 2 end.

(** ** test_ingest.cpp *)
Definition test_pipeline (c : Ingest.Config) : option IngressPipeline :=
  p ← uncaught new_pipeline; uncaught (Ingest.configure c None p).

Definition two_per_second : Ingest.Config := mkIngressConfig 4096 4096 4096 2 20000 20000.

Definition sbe_new : NewOrder := mkNewOrder kBuy 5 1000 0.

Definition test_frame (nonce : Z) (kind : MessageKind) (payload : bytes) : Frame :=
  mkFrame (mkHeader 9 nonce 0 0 kind) payload.

Definition test_ingress_pipeline : option bool :=
  p ← test_pipeline two_per_second;
  let '(p, submitted) := submit_frame (test_frame 1 kNewOrder (encode_new_order sbe_new)) p in
  '(p, dequeued) ← next_new_order p;
  frame ← dequeued;
  decoded ← uncaught (decode_new_order (fr_payload frame));
  Some (submitted && (no_quantity decoded =? no_quantity sbe_new)).

Definition test_cancel_message : option bool :=
  p ← test_pipeline Ingest.default_config;
  let '(p, submitted) := submit_frame (test_frame 2 kCancel (encode_cancel (mkCancelMsg 42))) p in
  '(p, dequeued) ← next_cancel p;
  frame ← dequeued;
  decoded ← uncaught (decode_cancel (fr_payload frame));
  Some (submitted && (cn_order_id decoded =? 42)).

Definition test_heartbeat_dropped : option bool :=
  p ← test_pipeline Ingest.default_config;
  let '(p, submitted) := submit_frame (test_frame 3 kHeartbeat []) p in
  Some (submitted && (dropped_heartbeats (stats p) =? 1)).

Definition test_rate_limiting : option bool :=
  p ← test_pipeline two_per_second;
  let '(p, first) := submit_frame (test_frame 1 kNewOrder (encode_new_order sbe_new)) p in
  let '(p, second) := submit_frame (test_frame 2 kNewOrder (encode_new_order sbe_new)) p in
  let '(p, third) := submit_frame (test_frame 3 kNewOrder (encode_new_order sbe_new)) p in
  Some (first && second && negb third && (rejected_rate_limit (stats p) =? 1)).

Definition test_sbe_decode_bounds : bool :=
  threw (decode_new_order (replicate (kNewOrderEncodedSize - 1) 0)) &&
  threw (decode_cancel (replicate (kCancelEncodedSize - 1) 0)) &&
  threw (decode_replace (replicate (kReplaceEncodedSize - 1) 0)).

(** ** test_funding.cpp *)
Definition test_funding_engine : bool :=
  let '(funding, snapshot) :=
    Funding.update_market 1 1000 1020 1 (Funding.configure_funding 1 (Funding.mkConfig 50 100) ∅) in
  (Funding.fs_mark_price snapshot =? 1005) && (Funding.fs_premium_rate snapshot =? 50) &&
  (Funding.accumulated_funding 1 funding =? 50).

(** ** test_matcher.cpp *)
Definition test_id (local : Z) : OrderId := mkOrderId 1 1 local.

Definition test_order (local account : Z) (side : Side) (quantity price display : Z) (tif : TimeInForce) (flags : Z)
    : OrderRequest :=
  mkRequest (test_id local) account side quantity price display tif flags.

Definition test_matcher : Engine := add_market 1 ∅.

(** The quantities of the fills, with the local part of the maker's id. *)
Definition fills_of (r : OrderResult) : list (Z * Z) :=
  map (fun f => (id_local (fill_maker_order f), fill_quantity f)) (or_fills r).

Definition test_matching_engine : option bool :=
  '(m, maker_res) ← submit (test_order 1 1001 kSell 5 1000 0 kGtc kFlagsNone) test_matcher;
  '(m, taker_res) ← submit (test_order 2 1002 kBuy 3 1100 0 kIoc kFlagsNone) m;
  '(m, cancel_res) ← cancel (mkCancel (test_id 1)) m;
  Some (or_accepted maker_res && or_resting maker_res &&
        or_accepted taker_res && negb (or_resting taker_res) &&
        match or_fills taker_res with [] => false | f :: _ => fill_quantity f =? 3 end &&
        cr_cancelled cancel_res).

Definition test_hidden_orders : option bool :=
  '(m, hidden_res) ← submit (test_order 10 2001 kSell 100 1000 0 kGtc kHidden) test_matcher;
  '(m, visible_res) ← submit (test_order 11 2002 kSell 50 1000 0 kGtc kFlagsNone) m;
  '(m, taker_res) ← submit (test_order 12 2003 kBuy 120 1000 0 kIoc kFlagsNone) m;
  Some (or_accepted hidden_res && or_resting hidden_res && or_accepted visible_res && or_resting visible_res &&
        or_accepted taker_res && bool_decide (fills_of taker_res = [(10, 100); (11, 20)])).

Definition test_iceberg_orders : option bool :=
  '(m, iceberg_res) ← submit (test_order 20 3001 kSell 100 1000 25 kGtc kIceberg) test_matcher;
  '(m, taker1_res) ← submit (test_order 21 3002 kBuy 30 1000 0 kIoc kFlagsNone) m;
  '(m, taker2_res) ← submit (test_order 22 3003 kBuy 50 1000 0 kIoc kFlagsNone) m;
  '(m, taker3_res) ← submit (test_order 23 3004 kBuy 30 1000 0 kIoc kFlagsNone) m;
  Some (or_accepted iceberg_res && or_resting iceberg_res &&
        or_accepted taker1_res && bool_decide (map fill_quantity (or_fills taker1_res) = [30]) &&
        or_accepted taker2_res && bool_decide (map fill_quantity (or_fills taker2_res) = [50]) &&
        or_accepted taker3_res && bool_decide (map fill_quantity (or_fills taker3_res) = [20])).

Definition test_iceberg_validation : option bool :=
  '(m, invalid1_res) ← submit (test_order 30 4001 kSell 100 1000 0 kGtc kIceberg) test_matcher;
  '(m, invalid2_res) ← submit (test_order 31 4002 kSell 100 1000 150 kGtc kIceberg) m;
  Some (negb (or_accepted invalid1_res) && negb (or_reject_code invalid1_res =? 0) &&
        negb (or_accepted invalid2_res) && negb (or_reject_code invalid2_res =? 0)).

(** ** test_persistence.cpp *)

(** A store on a directory. *)
Definition test_store (directory : Disk) (o : StoreOptions) : Store := prepare (mkStore false directory o).

(** The directory and the log that [write_fixture] leaves; [writer] is destroyed at
    the end, with nothing left to flush. *)
Definition write_fixture : option (Disk * bytes) :=
  '(snapshot_store, r) ← persist 0 (to_le 8 42) (test_store (mkDisk None None) default_options);
  _ ← uncaught r;
  w ← open_writer [] 128;
  writer ← uncaught w;
  Some (st_disk snapshot_store, wt_file (sync (append 0 (to_le 4 (-5)) (append 0 (to_le 4 10) writer)))).

(** The balance, and whether the assertions in the handlers held. *)
Definition on_snapshot (p : Z * bytes) (s : Z * bool) : (Z * bool) * result unit :=
  ((i64 (of_le (sub p.2 0 8)), s.2 && (p.1 =? 0) && (length p.2 =? 8)%nat), Ok ()).

Definition on_event (record : WalRecord) (s : Z * bool) : (Z * bool) * result unit :=
  let delta := match wr_payload record with [] => 0 | p => i32 (of_le (sub p 0 4)) end in
  ((i64 (s.1 + delta), s.2), Ok ()).

Definition replay_balance_from_fixture (tmp_root : Disk) (wal : bytes) : option Z :=
  let driver := set_event_handler on_event (set_snapshot_handler on_snapshot (configure tmp_root (Some wal) new_driver)) in
  '(balance, asserted, r) ← execute driver (0, true);
  _ ← uncaught r;
  if (asserted : bool) then Some balance else None.

Definition test_persistence_replay : option bool :=
  '(tmp_root, wal) ← write_fixture;
  found ← latest (test_store tmp_root default_options);
  found ← uncaught found;
  snap ← found;
  replay_balance ← replay_balance_from_fixture tmp_root wal;
  Some ((sr_sequence snap =? 0) && (replay_balance =? 47)).

Definition test_persistence_replay_determinism : option bool :=
  '(tmp_root, wal) ← write_fixture;
  first ← replay_balance_from_fixture tmp_root wal;
  second ← replay_balance_from_fixture tmp_root wal;
  Some ((first =? second) && (first =? 47)).

(** The loop that persists the sequences one after the other. *)
Fixpoint persist_all (sequences : list Z) (store : Store) : option Store :=
  match sequences with
  | [] => Some store
  | seq :: sequences =>
      '(store, r) ← persist seq (to_le 4 seq) store; _ ← uncaught r; persist_all sequences store
  end.

(** The last byte of a file with its lowest bit changed. *)
Definition damage_last (file : bytes) : bytes :=
  match last file with Some trailing => removelast file ++ [Z.lxor trailing 1] | None => file end.

Definition test_snapshot_compaction_and_integrity : option bool :=
  store ← persist_all [1; 2; 3; 4; 5] (test_store (mkDisk None None) (mkOptions 3 0));
  count ← record_count store;
  count ← uncaught count;
  found ← latest store;
  found ← uncaught found;
  snap ← found;
  file ← dk_snapshot (st_disk store);
  damaged ← latest (set_disk (mkDisk (Some (damage_last file)) (dk_tmp (st_disk store))) store);
  Some ((count =? 3) && (sr_sequence snap =? 5) && (of_le (sub (sr_payload snap) 0 4) =? 5) && threw damaged).

(** ** main.cpp: every test passes *)
Example unit_tests_pass :
  test_api_router && test_ledger_credit_debit && test_risk_engine && test_liquidation && test_telemetry_sink &&
  test_sbe_decode_bounds && test_funding_engine = true /\
  Forall (fun test => test = Some true)
    [test_ingress_pipeline; test_cancel_message; test_heartbeat_dropped; test_rate_limiting;
     test_matching_engine; test_hidden_orders; test_iceberg_orders; test_iceberg_validation;
     test_persistence_replay; test_persistence_replay_determinism; test_snapshot_compaction_and_integrity].
Proof. split; [by vm_compute|]. by repeat constructor; vm_compute. Qed.
